(* ===== verification/_CoqProject ===== *)
-Q . S2P
Prelude.v
Prog.v
TrTypes.v
Kernel.v
TrfsH.v
Lookup.v
Trdump.v
Inode.v
FileOps.v
Super.v
Mount.v
TrIoctl.v
Tables.v
User.v
Trctl.v
Treplay.v
Ledger.v
TrdumpSpec.v
Demo.v
LogThms.v
UserSpec.v
TreplaySpec.v
ReplayThms.v
EndToEnd.v
HandlerSpec.v
HandlerThms.v
IoctlThms.v
TrctlThms.v
Control.v
MountThms.v
LookupThms.v
FileThms.v
TableThms.v
InodeThms.v
AttrThms.v
SymlinkThms.v
ModuleThms.v
Concur.v
Actions.v
Interleave.v
Requests.v
RequestSpec.v
RequestThms.v
Live.v
Through.v
Conserve.v
Ready.v
Served.v
Life.v
Inodes.v
MountLife.v
