(* ===== verification/Prelude.v ===== *)
(** * TRFS: verification of the tracing file system

    ** The program

    [trfs] is a stackable file system for Linux, derived from wrapfs: a mount
    covers a directory of another file system, passes every operation on to it,
    and appends a record of some of them to a log file.  A character device
    sets, per mount, which operations are logged; a user tool, [trctl], speaks to
    the device; another, [treplay], reads a log and performs its operations again.

    The kernel module is a set of handlers that the VFS calls through tables.
    Each keeps to one scheme: find the lower objects through the private data
    that hangs on the upper ones, take references and locks, call the lower file
    system, refresh the upper inode, log, release.  What the parts share is the
    private data of the mounted super block ([trfs_sb_info]: the lower super
    block, the log file, the mask, a page in which records are put together, and
    the mutex under which this is done) and the record counter, one for all mounts.

    ** The model

    A handler, or a run of a tool, is a value of [Prog.prog]: it returns, fails,
    calls its environment or reads and changes memory.  [run] gives the outcome
    in an environment, a function from the history of calls and answers to the
    next answer; [wp] is the weakest precondition over all environments whose
    answers a predicate allows.  What the program owns is memory ([TrfsH.kmem],
    [User.umem]); Linux, the C library and the lower file system are the
    environment.  Dereferences of NULL, of error pointers and of freed objects,
    accesses out of bounds, [BUG_ON] and reads of uninitialised variables are
    faults ([died]), never assumed away.  Machine integers are [Z] with
    their conversions written out ([int32], [short], [uint64]...).

    ** Files, and what of the sources they model

    - [Prelude]: integers, bytes, C strings, lists.  [Prog]: programs, [run], [wp].
    - [TrTypes] ([trfs/tr_types.h]): operation codes, the record, its bytes.
    - [Kernel]: the kernel functions and fields that the module uses, as calls.
    - [TrfsH] ([trfs/trfs.h]): private structures and inline helpers.
    - [Trdump] ([trfs/trdump.c]): [fill_record], [append_record]; [log_op] is the
      block that every logging handler repeats, [log_locked] its critical section.
    - [Lookup] ([trfs/lookup.c]), [Inode] ([trfs/inode.c]), [FileOps]
      ([trfs/file.c], [trfs/mmap.c]), [Super] ([trfs/super.c], [trfs/dentry.c]),
      [Mount] ([trfs/main.c]), [TrIoctl] ([hw2/tr_ioctl.c], [hw2/tr_ioctl.h]):
      every function of these files, under its own name.  Error labels are
      functions that fall into each other ([out_sput] calls [out_fsp_free]...).
    - [Tables]: the tables of operations, that is which handler the VFS calls.
    - [User]: the system calls and C library as the tools see them.
    - [Trctl] ([hw2/trctl.c]), [Treplay] ([hw2/treplay.c]): the two tools.
      [main] of the replay tool is cut at its loops and its switch.

    ** What the theorems show

    - Logging ([TrdumpSpec], [LogThms]): [log_op] finishes whatever the kernel
      answers, adds the encoding of one record if the mask selects it, and
      pairs its mutex.  The inputs on which it fails are characterised: what a
      write of any length leaves in the log when its record is larger than a
      [short] can say, and that one of nothing or of a multiple of 64 KiB
      dies; and the pages it loses.
    - Handlers ([HandlerSpec], [HandlerThms], [FileThms], [SymlinkThms],
      [AttrThms], [InodeThms], [LookupThms]): one operation on the lower file
      system, on the right lower objects and with the right locks; after it,
      call by call, what its answer leads to (the new inode interposed, link
      counts and attributes refreshed: [made_then], [linked_then],
      [unlinked_then], [removed_then], [renamed_then]); every lock and every
      reference to a dentry, mount or file given back in every branch ([balanced],
      which does not count the pages of the log or references to inodes); one
      record.
    - Mounting, loading, the device ([MountThms], [ModuleThms], [IoctlThms]):
      every ending of a mount, its clean-up included (which dies on some
      paths); what is taken is given back; the mask that is set is the mask that
      is read, and the one logging obeys.
    - Tables ([TableThms]): all methods but eight write nothing to any log, and of
      them only [trfs_put_super] removes a file, the log of its mount.
    - Tools ([UserSpec], [TreplaySpec], [ReplayThms], [TrctlThms]): [treplay]
      performs the operations of the records it reads, in order; with [-n] it only
      shows them; with [-s] it stops at the first failure (all this on logs of
      whole chunks); there are logs on which it reads beyond its buffer.  [trctl] accepts exactly
      the masks of [mask_arg_spec], and what it prints it would accept.
    - All together ([EndToEnd]): operations leave a log, and replaying the log
      performs the operations; a write of one certain length leaves a log on
      which the tool never ends ([write_loops]).  From [trctl] to the log ([Control]): the mask a
      user asks for is the one the device stores and the handlers obey.
    - Concurrency ([Concur], [Actions], [Interleave], [Requests], [RequestSpec],
      [RequestThms]): the same for handlers that run at the same time.
    - The life of private data ([Live], [Ready], [Life]): an abstract state
      (which dentries and files are in use, and on what), what memory and the
      references held have to do with it, and that every sequence of [ready]
      requests, of all those in the tables of operations, ends and keeps this so;
      from a mount to its unmounting ([MountLife]).  A request is ready if it is
      [expected], made as the VFS makes it, and [spared], not one of the inputs
      on which the sources die or lose a reference: data or a path that does
      not fit the record, a symbolic link that the lower file system refuses, a
      link target that fills a page, a file handle whose inode is not in
      memory, a command that names another file system.  What happens on these
      is the subject of other theorems and of the findings.
    - References to inodes ([Inodes]): what [igrab], [iget5_locked], [iput] and
      [d_splice_alias] leave over is one reference to its lower inode for every
      upper inode that is set up and not evicted, plus [slips], the count of
      the two cases in which [trfs_iget] miscounts; mounting and all ready requests but
      [NfsGetInode], which keeps what [ilookup] took, keep it so, and unmounting
      ([MountLife.umount], which stands for what the VFS does, and evicts the
      inodes that are left) brings it down to the slips.
    - What passes through ([Through], [Conserve], [Served]): the requests that are
      not logged, as programs on the lower objects, and that the handlers ask and
      answer what these do.
    [Ledger] holds the resources and the documented behaviour of the kernel,
    [Demo] a concrete kernel for the witnesses.

    ** Assumptions

    [Ledger.kernel_ok w] is what the kernel documents, as far as it is used: which
    functions answer NULL, error pointers or objects, ranges of error codes and
    of byte counts, and that the inode, super block and path of an object ([w]) do
    not change.  [resourceful], where a theorem says that something
    reached the log, adds that pages are to be had and writes complete.
    [User.user_ok] is the same for the tools.  Theorems about one handler
    assume private data in place ([mounted], [has_lower], [has_file]), which
    the theorems about mounting, lookup and opening establish.

    [objects_ok], in [Conserve], says that open files, mappings and inodes have
    tables of methods, and that the lower file system has the methods for memory
    mapping (which the code does not look for); [careful_alloc] that an object
    in use is not handed out again.  [inodes_ok], in [Inodes], says that the
    kernel gives an inode out as new once until it is cleared, and not the memory
    of one that is set up; it may lack memory for inodes, and lower inodes may be
    going away.

    The record counter and the log position are followed exactly.  The tool
    reads a log in chunks of 16 KiB, and reads beyond its buffer when a record
    crosses the end of a chunk ([replay_straddle]): its theorems are about
    logs that are whole chunks of records, and those from operations to replay
    about logs of one chunk.

    Concurrency: a step of a configuration is one call or one memory access of
    one thread; a thread that asks for the logging mutex waits while it is taken.
    Other locks of the kernel do not block in the model, which only adds
    executions.  One mount; mounting and unmounting take place before and after;
    the paths of dentries do not change meanwhile ([serving_ok]).

    ** Bounds and fuel

    Only the loops of [treplay] are not structural: they take fuel, one unit per
    iteration.  Its theorems ask for as much as the log has records and chunks,
    so that the tool ends; on the log of [write_loops] it ends with no fuel.

    ** Not modelled, and why

    - [printk], [perror] and debugging output: nothing depends on them.
    - [Kconfig], makefiles, the kernel configuration, the install script, the
      README: not code that runs.
    - Functions of the kernel's library that take handlers of this module
      ([mount_nodev], [generic_fh_to_dentry]) are parameters; [getopt]'s answers
      are an argument of the tools.
    - Addresses of tables are arbitrary distinct constants; a field that does
      not change is read once where the C text reads it twice; the hash of a name and
      the contents of user buffers are not there.

    ** Plan

    Next: several mounts that log at the same time and share the record counter;
    the pages that records keep, as part of the books. *)

From Stdlib Require Export ZArith Lia.
From stdpp Require Export base tactics list gmap strings.

#[global] Open Scope Z_scope.

Create HintDb trfs.
Create Rewrite HintDb cint.

(** ** Machine integers *)

(** Kernel and user pointers are 64-bit unsigned values; [0] is [NULL]. *)
Abbreviation ptr := Z (only parsing).
(** A byte is an integer in [0, 256). *)
Abbreviation bytes := (list Z) (only parsing).

(** Unsigned and two's-complement reading of the low [w] bits of a value. *)
Definition wrap (w z : Z) : Z := z mod 2 ^ w.
Definition swrap (w z : Z) : Z := (z + 2 ^ (w - 1)) mod 2 ^ w - 2 ^ (w - 1).

(** The C conversions the sources perform. *)
Definition uint32 : Z -> Z := wrap 32.
Definition uint64 : Z -> Z := wrap 64.
Definition short : Z -> Z := swrap 16.
Definition int32 : Z -> Z := swrap 32.
Definition int64 : Z -> Z := swrap 64.

Lemma wrap_range w z : 0 < w -> 0 <= wrap w z < 2 ^ w.
Proof. intros Hw. apply Z.mod_pos_bound. apply Z.pow_pos_nonneg; lia. Qed.

Lemma wrap_id w z : 0 <= z < 2 ^ w -> wrap w z = z.
Proof. intros Hz. apply Z.mod_small. exact Hz. Qed.

Lemma pow2_half w : 0 < w -> 2 ^ w = 2 * 2 ^ (w - 1).
Proof. intros Hw. rewrite <- Z.pow_succ_r by lia. f_equal; lia. Qed.

Lemma swrap_range w z : 0 < w -> - 2 ^ (w - 1) <= swrap w z < 2 ^ (w - 1).
Proof.
  intros Hw. unfold swrap.
  pose proof (pow2_half w Hw) as E.
  assert (0 < 2 ^ (w - 1)) by (apply Z.pow_pos_nonneg; lia).
  pose proof (Z.mod_pos_bound (z + 2 ^ (w - 1)) (2 ^ w)). lia.
Qed.

Lemma swrap_id w z : 0 < w -> - 2 ^ (w - 1) <= z < 2 ^ (w - 1) -> swrap w z = z.
Proof.
  intros Hw Hz. unfold swrap. pose proof (pow2_half w Hw) as E.
  rewrite Z.mod_small; lia.
Qed.

(** Adding before or after a signed truncation makes no difference to a
    second truncation. *)
Lemma swrap_add w a b : 0 < w -> swrap w (swrap w a + b) = swrap w (a + b).
Proof.
  intros Hw. unfold swrap.
  assert (2 ^ w <> 0) by (apply Z.pow_nonzero; lia).
  f_equal.
  replace ((a + 2 ^ (w - 1)) mod 2 ^ w - 2 ^ (w - 1) + b + 2 ^ (w - 1))
    with ((a + 2 ^ (w - 1)) mod 2 ^ w + b) by lia.
  rewrite Z.add_mod_idemp_l by lia. f_equal. lia.
Qed.

Lemma wrap_swrap w z : 0 < w -> wrap w (swrap w z) = wrap w z.
Proof.
  intros Hw. unfold wrap, swrap.
  assert (2 ^ w <> 0) by (apply Z.pow_nonzero; lia).
  rewrite Zminus_mod_idemp_l. f_equal. lia.
Qed.

Lemma swrap_wrap w z : 0 < w -> swrap w (wrap w z) = swrap w z.
Proof.
  intros Hw. unfold wrap, swrap.
  assert (2 ^ w <> 0) by (apply Z.pow_nonzero; lia).
  rewrite Z.add_mod_idemp_l by lia. reflexivity.
Qed.

(** Truncating first to a wider width changes nothing. *)
Lemma swrap_wrap_wide v w z : 0 < v <= w -> swrap v (wrap w z) = swrap v z.
Proof.
  intros Hv. unfold wrap, swrap. f_equal.
  assert (Hp : 2 ^ w = 2 ^ (w - v) * 2 ^ v) by (rewrite <- Z.pow_add_r by lia; f_equal; lia).
  assert (2 ^ v <> 0) by (apply Z.pow_nonzero; lia).
  assert (0 < 2 ^ w) by (apply Z.pow_pos_nonneg; lia).
  rewrite (Z.div_mod z (2 ^ w)) at 2 by lia.
  replace (2 ^ w * (z / 2 ^ w) + z mod 2 ^ w + 2 ^ (v - 1))
    with (z mod 2 ^ w + 2 ^ (v - 1) + (2 ^ (w - v) * (z / 2 ^ w)) * 2 ^ v) by (rewrite Hp; ring).
  rewrite Z.mod_add by lia. reflexivity.
Qed.

Ltac cint := unfold uint32, uint64, short, int32, int64 in *.

Lemma short_range z : - 32768 <= short z <= 32767.
Proof. pose proof (swrap_range 16 z). cint. lia. Qed.
Lemma short_id z : - 32768 <= z <= 32767 -> short z = z.
Proof. intros. apply swrap_id; lia. Qed.
(** Beyond the range a [short] wraps around. *)
Lemma short_over z : 32768 <= z < 98304 -> short z = z - 65536.
Proof.
  intros Hz. unfold short, swrap. change (2 ^ (16 - 1)) with 32768. change (2 ^ 16) with 65536.
  rewrite <- (Z.mod_unique (z + 32768) 65536 1 (z - 32768)); lia.
Qed.
Lemma short_multiple z : z mod 65536 = 0 -> short z = 0.
Proof.
  intros Hz. unfold short, swrap. change (2 ^ (16 - 1)) with 32768. change (2 ^ 16) with 65536.
  pose proof (Z.div_mod z 65536 ltac:(lia)) as E.
  rewrite <- (Z.mod_unique (z + 32768) 65536 (z / 65536) 32768); lia.
Qed.
Lemma short_zero z : short z = 0 -> z mod 65536 = 0.
Proof.
  unfold short, swrap. change (2 ^ (16 - 1)) with 32768. change (2 ^ 16) with 65536. intros Hz.
  assert (E : (z + 32768) mod 65536 = 32768) by lia.
  replace z with ((z + 32768) - 32768) by lia. by rewrite <- Zminus_mod_idemp_l, E.
Qed.
Lemma short_le z : 0 <= z -> short z <= z.
Proof.
  intros Hz. unfold short, swrap. change (2 ^ (16 - 1)) with 32768. change (2 ^ 16) with 65536.
  pose proof (Z.mod_le (z + 32768) 65536). lia.
Qed.
Lemma int32_id z : - 2147483648 <= z <= 2147483647 -> int32 z = z.
Proof. intros. apply swrap_id; lia. Qed.
Lemma int32_range z : - 2147483648 <= int32 z <= 2147483647.
Proof. pose proof (swrap_range 32 z). cint. lia. Qed.
Lemma uint32_id z : 0 <= z < 4294967296 -> uint32 z = z.
Proof. intros. apply wrap_id; lia. Qed.
Lemma uint32_range z : 0 <= uint32 z < 4294967296.
Proof. pose proof (wrap_range 32 z). cint. lia. Qed.
Lemma uint64_neg z : - 9223372036854775808 <= z < 0 -> 2 ^ 63 <= uint64 z.
Proof.
  intros Hz. unfold uint64, wrap.
  rewrite <- (Z.mod_unique z (2 ^ 64) (-1) (z + 2 ^ 64)); lia.
Qed.
Lemma uint64_id z : 0 <= z < 18446744073709551616 -> uint64 z = z.
Proof. intros. apply wrap_id; lia. Qed.

#[export] Hint Rewrite short_id int32_id uint32_id uint64_id using lia : cint.
#[export] Hint Resolve short_range int32_range uint32_range : trfs.

(** ** Error pointers ([linux/err.h]) *)

Definition MAX_ERRNO : Z := 4095.
Definition NULL : ptr := 0.
Definition ERR_PTR (err : Z) : ptr := uint64 err.
Definition PTR_ERR (p : ptr) : Z := int64 p.
Definition IS_ERR (p : ptr) : bool := bool_decide (2 ^ 64 - MAX_ERRNO <= p).

Definition EPERM : Z := 1.
Definition ENOENT : Z := 2.
Definition EINTR : Z := 4.
Definition EIO : Z := 5.
Definition ECHILD : Z := 10.
Definition ENOMEM : Z := 12.
Definition EACCES : Z := 13.
Definition EFAULT : Z := 14.
Definition EBUSY : Z := 16.
Definition EEXIST : Z := 17.
Definition EXDEV : Z := 18.
Definition EINVAL : Z := 22.
Definition ENOTTY : Z := 25.
Definition ENOSPC : Z := 28.
Definition ENAMETOOLONG : Z := 36.
Definition ENOTEMPTY : Z := 39.
Definition EOPNOTSUPP : Z := 95.
Definition ESTALE : Z := 116.
Definition EIOCBQUEUED : Z := 529.

(** An error number survives the trip through a pointer. *)
Lemma PTR_ERR_ERR_PTR e : - MAX_ERRNO <= e < 0 ->
  IS_ERR (ERR_PTR e) = true /\ PTR_ERR (ERR_PTR e) = e /\ ERR_PTR e <> NULL.
Proof.
  intros He. unfold MAX_ERRNO in He.
  assert (E : ERR_PTR e = e + 2 ^ 64).
  { unfold ERR_PTR, uint64, wrap.
    replace e with ((e + 2 ^ 64) + (-1) * 2 ^ 64) at 1 by lia.
    rewrite Z.mod_add by lia. apply Z.mod_small. lia. }
  rewrite E. split_and!.
  - unfold IS_ERR, MAX_ERRNO. apply bool_decide_eq_true. lia.
  - rewrite <- E. unfold PTR_ERR, ERR_PTR, uint64, int64.
    rewrite swrap_wrap by lia. apply swrap_id; lia.
  - unfold NULL. lia.
Qed.

(** ** Little-endian fields *)

(** The [n] low-order bytes of a value, least significant first, and back. *)
Fixpoint le_bytes (n : nat) (z : Z) : bytes :=
  match n with
  | O => []
  | S n => z mod 256 :: le_bytes n (z / 256)
  end.

Fixpoint le_value (l : bytes) : Z :=
  match l with
  | [] => 0
  | b :: l => b + 256 * le_value l
  end.

Definition is_byte (b : Z) : Prop := 0 <= b < 256.

Lemma length_le_bytes n z : length (le_bytes n z) = n.
Proof. revert z. induction n as [|n IH]; intros z; simpl; [done|]. by rewrite IH. Qed.

Lemma le_bytes_is_byte n z : Forall is_byte (le_bytes n z).
Proof.
  revert z. induction n as [|n IH]; intros z; simpl; constructor; [|apply IH].
  apply Z.mod_pos_bound. lia.
Qed.

Lemma le_value_le_bytes n z : le_value (le_bytes n z) = z mod 256 ^ Z.of_nat n.
Proof.
  revert z. induction n as [|n IH]; intros z; cbn [le_bytes le_value].
  - by rewrite Z.mod_1_r.
  - rewrite IH, Nat2Z.inj_succ, Z.pow_succ_r by lia.
    rewrite Z.rem_mul_r by (try apply Z.pow_nonzero; lia). lia.
Qed.

Lemma le_value_wrap n z : le_value (le_bytes n z) = wrap (8 * Z.of_nat n) z.
Proof.
  rewrite le_value_le_bytes. unfold wrap. f_equal.
  change 256 with (2 ^ 8). rewrite <- Z.pow_mul_r by lia. reflexivity.
Qed.

#[export] Hint Rewrite length_le_bytes : cint.
#[export] Hint Resolve le_bytes_is_byte : trfs.

(** ** C strings *)

(** A C string inside a buffer: the bytes before the first NUL. *)
Fixpoint cstr (l : bytes) : bytes :=
  match l with
  | [] => []
  | b :: l => if decide (b = 0) then [] else b :: cstr l
  end.

(** Bytes a C string can hold. *)
Definition is_char (b : Z) : Prop := 0 < b < 256.

Definition strlen (s : bytes) : Z := Z.of_nat (length (cstr s)).

Lemma cstr_id s : Forall is_char s -> cstr s = s.
Proof.
  induction 1 as [|b s Hb _ IH]; simpl; [done|].
  unfold is_char in Hb. rewrite decide_False by lia. by rewrite IH.
Qed.

Lemma cstr_app_nul s t : Forall is_char s -> cstr (s ++ 0 :: t) = s.
Proof.
  induction 1 as [|b s Hb _ IH]; simpl; [done|].
  unfold is_char in Hb. rewrite decide_False by lia. by rewrite IH.
Qed.

Lemma length_cstr s : (length (cstr s) <= length s)%nat.
Proof. induction s as [|b s IH]; simpl; [lia|]. case_decide; simpl; lia. Qed.

(** [strncmp(a, b, n) == 0], for the prefix test the mount code makes. *)
Fixpoint strncmp_eq (n : nat) (a b : bytes) : bool :=
  match n with
  | O => true
  | S n =>
      let ca := default 0 (head a) in
      let cb := default 0 (head b) in
      if decide (ca = cb)
      then if decide (ca = 0) then true else strncmp_eq n (tail a) (tail b)
      else false
  end.

(** [strcmp(a, b) == 0] on NUL-free byte strings. *)
Definition strcmp_eq (a b : bytes) : bool := bool_decide (cstr a = cstr b).

(** The bytes of a string literal. *)
Definition lit (s : string) : bytes :=
  (fun c => Z.of_nat (Ascii.nat_of_ascii c)) <$> String.list_ascii_of_string s.

(** ** Byte buffers and files *)

(** Overwrite [buf] at offset [off] with [data], extending it with zeros
    where it is too short: what a positional write does to a file. *)
Definition splice (buf : bytes) (off : nat) (data : bytes) : bytes :=
  take off buf ++ replicate (off - length buf) 0 ++ data ++ drop (off + length data) buf.

Lemma splice_end buf data : splice buf (length buf) data = buf ++ data.
Proof.
  unfold splice. rewrite firstn_all, Nat.sub_diag. simpl.
  rewrite drop_ge by lia. by rewrite app_nil_r.
Qed.

Lemma length_splice buf off data :
  length (splice buf off data) = Nat.max (length buf) (off + length data).
Proof.
  unfold splice. rewrite !length_app, length_take, length_replicate, length_drop. lia.
Qed.

Lemma splice_take buf off data :
  (off <= length buf)%nat -> take (off + length data) (splice buf off data) = take off buf ++ data.
Proof.
  intros Hoff. unfold splice.
  replace (off - length buf)%nat with O by lia. simpl.
  rewrite app_assoc, take_app_length'; [done|].
  rewrite length_app, length_take. lia.
Qed.

Lemma splice_at buf off x : (off <= length buf)%nat -> splice buf off [x] !! off = Some x.
Proof.
  intros Hoff. unfold splice. replace (off - length buf)%nat with O by lia. simpl.
  rewrite lookup_app_r; rewrite length_take_le by done; [|lia]. by rewrite Nat.sub_diag.
Qed.

(** [slice l off n] is the [n] bytes of [l] from offset [off], if they are
    all inside it. *)
Definition slice (l : bytes) (off n : Z) : option bytes :=
  if decide (0 <= off /\ 0 <= n /\ off + n <= Z.of_nat (length l))
  then Some (take (Z.to_nat n) (drop (Z.to_nat off) l))
  else None.

Lemma slice_app l1 l2 l3 off n :
  off = Z.of_nat (length l1) -> n = Z.of_nat (length l2) ->
  slice (l1 ++ l2 ++ l3) off n = Some l2.
Proof.
  intros -> ->. unfold slice. rewrite decide_True.
  - rewrite !Nat2Z.id, drop_app_length. by rewrite take_app_length.
  - rewrite !length_app. lia.
Qed.
