(* ===== verification/Prog.v ===== *)
(** * Programs that call an environment

    The code of this repository does little on its own: a handler of the file
    system or a run of a user tool is a sequence of calls to the kernel or to
    the C library, with computation on private data in between.  [prog] is the
    type of such programs.  What a call answers is not defined here: [run]
    takes the environment as a function of the calls made so far, and [wp]
    quantifies over every answer that the documented behaviour [ok] of the
    callee allows.  Both record the calls, with their answers, in a history. *)

From S2P Require Import Prelude.

(** What a component may call, what each call answers, and the private memory
    the component keeps between calls. *)
Record sig := Sig {
  call : Type;
  reply : call -> Type;
  mem : Type;
}.

(** Why a run stops: the ways kernel or user code dies. *)
Inductive fault :=
| NullDeref        (* a NULL pointer is dereferenced *)
| ErrDeref         (* an error pointer is dereferenced *)
| UseAfterFree     (* freed memory is dereferenced *)
| BugOn            (* a BUG_ON condition holds *)
| OutOfBounds      (* a buffer is read or written outside its bounds *)
| UninitRead       (* an uninitialised variable is read *)
| NoFuel.          (* the loop bound given to the model was too small *)

#[global] Instance fault_eq_dec : EqDecision fault.
Proof. solve_decision. Defined.

Inductive prog (S : sig) (A : Type) : Type :=
| Ret (a : A)
| Fault (f : fault)
| Call (c : call S) (k : reply S c -> prog S A)
| Act {B : Type} (f : mem S -> B * mem S) (k : B -> prog S A).

Arguments Ret {S A} a.
Arguments Fault {S A} f.
Arguments Call {S A} c k.
Arguments Act {S A B} f k.

Fixpoint prog_bind {S A B} (f : A -> prog S B) (p : prog S A) : prog S B :=
  match p with
  | Ret a => f a
  | Fault x => Fault x
  | Call c k => Call c (fun r => prog_bind f (k r))
  | Act g k => Act g (fun b => prog_bind f (k b))
  end.

#[global] Instance prog_mret S : MRet (prog S) := fun A a => Ret a.
#[global] Instance prog_mbind S : MBind (prog S) := fun A B f p => prog_bind f p.
#[global] Instance prog_fmap S : FMap (prog S) := fun A B f p => prog_bind (fun a => Ret (f a)) p.

(** One call; one read of the private memory; one update of it. *)
Definition kcall {S} (c : call S) : prog S (reply S c) := Call c (fun r => Ret r).
Definition gets {S B} (f : mem S -> B) : prog S B := Act (fun m => (f m, m)) (fun b => Ret b).
Definition modify {S} (f : mem S -> mem S) : prog S unit := Act (fun m => (tt, f m)) (fun _ => Ret tt).

(** Dereferencing what a lookup found, or dying. *)
Definition deref {S B} (f : fault) (o : option B) : prog S B :=
  match o with Some b => Ret b | None => Fault f end.

(** [BUG_ON(cond)]. *)
Definition bug_on {S} (cond : bool) : prog S unit := if cond then Fault BugOn else Ret tt.

(** [if (cond) { body }]. *)
Definition when {S} (cond : bool) (body : prog S unit) : prog S unit :=
  if cond then body else Ret tt.

(** ** Histories and runs *)

Record event (S : sig) := Ev { ev_call : call S; ev_reply : reply S ev_call }.
Arguments Ev {S} ev_call ev_reply.
Arguments ev_call {S} e.
Arguments ev_reply {S} e.

Abbreviation hist S := (list (event S)).

(** The environment answers a call from the calls made before it: any world
    whose state is a function of what it was asked and said. *)
Definition env (S : sig) : Type := hist S -> forall c : call S, reply S c.

Inductive outcome (S : sig) (A : Type) : Type :=
| Done (a : A) (m : mem S) (h : hist S)
| Faulted (f : fault) (m : mem S) (h : hist S).
Arguments Done {S A} a m h.
Arguments Faulted {S A} f m h.

Fixpoint run {S A} (w : env S) (p : prog S A) (m : mem S) (h : hist S) : outcome S A :=
  match p with
  | Ret a => Done a m h
  | Fault f => Faulted f m h
  | Call c k => let r := w h c in run w (k r) m (h ++ [Ev c r])
  | Act f k => let '(b, m') := f m in run w (k b) m' h
  end.

Definition outcome_hist {S A} (o : outcome S A) : hist S :=
  match o with Done _ _ h => h | Faulted _ _ h => h end.
Definition outcome_mem {S A} (o : outcome S A) : mem S :=
  match o with Done _ m _ => m | Faulted _ m _ => m end.

(** ** Weakest preconditions over every allowed answer *)

Section WP.
Context {S : sig}.
(** The documented behaviour of the callees: which answers are possible
    after a history. *)
Variable ok : hist S -> event S -> Prop.

Fixpoint wp {A} (p : prog S A) (Q : outcome S A -> Prop) (m : mem S) (h : hist S) : Prop :=
  match p with
  | Ret a => Q (Done a m h)
  | Fault f => Q (Faulted f m h)
  | Call c k => forall r, ok h (Ev c r) -> wp (k r) Q m (h ++ [Ev c r])
  | Act f k => wp (k (fst (f m))) Q (snd (f m)) h
  end.

(** An environment that only gives documented answers. *)
Definition env_ok (w : env S) : Prop := forall h c, ok h (Ev c (w h c)).

(** A postcondition that also promises the absence of faults. *)
Definition safely {A} (Q : A -> mem S -> hist S -> Prop) (o : outcome S A) : Prop :=
  match o with
  | Done a m h => Q a m h
  | Faulted _ _ _ => False
  end.

Lemma wp_mono {A} (p : prog S A) (Q R : outcome S A -> Prop) m h :
  (forall o, Q o -> R o) -> wp p Q m h -> wp p R m h.
Proof.
  intros HQR. revert m h.
  induction p as [a|f|c k IH|B f k IH]; simpl; intros m h Hp; eauto.
Qed.

Lemma wp_bind {A B} (p : prog S A) (f : A -> prog S B) Q m h :
  wp (p ≫= f) Q m h <->
  wp p (fun o => match o with
                 | Done a m h => wp (f a) Q m h
                 | Faulted x m h => Q (Faulted x m h)
                 end) m h.
Proof.
  unfold mbind, prog_mbind. revert m h.
  induction p as [a|x|c k IH|C g k IH]; intros m h; simpl; try done.
  split; intros H r Hr; apply IH; eauto.
Qed.

Lemma wp_safely_bind {A B} (p : prog S A) (f : A -> prog S B) Q R m h :
  wp p (safely R) m h ->
  (forall a m' h', R a m' h' -> wp (f a) Q m' h') ->
  wp (p ≫= f) Q m h.
Proof.
  intros Hp Hf. apply wp_bind. eapply wp_mono; [|exact Hp].
  intros [a m' h'|x m' h']; simpl; [eauto|done].
Qed.

Lemma wp_call {A} c (k : reply S c -> prog S A) Q m h :
  (forall r, ok h (Ev c r) -> wp (k r) Q m (h ++ [Ev c r])) -> wp (Call c k) Q m h.
Proof. done. Qed.

(** What holds for every allowed answer holds of a run in every environment
    that gives allowed answers. *)
Theorem wp_run {A} (p : prog S A) Q m h w :
  wp p Q m h -> env_ok w -> Q (run w p m h).
Proof.
  intros Hp Hw. revert m h Hp.
  induction p as [a|x|c k IH|C g k IH]; intros m h Hp; simpl in *; [done|done| |].
  - apply IH, Hp, Hw.
  - destruct (g m) as [b m']. by apply IH.
Qed.

Lemma wp_run_safely {A} (p : prog S A) Q m h w :
  wp p (safely Q) m h -> env_ok w ->
  exists a m' h', run w p m h = Done a m' h' /\ Q a m' h'.
Proof.
  intros Hp Hw. pose proof (wp_run p _ m h w Hp Hw) as HQ.
  destruct (run w p m h) as [a m' h'|]; simpl in HQ; [eauto 10|done].
Qed.
End WP.

Arguments safely {S A} Q o /.

(** Weaker assumptions allow more answers. *)
Lemma wp_ok_mono {S A} (ok ok' : hist S -> event S -> Prop) (p : prog S A) Q m h :
  (forall h e, ok' h e -> ok h e) -> wp ok p Q m h -> wp ok' p Q m h.
Proof.
  intros Hok. revert m h. induction p as [a|x|c k IH|C g k IH]; simpl; eauto.
Qed.

Lemma run_bind {S A B} w (p : prog S A) (f : A -> prog S B) m h :
  run w (p ≫= f) m h =
  match run w p m h with
  | Done a m' h' => run w (f a) m' h'
  | Faulted x m' h' => Faulted x m' h'
  end.
Proof.
  unfold mbind, prog_mbind. revert m h.
  induction p as [a|x|c k IH|C g k IH]; intros m h; simpl; try done.
  destruct (g m). apply IH.
Qed.

(** A run only adds events at the end of its history. *)
Lemma run_hist {S A} w (p : prog S A) m h : exists t, outcome_hist (run w p m h) = h ++ t.
Proof.
  revert m h. induction p as [a|x|c k IH|C g k IH]; intros m h; simpl.
  - exists []. by rewrite app_nil_r.
  - exists []. by rewrite app_nil_r.
  - destruct (IH (w h c) m (h ++ [Ev c (w h c)])) as [t Ht].
    exists (Ev c (w h c) :: t). by rewrite Ht, <- app_assoc.
  - destruct (g m). apply IH.
Qed.

(** What holds of every run, and what holds in addition under a condition
    on the environment. *)
Lemma wp_and {S A} (ok : hist S -> event S -> Prop) (R : Prop) (p : prog S A) (Q Q' : outcome S A -> Prop) m h :
  wp ok p Q m h -> (R -> wp ok p Q' m h) -> wp ok p (fun o => Q o /\ (R -> Q' o)) m h.
Proof.
  revert m h. induction p as [a|x|c k IH|B f k IH]; simpl; auto.
Qed.

(** ** Which calls a program can make *)

Fixpoint calls_only {S A} (P : call S -> Prop) (p : prog S A) : Prop :=
  match p with
  | Ret _ | Fault _ => True
  | Call c k => P c /\ forall r, calls_only P (k r)
  | Act _ k => forall b, calls_only P (k b)
  end.

Lemma calls_bind {S A B} P (p : prog S A) (f : A -> prog S B) :
  calls_only P p -> (forall a, calls_only P (f a)) -> calls_only P (p ≫= f).
Proof.
  unfold mbind, prog_mbind. intros Hp Hf. induction p as [a|x|c k IH|C g k IH]; simpl in *; auto.
  destruct Hp. eauto.
Qed.

Lemma calls_fmap {S A B} P (f : A -> B) (p : prog S A) :
  calls_only P p -> calls_only P (f <$> p).
Proof. intros Hp. by apply (calls_bind P p (fun a => Ret (f a))). Qed.

(** The events a run adds are such calls. *)
Lemma wp_calls {S A} (ok : hist S -> event S -> Prop) P (p : prog S A) Q m h :
  calls_only P p -> wp ok p Q m h ->
  wp ok p (fun o => Q o /\ exists t, outcome_hist o = h ++ t /\ Forall (fun e => P (ev_call e)) t) m h.
Proof.
  revert m h. induction p as [a|x|c k IH|B f k IH]; intros m h Hc Hp; simpl in *.
  - split; [done|]. exists []. by rewrite app_nil_r.
  - split; [done|]. exists []. by rewrite app_nil_r.
  - destruct Hc as [Hc Hk]. intros r Hr. eapply wp_mono; [|by apply IH; auto].
    intros o [HQ (t & -> & Ht)]. split; [done|]. exists (Ev c r :: t).
    rewrite <- app_assoc. split; [done|by constructor].
  - by apply IH.
Qed.

(** They were answered as documented. *)
Lemma wp_events {S A} (ok : hist S -> event S -> Prop) (p : prog S A) Q m h :
  wp ok p Q m h ->
  wp ok p (fun o => Q o /\ exists t, outcome_hist o = h ++ t /\ Forall (fun e => exists h', ok h' e) t) m h.
Proof.
  revert m h. induction p as [a|x|c k IH|B f k IH]; intros m h Hp; simpl in *.
  - split; [done|]. exists []. by rewrite app_nil_r.
  - split; [done|]. exists []. by rewrite app_nil_r.
  - intros r Hr. eapply wp_mono; [|by apply IH; auto].
    intros o [HQ (t & -> & Ht)]. split; [done|]. exists (Ev c r :: t).
    rewrite <- app_assoc. split; [done|constructor; [by exists h|done]].
  - by apply IH.
Qed.

(** ** Stepping through a program in front of a continuation *)

Section Steps.
Context {S : sig} (ok : hist S -> event S -> Prop).

Lemma wp_assoc {A B C} (p : prog S A) (f : A -> prog S B) (g : B -> prog S C) Q m h :
  wp ok (p ≫= (fun a => f a ≫= g)) Q m h -> wp ok ((p ≫= f) ≫= g) Q m h.
Proof.
  rewrite !wp_bind. intros H. eapply wp_mono; [|exact H].
  intros [a m' h'|x m' h']; rewrite ?wp_bind; done.
Qed.

Lemma wp_fmap {A B C} (f : A -> B) (p : prog S A) (g : B -> prog S C) Q m h :
  wp ok (p ≫= (fun a => g (f a))) Q m h -> wp ok ((f <$> p) ≫= g) Q m h.
Proof. intros H. unfold fmap, prog_fmap. by apply wp_assoc. Qed.

Lemma wp_ret {A B} (a : A) (k : A -> prog S B) Q m h :
  wp ok (k a) Q m h -> wp ok (mret a ≫= k) Q m h.
Proof. done. Qed.

(** A program is itself followed by nothing. *)
Lemma wp_tail {A} (p : prog S A) Q m h : wp ok (p ≫= mret) Q m h -> wp ok p Q m h.
Proof.
  rewrite wp_bind. intros H. eapply wp_mono; [|exact H]. by intros [a m' h'|x m' h'].
Qed.

Lemma wp_bug_on {A} b (k : unit -> prog S A) Q m h :
  b = false -> wp ok (k tt) Q m h -> wp ok (bug_on b ≫= k) Q m h.
Proof. by intros ->. Qed.

Lemma wp_when {A} b body (k : unit -> prog S A) Q m h :
  wp ok (if b : bool then body ≫= k else k tt) Q m h -> wp ok (when b body ≫= k) Q m h.
Proof. by destruct b. Qed.
End Steps.

(** ** Symbolic execution

    [wp_step] takes one constructor of the program at the head of a [wp];
    [wp_bind_with] runs a sub-program through its specification. *)

Ltac wp_pures := cbn [wp prog_bind mbind mret fmap prog_mbind prog_mret prog_fmap kcall gets modify
                      deref bug_on when fst snd].

Ltac wp_step :=
  wp_pures;
  match goal with
  | |- forall _, _ -> wp _ _ _ _ _ => let r := fresh "r" in let Hr := fresh "Hr" in intros r Hr
  end.

Tactic Notation "wp_with" uconstr(spec) := eapply wp_safely_bind; [eapply spec|].

(** Prove something of a run from the weakest precondition under [ok]. *)
Ltac by_wp ok :=
  match goal with
  | |- context [run ?env ?p ?m ?h] =>
      pattern (run env p m h);
      refine (wp_run ok p _ m h env _ _); [|assumption]
  end.

(** Each answer in a run is the environment's, to the call and the history in
    front of it. *)
Definition answered {S} (w : env S) (h t : hist S) : Prop :=
  forall t1 e t2, t = t1 ++ e :: t2 -> ev_reply e = w (h ++ t1) (ev_call e).

Lemma run_answered {S A} w (p : prog S A) m h t :
  outcome_hist (run w p m h) = h ++ t -> answered w h t.
Proof.
  revert m h t. induction p as [a|x|c k IH|C g k IH]; intros m h t Ht t1 e t2 ->; simpl in *.
  - rewrite <- (app_nil_r h) in Ht at 1. apply app_inv_head in Ht. by destruct t1.
  - rewrite <- (app_nil_r h) in Ht at 1. apply app_inv_head in Ht. by destruct t1.
  - destruct (run_hist w (k (w h c)) m (h ++ [Ev c (w h c)])) as [t' Ht'].
    pose proof Ht' as E. rewrite Ht, <- app_assoc in E. apply app_inv_head in E.
    destruct t1 as [|e1 t1]; simpl in E; injection E as -> E.
    + by rewrite app_nil_r.
    + rewrite cons_middle, (app_assoc h). by eapply (IH _ m _ t'); [done|].
  - destruct (g m). by eapply IH.
Qed.

(** ** What a program can do to memory *)

Fixpoint acts_only {S A} (R : mem S -> mem S -> Prop) (p : prog S A) : Prop :=
  match p with
  | Ret _ | Fault _ => True
  | Call c k => forall r, acts_only R (k r)
  | Act f k => (forall m, R m (snd (f m))) /\ forall b, acts_only R (k b)
  end.

Lemma acts_bind {S A B} R (p : prog S A) (f : A -> prog S B) :
  acts_only R p -> (forall a, acts_only R (f a)) -> acts_only R (p ≫= f).
Proof.
  unfold mbind, prog_mbind. intros Hp Hf. induction p as [a|x|c k IH|C g k IH]; simpl in *; auto.
  destruct Hp. eauto.
Qed.

(** What every act respects, so does a run. *)
Lemma run_acts {S A} R `{!PreOrder R} w (p : prog S A) m h :
  acts_only R p -> R m (outcome_mem (run w p m h)).
Proof.
  revert m h. induction p as [a|x|c k IH|C g k IH]; intros m h Hp; simpl in *; [done|done|auto|].
  destruct Hp as [Hg Hk]. specialize (Hg m). destruct (g m) as [b m']. simpl in *.
  etransitivity; [exact Hg|]. auto.
Qed.
