(* ===== verification/TrTypes.v ===== *)
(** * Trace records ([trfs/tr_types.h])

    The operation codes, the in-memory record and its layout on x86-64: the
    first 32 of its 48 bytes are what the kernel writes to the log and what the
    replay tool reads back. *)

From S2P Require Import Prelude.

(** ** Operation codes: [enum rec_type] *)

Inductive rec_type :=
| FCREAT | FREAD | FWRITE | DCREAT | DREAD | RENAME | LINK | SYMLINK | UNLINK.

#[global] Instance rec_type_eq_dec : EqDecision rec_type.
Proof. solve_decision. Defined.

Definition rec_type_bit (t : rec_type) : Z :=
  match t with
  | FCREAT => 0 | FREAD => 1 | FWRITE => 2
  | DCREAT => 10 | DREAD => 11
  | RENAME => 20 | LINK => 21 | SYMLINK => 22 | UNLINK => 23
  end.

(** The enumerators' values, [1 << bit]. *)
Definition rec_type_val (t : rec_type) : Z := Z.shiftl 1 (rec_type_bit t).

Definition TR_FCREAT : Z := rec_type_val FCREAT.
Definition TR_FWRITE : Z := rec_type_val FWRITE.
Definition TR_DCREAT : Z := rec_type_val DCREAT.
Definition TR_RENAME : Z := rec_type_val RENAME.
Definition TR_LINK : Z := rec_type_val LINK.
Definition TR_SYMLINK : Z := rec_type_val SYMLINK.
Definition TR_UNLINK : Z := rec_type_val UNLINK.

Definition all_rec_types : list rec_type :=
  [FCREAT; FREAD; FWRITE; DCREAT; DREAD; RENAME; LINK; SYMLINK; UNLINK].

(** The enumerator an integer denotes: what a [switch] on it selects. *)
Definition rec_type_of (z : Z) : option rec_type :=
  snd <$> list_find (fun t => rec_type_val t = z) all_rec_types.

Lemma rec_type_of_val t : rec_type_of (rec_type_val t) = Some t.
Proof. by destruct t. Qed.

Lemma rec_type_of_Some z t : rec_type_of z = Some t <-> z = rec_type_val t.
Proof.
  split; [|intros ->; apply rec_type_of_val].
  unfold rec_type_of. intros ([i u] & Hf & Hu)%fmap_Some. simpl in Hu. subst u.
  by apply list_find_Some in Hf as (_ & -> & _).
Qed.

Lemma rec_type_val_pos t : 0 < rec_type_val t < 16777216.
Proof. by destruct t. Qed.

#[global] Instance rec_type_val_inj : Inj (=) (=) rec_type_val.
Proof.
  intros t u E. apply (f_equal rec_type_of) in E.
  rewrite !rec_type_of_val in E. congruence.
Qed.

(** Masking an operation code leaves the code or nothing, according to the
    one bit of the mask it stands for. *)
Lemma rec_type_masked t umask :
  Z.land (rec_type_val t) umask =
  if Z.testbit umask (rec_type_bit t) then rec_type_val t else 0.
Proof.
  assert (Hb : 0 <= rec_type_bit t) by (by destruct t).
  apply Z.bits_inj'. intros n Hn. rewrite Z.land_spec.
  unfold rec_type_val. rewrite Z.shiftl_1_l.
  destruct (decide (n = rec_type_bit t)) as [->|Hne].
  - rewrite Z.pow2_bits_true by done. simpl.
    destruct (Z.testbit umask _); [by rewrite Z.pow2_bits_true|by rewrite Z.bits_0].
  - rewrite Z.pow2_bits_false by done. simpl.
    destruct (Z.testbit umask _); [by rewrite Z.pow2_bits_false|by rewrite Z.bits_0].
Qed.

(** ** The record: [struct tr_record] *)

(** A [char *] (or [void *]) with the bytes that can be read through it. *)
Record buffer := Buffer { b_ptr : ptr; b_data : bytes }.
Definition nullbuf : buffer := Buffer NULL [].

Record tr_record := TrRecord {
  rec_id : Z;        (* uint32_t *)
  rec_flags : Z;     (* uint32_t *)
  perm_flags : Z;    (* uint32_t *)
  result : Z;        (* int32_t *)
  rec_size : Z;      (* short *)
  path_len : Z;      (* short *)
  type : Z;          (* rec_type_t *)
  aux_len : Z;       (* short *)
  pathname : buffer; (* const char * *)
  aux : buffer;      (* const char * *)
}.

(** [memset(record, 0, sizeof *record)]. *)
Definition zero_record : tr_record := TrRecord 0 0 0 0 0 0 0 0 nullbuf nullbuf.

(** Assignments to the fields the code sets after the common ones. *)
Definition set_rec_size (v : Z) (r : tr_record) : tr_record :=
  TrRecord (rec_id r) (rec_flags r) (perm_flags r) (result r) v (path_len r)
    (type r) (aux_len r) (pathname r) (aux r).
Definition set_aux_len (v : Z) (r : tr_record) : tr_record :=
  TrRecord (rec_id r) (rec_flags r) (perm_flags r) (result r) (rec_size r) (path_len r)
    (type r) v (pathname r) (aux r).
Definition set_aux (v : buffer) (r : tr_record) : tr_record :=
  TrRecord (rec_id r) (rec_flags r) (perm_flags r) (result r) (rec_size r) (path_len r)
    (type r) (aux_len r) (pathname r) v.

(** ** Layout *)

Definition sizeof_tr_record : Z := 48.
Definition sizeof_ptr : Z := 8.

(** The bytes before the two pointers, alignment padding included (the code
    clears the record before it fills it). *)
Definition header_bytes (r : tr_record) : bytes :=
  le_bytes 4 (rec_id r) ++ le_bytes 4 (rec_flags r) ++ le_bytes 4 (perm_flags r) ++
  le_bytes 4 (result r) ++ le_bytes 2 (rec_size r) ++ le_bytes 2 (path_len r) ++
  le_bytes 4 (type r) ++ le_bytes 2 (aux_len r) ++ replicate 6 0.

(** The whole object, as [memcpy] reads it. *)
Definition struct_bytes (r : tr_record) : bytes :=
  header_bytes r ++ le_bytes 8 (b_ptr (pathname r)) ++ le_bytes 8 (b_ptr (aux r)).

Definition sizeof_header : Z := 32.

Lemma length_header_bytes r : length (header_bytes r) = 32%nat.
Proof. unfold header_bytes. rewrite !length_app, !length_le_bytes, length_replicate. done. Qed.

Lemma length_struct_bytes r : length (struct_bytes r) = 48%nat.
Proof. unfold struct_bytes. rewrite !length_app, length_header_bytes, !length_le_bytes. done. Qed.

(** A field of a record that lies at the start of a byte string. *)
Definition field (l : bytes) (off n : nat) : Z := le_value (take n (drop off l)).

(** Reading the fields through a [struct tr_record *]. *)
Definition record_of_bytes (l : bytes) : tr_record :=
  TrRecord (field l 0 4) (field l 4 4) (field l 8 4) (int32 (field l 12 4))
    (short (field l 16 2)) (short (field l 18 2)) (field l 20 4) (short (field l 24 2))
    nullbuf nullbuf.

(** The fields are within the range of their C types. *)
Definition record_in_range (r : tr_record) : Prop :=
  0 <= rec_id r < 2 ^ 32 /\ 0 <= rec_flags r < 2 ^ 32 /\ 0 <= perm_flags r < 2 ^ 32 /\
  - 2 ^ 31 <= result r < 2 ^ 31 /\ - 2 ^ 15 <= rec_size r < 2 ^ 15 /\
  - 2 ^ 15 <= path_len r < 2 ^ 15 /\ 0 <= type r < 2 ^ 32 /\ - 2 ^ 15 <= aux_len r < 2 ^ 15.

(** A record with its pointers cleared: all that the log keeps of the fixed part. *)
Definition strip (r : tr_record) : tr_record :=
  TrRecord (rec_id r) (rec_flags r) (perm_flags r) (result r) (rec_size r) (path_len r)
    (type r) (aux_len r) nullbuf nullbuf.

Lemma field_skip l1 l2 off n :
  (length l1 <= off)%nat -> field (l1 ++ l2) off n = field l2 (off - length l1) n.
Proof. intros H. unfold field. by rewrite drop_app_ge. Qed.

Lemma field_here n z l : field (le_bytes n z ++ l) 0 n = wrap (8 * Z.of_nat n) z.
Proof.
  unfold field. rewrite drop_0, take_app_length' by (by rewrite length_le_bytes).
  apply le_value_wrap.
Qed.

(** Reading a record back from its bytes gives its fields: the compiler's
    layout is the same on both sides of the log. *)
Lemma record_of_header_bytes r rest :
  record_in_range r -> record_of_bytes (header_bytes r ++ rest) = strip r.
Proof.
  intros (H1 & H2 & H3 & H4 & H5 & H6 & H7 & H8).
  unfold record_of_bytes, header_bytes, strip.
  rewrite <- !app_assoc.
  repeat match goal with
    | |- context [field (le_bytes ?n ?z ++ ?l) (S ?k) ?w] =>
        rewrite (field_skip (le_bytes n z) l (S k) w) by (rewrite length_le_bytes; lia);
        rewrite length_le_bytes; cbn [Nat.sub]
    end.
  rewrite !field_here. change (8 * Z.of_nat 4) with 32. change (8 * Z.of_nat 2) with 16.
  cint. rewrite !swrap_wrap by lia.
  rewrite !wrap_id, !swrap_id by lia. reflexivity.
Qed.
