(* ===== verification/Kernel.v ===== *)
(** * The kernel as the module sees it

    Linux is not part of the repository: every function of it that the module
    calls is a constructor of [kfun], whose meaning is left to the environment.
    Fields of kernel objects are read with [load] and written with [store]; the
    methods of the lower file system are called through [file_method]. *)

From S2P Require Import Prelude Prog TrTypes.

Definition PAGE_SIZE : Z := 4096.

(** [struct path]. *)
Record path := Path { p_dentry : ptr; p_mnt : ptr }.
#[global] Instance path_eq_dec : EqDecision path.
Proof. solve_decision. Defined.

(** ** Fields and methods of kernel objects the module reads or writes *)

Inductive kfield :=
(* struct dentry *)
| F_d_inode | F_d_sb | F_d_flags | F_d_parent | F_d_op | F_d_revalidate
(* struct inode *)
| F_i_sb | F_i_nlink | F_i_ino | F_i_mode | F_i_rdev | F_i_state | F_i_op | F_i_fop
| F_i_mapping | F_i_version | F_i_ctime | F_i_atime | F_i_mtime
| F_readlink | F_setxattr | F_getxattr | F_listxattr | F_removexattr
(* struct super_block *)
| F_s_maxbytes | F_s_time_gran | F_s_op | F_s_export_op | F_s_root | F_umount_begin
(* struct file, struct kiocb, struct vm_area_struct *)
| F_f_dentry | F_f_inode | F_f_flags | F_f_pos | F_f_op | F_f_mapping | F_a_ops | F_writepage
| F_mmap | F_unlocked_ioctl | F_compat_ioctl | F_flush | F_fasync | F_read_iter | F_write_iter
| F_ki_filp | F_vm_flags | F_vm_ops | F_vm_file | F_page_mkwrite | F_fault
(* struct kstat, struct kstatfs, struct iattr *)
| F_blocks | F_f_type.

#[global] Instance kfield_eq_dec : EqDecision kfield.
Proof. solve_decision. Defined.

(** ** Kernel functions *)

Inductive kfun :=
(* object fields *)
| load (f : kfield) (obj : ptr)
| store (f : kfield) (obj : ptr) (v : Z)
| s_type_name (sb : ptr)
| d_name (d : ptr)
(* locks and references *)
| spin_lock_init (info : ptr) | spin_lock (info : ptr) | spin_unlock (info : ptr)
| mutex_init (info : ptr) | mutex_destroy (info : ptr)
| mutex_lock (info : ptr) | mutex_unlock (info : ptr)
| path_get (p : path) | path_put (p : path)
| dget (d : ptr) | dput (d : ptr) | dget_parent (d : ptr) | mntget (m : ptr)
| inode_lock (i : ptr) | inode_lock_nested (i : ptr) | inode_unlock (i : ptr)
| lock_rename (d1 d2 : ptr) | unlock_rename (d1 d2 : ptr)
| igrab (i : ptr) | iput (i : ptr)
| get_file (f : ptr) | fput (f : ptr)
| s_active_inc (sb : ptr) | s_active_dec (sb : ptr)
(* memory *)
| get_free_page | free_page (p : ptr)
| kmalloc (n : Z) | kzalloc (n : Z) | kfree (p : ptr)
| kmem_cache_create (name : bytes) | kmem_cache_destroy (c : ptr)
| kmem_cache_alloc (c : ptr) | kmem_cache_zalloc (c : ptr) | kmem_cache_free (c p : ptr)
(* names and files *)
| getname_kernel (s : bytes) | putname (n : ptr)
| filp_open (name : bytes) (flags mode : Z) | filp_close (f : ptr)
| kernel_write (f : ptr) (data : bytes) (count pos : Z)
| dentry_open (p : path) (flags : Z)
| kern_path (name : bytes) (flags : Z)
| dentry_path_raw (d buf buflen : ptr)
(* operations on the lower file system *)
| vfs_create (dir d mode : Z) (excl : bool)
| vfs_link (old dir d : ptr)
| vfs_unlink (dir d : ptr)
| vfs_symlink (dir d : ptr) (name : bytes)
| vfs_mkdir (dir d mode : Z)
| vfs_rmdir (dir d : ptr)
| vfs_mknod (dir d mode dev : Z)
| vfs_rename (olddir old newdir new flags : Z)
| vfs_read (f buf count ppos : Z) | vfs_write (f buf count ppos : Z)
| vfs_getattr (p : path) | vfs_statfs (p : path) (buf : ptr)
| vfs_setxattr (d : ptr) (name : bytes) (value size flags : Z)
| vfs_getxattr (d : ptr) (name : bytes) (buf size : Z)
| vfs_listxattr (d buf size : Z)
| vfs_removexattr (d : ptr) (name : bytes)
| vfs_path_lookup (d m : ptr) (name : bytes) (flags : Z)
| vfs_fsync_range (f start finish datasync : Z)
| i_op_readlink (d buf size : Z)
| notify_change (d ia_valid ia_size ia_file : Z)
| inode_permission (i mask : Z)
| iterate_dir (f ctx : ptr)
| file_method (m : kfield) (f : ptr) (args : list Z)
(* the upper inode, dentry and file *)
| fsstack_copy_attr_times (dst src : ptr) | fsstack_copy_attr_atime (dst src : ptr)
| fsstack_copy_attr_all (dst src : ptr) | fsstack_copy_inode_size (dst src : ptr)
| i_size_read (i : ptr) | i_size_write (i n : Z)
| set_nlink (i n : Z) | clear_nlink (i : ptr)
| d_drop (d : ptr) | d_unhashed (d : ptr) | d_rehash (d : ptr) | d_set_d_op (d ops : ptr)
| d_splice_alias (i d : ptr) | d_make_root (i : ptr)
| d_lookup (dir : ptr) (name : bytes) | d_alloc (dir : ptr) (name : bytes) | d_add (d i : ptr)
| is_root (d : ptr)
| iget5_locked (sb hashval lower : ptr) | unlock_new_inode (i : ptr)
| init_special_inode (i mode rdev : Z) | ilookup (sb ino : Z)
| truncate_inode_pages (i : ptr) | clear_inode (i : ptr) | inode_init_once (i : ptr)
| inode_change_ok (i ia_valid : Z) | inode_newsize_ok (i n : Z) | truncate_setsize (i n : Z)
| generic_fillattr (i stat : ptr)
| set_fs_kernel | set_fs (old : Z) | set_delayed_call (call buf : ptr)
| filemap_write_and_wait (mapping : ptr)
| generic_file_fsync (f start finish datasync : Z)
| generic_file_llseek (f off whence : Z)
| file_accessed (f : ptr)
(* modules and character devices *)
| register_filesystem | unregister_filesystem
| copy_from_user (arg : ptr) | copy_to_user (arg : ptr) (bitmap : Z)
| alloc_chrdev_region | unregister_chrdev_region | cdev_init | cdev_add | cdev_del
| class_create | class_destroy (c : ptr) | device_create (c : ptr) | device_destroy (c : ptr).

(** What a call answers: nothing, a number or pointer, a boolean, or the
    data the function hands back. *)
Definition kreply (c : kfun) : Set :=
  match c with
  | load _ _ | dget_parent _ | lock_rename _ _ | mntget _ | igrab _ | get_free_page | kzalloc _
  | kmem_cache_create _ | kmem_cache_alloc _ | kmem_cache_zalloc _
  | getname_kernel _ | filp_open _ _ _ | kernel_write _ _ _ _ | dentry_open _ _
  | vfs_create _ _ _ _ | vfs_link _ _ _ | vfs_unlink _ _ | vfs_symlink _ _ _ | vfs_mkdir _ _ _
  | vfs_rmdir _ _ | vfs_mknod _ _ _ _ | vfs_rename _ _ _ _ _ | vfs_read _ _ _ _
  | vfs_write _ _ _ _ | vfs_statfs _ _
  | vfs_setxattr _ _ _ _ _ | vfs_getxattr _ _ _ _ | vfs_listxattr _ _ _ | vfs_removexattr _ _
  | vfs_fsync_range _ _ _ _ | i_op_readlink _ _ _ | notify_change _ _ _ _ | inode_permission _ _
  | iterate_dir _ _ | file_method _ _ _ | i_size_read _ | d_splice_alias _ _ | d_make_root _
  | d_lookup _ _ | d_alloc _ _ | iget5_locked _ _ _ | ilookup _ _
  | inode_change_ok _ _ | inode_newsize_ok _ _ | set_fs_kernel | filemap_write_and_wait _
  | generic_file_fsync _ _ _ _ | generic_file_llseek _ _ _ | register_filesystem
  | copy_to_user _ _ | alloc_chrdev_region | cdev_add | class_create | device_create _ => Z
  | d_unhashed _ | is_root _ => bool
  | s_type_name _ | d_name _ => bytes
  | kmalloc _ => ptr * bytes            (* address and indeterminate contents *)
  | dentry_path_raw _ _ _ => buffer     (* a string in the caller's page, or an error pointer *)
  | kern_path _ _ | vfs_path_lookup _ _ _ _ => Z * path
  | vfs_getattr _ => Z * Z              (* error and blocks *)
  | copy_from_user _ => Z * (Z * bytes) (* bytes not copied, bitmap, mount path *)
  | _ => unit
  end%type.
