(* ===== verification/TrfsH.v ===== *)
(** * Private structures and inline helpers ([trfs/trfs.h])

    The memory the module itself owns: the private data it hangs on the VFS's
    super blocks, dentries, inodes and files, its caches and its record
    counter.  A pointer field and the object it points to are kept apart, so
    that a stale pointer is an [UseAfterFree] and a missing one a [NullDeref]. *)

From S2P Require Import Prelude Prog TrTypes Kernel.

(** ** Structures *)

(** [struct trfs_sb_info]; the mutex [trfs_lock] is the address of the object. *)
Record trfs_sb_info := SbInfo {
  lower_sb : ptr;
  tr_lower_filep : ptr;
  tr_page : ptr;
  umask : Z;             (* unsigned long *)
}.

(** [struct trfs_file_info]. *)
Record trfs_file_info := FileInfo {
  lower_file : ptr;
  lower_vm_ops : ptr;
}.

Record kmem := KMem {
  trecord_id : Z;                        (* atomic_t, shared by all mounts *)
  s_fs_info : gmap Z ptr;                (* super_block -> its private data *)
  sb_infos : gmap Z trfs_sb_info;        (* the allocated trfs_sb_info *)
  kbufs : gmap Z bytes;                  (* the kmalloc'ed buffers *)
  f_pos : gmap Z Z;                      (* positions of the log files *)
  d_fsdata : gmap Z ptr;                 (* dentry -> its private data *)
  dentry_infos : gmap Z path;            (* the allocated trfs_dentry_info: lower_path *)
  inode_infos : gmap Z ptr;              (* trfs_inode_info, by its vfs_inode: lower_inode *)
  private_data : gmap Z ptr;             (* file -> its private data *)
  file_infos : gmap Z trfs_file_info;    (* the allocated trfs_file_info *)
  trfs_dentry_cachep : ptr;
  trfs_inode_cachep : ptr;
}.

Definition set_trecord_id v m := KMem v (s_fs_info m) (sb_infos m) (kbufs m) (f_pos m)
  (d_fsdata m) (dentry_infos m) (inode_infos m) (private_data m) (file_infos m)
  (trfs_dentry_cachep m) (trfs_inode_cachep m).
Definition set_s_fs_info v m := KMem (trecord_id m) v (sb_infos m) (kbufs m) (f_pos m)
  (d_fsdata m) (dentry_infos m) (inode_infos m) (private_data m) (file_infos m)
  (trfs_dentry_cachep m) (trfs_inode_cachep m).
Definition set_sb_infos v m := KMem (trecord_id m) (s_fs_info m) v (kbufs m) (f_pos m)
  (d_fsdata m) (dentry_infos m) (inode_infos m) (private_data m) (file_infos m)
  (trfs_dentry_cachep m) (trfs_inode_cachep m).
Definition set_kbufs v m := KMem (trecord_id m) (s_fs_info m) (sb_infos m) v (f_pos m)
  (d_fsdata m) (dentry_infos m) (inode_infos m) (private_data m) (file_infos m)
  (trfs_dentry_cachep m) (trfs_inode_cachep m).
Definition set_f_pos v m := KMem (trecord_id m) (s_fs_info m) (sb_infos m) (kbufs m) v
  (d_fsdata m) (dentry_infos m) (inode_infos m) (private_data m) (file_infos m)
  (trfs_dentry_cachep m) (trfs_inode_cachep m).
Definition set_d_fsdata v m := KMem (trecord_id m) (s_fs_info m) (sb_infos m) (kbufs m) (f_pos m)
  v (dentry_infos m) (inode_infos m) (private_data m) (file_infos m)
  (trfs_dentry_cachep m) (trfs_inode_cachep m).
Definition set_dentry_infos v m := KMem (trecord_id m) (s_fs_info m) (sb_infos m) (kbufs m)
  (f_pos m) (d_fsdata m) v (inode_infos m) (private_data m) (file_infos m)
  (trfs_dentry_cachep m) (trfs_inode_cachep m).
Definition set_inode_infos v m := KMem (trecord_id m) (s_fs_info m) (sb_infos m) (kbufs m)
  (f_pos m) (d_fsdata m) (dentry_infos m) v (private_data m) (file_infos m)
  (trfs_dentry_cachep m) (trfs_inode_cachep m).
Definition set_private_data v m := KMem (trecord_id m) (s_fs_info m) (sb_infos m) (kbufs m)
  (f_pos m) (d_fsdata m) (dentry_infos m) (inode_infos m) v (file_infos m)
  (trfs_dentry_cachep m) (trfs_inode_cachep m).
Definition set_file_infos v m := KMem (trecord_id m) (s_fs_info m) (sb_infos m) (kbufs m)
  (f_pos m) (d_fsdata m) (dentry_infos m) (inode_infos m) (private_data m) v
  (trfs_dentry_cachep m) (trfs_inode_cachep m).
Definition set_dentry_cachep v m := KMem (trecord_id m) (s_fs_info m) (sb_infos m) (kbufs m)
  (f_pos m) (d_fsdata m) (dentry_infos m) (inode_infos m) (private_data m) (file_infos m)
  v (trfs_inode_cachep m).
Definition set_inode_cachep v m := KMem (trecord_id m) (s_fs_info m) (sb_infos m) (kbufs m)
  (f_pos m) (d_fsdata m) (dentry_infos m) (inode_infos m) (private_data m) (file_infos m)
  (trfs_dentry_cachep m) v.

Definition ksig : sig := Sig kfun kreply kmem.
Abbreviation kprog := (prog ksig).
Abbreviation khist := (hist ksig).
Abbreviation kenv := (env ksig).
Abbreviation finished := (@Done ksig _).
Abbreviation died := (@Faulted ksig _).
Definition kdo (c : kfun) : kprog (kreply c) := kcall (S := ksig) c.

(** A pointer or number used as a condition. *)
Definition nonzero (z : Z) : bool := bool_decide (z <> 0).

(** ** Dereferencing pointers *)

Definition check_ptr (p : ptr) : kprog unit :=
  if decide (p = NULL) then Fault NullDeref
  else if IS_ERR p then Fault ErrDeref else Ret tt.

(** [obj->f] and [obj->f = v]. *)
Definition ld (f : kfield) (obj : ptr) : kprog Z := check_ptr obj;; kdo (load f obj).
Definition st (f : kfield) (obj : ptr) (v : Z) : kprog unit :=
  check_ptr obj;; kdo (store f obj v).
Definition d_inode (d : ptr) : kprog ptr := ld F_d_inode d.

(** Reading and writing an object of the module at a pointer. *)
Definition heap_get {V} (heap : kmem -> gmap Z V) (p : ptr) : kprog V :=
  check_ptr p;; o ← gets (S := ksig) (fun m => heap m !! p); deref UseAfterFree o.
Definition heap_set {V} (heap : kmem -> gmap Z V) (set : gmap Z V -> kmem -> kmem)
    (p : ptr) (v : V) : kprog unit :=
  _ ← heap_get heap p; modify (S := ksig) (fun m => set (<[p := v]> (heap m)) m).

(** A pointer field of a kernel object that the module owns. *)
Definition field_get (fld : kmem -> gmap Z ptr) (obj : ptr) : kprog ptr :=
  check_ptr obj;; gets (S := ksig) (fun m => default NULL (fld m !! obj)).
Definition field_set (fld : kmem -> gmap Z ptr) (set : gmap Z ptr -> kmem -> kmem)
    (obj p : ptr) : kprog unit :=
  check_ptr obj;; modify (S := ksig) (fun m => set (<[obj := p]> (fld m)) m).

(** Releasing an object: the pointer to it is left as it is. *)
Definition heap_del {V} (heap : kmem -> gmap Z V) (set : gmap Z V -> kmem -> kmem)
    (p : ptr) : kprog unit :=
  modify (S := ksig) (fun m => set (delete p (heap m)) m).
Definition heap_new {V} (heap : kmem -> gmap Z V) (set : gmap Z V -> kmem -> kmem)
    (p : ptr) (v : V) : kprog unit :=
  modify (S := ksig) (fun m => set (<[p := v]> (heap m)) m).

(** [err = p; if (err) goto out; q]. *)
Definition or_out (p q : kprog Z) : kprog Z :=
  err ← p; if decide (err <> 0) then mret err else q.
Infix ">>?" := or_out (at level 62, right associativity).

(** [memcpy], [strcpy] or an assignment into a heap buffer of the module. *)
Definition write_kbuf (p : ptr) (off : Z) (data : bytes) : kprog unit :=
  buf ← heap_get kbufs p;
  if decide (0 <= off /\ off + Z.of_nat (length data) <= Z.of_nat (length buf))
  then heap_set kbufs set_kbufs p (splice buf (Z.to_nat off) data)
  else Fault OutOfBounds.

(** ** Private data of objects *)

(** [TRFS_SB(sb)], [TRFS_D(dent)], [TRFS_F(file)]: the pointers. *)
Definition TRFS_SB (sb : ptr) : kprog ptr := field_get s_fs_info sb.
Definition TRFS_D (dent : ptr) : kprog ptr := field_get d_fsdata dent.
Definition TRFS_F (file : ptr) : kprog ptr := field_get private_data file.

(** [*TRFS_SB(sb)] read, and written back changed. *)
Definition sb_info (sb : ptr) : kprog trfs_sb_info :=
  p ← TRFS_SB sb; heap_get sb_infos p.
Definition set_sb_info (sb : ptr) (f : trfs_sb_info -> trfs_sb_info) : kprog unit :=
  p ← TRFS_SB sb; si ← heap_get sb_infos p; heap_set sb_infos set_sb_infos p (f si).

Definition TRFS_PAGE (sb : ptr) : kprog ptr := tr_page <$> sb_info sb.

(** ** Lower objects *)

Definition trfs_lower_file (f : ptr) : kprog ptr :=
  p ← TRFS_F f; lower_file <$> heap_get file_infos p.

Definition trfs_set_lower_file (f val : ptr) : kprog unit :=
  p ← TRFS_F f; fi ← heap_get file_infos p;
  heap_set file_infos set_file_infos p (FileInfo val (lower_vm_ops fi)).

(** [TRFS_I(inode)] is found by [container_of]: it exists whenever the inode
    does, and starts out cleared. *)
Definition trfs_lower_inode (i : ptr) : kprog ptr := field_get inode_infos i.

Definition trfs_set_lower_inode (i val : ptr) : kprog unit :=
  field_set inode_infos set_inode_infos i val.

Definition trfs_lower_super (sb : ptr) : kprog ptr := lower_sb <$> sb_info sb.

Definition trfs_set_lower_super (sb val : ptr) : kprog unit :=
  set_sb_info sb (fun si => SbInfo val (tr_lower_filep si) (tr_page si) (umask si)).

(** ** Lower paths, under the dentry's spin lock *)

Definition trfs_get_lower_path (dent : ptr) : kprog path :=
  info ← TRFS_D dent; check_ptr info;;
  kdo (spin_lock info);;
  lower_path ← heap_get dentry_infos info;
  kdo (path_get lower_path);;
  kdo (spin_unlock info);;
  mret lower_path.

Definition trfs_put_lower_path (dent : ptr) (lower_path : path) : kprog unit :=
  kdo (path_put lower_path).

Definition trfs_set_lower_path (dent : ptr) (lower_path : path) : kprog unit :=
  info ← TRFS_D dent; check_ptr info;;
  kdo (spin_lock info);;
  heap_set dentry_infos set_dentry_infos info lower_path;;
  kdo (spin_unlock info).

Definition trfs_reset_lower_path (dent : ptr) : kprog unit :=
  info ← TRFS_D dent; check_ptr info;;
  kdo (spin_lock info);;
  heap_set dentry_infos set_dentry_infos info (Path NULL NULL);;
  kdo (spin_unlock info).

Definition trfs_put_reset_lower_path (dent : ptr) : kprog unit :=
  info ← TRFS_D dent; check_ptr info;;
  kdo (spin_lock info);;
  lower_path ← heap_get dentry_infos info;
  heap_set dentry_infos set_dentry_infos info (Path NULL NULL);;
  kdo (spin_unlock info);;
  kdo (path_put lower_path).

(** ** Locking helpers *)

Definition lock_parent (dentry : ptr) : kprog ptr :=
  dir ← kdo (dget_parent dentry);
  i ← d_inode dir;
  kdo (inode_lock_nested i);;
  mret dir.

Definition unlock_dir (dir : ptr) : kprog unit :=
  i ← d_inode dir;
  kdo (inode_unlock i);;
  kdo (dput dir).
