(* ===== verification/Lookup.v ===== *)
(** * Dentry private data, inodes and lookup ([trfs/lookup.c]) *)

From S2P Require Import Prelude Prog TrTypes Kernel TrfsH.

(** ** Constants of the VFS and addresses of the operation tables *)

Definition S_IFMT : Z := 61440.
Definition S_IFSOCK : Z := 49152.
Definition S_IFLNK : Z := 40960.
Definition S_IFBLK : Z := 24576.
Definition S_IFDIR : Z := 16384.
Definition S_IFCHR : Z := 8192.
Definition S_IFIFO : Z := 4096.
Definition is_type (fmt mode : Z) : bool := bool_decide (Z.land mode S_IFMT = fmt).

Definition I_NEW : Z := 8.
Definition LOOKUP_CREATE : Z := 512.
Definition LOOKUP_RENAME_TARGET : Z := 2048.

Definition trfs_dir_iops : ptr := 4097.
Definition trfs_symlink_iops : ptr := 4098.
Definition trfs_main_iops : ptr := 4099.
Definition trfs_dir_fops : ptr := 4100.
Definition trfs_main_fops : ptr := 4101.
Definition trfs_aops : ptr := 4102.
Definition trfs_vm_ops : ptr := 4103.
Definition trfs_dops : ptr := 4104.
Definition trfs_sops : ptr := 4105.
Definition trfs_export_ops : ptr := 4106.

(** ** The dentry cache *)

Definition trfs_init_dentry_cache : kprog Z :=
  c ← kdo (kmem_cache_create (lit "trfs_dentry"));
  modify (S := ksig) (set_dentry_cachep c);;
  mret (if decide (c <> NULL) then 0 else - ENOMEM).

Definition trfs_destroy_dentry_cache : kprog unit :=
  c ← gets (S := ksig) trfs_dentry_cachep;
  when (nonzero c) (kdo (kmem_cache_destroy c)).

Definition free_dentry_private_data (dentry : ptr) : kprog unit :=
  if decide (dentry = NULL) then mret tt else
  info ← field_get d_fsdata dentry;
  if decide (info = NULL) then mret tt else
  c ← gets (S := ksig) trfs_dentry_cachep;
  kdo (kmem_cache_free c info);;
  heap_del dentry_infos set_dentry_infos info;;
  field_set d_fsdata set_d_fsdata dentry NULL.

(** The cleared object has an empty lower path. *)
Definition new_dentry_private_data (dentry : ptr) : kprog Z :=
  c ← gets (S := ksig) trfs_dentry_cachep;
  info ← kdo (kmem_cache_zalloc c);
  if decide (info = NULL) then mret (- ENOMEM) else
  heap_new dentry_infos set_dentry_infos info (Path NULL NULL);;
  kdo (spin_lock_init info);;
  field_set d_fsdata set_d_fsdata dentry info;;
  mret 0.

(** ** Inodes *)

(** The two callbacks given to [iget5_locked]. *)
Definition trfs_inode_test (inode candidate_lower_inode : ptr) : kprog Z :=
  current_lower_inode ← trfs_lower_inode inode;
  mret (if decide (current_lower_inode = candidate_lower_inode) then 1 else 0).

Definition trfs_inode_set (inode lower_inode : ptr) : kprog Z := mret 0.

(** Which inode and file operations an inode gets, by its file type. *)
Definition iops_for (mode : Z) : ptr :=
  if is_type S_IFDIR mode then trfs_dir_iops
  else if is_type S_IFLNK mode then trfs_symlink_iops
  else trfs_main_iops.
Definition fops_for (mode : Z) : ptr :=
  if is_type S_IFDIR mode then trfs_dir_fops else trfs_main_fops.
Definition is_special (mode : Z) : bool :=
  is_type S_IFBLK mode || is_type S_IFCHR mode || is_type S_IFIFO mode || is_type S_IFSOCK mode.

(** The part of [trfs_iget] that sets up a new inode.  The mode of the lower
    inode, whose file type never changes, is read once. *)
Definition init_inode (inode lower_inode : ptr) : kprog ptr :=
  ino ← ld F_i_ino lower_inode;
  st F_i_ino inode ino;;
  g ← kdo (igrab lower_inode);
  if decide (g = NULL) then mret (ERR_PTR (- ESTALE)) else
  trfs_set_lower_inode inode lower_inode;;
  version ← ld F_i_version inode;
  st F_i_version inode (version + 1);;
  mode ← ld F_i_mode lower_inode;
  st F_i_op inode (iops_for mode);;
  st F_i_fop inode (fops_for mode);;
  mapping ← ld F_i_mapping inode;
  st F_a_ops mapping trfs_aops;;
  st F_i_atime inode 0;;
  st F_i_mtime inode 0;;
  st F_i_ctime inode 0;;
  when (is_special mode)
    (rdev ← ld F_i_rdev lower_inode; kdo (init_special_inode inode mode rdev));;
  kdo (fsstack_copy_attr_all inode lower_inode);;
  kdo (fsstack_copy_inode_size inode lower_inode);;
  kdo (unlock_new_inode inode);;
  mret inode.

Definition trfs_iget (sb lower_inode : ptr) : kprog ptr :=
  hashval ← ld F_i_ino lower_inode;
  inode ← kdo (iget5_locked sb hashval lower_inode);
  if decide (inode = NULL) then
    kdo (iput lower_inode);;
    mret (ERR_PTR (- EACCES))
  else
  state ← ld F_i_state inode;
  if decide (Z.land state I_NEW = 0) then mret inode else
  init_inode inode lower_inode.

(** ** Interposition *)

Definition __trfs_interpose (dentry sb : ptr) (lower_path : path) : kprog ptr :=
  lower_inode ← d_inode (p_dentry lower_path);
  lower_sb ← trfs_lower_super sb;
  i_sb ← ld F_i_sb lower_inode;
  if decide (i_sb <> lower_sb) then mret (ERR_PTR (- EXDEV)) else
  inode ← trfs_iget sb lower_inode;
  if IS_ERR inode then mret (ERR_PTR (PTR_ERR inode)) else
  kdo (d_splice_alias inode dentry).

(** The pointer is turned into an [int] whether or not it is an error. *)
Definition trfs_interpose (dentry sb : ptr) (lower_path : path) : kprog Z :=
  ret_dentry ← __trfs_interpose dentry sb lower_path;
  mret (int32 (PTR_ERR ret_dentry)).

(** ** Lookup *)

(** The lower dentry of a name that does not exist: found in the dentry cache,
    or allocated and added as a negative one. *)
Definition negative_dentry (lower_dir_dentry : ptr) (name : bytes) : kprog ptr :=
  lower_dentry ← kdo (d_lookup lower_dir_dentry name);
  if decide (lower_dentry <> NULL) then mret lower_dentry else
  lower_dentry ← kdo (d_alloc lower_dir_dentry name);
  if decide (lower_dentry = NULL) then mret NULL else
  kdo (d_add lower_dentry NULL);;
  mret lower_dentry.

Definition __trfs_lookup (dentry : ptr) (flags : Z) (lower_parent_path : path) : kprog ptr :=
  kdo (d_set_d_op dentry trfs_dops);;
  root ← kdo (is_root dentry);
  if (root : bool) then mret NULL else
  name ← kdo (d_name dentry);
  '(err, lower_path) ← kdo (vfs_path_lookup (p_dentry lower_parent_path) (p_mnt lower_parent_path) name 0);
  if decide (err = 0) then
    trfs_set_lower_path dentry lower_path;;
    d_sb ← ld F_d_sb dentry;
    ret_dentry ← __trfs_interpose dentry d_sb lower_path;
    if IS_ERR ret_dentry then
      let err := int32 (PTR_ERR ret_dentry) in
      trfs_put_reset_lower_path dentry;;
      mret (ERR_PTR err)
    else mret ret_dentry
  else if decide (err <> - ENOENT) then mret (ERR_PTR err) else
  lower_dentry ← negative_dentry (p_dentry lower_parent_path) name;
  if decide (lower_dentry = NULL) then mret (ERR_PTR (- ENOMEM)) else
  mnt ← kdo (mntget (p_mnt lower_parent_path));
  trfs_set_lower_path dentry (Path lower_dentry mnt);;
  if decide (err = - ENOENT \/ Z.land flags (Z.lor LOOKUP_CREATE LOOKUP_RENAME_TARGET) <> 0)
  then mret NULL
  else mret (ERR_PTR err).

Definition trfs_lookup (dir dentry : ptr) (flags : Z) : kprog ptr :=
  parent ← kdo (dget_parent dentry);
  lower_parent_path ← trfs_get_lower_path parent;
  err ← new_dentry_private_data dentry;
  ret ← (if decide (err <> 0) then mret (ERR_PTR err) else
    ret ← __trfs_lookup dentry flags lower_parent_path;
    if IS_ERR ret then mret ret else
    let dentry := if decide (ret <> NULL) then ret else dentry in
    inode ← d_inode dentry;
    when (nonzero inode)
      (lower ← trfs_lower_inode inode; kdo (fsstack_copy_attr_times inode lower));;
    pinode ← d_inode parent;
    plower ← trfs_lower_inode pinode;
    kdo (fsstack_copy_attr_atime pinode plower);;
    mret ret);
  trfs_put_lower_path parent lower_parent_path;;
  kdo (dput parent);;
  mret ret.
