(* ===== verification/Trdump.v ===== *)
(** * Filling and appending trace records ([trfs/trdump.c]) *)

From S2P Require Import Prelude Prog TrTypes Kernel TrfsH.

Definition TRFS_NAME : bytes := lit "trfs".

(** ** Definitions *)

(** [SAFE_FREE_PAGE(p)]; the pointer variable it clears is not used again. *)
Definition SAFE_FREE_PAGE (p : ptr) : kprog unit :=
  when (bool_decide (p <> NULL)) (kdo (free_page p)).

(** [atomic_inc_return(&trecord_id)]: one indivisible step. *)
Definition atomic_inc_return_trecord_id : kprog Z :=
  Act (S := ksig)
    (fun m => let v := int32 (trecord_id m + 1) in (v, set_trecord_id v m)) (fun v => Ret v).

(** [strlen] of a string the kernel handed out: reading it through an error
    pointer kills the machine. *)
Definition c_strlen (s : buffer) : kprog Z :=
  check_ptr (b_ptr s);; mret (strlen (b_data s)).

(** [RECORD_SIZE(record)] and [RECORD_SIZE_AUX(record)], assigned to a [short]. *)
Definition RECORD_SIZE (r : tr_record) : Z :=
  uint64 (sizeof_tr_record + path_len r - sizeof_ptr - sizeof_ptr).
Definition RECORD_SIZE_AUX (r : tr_record) : Z :=
  uint64 (sizeof_tr_record + path_len r + aux_len r - sizeof_ptr - sizeof_ptr).

(** The [cleanup] label. *)
Definition fill_cleanup (pathname aux_pathname : ptr) (ret : Z) (record : tr_record)
    : kprog (Z * tr_record) :=
  when (bool_decide (ret <> 0)) (SAFE_FREE_PAGE pathname;; SAFE_FREE_PAGE aux_pathname);;
  mret (ret, record).

(** The [switch] that fills the auxiliary part and the size. *)
Definition fill_aux (type : Z) (aux : buffer) (aux_len : Z) (aux_pathname : ptr)
    (record : tr_record) : kprog tr_record :=
  match rec_type_of type with
  | Some FCREAT | Some DCREAT | Some UNLINK =>
      mret (set_rec_size (short (RECORD_SIZE record)) record)
  | Some FWRITE | Some SYMLINK =>
      let record := set_aux_len (short aux_len) (set_aux aux record) in
      mret (set_rec_size (short (RECORD_SIZE_AUX record)) record)
  | Some RENAME | Some LINK =>
      path ← kdo (dentry_path_raw (b_ptr aux) aux_pathname PAGE_SIZE);
      len ← c_strlen path;
      let record := set_aux_len (short len) (set_aux path record) in
      mret (set_rec_size (short (RECORD_SIZE_AUX record)) record)
  | _ => mret record
  end.

Definition fill_record (type : Z) (dentry : ptr) (flags perm_flags err : Z)
    (aux : buffer) (aux_len : Z) (record : tr_record) : kprog (Z * tr_record) :=
  if decide (type = 0) then mret (-1, record) else
  pathname ← kdo get_free_page;
  if decide (pathname = NULL) then fill_cleanup pathname NULL (- ENOMEM) record else
  aux_pathname ← kdo get_free_page;
  if decide (aux_pathname = NULL) then fill_cleanup pathname aux_pathname (- ENOMEM) record else
  rec_ID ← atomic_inc_return_trecord_id;
  path ← kdo (dentry_path_raw dentry pathname PAGE_SIZE);
  path_len ← c_strlen path;
  let record := TrRecord (uint32 rec_ID) (uint32 flags) (uint32 perm_flags) (int32 err)
                  0 (short path_len) (uint32 type) 0 path nullbuf in
  record ← fill_aux type aux aux_len aux_pathname record;
  fill_cleanup pathname aux_pathname 0 record.

(** The first [count] bytes of a buffer, or all of it when it is shorter. *)
Definition prefix_z (count : Z) (l : bytes) : bytes :=
  if decide (Z.of_nat (length l) <= count) then l else take (Z.to_nat count) l.

(** [kernel_write(file, buf, count, file->f_pos)] with the count converted to
    [size_t] and the answer to [int]; on a short or failed write the position
    stays and the result becomes -1. *)
Definition log_write (logfilp : ptr) (buf : bytes) (n : Z) : kprog Z :=
  pos ← heap_get f_pos logfilp;
  r ← kdo (kernel_write logfilp (prefix_z (uint64 n) buf) (uint64 n) pos);
  let ret := int32 r in
  if decide (ret <> n) then mret (-1) else
  heap_set f_pos set_f_pos logfilp (pos + ret);;
  mret ret.

(** The record's fixed part and its path go to the page buffer, and the page
    that held the path is freed.  (The code tests for a NULL path only after
    [strcpy] has read it.) *)
Definition copy_record (page : ptr) (rec_size_common : Z) (record : tr_record) : kprog unit :=
  src ← deref OutOfBounds (slice (struct_bytes record) 0 rec_size_common);
  write_kbuf page 0 src;;
  check_ptr (b_ptr (pathname record));;
  write_kbuf page rec_size_common (cstr (b_data (pathname record)) ++ [0]);;
  kdo (free_page (b_ptr (pathname record))).

(** The auxiliary part follows, straight from where it is. *)
Definition append_aux (logfilp : ptr) (record : tr_record) (ret : Z) : kprog Z :=
  if decide (aux_len record = 0) then
    bug_on (bool_decide (b_ptr (aux record) <> NULL));;
    mret ret
  else
  ret ← log_write logfilp (b_data (aux record)) (aux_len record);
  when (bool_decide (type record <> TR_FWRITE)) (kdo (free_page (b_ptr (aux record))));;
  mret ret.

Definition append_record (upper_sb : ptr) (record : tr_record) : kprog Z :=
  name ← kdo (s_type_name upper_sb);
  bug_on (negb (strcmp_eq name TRFS_NAME));;
  logfilp ← tr_lower_filep <$> sb_info upper_sb;
  let rec_size_common := short (rec_size record - path_len record - aux_len record) in
  bug_on (bool_decide (rec_size_common <= 0));;
  page ← TRFS_PAGE upper_sb;
  copy_record page rec_size_common record;;
  buf ← heap_get kbufs page;
  ret ← log_write logfilp buf (rec_size record - aux_len record);
  append_aux logfilp record ret.

(** The block every logging handler repeats after its [out] label.  The super
    block is computed anew at each of its uses, as the handlers write it.  First
    the part under the mutex: *)
Definition log_locked (get_sb : kprog ptr) (op : Z) (dentry : ptr) (flags perm_flags err : Z)
    (aux : buffer) (aux_len : Z) : kprog unit :=
  sb ← get_sb; si ← sb_info sb;
  let record_type := uint32 (Z.land op (umask si)) in
  '(ret, tr_rec) ← fill_record record_type dentry flags perm_flags err aux aux_len zero_record;
  when (bool_decide (ret = 0)) (sb ← get_sb; append_record sb tr_rec;; mret tt);;
  sb ← get_sb; lock ← TRFS_SB sb; check_ptr lock;;
  kdo (mutex_unlock lock).

Definition log_op (get_sb : kprog ptr) (op : Z) (dentry : ptr) (flags perm_flags err : Z)
    (aux : buffer) (aux_len : Z) : kprog unit :=
  sb ← get_sb; lock ← TRFS_SB sb; check_ptr lock;;
  kdo (mutex_lock lock);;
  log_locked get_sb op dentry flags perm_flags err aux aux_len.
