(* ===== verification/Inode.v ===== *)
(** * Inode operations ([trfs/inode.c])

    Each handler finds the lower objects, locks the lower parent, lets the
    lower file system do the work, refreshes the upper inode, logs what was
    done, and releases what it took.  The parts between the call on the lower
    file system and the [out] label are chained with [>>?]. *)

From S2P Require Import Prelude Prog TrTypes Kernel TrfsH Lookup Trdump.

Definition DCACHE_NFSFS_RENAMED : Z := 4096.
Definition ATTR_MODE : Z := 1.
Definition ATTR_SIZE : Z := 8.
Definition ATTR_KILL_SUID : Z := 2048.
Definition ATTR_KILL_SGID : Z := 4096.
Definition ATTR_FILE : Z := 8192.

(** Sub-expressions the handlers repeat. *)
Definition i_sb (inode : ptr) : kprog ptr := ld F_i_sb inode.
Definition dentry_sb (dentry : ptr) : kprog ptr := i ← d_inode dentry; ld F_i_sb i.

(** [fsstack_copy_attr_times(dst, trfs_lower_inode(dst)); fsstack_copy_inode_size(dst,
    d_inode(lower_dir))]. *)
Definition copy_dir_attrs (dir lower_dir : ptr) : kprog unit :=
  l ← trfs_lower_inode dir;
  kdo (fsstack_copy_attr_times dir l);;
  i ← d_inode lower_dir;
  kdo (fsstack_copy_inode_size dir i).

(** [set_nlink(inode, lower->i_nlink)]. *)
Definition copy_nlink (inode lower : ptr) : kprog unit :=
  n ← ld F_i_nlink lower; kdo (set_nlink inode n).

(** ** Operations that change the name space *)

Definition trfs_create (dir dentry mode : Z) (want_excl : bool) : kprog Z :=
  lower_path ← trfs_get_lower_path dentry;
  let lower_dentry := p_dentry lower_path in
  lower_parent_dentry ← lock_parent lower_dentry;
  err ← ((i ← d_inode lower_parent_dentry;
          kdo (vfs_create i lower_dentry mode want_excl)) >>?
         (sb ← i_sb dir; trfs_interpose dentry sb lower_path) >>?
         (copy_dir_attrs dir lower_parent_dentry;; mret 0));
  log_op (i_sb dir) TR_FCREAT dentry 0 mode err nullbuf 0;;
  unlock_dir lower_parent_dentry;;
  trfs_put_lower_path dentry lower_path;;
  mret err.

Definition trfs_link (old_dentry dir new_dentry : ptr) : kprog Z :=
  old_inode ← d_inode old_dentry;
  file_size_save ← kdo (i_size_read old_inode);
  lower_old_path ← trfs_get_lower_path old_dentry;
  lower_new_path ← trfs_get_lower_path new_dentry;
  let lower_old_dentry := p_dentry lower_old_path in
  let lower_new_dentry := p_dentry lower_new_path in
  lower_dir_dentry ← lock_parent lower_new_dentry;
  err ← ((i ← d_inode lower_dir_dentry;
          kdo (vfs_link lower_old_dentry i lower_new_dentry)) >>?
         (lower_new ← d_inode lower_new_dentry;
          if decide (lower_new = NULL) then mret 0 else
          (sb ← i_sb dir; trfs_interpose new_dentry sb lower_new_path) >>?
          (lower_new ← d_inode lower_new_dentry;
           kdo (fsstack_copy_attr_times dir lower_new);;
           kdo (fsstack_copy_inode_size dir lower_new);;
           old_inode ← d_inode old_dentry;
           lower_old ← trfs_lower_inode old_inode;
           copy_nlink old_inode lower_old;;
           new_inode ← d_inode new_dentry;
           kdo (i_size_write new_inode file_size_save);;
           mret 0)));
  log_op (dentry_sb old_dentry) TR_LINK old_dentry 0 0 err (Buffer new_dentry []) 0;;
  unlock_dir lower_dir_dentry;;
  trfs_put_lower_path old_dentry lower_old_path;;
  trfs_put_lower_path new_dentry lower_new_path;;
  mret err.

Definition trfs_unlink (dir dentry : ptr) : kprog Z :=
  lower_dir_inode ← trfs_lower_inode dir;
  lower_path ← trfs_get_lower_path dentry;
  let lower_dentry := p_dentry lower_path in
  kdo (dget lower_dentry);;
  lower_dir_dentry ← lock_parent lower_dentry;
  err ← kdo (vfs_unlink lower_dir_inode lower_dentry);
  err ← (if decide (err = - EBUSY) then
           d_flags ← ld F_d_flags lower_dentry;
           mret (if decide (Z.land d_flags DCACHE_NFSFS_RENAMED <> 0) then 0 else err)
         else mret err);
  err ← (mret err >>?
         (kdo (fsstack_copy_attr_times dir lower_dir_inode);;
          kdo (fsstack_copy_inode_size dir lower_dir_inode);;
          inode ← d_inode dentry;
          lower_inode ← trfs_lower_inode inode;
          copy_nlink inode lower_inode;;
          ctime ← ld F_i_ctime dir;
          st F_i_ctime inode ctime;;
          kdo (d_drop dentry);;
          mret 0));
  log_op (i_sb dir) TR_UNLINK dentry 0 0 err nullbuf 0;;
  unlock_dir lower_dir_dentry;;
  kdo (dput lower_dentry);;
  trfs_put_lower_path dentry lower_path;;
  mret err.

(** The super block is reached through the inode of the new dentry. *)
Definition trfs_symlink (dir dentry : ptr) (symname : buffer) : kprog Z :=
  lower_path ← trfs_get_lower_path dentry;
  let lower_dentry := p_dentry lower_path in
  lower_parent_dentry ← lock_parent lower_dentry;
  err ← ((i ← d_inode lower_parent_dentry;
          kdo (vfs_symlink i lower_dentry (b_data symname))) >>?
         (sb ← i_sb dir; trfs_interpose dentry sb lower_path) >>?
         (copy_dir_attrs dir lower_parent_dentry;; mret 0));
  log_op (dentry_sb dentry) TR_SYMLINK dentry 0 0 err symname
    (int32 (strlen (b_data symname)));;
  unlock_dir lower_parent_dentry;;
  trfs_put_lower_path dentry lower_path;;
  mret err.

Definition trfs_mkdir (dir dentry mode : Z) : kprog Z :=
  lower_path ← trfs_get_lower_path dentry;
  let lower_dentry := p_dentry lower_path in
  lower_parent_dentry ← lock_parent lower_dentry;
  err ← ((i ← d_inode lower_parent_dentry; kdo (vfs_mkdir i lower_dentry mode)) >>?
         (sb ← i_sb dir; trfs_interpose dentry sb lower_path) >>?
         (copy_dir_attrs dir lower_parent_dentry;;
          l ← trfs_lower_inode dir;
          copy_nlink dir l;;
          mret 0));
  log_op (i_sb dir) TR_DCREAT dentry 0 mode err nullbuf 0;;
  unlock_dir lower_parent_dentry;;
  trfs_put_lower_path dentry lower_path;;
  mret err.

Definition trfs_rmdir (dir dentry : ptr) : kprog Z :=
  lower_path ← trfs_get_lower_path dentry;
  let lower_dentry := p_dentry lower_path in
  lower_dir_dentry ← lock_parent lower_dentry;
  err ← ((i ← d_inode lower_dir_dentry; kdo (vfs_rmdir i lower_dentry)) >>?
         (kdo (d_drop dentry);;
          inode ← d_inode dentry;
          when (nonzero inode) (kdo (clear_nlink inode));;
          i ← d_inode lower_dir_dentry;
          kdo (fsstack_copy_attr_times dir i);;
          kdo (fsstack_copy_inode_size dir i);;
          copy_nlink dir i;;
          mret 0));
  log_op (i_sb dir) TR_UNLINK dentry 0 0 err nullbuf 0;;
  unlock_dir lower_dir_dentry;;
  trfs_put_lower_path dentry lower_path;;
  mret err.

(** Device nodes are made but not logged. *)
Definition trfs_mknod (dir dentry mode dev : Z) : kprog Z :=
  lower_path ← trfs_get_lower_path dentry;
  let lower_dentry := p_dentry lower_path in
  lower_parent_dentry ← lock_parent lower_dentry;
  err ← ((i ← d_inode lower_parent_dentry; kdo (vfs_mknod i lower_dentry mode dev)) >>?
         (sb ← i_sb dir; trfs_interpose dentry sb lower_path) >>?
         (copy_dir_attrs dir lower_parent_dentry;; mret 0));
  unlock_dir lower_parent_dentry;;
  trfs_put_lower_path dentry lower_path;;
  mret err.

Definition trfs_rename (old_dir old_dentry new_dir new_dentry : ptr) : kprog Z :=
  lower_old_path ← trfs_get_lower_path old_dentry;
  lower_new_path ← trfs_get_lower_path new_dentry;
  let lower_old_dentry := p_dentry lower_old_path in
  let lower_new_dentry := p_dentry lower_new_path in
  lower_old_dir_dentry ← kdo (dget_parent lower_old_dentry);
  lower_new_dir_dentry ← kdo (dget_parent lower_new_dentry);
  trap ← kdo (lock_rename lower_old_dir_dentry lower_new_dir_dentry);
  err ← (if decide (trap = lower_old_dentry) then mret (- EINVAL) else
         if decide (trap = lower_new_dentry) then mret (- ENOTEMPTY) else
         (old_i ← d_inode lower_old_dir_dentry;
          new_i ← d_inode lower_new_dir_dentry;
          kdo (vfs_rename old_i lower_old_dentry new_i lower_new_dentry 0)) >>?
         (new_i ← d_inode lower_new_dir_dentry;
          kdo (fsstack_copy_attr_all new_dir new_i);;
          kdo (fsstack_copy_inode_size new_dir new_i);;
          when (negb (bool_decide (new_dir = old_dir)))
            (old_i ← d_inode lower_old_dir_dentry;
             kdo (fsstack_copy_attr_all old_dir old_i);;
             kdo (fsstack_copy_inode_size old_dir old_i));;
          mret 0));
  log_op (dentry_sb old_dentry) TR_RENAME old_dentry 0 0 err (Buffer new_dentry []) 0;;
  kdo (unlock_rename lower_old_dir_dentry lower_new_dir_dentry);;
  kdo (dput lower_old_dir_dentry);;
  kdo (dput lower_new_dir_dentry);;
  trfs_put_lower_path old_dentry lower_old_path;;
  trfs_put_lower_path new_dentry lower_new_path;;
  mret err.

(** ** Symbolic links *)

Definition trfs_readlink (dentry buf bufsiz : Z) : kprog Z :=
  lower_path ← trfs_get_lower_path dentry;
  let lower_dentry := p_dentry lower_path in
  inode ← d_inode lower_dentry;
  i_op ← ld F_i_op inode;
  readlink ← (if decide (i_op = NULL) then mret NULL else ld F_readlink i_op);
  err ← (if decide (readlink = NULL) then mret (- EINVAL) else
         err ← kdo (i_op_readlink lower_dentry buf bufsiz);
         if decide (err < 0) then mret err else
         upper ← d_inode dentry;
         lower ← d_inode lower_dentry;
         kdo (fsstack_copy_attr_atime upper lower);;
         mret err);
  trfs_put_lower_path dentry lower_path;;
  mret err.

Definition trfs_get_link (dentry inode done : ptr) : kprog ptr :=
  if decide (dentry = NULL) then mret (ERR_PTR (- ECHILD)) else
  '(buf, contents) ← kdo (kmalloc PAGE_SIZE);
  if decide (buf = NULL) then mret (ERR_PTR (- ENOMEM)) else
  heap_new kbufs set_kbufs buf contents;;
  old_fs ← kdo set_fs_kernel;
  err ← trfs_readlink dentry buf PAGE_SIZE;
  kdo (set_fs old_fs);;
  buf ← (if decide (err < 0) then
           kdo (kfree buf);; heap_del kbufs set_kbufs buf;; mret (ERR_PTR err)
         else write_kbuf buf err [0];; mret buf);
  kdo (set_delayed_call done buf);;
  mret buf.

(** ** Attributes *)

Definition trfs_permission (inode mask : Z) : kprog Z :=
  lower_inode ← trfs_lower_inode inode;
  kdo (inode_permission lower_inode mask).

(** The fields of [struct iattr] that the code looks at. *)
Record iattr := Iattr { ia_valid : Z; ia_size : Z; ia_file : ptr }.

Definition trfs_setattr (dentry : ptr) (ia : iattr) : kprog Z :=
  inode ← d_inode dentry;
  kdo (inode_change_ok inode (ia_valid ia)) >>?
  (lower_path ← trfs_get_lower_path dentry;
   let lower_dentry := p_dentry lower_path in
   lower_inode ← trfs_lower_inode inode;
   lower_file ← (if decide (Z.land (ia_valid ia) ATTR_FILE <> 0)
                 then trfs_lower_file (ia_file ia) else mret (ia_file ia));
   err ← ((if decide (Z.land (ia_valid ia) ATTR_SIZE <> 0) then
             kdo (inode_newsize_ok inode (ia_size ia)) >>?
             (kdo (truncate_setsize inode (ia_size ia));; mret 0)
           else mret 0) >>?
          (let valid := if decide (Z.land (ia_valid ia) (Z.lor ATTR_KILL_SUID ATTR_KILL_SGID) <> 0)
                        then Z.ldiff (ia_valid ia) ATTR_MODE else ia_valid ia in
           li ← d_inode lower_dentry;
           kdo (inode_lock li);;
           err ← kdo (notify_change lower_dentry valid (ia_size ia) lower_file);
           li ← d_inode lower_dentry;
           kdo (inode_unlock li);;
           mret err) >>?
          (kdo (fsstack_copy_attr_all inode lower_inode);; mret 0));
   trfs_put_lower_path dentry lower_path;;
   mret err).

Definition trfs_getattr (mnt dentry stat : ptr) : kprog Z :=
  lower_path ← trfs_get_lower_path dentry;
  '(err, lower_blocks) ← kdo (vfs_getattr lower_path);
  err ← (mret err >>?
         (upper ← d_inode dentry;
          lower ← d_inode (p_dentry lower_path);
          kdo (fsstack_copy_attr_all upper lower);;
          upper ← d_inode dentry;
          kdo (generic_fillattr upper stat);;
          st F_blocks stat lower_blocks;;
          mret 0));
  trfs_put_lower_path dentry lower_path;;
  mret err.

(** ** Extended attributes *)

(** [d_inode(lower_dentry)->i_op->method]. *)
Definition lower_iop (lower_dentry : ptr) (method : kfield) : kprog ptr :=
  inode ← d_inode lower_dentry;
  i_op ← ld F_i_op inode;
  ld method i_op.

(** Refreshing all attributes, or the access time, of the upper inode. *)
Definition copy_attr_all (dentry lower_dentry : ptr) : kprog Z :=
  upper ← d_inode dentry; lower ← d_inode lower_dentry;
  kdo (fsstack_copy_attr_all upper lower);; mret 0.
Definition copy_attr_atime (dentry lower_dentry : ptr) : kprog Z :=
  upper ← d_inode dentry; lower ← d_inode lower_dentry;
  kdo (fsstack_copy_attr_atime upper lower);; mret 0.

Definition trfs_setxattr (dentry : ptr) (name : bytes) (value size flags : Z) : kprog Z :=
  lower_path ← trfs_get_lower_path dentry;
  let lower_dentry := p_dentry lower_path in
  method ← lower_iop lower_dentry F_setxattr;
  err ← (if decide (method = NULL) then mret (- EOPNOTSUPP) else
         kdo (vfs_setxattr lower_dentry name value size flags) >>?
         copy_attr_all dentry lower_dentry);
  trfs_put_lower_path dentry lower_path;;
  mret err.

(** The count of bytes [vfs_getxattr] and [vfs_listxattr] answer is taken for an
    error, so the access time is refreshed only when it is zero. *)
Definition trfs_getxattr (dentry : ptr) (name : bytes) (buf size : Z) : kprog Z :=
  lower_path ← trfs_get_lower_path dentry;
  let lower_dentry := p_dentry lower_path in
  method ← lower_iop lower_dentry F_getxattr;
  err ← (if decide (method = NULL) then mret (- EOPNOTSUPP) else
         (r ← kdo (vfs_getxattr lower_dentry name buf size); mret (int32 r)) >>?
         copy_attr_atime dentry lower_dentry);
  trfs_put_lower_path dentry lower_path;;
  mret err.

Definition trfs_listxattr (dentry buf buffer_size : Z) : kprog Z :=
  lower_path ← trfs_get_lower_path dentry;
  let lower_dentry := p_dentry lower_path in
  method ← lower_iop lower_dentry F_listxattr;
  err ← (if decide (method = NULL) then mret (- EOPNOTSUPP) else
         (r ← kdo (vfs_listxattr lower_dentry buf buffer_size); mret (int32 r)) >>?
         copy_attr_atime dentry lower_dentry);
  trfs_put_lower_path dentry lower_path;;
  mret err.

Definition trfs_removexattr (dentry : ptr) (name : bytes) : kprog Z :=
  lower_path ← trfs_get_lower_path dentry;
  let lower_dentry := p_dentry lower_path in
  inode ← d_inode lower_dentry;
  i_op ← ld F_i_op inode;
  method ← (if decide (i_op = NULL) then mret NULL else ld F_removexattr i_op);
  err ← (if decide (method = NULL) then mret (- EINVAL) else
         kdo (vfs_removexattr lower_dentry name) >>?
         copy_attr_all dentry lower_dentry);
  trfs_put_lower_path dentry lower_path;;
  mret err.
