(* ===== verification/FileOps.v ===== *)
(** * File operations ([trfs/file.c]) and the page-fault handlers ([trfs/mmap.c]) *)

From S2P Require Import Prelude Prog TrTypes Kernel TrfsH Lookup Trdump Inode.

Definition VM_SHARED : Z := 8.
Definition VM_WRITE : Z := 2.
Definition sizeof_file_info : Z := 16.

(** [file->f_path.dentry] and [file_inode(file)]. *)
Definition file_dentry (file : ptr) : kprog ptr := ld F_f_dentry file.
Definition file_inode (file : ptr) : kprog ptr := ld F_f_inode file.

(** A [ssize_t] answer kept in an [int]. *)
Definition as_int (p : kprog Z) : kprog Z := r ← p; mret (int32 r).

(** ** Reading and writing *)

Definition trfs_read (file buf count ppos : Z) : kprog Z :=
  dentry ← file_dentry file;
  lower_file ← trfs_lower_file file;
  err ← as_int (kdo (vfs_read lower_file buf count ppos));
  when (bool_decide (0 <= err))
    (inode ← d_inode dentry;
     lower_inode ← file_inode lower_file;
     kdo (fsstack_copy_attr_atime inode lower_inode));;
  mret err.

Definition copy_size_times (dentry lower_file : ptr) : kprog unit :=
  inode ← d_inode dentry;
  lower_inode ← file_inode lower_file;
  kdo (fsstack_copy_inode_size inode lower_inode);;
  kdo (fsstack_copy_attr_times inode lower_inode).

(** The whole count is logged, whatever was written; it is converted to [int]
    on its way to [fill_record]. *)
Definition trfs_write (file : ptr) (buf : buffer) (count ppos : Z) : kprog Z :=
  dentry ← file_dentry file;
  lower_file ← trfs_lower_file file;
  err ← as_int (kdo (vfs_write lower_file (b_ptr buf) count ppos));
  when (bool_decide (0 <= err)) (copy_size_times dentry lower_file);;
  f_flags ← ld F_f_flags file;
  log_op (dentry_sb dentry) TR_FWRITE dentry f_flags 0 err buf (int32 count);;
  mret err.

Definition trfs_readdir (file ctx : ptr) : kprog Z :=
  dentry ← file_dentry file;
  lower_file ← trfs_lower_file file;
  err ← kdo (iterate_dir lower_file ctx);
  pos ← ld F_f_pos lower_file;
  st F_f_pos file pos;;
  when (bool_decide (0 <= err))
    (inode ← d_inode dentry;
     lower_inode ← file_inode lower_file;
     kdo (fsstack_copy_attr_atime inode lower_inode));;
  mret err.

(** ** Control *)

(** [lower_file && lower_file->f_op && lower_file->f_op->method]: the method,
    or NULL. *)
Definition file_op (lower_file : ptr) (method : kfield) : kprog ptr :=
  if decide (lower_file = NULL) then mret NULL else
  f_op ← ld F_f_op lower_file;
  if decide (f_op = NULL) then mret NULL else
  ld method f_op.

Definition trfs_unlocked_ioctl (file cmd arg : Z) : kprog Z :=
  lower_file ← trfs_lower_file file;
  f_op ← (if decide (lower_file = NULL) then mret NULL else ld F_f_op lower_file);
  if decide (f_op = NULL) then mret (- ENOTTY) else
  method ← ld F_unlocked_ioctl f_op;
  err ← (if decide (method <> NULL)
         then kdo (file_method F_unlocked_ioctl lower_file [cmd; arg]) else mret (- ENOTTY));
  when (bool_decide (err = 0))
    (inode ← file_inode file;
     lower_inode ← file_inode lower_file;
     kdo (fsstack_copy_attr_all inode lower_inode));;
  mret err.

Definition trfs_compat_ioctl (file cmd arg : Z) : kprog Z :=
  lower_file ← trfs_lower_file file;
  method ← file_op lower_file F_compat_ioctl;
  if decide (method <> NULL)
  then kdo (file_method F_compat_ioctl lower_file [cmd; arg]) else mret (- ENOTTY).

Definition trfs_flush (file id : ptr) : kprog Z :=
  lower_file ← trfs_lower_file file;
  method ← file_op lower_file F_flush;
  if decide (method <> NULL) then
    mapping ← ld F_f_mapping file;
    kdo (filemap_write_and_wait mapping);;
    kdo (file_method F_flush lower_file [id])
  else mret 0.

Definition trfs_fsync (file start finish datasync : Z) : kprog Z :=
  dentry ← file_dentry file;
  kdo (generic_file_fsync file start finish datasync) >>?
  (lower_file ← trfs_lower_file file;
   lower_path ← trfs_get_lower_path dentry;
   err ← kdo (vfs_fsync_range lower_file start finish datasync);
   trfs_put_lower_path dentry lower_path;;
   mret err).

Definition trfs_fasync (fd file flag : Z) : kprog Z :=
  lower_file ← trfs_lower_file file;
  f_op ← ld F_f_op lower_file;
  method ← (if decide (f_op = NULL) then mret NULL else ld F_fasync f_op);
  if decide (method <> NULL) then kdo (file_method F_fasync lower_file [fd; flag])
  else mret 0.

(** Both offsets move; the answer is the lower one, kept in an [int]. *)
Definition trfs_file_llseek (file offset whence : Z) : kprog Z :=
  err ← as_int (kdo (generic_file_llseek file offset whence));
  if decide (err < 0) then mret err else
  lower_file ← trfs_lower_file file;
  as_int (kdo (generic_file_llseek lower_file offset whence)).

(** ** Memory mapping *)

Definition trfs_mmap (file vma : ptr) : kprog Z :=
  vm_flags ← ld F_vm_flags vma;
  let willwrite := bool_decide (Z.lor (Z.lor vm_flags VM_SHARED) VM_WRITE = vm_flags) in
  lower_file ← trfs_lower_file file;
  writepage ← (if willwrite then
                 mapping ← ld F_f_mapping lower_file;
                 a_ops ← ld F_a_ops mapping;
                 ld F_writepage a_ops
               else mret 1);
  if decide (writepage = NULL) then mret (- EINVAL) else
  p ← TRFS_F file;
  fi ← heap_get file_infos p;
  '(err, saved_vm_ops) ←
    (if decide (lower_vm_ops fi = NULL) then
       f_op ← ld F_f_op lower_file;
       method ← ld F_mmap f_op; check_ptr method;;
       err ← kdo (file_method F_mmap lower_file [vma]);
       if decide (err <> 0) then mret (err, NULL) else
       ops ← ld F_vm_ops vma;
       mret (err, ops)
     else mret (0, NULL));
  if decide (err <> 0) then mret err else
  kdo (file_accessed file);;
  st F_vm_ops vma trfs_vm_ops;;
  mapping ← ld F_f_mapping file;
  st F_a_ops mapping trfs_aops;;
  fi ← heap_get file_infos p;
  (if decide (lower_vm_ops fi = NULL)
   then heap_set file_infos set_file_infos p (FileInfo (TrfsH.lower_file fi) saved_vm_ops)
   else mret tt);;
  mret err.

(** The fault handlers give the lower one a copy of the area that refers to
    the lower file; the caller's area is never changed. *)
Definition trfs_fault (vma vmf : ptr) : kprog Z :=
  file ← ld F_vm_file vma;
  p ← TRFS_F file;
  fi ← heap_get file_infos p;
  bug_on (bool_decide (lower_vm_ops fi = NULL));;
  lower_file ← trfs_lower_file file;
  method ← ld F_fault (lower_vm_ops fi); check_ptr method;;
  kdo (file_method F_fault (lower_vm_ops fi) [vma; lower_file; vmf]).

Definition trfs_page_mkwrite (vma vmf : ptr) : kprog Z :=
  file ← ld F_vm_file vma;
  p ← TRFS_F file;
  fi ← heap_get file_infos p;
  bug_on (bool_decide (lower_vm_ops fi = NULL));;
  method ← ld F_page_mkwrite (lower_vm_ops fi);
  if decide (method = NULL) then mret 0 else
  lower_file ← trfs_lower_file file;
  kdo (file_method F_page_mkwrite (lower_vm_ops fi) [vma; lower_file; vmf]).

Definition trfs_direct_IO (iocb iter pos : Z) : kprog Z := mret (- EINVAL).

(** ** Opening and releasing *)

Definition trfs_open (inode file : ptr) : kprog Z :=
  dentry ← file_dentry file;
  unhashed ← kdo (d_unhashed dentry);
  if (unhashed : bool) then mret (- ENOENT) else
  p ← kdo (kzalloc sizeof_file_info);
  (if decide (p <> NULL) then heap_new file_infos set_file_infos p (FileInfo NULL NULL)
   else mret tt);;
  field_set private_data set_private_data file p;;
  if decide (p = NULL) then mret (- ENOMEM) else
  lower_path ← trfs_get_lower_path dentry;
  f_flags ← ld F_f_flags file;
  lower_file ← kdo (dentry_open lower_path f_flags);
  kdo (path_put lower_path);;
  err ← (if IS_ERR lower_file then
           let err := int32 (PTR_ERR lower_file) in
           lower_file ← trfs_lower_file file;
           when (nonzero lower_file)
             (trfs_set_lower_file file NULL;; kdo (fput lower_file));;
           mret err
         else trfs_set_lower_file file lower_file;; mret 0);
  (if decide (err <> 0) then
     p ← TRFS_F file; kdo (kfree p);; heap_del file_infos set_file_infos p
   else
     lower_inode ← trfs_lower_inode inode;
     kdo (fsstack_copy_attr_all inode lower_inode));;
  mret err.

Definition trfs_file_release (inode file : ptr) : kprog Z :=
  lower_file ← trfs_lower_file file;
  when (nonzero lower_file)
    (trfs_set_lower_file file NULL;; kdo (fput lower_file));;
  p ← TRFS_F file;
  kdo (kfree p);;
  heap_del file_infos set_file_infos p;;
  mret 0.

(** ** Vectored and asynchronous transfers *)

(** The control block refers to the lower file while the lower method runs. *)
Definition with_lower_iocb (iocb file lower_file iter : ptr) (method : kfield) : kprog Z :=
  kdo (get_file lower_file);;
  st F_ki_filp iocb lower_file;;
  err ← as_int (kdo (file_method method lower_file [iocb; iter]));
  st F_ki_filp iocb file;;
  kdo (fput lower_file);;
  mret err.

Definition trfs_read_iter (iocb iter : ptr) : kprog Z :=
  file ← ld F_ki_filp iocb;
  lower_file ← trfs_lower_file file;
  f_op ← ld F_f_op lower_file;
  method ← ld F_read_iter f_op;
  if decide (method = NULL) then mret (- EINVAL) else
  err ← with_lower_iocb iocb file lower_file iter F_read_iter;
  when (bool_decide (0 <= err \/ err = - EIOCBQUEUED))
    (dentry ← file_dentry file;
     inode ← d_inode dentry;
     lower_inode ← file_inode lower_file;
     kdo (fsstack_copy_attr_atime inode lower_inode));;
  mret err.

(** Writes through this path are not logged. *)
Definition trfs_write_iter (iocb iter : ptr) : kprog Z :=
  file ← ld F_ki_filp iocb;
  lower_file ← trfs_lower_file file;
  f_op ← ld F_f_op lower_file;
  method ← ld F_write_iter f_op;
  if decide (method = NULL) then mret (- EINVAL) else
  err ← with_lower_iocb iocb file lower_file iter F_write_iter;
  when (bool_decide (0 <= err \/ err = - EIOCBQUEUED))
    (dentry ← file_dentry file; copy_size_times dentry lower_file);;
  mret err.
