(* ===== verification/Super.v ===== *)
(** * Super block and dentry operations ([trfs/super.c], [trfs/dentry.c])

    What the VFS calls when a file system is unmounted, remounted or queried,
    when an inode or a dentry goes away, and when NFS looks up a file handle. *)

From S2P Require Import Prelude Prog TrTypes Kernel TrfsH Lookup.

Definition MS_RDONLY : Z := 1.
Definition MS_MANDLOCK : Z := 64.
Definition MS_SILENT : Z := 32768.
Definition LOOKUP_RCU : Z := 64.
Definition DCACHE_OP_REVALIDATE : Z := 4.

(** ** Unmounting *)

(** [SAFE_FILPCLOSE(filp)]. *)
Definition SAFE_FILPCLOSE (filp : ptr) : kprog unit :=
  when (nonzero filp && negb (IS_ERR filp)) (kdo (filp_close filp)).

(** [SAFE_REMOVE(filp)]: the file is unlinked from its directory. *)
Definition SAFE_REMOVE (filp : ptr) : kprog unit :=
  when (nonzero filp && negb (IS_ERR filp))
    (d ← ld F_f_dentry filp;
     parent ← ld F_d_parent d;
     dir ← d_inode parent;
     kdo (vfs_unlink dir d);;
     mret tt).

Definition trfs_put_super (sb : ptr) : kprog unit :=
  spd ← TRFS_SB sb;
  if decide (spd = NULL) then mret tt else
  logfilp ← tr_lower_filep <$> heap_get sb_infos spd;
  s ← trfs_lower_super sb;
  trfs_set_lower_super sb NULL;;
  check_ptr s;; kdo (s_active_dec s);;
  lock ← TRFS_SB sb; check_ptr lock;; kdo (mutex_destroy lock);;
  SAFE_REMOVE logfilp;;
  SAFE_FILPCLOSE logfilp;;
  page ← TRFS_PAGE sb;
  kdo (kfree page);; heap_del kbufs set_kbufs page;;
  kdo (kfree spd);; heap_del sb_infos set_sb_infos spd;;
  field_set s_fs_info set_s_fs_info sb NULL.

Definition trfs_umount_begin (sb : ptr) : kprog unit :=
  lower_sb ← trfs_lower_super sb;
  s_op ← (if decide (lower_sb = NULL) then mret NULL else ld F_s_op lower_sb);
  method ← (if decide (s_op = NULL) then mret NULL else ld F_umount_begin s_op);
  when (nonzero method) (kdo (file_method F_umount_begin lower_sb []);; mret tt).

(** ** Queries and options *)

(** The magic number is defined by the kernel's headers. *)
Definition trfs_statfs (TRFS_SUPER_MAGIC : Z) (dentry buf : ptr) : kprog Z :=
  lower_path ← trfs_get_lower_path dentry;
  err ← kdo (vfs_statfs lower_path buf);
  trfs_put_lower_path dentry lower_path;;
  st F_f_type buf TRFS_SUPER_MAGIC;;
  mret err.

Definition trfs_remount_fs (sb flags : Z) : kprog Z :=
  mret (if decide (Z.ldiff flags (Z.lor (Z.lor MS_RDONLY MS_MANDLOCK) MS_SILENT) <> 0)
        then - EINVAL else 0).

(** ** Inodes *)

Definition trfs_evict_inode (inode : ptr) : kprog unit :=
  kdo (truncate_inode_pages inode);;
  kdo (clear_inode inode);;
  lower_inode ← trfs_lower_inode inode;
  trfs_set_lower_inode inode NULL;;
  kdo (iput lower_inode).

(** The inode lies inside the private object, after the pointer to the lower
    one: [TRFS_I(inode)] is the object's address. *)
Definition vfs_inode (i : ptr) : ptr := i + sizeof_ptr.
Definition TRFS_I (inode : ptr) : ptr := inode - sizeof_ptr.

Definition trfs_alloc_inode (sb : ptr) : kprog ptr :=
  c ← gets (S := ksig) trfs_inode_cachep;
  i ← kdo (kmem_cache_alloc c);
  if decide (i = NULL) then mret NULL else
  trfs_set_lower_inode (vfs_inode i) NULL;;
  st F_i_version (vfs_inode i) 1;;
  mret (vfs_inode i).

Definition trfs_destroy_inode (inode : ptr) : kprog unit :=
  c ← gets (S := ksig) trfs_inode_cachep;
  kdo (kmem_cache_free c (TRFS_I inode));;
  heap_del inode_infos set_inode_infos inode.

Definition init_once (obj : ptr) : kprog unit := kdo (inode_init_once (vfs_inode obj)).

Definition trfs_init_inode_cache : kprog Z :=
  c ← kdo (kmem_cache_create (lit "trfs_inode_cache"));
  modify (S := ksig) (set_inode_cachep c);;
  mret (if decide (c = NULL) then - ENOMEM else 0).

Definition trfs_destroy_inode_cache : kprog unit :=
  c ← gets (S := ksig) trfs_inode_cachep;
  when (nonzero c) (kdo (kmem_cache_destroy c)).

(** ** File handles *)

(** The inode [ilookup] answers may be NULL; [trfs_iget] reads its number. *)
Definition trfs_nfs_get_inode (sb ino generation : Z) : kprog ptr :=
  lower_sb ← trfs_lower_super sb;
  lower_inode ← kdo (ilookup lower_sb ino);
  trfs_iget sb lower_inode.

Section FileHandles.
(** [generic_fh_to_dentry] and [generic_fh_to_parent] of [fs/libfs.c], given
    the function that finds an inode. *)
Variable generic_fh_to : ptr -> bytes -> Z -> (ptr -> Z -> Z -> kprog ptr) -> kprog ptr.

Definition trfs_fh_to_dentry (sb : ptr) (fid : bytes) (fh_type : Z) : kprog ptr :=
  generic_fh_to sb fid fh_type trfs_nfs_get_inode.
Definition trfs_fh_to_parent (sb : ptr) (fid : bytes) (fh_type : Z) : kprog ptr :=
  generic_fh_to sb fid fh_type trfs_nfs_get_inode.
End FileHandles.

(** ** Dentries *)

(** 1 tells the VFS that the dentry is valid, 0 that it is not. *)
Definition trfs_d_revalidate (dentry flags : Z) : kprog Z :=
  if decide (Z.land flags LOOKUP_RCU <> 0) then mret (- ECHILD) else
  lower_path ← trfs_get_lower_path dentry;
  let lower_dentry := p_dentry lower_path in
  d_flags ← ld F_d_flags lower_dentry;
  err ← (if decide (Z.land d_flags DCACHE_OP_REVALIDATE = 0) then mret 1 else
         d_op ← ld F_d_op lower_dentry;
         method ← ld F_d_revalidate d_op;
         check_ptr method;;
         kdo (file_method F_d_revalidate lower_dentry [flags]));
  trfs_put_lower_path dentry lower_path;;
  mret err.

Definition trfs_d_release (dentry : ptr) : kprog unit :=
  trfs_put_reset_lower_path dentry;;
  free_dentry_private_data dentry.
