(* ===== verification/Mount.v ===== *)
(** * Mounting, and loading the module ([trfs/main.c]) *)

From S2P Require Import Prelude Prog TrTypes Kernel TrfsH Lookup Super.

Definition TFILE_LEN : Z := 6.
Definition O_RDONLY : Z := 0.
Definition O_RDWR : Z := 2.
Definition O_CREAT : Z := 64.
Definition O_EXCL : Z := 128.
Definition S_IRUSR : Z := 256.
Definition LOOKUP_FOLLOW : Z := 1.
Definition LOOKUP_DIRECTORY : Z := 2.
Definition sizeof_sb_info : Z := 72.

(** [struct trfs_data]. *)
Record trfs_data := TrfsData {
  lower_path_name : buffer;
  trfs_option : buffer;
}.

(** ** The log file *)

Definition name_index (data : bytes) : Z :=
  if strncmp_eq 6 data (lit "tfile=") then TFILE_LEN else - EINVAL.

Definition SAFE_PUTNAME (name : ptr) : kprog unit :=
  when (nonzero name && negb (IS_ERR name)) (kdo (putname name)).

(** The name a [struct filename] holds is the string it was made from. *)
Definition create_trfile (raw_data : buffer) : kprog ptr :=
  if decide (b_ptr raw_data = NULL) then mret (ERR_PTR (- EINVAL)) else
  let index := name_index (b_data raw_data) in
  if decide (index <> TFILE_LEN) then mret (ERR_PTR index) else
  let pathname := cstr (drop (Z.to_nat TFILE_LEN) (b_data raw_data)) in
  logfile ← kdo (getname_kernel pathname);
  filep ← (if IS_ERR logfile then mret logfile else
           check_ptr logfile;;
           logfilp ← kdo (filp_open pathname (Z.lor (Z.lor O_CREAT O_RDWR) O_EXCL) S_IRUSR);
           if IS_ERR logfilp then mret logfilp else
           check_ptr logfilp;;
           modify (S := ksig) (fun m => set_f_pos (<[logfilp := 0]> (f_pos m)) m);;
           mret logfilp);
  SAFE_PUTNAME logfile;;
  mret filep.

(** ** Filling the super block *)

(** The labels at the end of [trfs_read_super], from the last to the first. *)
Definition out_free (lower_path : path) (err : Z) : kprog Z :=
  kdo (path_put lower_path);; mret err.

(** [kfree(TRFS_SB(sb))] *)
Definition out_fsi_free (sb : ptr) (lower_path : path) (err : Z) : kprog Z :=
  p ← TRFS_SB sb;
  kdo (kfree p);; heap_del sb_infos set_sb_infos p;;
  out_free lower_path err.

(** [kfree(TRFS_PAGE(sb))] *)
Definition out_fsp_free (sb : ptr) (lower_path : path) (err : Z) : kprog Z :=
  page ← TRFS_PAGE sb;
  kdo (kfree page);; heap_del kbufs set_kbufs page;;
  out_fsi_free sb lower_path err.

(** The private data is released and its pointer cleared, and control falls
    into the label that reads through the pointer. *)
Definition out_sput (sb lower_sb : ptr) (lower_path : path) (err : Z) : kprog Z :=
  kdo (s_active_dec lower_sb);;
  p ← TRFS_SB sb;
  kdo (kfree p);; heap_del sb_infos set_sb_infos p;;
  field_set s_fs_info set_s_fs_info sb NULL;;
  out_fsp_free sb lower_path err.

Definition out_iput (sb lower_sb inode : ptr) (lower_path : path) (err : Z) : kprog Z :=
  kdo (iput inode);; out_sput sb lower_sb lower_path err.

Definition out_freeroot (sb lower_sb inode root : ptr) (lower_path : path) (err : Z) : kprog Z :=
  kdo (dput root);; out_iput sb lower_sb inode lower_path err.

(** From the root dentry on. *)
Definition fill_root (sb lower_sb inode : ptr) (lower_path : path) (tr_filep : ptr) : kprog Z :=
  root ← kdo (d_make_root inode);
  st F_s_root sb root;;
  if decide (root = NULL) then out_iput sb lower_sb inode lower_path (- ENOMEM) else
  kdo (d_set_d_op root trfs_dops);;
  field_set d_fsdata set_d_fsdata root NULL;;
  err ← new_dentry_private_data root;
  if decide (err <> 0) then out_freeroot sb lower_sb inode root lower_path err else
  trfs_set_lower_path root lower_path;;
  kdo (d_rehash root);;
  set_sb_info sb (fun si => SbInfo (TrfsH.lower_sb si) tr_filep (tr_page si) (umask si));;
  set_sb_info sb (fun si => SbInfo (TrfsH.lower_sb si) (tr_lower_filep si) (tr_page si) (uint64 (-1)));;
  lock ← TRFS_SB sb; check_ptr lock;; kdo (mutex_init lock);;
  mret err.

Definition trfs_read_super (sb : ptr) (trdata : trfs_data) (silent : Z) : kprog Z :=
  let dev_name := lower_path_name trdata in
  let tr_option := trfs_option trdata in
  if decide (b_ptr dev_name = NULL) then mret (- EINVAL) else
  '(err, lower_path) ← kdo (kern_path (b_data dev_name) (Z.lor LOOKUP_FOLLOW LOOKUP_DIRECTORY));
  if decide (err <> 0) then mret err else
  p ← kdo (kzalloc sizeof_sb_info);
  (if decide (p <> NULL) then heap_new sb_infos set_sb_infos p (SbInfo NULL NULL NULL 0)
   else mret tt);;
  field_set s_fs_info set_s_fs_info sb p;;
  if decide (p = NULL) then out_free lower_path (- ENOMEM) else
  '(page, contents) ← kdo (kmalloc (sizeof_tr_record + PAGE_SIZE));
  (if decide (page <> NULL) then heap_new kbufs set_kbufs page contents else mret tt);;
  set_sb_info sb (fun si => SbInfo (TrfsH.lower_sb si) (tr_lower_filep si) page (umask si));;
  if decide (page = NULL) then out_fsi_free sb lower_path (- ENOMEM) else
  tr_filep ← create_trfile tr_option;
  if IS_ERR tr_filep then out_fsp_free sb lower_path (int32 (PTR_ERR tr_filep)) else
  lower_sb ← ld F_d_sb (p_dentry lower_path);
  check_ptr lower_sb;; kdo (s_active_inc lower_sb);;
  trfs_set_lower_super sb lower_sb;;
  maxbytes ← ld F_s_maxbytes lower_sb;
  st F_s_maxbytes sb maxbytes;;
  st F_s_time_gran sb 1;;
  st F_s_op sb trfs_sops;;
  st F_s_export_op sb trfs_export_ops;;
  lower_inode ← d_inode (p_dentry lower_path);
  inode ← trfs_iget sb lower_inode;
  if IS_ERR inode then out_sput sb lower_sb lower_path (int32 (PTR_ERR inode)) else
  fill_root sb lower_sb inode lower_path tr_filep.

(** ** Mounting *)

Section Mounting.
(** [mount_nodev] of [fs/super.c]: it makes a super block and has it filled. *)
Variable mount_nodev : Z -> (ptr -> Z -> kprog Z) -> kprog ptr.

(** The record counter is shared by every mount, and starts over. *)
Definition trfs_mount (flags : Z) (dev_name raw_data : buffer) : kprog ptr :=
  let data := TrfsData dev_name raw_data in
  modify (S := ksig) (set_trecord_id (-1));;
  mount_nodev flags (fun sb silent => trfs_read_super sb data silent).
End Mounting.

(** ** The module *)

Definition init_trfs_fs : kprog Z :=
  err ← (trfs_init_inode_cache >>? trfs_init_dentry_cache >>? kdo register_filesystem);
  when (bool_decide (err <> 0)) (trfs_destroy_inode_cache;; trfs_destroy_dentry_cache);;
  mret err.

Definition exit_trfs_fs : kprog unit :=
  trfs_destroy_inode_cache;;
  trfs_destroy_dentry_cache;;
  kdo unregister_filesystem.
