(* ===== verification/TrIoctl.v ===== *)
(** * The control device ([hw2/tr_ioctl.c], [hw2/tr_ioctl.h])

    A character device through which the trace mask of a mounted file system
    is read and written. *)

From S2P Require Import Prelude Prog TrTypes Kernel TrfsH Trdump Mount.

(** ** Command codes *)

(** [_IOC(dir, type, nr, size)]; the type is meant to be 8 bits wide, and this
    one is not. *)
Definition _IOC (dir type nr size : Z) : Z :=
  uint32 (Z.lor (Z.lor (Z.lor (Z.shiftl dir 30) (int32 (Z.shiftl type 8))) nr) (Z.shiftl size 16)).
Definition TRCTL_MAGIC : Z := 1413698636. (* 0x5443544c *)
Definition TR_GET_BMAP : Z := _IOC 2 TRCTL_MAGIC 1 sizeof_ptr.
Definition TR_SET_BMAP : Z := _IOC 1 TRCTL_MAGIC 2 sizeof_ptr.

(** [tr_arg_t]: the mount path is the string behind the caller's pointer. *)
Record tr_arg_t := TrArg {
  bitmap : Z;       (* unsigned long *)
  mntpath : bytes;
}.

(** ** The device's operations *)

Definition tr_open (i f : ptr) : kprog Z := mret 0.
Definition tr_close (i f : ptr) : kprog Z := mret 0.

(** What the two commands share: the argument is copied in, the mount point
    opened, and its super block found to be of this file system; [k] then
    gets the argument, the name, the file and the super block. *)
Definition with_mount (arg : ptr) (k : tr_arg_t -> ptr -> ptr -> ptr -> kprog Z) : kprog Z :=
  '(uncopied, (bmap, mpath)) ← kdo (copy_from_user arg);
  if decide (uncopied <> 0) then mret (- EACCES) else
  mnt_path ← kdo (getname_kernel mpath);
  if IS_ERR mnt_path then mret (PTR_ERR mnt_path) else
  check_ptr mnt_path;;
  mnt_filp ← kdo (filp_open mpath O_RDONLY 0);
  if IS_ERR mnt_filp then kdo (putname mnt_path);; mret (PTR_ERR mnt_filp) else
  mnt_inode ← ld F_f_inode mnt_filp;
  sb ← ld F_i_sb mnt_inode;
  check_ptr sb;;
  name ← kdo (s_type_name sb);
  if negb (strcmp_eq name TRFS_NAME) then mret (- EINVAL) else
  k (TrArg bmap mpath) mnt_path mnt_filp sb.

(** [mutex_lock(&TRFS_SB(sb)->trfs_lock)] and its counterpart. *)
Definition lock_sb (sb : ptr) : kprog unit :=
  lock ← TRFS_SB sb; check_ptr lock;; kdo (mutex_lock lock).
Definition unlock_sb (sb : ptr) : kprog unit :=
  lock ← TRFS_SB sb; check_ptr lock;; kdo (mutex_unlock lock).

(** The new mask goes in under the mutex of the super block. *)
Definition store_mask (sb : ptr) (bitmap : Z) : kprog unit :=
  lock_sb sb;;
  set_sb_info sb (fun si => SbInfo (lower_sb si) (tr_lower_filep si) (tr_page si) bitmap);;
  unlock_sb sb.

Definition tr_get_bmap (arg : ptr) : kprog Z :=
  with_mount arg (fun trctl mnt_path mnt_filp sb =>
    lock_sb sb;;
    mask ← umask <$> sb_info sb;
    unlock_sb sb;;
    _ ← sb_info sb;
    kdo (putname mnt_path);;
    kdo (filp_close mnt_filp);;
    uncopied ← kdo (copy_to_user arg mask);
    mret (if decide (uncopied <> 0) then - EACCES else 0)).

Definition tr_set_bmap (arg : ptr) : kprog Z :=
  with_mount arg (fun trctl mnt_path mnt_filp sb =>
    store_mask sb (bitmap trctl);;
    kdo (putname mnt_path);;
    kdo (filp_close mnt_filp);;
    mret 0).

Definition tr_ioctl (f cmd arg : Z) : kprog Z :=
  if decide (cmd = TR_GET_BMAP) then tr_get_bmap arg
  else if decide (cmd = TR_SET_BMAP) then tr_set_bmap arg
  else mret (- EINVAL).

(** ** The module *)

(** The static [trace_class] is handed on: the second component. *)
Definition tr_ioctl_init : kprog (Z * ptr) :=
  ret ← kdo alloc_chrdev_region;
  if decide (ret < 0) then mret (ret, NULL) else
  kdo cdev_init;;
  ret ← kdo cdev_add;
  if decide (ret < 0) then mret (ret, NULL) else
  trace_class ← kdo class_create;
  if IS_ERR trace_class then
    kdo cdev_del;; kdo unregister_chrdev_region;; mret (int32 (PTR_ERR trace_class), trace_class)
  else
  dev_ret ← kdo (device_create trace_class);
  if IS_ERR dev_ret then
    kdo (class_destroy trace_class);; kdo cdev_del;; kdo unregister_chrdev_region;;
    mret (int32 (PTR_ERR dev_ret), trace_class)
  else mret (0, trace_class).

Definition tr_ioctl_exit (trace_class : ptr) : kprog unit :=
  kdo (device_destroy trace_class);;
  kdo (class_destroy trace_class);;
  kdo cdev_del;;
  kdo unregister_chrdev_region.
