(* ===== verification/Tables.v ===== *)
(** * The tables of operations

    The VFS reaches the handlers through tables, one per kind of object; a
    method that a table leaves out is absent.  Methods that are functions of the
    kernel's library ([generic_read_dir], [generic_show_options],
    [generic_delete_inode]) are not handlers of this module and left out;
    [generic_file_llseek] is a call. *)

From S2P Require Import Prelude Prog TrTypes Kernel TrfsH Lookup Trdump Inode FileOps Super Mount TrIoctl.

(** ** Kinds of tables *)

Record inode_operations := InodeOps {
  io_create : option (ptr -> ptr -> Z -> bool -> kprog Z);
  io_lookup : option (ptr -> ptr -> Z -> kprog ptr);
  io_link : option (ptr -> ptr -> ptr -> kprog Z);
  io_unlink : option (ptr -> ptr -> kprog Z);
  io_symlink : option (ptr -> ptr -> buffer -> kprog Z);
  io_mkdir : option (ptr -> ptr -> Z -> kprog Z);
  io_rmdir : option (ptr -> ptr -> kprog Z);
  io_mknod : option (ptr -> ptr -> Z -> Z -> kprog Z);
  io_rename : option (ptr -> ptr -> ptr -> ptr -> kprog Z);
  io_readlink : option (ptr -> ptr -> Z -> kprog Z);
  io_get_link : option (ptr -> ptr -> ptr -> kprog ptr);
  io_permission : option (ptr -> Z -> kprog Z);
  io_setattr : option (ptr -> iattr -> kprog Z);
  io_getattr : option (ptr -> ptr -> ptr -> kprog Z);
  io_setxattr : option (ptr -> bytes -> Z -> Z -> Z -> kprog Z);
  io_getxattr : option (ptr -> bytes -> Z -> Z -> kprog Z);
  io_listxattr : option (ptr -> ptr -> Z -> kprog Z);
  io_removexattr : option (ptr -> bytes -> kprog Z);
}.

Record file_operations := FileOperations {
  fo_llseek : option (ptr -> Z -> Z -> kprog Z);
  fo_read : option (ptr -> Z -> Z -> Z -> kprog Z);
  fo_write : option (ptr -> buffer -> Z -> Z -> kprog Z);
  fo_iterate : option (ptr -> ptr -> kprog Z);
  fo_unlocked_ioctl : option (ptr -> Z -> Z -> kprog Z);
  fo_compat_ioctl : option (ptr -> Z -> Z -> kprog Z);
  fo_mmap : option (ptr -> ptr -> kprog Z);
  fo_open : option (ptr -> ptr -> kprog Z);
  fo_flush : option (ptr -> ptr -> kprog Z);
  fo_release : option (ptr -> ptr -> kprog Z);
  fo_fsync : option (ptr -> Z -> Z -> Z -> kprog Z);
  fo_fasync : option (Z -> ptr -> Z -> kprog Z);
  fo_read_iter : option (ptr -> ptr -> kprog Z);
  fo_write_iter : option (ptr -> ptr -> kprog Z);
}.

Record super_operations := SuperOps {
  so_put_super : ptr -> kprog unit;
  so_statfs : ptr -> ptr -> kprog Z;
  so_remount_fs : ptr -> Z -> kprog Z;
  so_evict_inode : ptr -> kprog unit;
  so_umount_begin : ptr -> kprog unit;
  so_alloc_inode : ptr -> kprog ptr;
  so_destroy_inode : ptr -> kprog unit;
}.

Record dentry_operations := DentryOps {
  do_revalidate : ptr -> Z -> kprog Z;
  do_release : ptr -> kprog unit;
}.

Record vm_operations := VmOps {
  vo_fault : ptr -> ptr -> kprog Z;
  vo_page_mkwrite : ptr -> ptr -> kprog Z;
}.

Record address_space_operations := AddressOps { ao_direct_IO : Z -> Z -> Z -> kprog Z }.

(** ** The module's tables *)

Definition symlink_iops : inode_operations := InodeOps
  None None None None None None None None None
  (Some trfs_readlink) (Some trfs_get_link) (Some trfs_permission) (Some trfs_setattr)
  (Some trfs_getattr) (Some trfs_setxattr) (Some trfs_getxattr) (Some trfs_listxattr)
  (Some trfs_removexattr).

Definition dir_iops : inode_operations := InodeOps
  (Some trfs_create) (Some trfs_lookup) (Some trfs_link) (Some trfs_unlink) (Some trfs_symlink)
  (Some trfs_mkdir) (Some trfs_rmdir) (Some trfs_mknod) (Some trfs_rename)
  None None (Some trfs_permission) (Some trfs_setattr)
  (Some trfs_getattr) (Some trfs_setxattr) (Some trfs_getxattr) (Some trfs_listxattr)
  (Some trfs_removexattr).

Definition main_iops : inode_operations := InodeOps
  None None None None None None None None None
  None None (Some trfs_permission) (Some trfs_setattr)
  (Some trfs_getattr) (Some trfs_setxattr) (Some trfs_getxattr) (Some trfs_listxattr)
  (Some trfs_removexattr).

(** Files keep the library's [llseek]; only directories move both offsets. *)
Definition main_fops : file_operations := FileOperations
  (Some (fun f off whence => kdo (generic_file_llseek f off whence)))
  (Some trfs_read) (Some trfs_write) None (Some trfs_unlocked_ioctl) (Some trfs_compat_ioctl)
  (Some trfs_mmap) (Some trfs_open) (Some trfs_flush) (Some trfs_file_release) (Some trfs_fsync)
  (Some trfs_fasync) (Some trfs_read_iter) (Some trfs_write_iter).

Definition dir_fops : file_operations := FileOperations
  (Some trfs_file_llseek) None None (Some trfs_readdir) (Some trfs_unlocked_ioctl)
  (Some trfs_compat_ioctl) None (Some trfs_open) (Some trfs_flush) (Some trfs_file_release)
  (Some trfs_fsync) (Some trfs_fasync) None None.

Definition sops (TRFS_SUPER_MAGIC : Z) : super_operations := SuperOps
  trfs_put_super (trfs_statfs TRFS_SUPER_MAGIC) trfs_remount_fs trfs_evict_inode trfs_umount_begin
  trfs_alloc_inode trfs_destroy_inode.

Definition dops : dentry_operations := DentryOps trfs_d_revalidate trfs_d_release.

Definition vm_ops : vm_operations := VmOps trfs_fault trfs_page_mkwrite.

Definition aops : address_space_operations := AddressOps trfs_direct_IO.

(** The device's table. *)
Definition tr_fops : file_operations := FileOperations
  None None None None (Some tr_ioctl) None None (Some tr_open) None (Some tr_close)
  None None None None.

(** ** Which table an inode gets *)

Definition inode_table (addr : ptr) : option inode_operations :=
  if decide (addr = trfs_dir_iops) then Some dir_iops
  else if decide (addr = trfs_symlink_iops) then Some symlink_iops
  else if decide (addr = trfs_main_iops) then Some main_iops
  else None.

Definition file_table (addr : ptr) : option file_operations :=
  if decide (addr = trfs_dir_fops) then Some dir_fops
  else if decide (addr = trfs_main_fops) then Some main_fops
  else None.

(** ** File handles *)

Record export_operations := ExportOps {
  eo_fh_to_dentry : ptr -> bytes -> Z -> kprog ptr;
  eo_fh_to_parent : ptr -> bytes -> Z -> kprog ptr;
}.

Section FileHandles.
(** The two functions of the kernel's library. *)
Variables generic_fh_to_dentry generic_fh_to_parent :
  ptr -> bytes -> Z -> (ptr -> Z -> Z -> kprog ptr) -> kprog ptr.

Definition export_ops : export_operations := ExportOps
  (trfs_fh_to_dentry generic_fh_to_dentry) (trfs_fh_to_parent generic_fh_to_parent).
End FileHandles.
