(* ===== verification/User.v ===== *)
(** * User-space programs and the system they call

    The C library and system calls the tools make, the lines they print, and
    the heap blocks they own. *)

From S2P Require Import Prelude Prog TrTypes.

(** ** What a program prints *)

Inductive uline :=
| L_record (r : tr_record) (syscall : bytes) (current_err : option Z)
| L_success (id : Z)
| L_failed (id : Z)
| L_invalid_operation
| L_usage
| L_trace_file (name : option bytes)
| L_mount_path (name : bytes)
| L_bitmap (v : Z).

(** ** Calls *)

Inductive ucallee :=
| u_stat (name : option bytes)                     (* the size of a file *)
| u_malloc (n : Z) | u_free (p : ptr)
| u_open (name : bytes) (flags mode : Z) | u_close (fd : Z)
| u_read (fd count : Z) | u_write (fd : Z) (data : bytes) (count : Z)
| u_getcwd (size : Z)
| u_mkdir (name : bytes) (mode : Z)
| u_rename (old new : bytes) | u_link (old new : bytes)
| u_symlink (target name : bytes) | u_remove (name : bytes)
| u_ioctl (fd cmd bitmap : Z) (mntpath : bytes)
| u_print (l : uline).

Definition ureply (c : ucallee) : Set :=
  match c with
  | u_stat _ => option Z
  | u_malloc _ => ptr * bytes         (* address and indeterminate contents *)
  | u_read _ _ => Z * bytes           (* answer and the bytes stored *)
  | u_getcwd _ => option bytes
  | u_ioctl _ _ _ _ => Z * Z          (* answer and the bitmap afterwards *)
  | u_free _ | u_print _ => unit
  | _ => Z
  end%type.

(** The heap: the live blocks. *)
Definition usig : sig := Sig ucallee ureply (gmap Z bytes).
Abbreviation uprog := (prog usig).
Abbreviation uhist := (hist usig).
Abbreviation uenv := (env usig).
Abbreviation exited := (@Done usig _).
Abbreviation crashed := (@Faulted usig _).
Definition udo (c : ucallee) : uprog (ureply c) := kcall (S := usig) c.

(** ** Memory *)

Definition block (p : ptr) : uprog bytes :=
  if decide (p = NULL) then Fault NullDeref else
  o ← gets (S := usig) (fun m : gmap Z bytes => m !! p); deref UseAfterFree o.

Definition malloc (n : Z) : uprog ptr :=
  '(p, contents) ← udo (u_malloc n);
  when (bool_decide (p <> NULL)) (modify (S := usig) (fun m : gmap Z bytes => <[p := contents]> m));;
  mret p.

(** [SAFE_FREE(buf)] of a block in use; the variables are not used again. *)
Definition SAFE_FREE (p : ptr) : uprog unit :=
  when (bool_decide (p <> NULL))
    (block p;; udo (u_free p);; modify (S := usig) (fun m : gmap Z bytes => delete p m)).

(** [n] bytes at [p + off]. *)
Definition mem_read (p off n : Z) : uprog bytes :=
  b ← block p; deref OutOfBounds (slice b off n).

Definition mem_write (p off : Z) (data : bytes) : uprog unit :=
  b ← block p;
  if decide (0 <= off /\ off + Z.of_nat (length data) <= Z.of_nat (length b))
  then modify (S := usig) (fun m : gmap Z bytes => <[p := splice b (Z.to_nat off) data]> m)
  else Fault OutOfBounds.

(** The C string at [p + off]; without a NUL in the block the reader runs off
    its end. *)
Definition read_str (p off : Z) : uprog bytes :=
  b ← block p;
  if decide (0 <= off <= Z.of_nat (length b)) then
    let rest := drop (Z.to_nat off) b in
    if decide (0 ∈ rest) then mret (cstr rest) else Fault OutOfBounds
  else Fault OutOfBounds.

(** [memcpy(dst, src + off, n)]: [n] is converted to [size_t], so that a
    negative one asks for more than there is. *)
Definition memcpy (dst src off n : Z) : uprog unit :=
  data ← mem_read src off (uint64 n); mem_write dst 0 data.

Definition strcat (dst : ptr) (s : bytes) : uprog unit :=
  d ← read_str dst 0; mem_write dst (Z.of_nat (length d)) (s ++ [0]).

(** [getcwd(buf, size)]: the buffer, or NULL. *)
Definition getcwd (buf size : Z) : uprog ptr :=
  o ← udo (u_getcwd size);
  match o with
  | Some cwd => mem_write buf 0 (cwd ++ [0]);; mret buf
  | None => mret NULL
  end.
