(* ===== verification/Trctl.v ===== *)
(** * The mask tool ([hw2/trctl.c]) *)

From S2P Require Import Prelude Prog TrTypes Mount TrIoctl User.

Definition TRCTL_FILEPATH : bytes := lit "/dev/trace".

(** ** Hexadecimal numbers *)

(** [isxdigit], with the digit's value. *)
Definition xdigit (c : Z) : option Z :=
  if decide (48 <= c <= 57) then Some (c - 48)
  else if decide (65 <= c <= 70) then Some (c - 55)
  else if decide (97 <= c <= 102) then Some (c - 87)
  else None.
Definition isxdigit (c : Z) : bool := match xdigit c with Some _ => true | None => false end.
Definition tolower (c : Z) : Z := if decide (65 <= c <= 90) then c + 32 else c.

(** [hex] is a string without its terminator; reading the terminator gives 0. *)
Definition char_at (s : bytes) (i : nat) : Z := default 0 (s !! i).

Definition isvalidhex (hex : bytes) : bool :=
  let slen := Z.of_nat (length hex) in
  if decide (18 < slen) then false else
  let valid := forallb isxdigit (drop 2 hex) in
  bool_decide (char_at hex 0 = 48) && bool_decide (tolower (char_at hex 1) = 120) && valid.

(** [strtoul(s, NULL, 16)] on a string without leading blanks or sign, which
    is all [isvalidhex] lets through: an optional prefix, then the digits, up
    to [ULONG_MAX]. *)
Fixpoint hex_digits (acc : Z) (s : bytes) : Z :=
  match s with
  | [] => acc
  | c :: s =>
      match xdigit c with
      | Some d => hex_digits (16 * acc + d) s
      | None => acc
      end
  end.
Definition ULONG_MAX : Z := 2 ^ 64 - 1.
Definition strtoul16 (s : bytes) : Z :=
  let digits :=
    if bool_decide (char_at s 0 = 48) && bool_decide (tolower (char_at s 1) = 120)
         && isxdigit (char_at s 2)
    then drop 2 s else s in
  Z.min (hex_digits 0 digits) ULONG_MAX.

(** ** The tool *)

Inductive tr_option_t := GET_BMAP | SET_BMAP.

Definition get_bitmap (fd : Z) (arg : tr_arg_t) : uprog unit :=
  '(r, v) ← udo (u_ioctl fd TR_GET_BMAP (bitmap arg) (mntpath arg));
  when (negb (bool_decide (r = -1))) (udo (u_print (L_bitmap v))).

Definition set_bitmap (fd : Z) (arg : tr_arg_t) : uprog unit :=
  udo (u_ioctl fd TR_SET_BMAP (bitmap arg) (mntpath arg));; mret tt.

(** The mask an argument asks for. *)
Definition mask_arg (s : bytes) : option Z :=
  if strcmp_eq s (lit "all") then Some (uint64 (-1))
  else if strcmp_eq s (lit "none") then Some 0
  else if isvalidhex s then Some (strtoul16 s)
  else None.

(** What the arguments ask for; without a mask to set, the bitmap is whatever
    was on the stack. *)
Definition parse_args (junk : Z) (argv : list bytes) : option (tr_option_t * tr_arg_t) :=
  match argv with
  | [_; mnt] => Some (GET_BMAP, TrArg junk mnt)
  | [_; mask; mnt] =>
      match mask_arg mask with
      | Some v => Some (SET_BMAP, TrArg v mnt)
      | None => None
      end
  | _ => None
  end.

Definition trctl_main (junk : Z) (argv : list bytes) : uprog Z :=
  match parse_args junk argv with
  | None => udo (u_print L_usage);; mret 1
  | Some (option, args) =>
      udo (u_print (L_mount_path (mntpath args)));;
      trfd ← udo (u_open TRCTL_FILEPATH O_RDWR 0);
      if decide (trfd < 0) then mret trfd else
      match option with
      | GET_BMAP => get_bitmap trfd args
      | SET_BMAP => set_bitmap trfd args
      end;;
      udo (u_close trfd);;
      mret 0
  end.
