(* ===== verification/Treplay.v ===== *)
(** * The replay tool ([hw2/treplay.c])

    [main] reads the log in chunks, walks the records of a chunk, and performs
    each one's operation relative to the current directory. *)

From S2P Require Import Prelude Prog TrTypes Mount User.

Definition BUFFER_SIZE : Z := 4096.
Definition CHUNK_SIZE : Z := 4 * BUFFER_SIZE.
(** The macro [MIN]. *)
Definition MIN (a b : Z) : Z := if decide (b < a) then b else a.

(** ** Options: the answers of [getopt] before it ends *)

Definition NOREPLAY : Z := 1.
Definition STRICT : Z := 2.

(** [None] when the usage is printed. The two flags start out with whatever
    is on the stack. *)
Fixpoint parse_options (opts : list Z) (bits : Z) (noreplay strict : bool)
    : option (Z * bool * bool) :=
  match opts with
  | [] => Some (bits, noreplay, strict)
  | opt :: opts =>
      if decide (opt = 110) then parse_options opts (Z.lor bits NOREPLAY) true strict
      else if decide (opt = 115) then parse_options opts (Z.lor bits STRICT) noreplay true
      else None
  end.

Definition exclusive (bits : Z) : bool :=
  negb (bool_decide (Z.land bits NOREPLAY <> 0) && bool_decide (Z.land bits STRICT <> 0)).

(** ** Reporting *)

Definition print_record (record : tr_record) (syscall : bytes) (err : Z) (noreplay : bool)
    : uprog unit :=
  udo (u_print (L_record record syscall (if noreplay then None else Some err))).

Definition replayed_status (record : tr_record) (syscall : bytes) (err : Z) (strict : bool)
    : uprog Z :=
  if decide (0 <= err /\ 0 <= result record) then
    udo (u_print (L_success (rec_id record)));;
    print_record record syscall err false;;
    mret 0
  else
    udo (u_print (L_failed (rec_id record)));;
    print_record record syscall err false;;
    mret (if strict then -1 else 0).

(** ** One record *)

(** The variables of [main] that live across records: [err], the last buffer
    for a second path, and the pointer into it, unset at first. *)
Record rstate := RState {
  rs_err : Z;
  auxbuf : ptr;
  auxpath : option ptr;
}.
Definition set_err (e : Z) (st : rstate) : rstate := RState e (auxbuf st) (auxpath st).

(** [if (replayed_status(...) != 0) goto out;]: whether to go on. *)
Definition status (record : tr_record) (syscall : bytes) (strict : bool) (st : rstate)
    : uprog (bool * rstate) :=
  s ← replayed_status record syscall (rs_err st) strict;
  mret (bool_decide (s = 0), st).

(** [write(rfd, aux, aux_len)]: a negative length is too large for the kernel,
    which then does not look at the data. *)
Definition write_aux (rfd aux off aux_len : Z) : uprog Z :=
  let count := uint64 aux_len in
  data ← (if decide (2 ^ 63 <= count) then mret [] else mem_read aux off count);
  r ← udo (u_write rfd data count);
  mret (int32 r).

(** The fields of a record lie in its first 26 bytes. *)
Definition read_record (p off : Z) : uprog tr_record :=
  b ← mem_read p off 26; mret (record_of_bytes b).

Section Replay.
Variables noreplay strict : bool.

(** [memcpy(resolvebuf, src, n); resolvebuf[n] = 0]. *)
Definition copy_str (resolvebuf src off n : Z) : uprog unit :=
  memcpy resolvebuf src off n;; mem_write resolvebuf n [0].

(** The path of the record below the current directory, in [pathbuf]. *)
Definition resolve_path (savedbuf pathbuf resolvebuf off : Z) (record : tr_record) : uprog unit :=
  copy_str resolvebuf savedbuf (off + sizeof_header) (path_len record);;
  pathname ← getcwd pathbuf BUFFER_SIZE;
  rel_path ← read_str resolvebuf 0;
  strcat pathname rel_path.

(** The auxiliary string: where [aux] points, and the second path. *)
Definition resolve_aux (savedbuf resolvebuf off : Z) (record : tr_record) (st : rstate)
    : uprog (Z * Z * rstate) :=
  let aux := off + sizeof_header + path_len record in
  if decide (aux_len record <> 0 /\ type record <> TR_FWRITE) then
    copy_str resolvebuf savedbuf aux (aux_len record);;
    if decide (type record <> TR_SYMLINK) then
      auxbuf ← malloc BUFFER_SIZE;
      auxpath ← getcwd auxbuf BUFFER_SIZE;
      aux ← read_str resolvebuf 0;
      strcat auxpath aux;;
      mret (resolvebuf, 0, RState (rs_err st) auxbuf (Some auxpath))
    else mret (resolvebuf, 0, st)
  else mret (savedbuf, aux, st).

(** A record that is only shown. *)
Definition show (record : tr_record) (syscalls : list bytes) (st : rstate) : uprog (bool * rstate) :=
  foldr (fun s p => print_record record s (result record) true;; p) (mret (true, st)) syscalls.

Definition second_path (st : rstate) : uprog bytes :=
  p ← deref UninitRead (auxpath st); read_str p 0.

(** The [switch]. *)
Definition replay_op (pathbuf : ptr) (record : tr_record) (aux off : Z) (st : rstate)
    : uprog (bool * rstate) :=
  match rec_type_of (type record) with
  | Some FCREAT =>
      if noreplay then show record [lit "open"] st else
      pathname ← read_str pathbuf 0;
      rfd ← udo (u_open pathname O_CREAT (perm_flags record));
      when (bool_decide (0 <= rfd)) (udo (u_close rfd);; mret tt);;
      status record (lit "open") strict (set_err rfd st)
  | Some FWRITE =>
      if noreplay then show record [lit "open"; lit "write"] st else
      pathname ← read_str pathbuf 0;
      rfd ← udo (u_open pathname (int32 (rec_flags record)) 0);
      '(go, st) ← status record (lit "open") strict (set_err rfd st);
      if negb go then
        when (bool_decide (0 <= rfd)) (udo (u_close rfd);; mret tt);; mret (false, st)
      else
      err ← write_aux rfd aux off (aux_len record);
      '(go, st) ← status record (lit "write") strict (set_err err st);
      when (bool_decide (0 <= rfd)) (udo (u_close rfd);; mret tt);;
      mret (go, st)
  | Some DCREAT =>
      if noreplay then show record [lit "mkdir"] st else
      pathname ← read_str pathbuf 0;
      err ← udo (u_mkdir pathname (perm_flags record));
      status record (lit "mkdir") strict (set_err err st)
  | Some RENAME =>
      if noreplay then show record [lit "rename"] st else
      pathname ← read_str pathbuf 0;
      auxpath ← second_path st;
      err ← udo (u_rename pathname auxpath);
      status record (lit "rename") strict (set_err err st)
  | Some LINK =>
      if noreplay then show record [lit "link"] st else
      pathname ← read_str pathbuf 0;
      auxpath ← second_path st;
      err ← udo (u_link pathname auxpath);
      status record (lit "link") strict (set_err err st)
  | Some SYMLINK =>
      if noreplay then show record [lit "symlink"] st else
      pathname ← read_str pathbuf 0;
      target ← read_str aux off;
      err ← udo (u_symlink target pathname);
      status record (lit "symlink") strict (set_err err st)
  | Some UNLINK =>
      if noreplay then show record [lit "remove"] st else
      pathname ← read_str pathbuf 0;
      err ← udo (u_remove pathname);
      status record (lit "remove") strict (set_err err st)
  | _ => udo (u_print L_invalid_operation);; mret (false, st)
  end.

(** The body of the inner loop: whether to go on, and how far to advance. *)
Definition replay_record (savedbuf pathbuf resolvebuf off : Z) (st : rstate)
    : uprog (bool * Z * rstate) :=
  record ← read_record savedbuf off;
  resolve_path savedbuf pathbuf resolvebuf off record;;
  '(aux, auxoff, st) ← resolve_aux savedbuf resolvebuf off record st;
  '(go, st) ← replay_op pathbuf record aux auxoff st;
  mret (go, rec_size record, st).

(** ** The loops *)

(** [while (buf < limit)]; [off] and [limit] are offsets from [savedbuf]. *)
Fixpoint replay_chunk (fuel : nat) (savedbuf pathbuf resolvebuf off limit : Z) (st : rstate)
    : uprog (bool * rstate) :=
  if decide (off < limit) then
    match fuel with
    | O => Fault NoFuel
    | S fuel =>
        '(go, n, st) ← replay_record savedbuf pathbuf resolvebuf off st;
        if go : bool
        then replay_chunk fuel savedbuf pathbuf resolvebuf (off + n) limit st
        else mret (false, st)
    end
  else mret (true, st).

(** [while (size < fsize)]. *)
Fixpoint replay_file (fuel : nat) (fd fsize savedbuf pathbuf resolvebuf size : Z) (st : rstate)
    : uprog rstate :=
  if decide (size < fsize) then
    match fuel with
    | O => Fault NoFuel
    | S fuel' =>
        '(n, data) ← udo (u_read fd CHUNK_SIZE);
        let bytes_read := int32 n in
        if decide (bytes_read < 0) then mret (set_err bytes_read st) else
        when (bool_decide (data <> [])) (mem_write savedbuf 0 data);;
        '(go, st) ← replay_chunk fuel savedbuf pathbuf resolvebuf 0 bytes_read st;
        if go : bool
        then replay_file fuel' fd fsize savedbuf pathbuf resolvebuf (int32 (size + bytes_read)) st
        else mret st
    end
  else mret st.

(** From [stat] on: the argument of [exit]. *)
Definition replay_trace (fuel : nat) (tfile : option bytes) : uprog Z :=
  o ← udo (u_stat tfile);
  match o, tfile with
  | Some st_size, Some name =>
      let fsize := int32 st_size in
      savedbuf ← malloc (uint64 (MIN fsize CHUNK_SIZE));
      pathbuf ← malloc BUFFER_SIZE;
      resolvebuf ← malloc BUFFER_SIZE;
      fd ← udo (u_open name O_RDONLY 0);
      st ← (if decide (fd < 0) then mret (RState fd NULL None) else
            replay_file fuel fd fsize savedbuf pathbuf resolvebuf 0 (RState 0 NULL None));
      udo (u_close fd);;
      SAFE_FREE savedbuf;; SAFE_FREE pathbuf;; SAFE_FREE (auxbuf st);; SAFE_FREE resolvebuf;;
      mret (rs_err st)
  | _, _ => mret (-1)
  end.
End Replay.

(** [main], with the answers of [getopt], [argv[optind]] and what the stack
    held where the two flags are. *)
Definition treplay_main (noreplay0 strict0 : bool) (fuel : nat) (opts : list Z)
    (tfile : option bytes) : uprog Z :=
  match parse_options opts 0 noreplay0 strict0 with
  | Some (bits, noreplay, strict) =>
      if exclusive bits then
        udo (u_print (L_trace_file tfile));;
        replay_trace noreplay strict fuel tfile
      else udo (u_print L_usage);; mret 0
  | None => udo (u_print L_usage);; mret 0
  end.
