(* ===== verification/Ledger.v ===== *)
(** * Resources, and what the kernel documents

    [net h r] counts, over a history, how often a resource was taken less how
    often it was released; two histories that agree on every resource are
    equivalent ([ledger_eq]).  [kernel_ok] is the documented behaviour of the
    kernel functions that the proofs rely on. *)

From S2P Require Import Prelude Prog TrTypes Kernel TrfsH.
From Stdlib Require Import Morphisms Setoid.

(** ** What is taken and released *)

Inductive resource :=
| RSpin (info : ptr)      (* the spin lock of a dentry's private data *)
| RMutex (info : ptr)     (* the logging mutex of a super block *)
| RILock (i : ptr)        (* an inode lock *)
| RRename (d1 d2 : ptr)   (* the pair of locks of a rename *)
| RDentry (d : ptr) | RMnt (m : ptr) | RInode (i : ptr) | RFile (f : ptr)
| RActive (sb : ptr)      (* an active reference to a super block *)
| RPage (p : ptr)         (* a page *)
| RMem (p : ptr)          (* a heap object *)
| RName (n : ptr) | ROpen (f : ptr)
| RCache (c : ptr)        (* an object cache *)
| RRegion | RCdev | RClass (c : ptr) | RDevice (c : ptr).  (* a character device *)

#[global] Instance resource_eq_dec : EqDecision resource.
Proof. solve_decision. Defined.

(** The page an address lies in: what [free_page] frees. *)
Definition page_of (a : ptr) : ptr := a - a mod PAGE_SIZE.

Definition one_if (b : bool) (r : resource) : list (resource * Z) := if b then [(r, 1)] else [].
Definition nonnull (p : ptr) : bool := negb (bool_decide (p = NULL)).

Definition delta (e : event ksig) : list (resource * Z) :=
  match e with
  | Ev c r =>
    match c return kreply c -> list (resource * Z) with
    | spin_lock i => fun _ => [(RSpin i, 1)]
    | spin_unlock i => fun _ => [(RSpin i, -1)]
    | mutex_lock i => fun _ => [(RMutex i, 1)]
    | mutex_unlock i => fun _ => [(RMutex i, -1)]
    | path_get p => fun _ => [(RDentry (p_dentry p), 1); (RMnt (p_mnt p), 1)]
    | path_put p => fun _ => [(RDentry (p_dentry p), -1); (RMnt (p_mnt p), -1)]
    | dget d => fun _ => [(RDentry d, 1)]
    | dput d => fun _ => [(RDentry d, -1)]
    | dget_parent _ => fun r => [(RDentry r, 1)]
    | mntget _ => fun r => [(RMnt r, 1)]
    | inode_lock i | inode_lock_nested i => fun _ => [(RILock i, 1)]
    | inode_unlock i => fun _ => [(RILock i, -1)]
    | lock_rename a b => fun _ => [(RRename a b, 1)]
    | unlock_rename a b => fun _ => [(RRename a b, -1)]
    | igrab i => fun r => one_if (nonnull r) (RInode i)
    | iput i => fun _ => [(RInode i, -1)]
    | iget5_locked _ _ _ => fun r => one_if (nonnull r) (RInode r)
    | ilookup _ _ => fun r => one_if (nonnull r) (RInode r)
    | get_file f => fun _ => [(RFile f, 1)]
    | fput f => fun _ => [(RFile f, -1)]
    | dentry_open _ _ => fun r => one_if (negb (IS_ERR r)) (RFile r)
    | s_active_inc s => fun _ => [(RActive s, 1)]
    | s_active_dec s => fun _ => [(RActive s, -1)]
    | get_free_page => fun r => one_if (nonnull r) (RPage r)
    | free_page p => fun _ => [(RPage (page_of p), -1)]
    | kmalloc _ => fun r => one_if (nonnull (fst r)) (RMem (fst r))
    | kzalloc _ => fun r => one_if (nonnull r) (RMem r)
    | kmem_cache_alloc _ | kmem_cache_zalloc _ => fun r => one_if (nonnull r) (RMem r)
    | kfree p | kmem_cache_free _ p => fun _ => if nonnull p then [(RMem p, -1)] else []
    | getname_kernel _ => fun r => one_if (negb (IS_ERR r)) (RName r)
    | putname n => fun _ => [(RName n, -1)]
    | filp_open _ _ _ => fun r => one_if (negb (IS_ERR r)) (ROpen r)
    | filp_close f => fun _ => [(ROpen f, -1)]
    | kern_path _ _ | vfs_path_lookup _ _ _ _ => fun r =>
        if decide (fst r = 0) then [(RDentry (p_dentry (snd r)), 1); (RMnt (p_mnt (snd r)), 1)] else []
    | d_lookup _ _ | d_alloc _ _ => fun r => one_if (nonnull r) (RDentry r)
    | d_splice_alias i _ => fun _ => if nonnull i then [(RInode i, -1)] else []
    | d_make_root i => fun r =>
        (if nonnull i then [(RInode i, -1)] else []) ++ one_if (nonnull r) (RDentry r)
    | kmem_cache_create _ => fun r => one_if (nonnull r) (RCache r)
    | kmem_cache_destroy c => fun _ => [(RCache c, -1)]
    | alloc_chrdev_region => fun r => one_if (bool_decide (0 <= r)) RRegion
    | unregister_chrdev_region => fun _ => [(RRegion, -1)]
    | cdev_add => fun r => one_if (bool_decide (0 <= r)) RCdev
    | cdev_del => fun _ => [(RCdev, -1)]
    | class_create => fun r => one_if (negb (IS_ERR r)) (RClass r)
    | class_destroy c => fun _ => [(RClass c, -1)]
    | device_create c => fun r => one_if (negb (IS_ERR r)) (RDevice c)
    | device_destroy c => fun _ => [(RDevice c, -1)]
    | _ => fun _ => []
    end r
  end.

(** How much one entry counts for a resource. *)
Definition hits (r r' : resource) : Z := if decide (r' = r) then 1 else 0.

Fixpoint count_entries (r : resource) (l : list (resource * Z)) : Z :=
  match l with
  | [] => 0
  | (r', n) :: l => n * hits r r' + count_entries r l
  end.

Fixpoint net (h : khist) (r : resource) : Z :=
  match h with
  | [] => 0
  | e :: h => count_entries r (delta e) + net h r
  end.

Lemma net_app h1 h2 r : net (h1 ++ h2) r = net h1 r + net h2 r.
Proof. induction h1 as [|e h1 IH]; simpl; [done|]. rewrite IH. lia. Qed.

Lemma net_cons e h r : net (e :: h) r = count_entries r (delta e) + net h r.
Proof. done. Qed.

Lemma net_snoc h e r : net (h ++ [e]) r = net h r + count_entries r (delta e).
Proof. rewrite net_app. simpl. lia. Qed.

Lemma hits_refl r : hits r r = 1.
Proof. unfold hits. by rewrite decide_True. Qed.

Lemma hits_ne r r' : r' <> r -> hits r r' = 0.
Proof. intros. unfold hits. by rewrite decide_False. Qed.

(** ** Histories that leave the same resources held *)

Definition ledger_eq (h1 h2 : khist) : Prop := forall r, net h1 r = net h2 r.

Infix "≡ₗ" := ledger_eq (at level 70).

#[export] Instance ledger_eq_equiv : Equivalence ledger_eq.
Proof.
  split.
  - intros h r. done.
  - intros h1 h2 H r. by rewrite H.
  - intros h1 h2 h3 H1 H2 r. by rewrite H1, H2.
Qed.

#[export] Instance app_ledger_proper : Proper (ledger_eq ==> ledger_eq ==> ledger_eq) (@app (event ksig)).
Proof. intros h1 h1' H1 h2 h2' H2 r. by rewrite !net_app, H1, H2. Qed.

#[export] Instance net_ledger_proper : Proper (ledger_eq ==> eq ==> eq) net.
Proof. intros h1 h2 H r r' <-. apply H. Qed.

(** Decide an equation between sums of counted entries. *)
Create HintDb ledger.
Ltac ledger :=
  intros ?; autounfold with ledger; rewrite ?net_app; cbn [net count_entries delta one_if app fst snd];
  rewrite ?net_app; cbn [net count_entries delta one_if app fst snd]; lia.

(** ** The documented behaviour of the kernel *)

(** Pointers to live objects are neither NULL nor error pointers. *)
Definition good_ptr (p : ptr) : Prop := 0 < p < 2 ^ 64 - MAX_ERRNO.

(** Error pointers. *)
Definition err_ptr (p : ptr) : Prop := IS_ERR p = true /\ p < 2 ^ 64.

Lemma err_ptr_neg p : err_ptr p -> - MAX_ERRNO <= PTR_ERR p < 0.
Proof.
  intros [H1 H2]. unfold IS_ERR in H1. apply bool_decide_eq_true in H1.
  unfold PTR_ERR, int64, swrap, wrap, MAX_ERRNO in *. 
  replace (p + 2 ^ (64 - 1)) with ((p - 2 ^ (64 - 1)) + 1 * 2 ^ 64) by lia.
  rewrite Z.mod_add by lia. rewrite Z.mod_small; lia.
Qed.

Lemma err_ptr_ERR_PTR e : - MAX_ERRNO <= e < 0 -> err_ptr (ERR_PTR e).
Proof.
  intros He. split; [by apply PTR_ERR_ERR_PTR|]. unfold ERR_PTR, uint64. by apply wrap_range.
Qed.

Lemma good_ptr_nonnull p : good_ptr p -> p <> NULL.
Proof. unfold good_ptr, NULL. lia. Qed.
Lemma good_ptr_no_err p : good_ptr p -> IS_ERR p = false.
Proof. unfold good_ptr, IS_ERR. intros. apply bool_decide_eq_false. lia. Qed.
Lemma good_ptr_nonnullb p : good_ptr p -> nonnull p = true.
Proof. intros H. unfold nonnull. rewrite bool_decide_eq_false_2; [done|]. by apply good_ptr_nonnull. Qed.

Lemma good_ptr_nonzero p : good_ptr p -> nonzero p = true.
Proof. intros H. apply bool_decide_eq_true. by apply good_ptr_nonnull. Qed.

Lemma nonnull_NULL : nonnull NULL = false.
Proof. done. Qed.

#[export] Hint Resolve good_ptr_nonnull good_ptr_no_err good_ptr_nonnullb : trfs.

(** What stays fixed while a handler runs: the super block of an inode, the
    inode of a positive dentry that is pinned (every parent directory, and what
    the VFS passes in as existing), the dentry of an open file, the name of the
    type of a super block, and the path of a dentry. *)
Record kworld := KWorld {
  sb_of : ptr -> ptr;
  positive : ptr -> Prop;
  inode_of : ptr -> ptr;
  dentry_of : ptr -> ptr;
  type_name : ptr -> bytes;
  path_of : ptr -> option bytes;  (* a dentry's path from the mount point, if it fits a page *)
}.

(** A page comes from the allocator aligned, and lies inside the address space. *)
Definition good_page (p : ptr) : Prop := good_ptr p /\ p mod PAGE_SIZE = 0 /\ p + PAGE_SIZE < 2 ^ 64 - MAX_ERRNO.

(** [dentry_path_raw] builds the path at the end of the caller's buffer, and
    starts it with a slash, or answers an error pointer. *)
Definition path_in_buffer (buf : ptr) (buflen : Z) (b : buffer) : Prop :=
  Forall is_char (b_data b) /\ head (b_data b) = Some 47 /\
  buf <= b_ptr b /\ b_ptr b + Z.of_nat (length (b_data b)) + 1 <= buf + buflen.

(** The lower file system has made the file of a dentry. *)
Definition makes (d : ptr) (e : event ksig) : Prop :=
  match e with
  | Ev c r =>
    match c return kreply c -> Prop with
    | vfs_create _ d' _ _ | vfs_link _ _ d' | vfs_symlink _ d' _ | vfs_mkdir _ d' _
    | vfs_mknod _ d' _ _ => fun r => d' = d /\ r = 0
    | _ => fun _ => False
    end r
  end.
Definition made (d : ptr) (h : khist) : Prop := Exists (makes d) h.

#[global] Instance makes_dec d e : Decision (makes d e).
Proof. destruct e as [c r]. destruct c; apply _. Defined.

Definition kernel_ok (w : kworld) (h : khist) (e : event ksig) : Prop :=
  match e with
  | Ev c r =>
    match c return kreply c -> Prop with
    | load F_i_sb i => fun r => r = sb_of w i /\ good_ptr r
    | load F_d_inode d => fun r =>
        (positive w d -> r = inode_of w d /\ good_ptr r) /\ (made d h -> good_ptr r) /\
        (r = NULL \/ good_ptr r)
    | load F_i_op _ => fun r => r = NULL \/ good_ptr r
    | i_op_readlink _ _ size => fun r => 0 <= size -> - MAX_ERRNO <= r <= size
    | load F_f_dentry f => fun r => r = dentry_of w f /\ good_ptr r
    | load F_i_mapping _ | load F_f_inode _ | load F_d_parent _ | load F_d_sb _ =>
        fun r => good_ptr r
    | iget5_locked _ _ _ | kzalloc _ | kmem_cache_alloc _ | kmem_cache_zalloc _ | d_make_root _
    | d_lookup _ _ | d_alloc _ _ => fun r => r = NULL \/ good_ptr r
    | getname_kernel _ | filp_open _ _ _ | dentry_open _ _ | class_create | device_create _ =>
        fun r => err_ptr r \/ good_ptr r
    | d_splice_alias _ _ => fun r => r = NULL \/ err_ptr r \/ good_ptr r
    | kern_path _ _ | vfs_path_lookup _ _ _ _ => fun r =>
        fst r = 0 /\ positive w (p_dentry (snd r)) /\ good_ptr (p_dentry (snd r)) /\
          good_ptr (p_mnt (snd r)) \/
        - MAX_ERRNO <= fst r < 0
    | mntget m => fun r => r = m
    | s_type_name sb => fun r => r = type_name w sb
    | dget_parent d => fun r => positive w r /\ good_ptr r
    | get_free_page => fun r => r = NULL \/ good_page r
    | dentry_path_raw d buf n => fun b =>
        n = PAGE_SIZE ->
        match path_of w d with
        | Some p => b_data b = p /\ path_in_buffer buf n b
        | None => IS_ERR (b_ptr b) = true
        end
    | kmalloc n => fun r =>
        0 <= n -> fst r = NULL \/ good_ptr (fst r) /\ Z.of_nat (length (snd r)) = n
    | kernel_write f data count pos => fun r =>
        0 <= count ->
        - MAX_ERRNO <= r <= count /\ r <= Z.of_nat (length data) /\ (2 ^ 63 <= count -> r < 0)
    | _ => fun _ => True
    end r
  end.

(** The interface the proofs about handlers are written against: assumptions
    at least as strong as the documented behaviour. *)
Class KernelSpec (w : kworld) (ok : khist -> event ksig -> Prop) : Prop := {
  kernel_spec h e : ok h e -> kernel_ok w h e
}.

#[export] Instance kernel_ok_spec w : KernelSpec w (kernel_ok w).
Proof. constructor. by intros h e. Qed.

(** The most a single write transfers. *)
Definition MAX_RW_COUNT : Z := 2147479552.

(** A kernel with memory to spare and a lower file system that completes
    every write to the log. *)
Definition resourceful (e : event ksig) : Prop :=
  match e with
  | Ev c r =>
    match c return kreply c -> Prop with
    | get_free_page => fun r => r <> NULL
    | kernel_write f data count pos => fun r => 
        count = Z.of_nat (length data) -> count <= MAX_RW_COUNT -> r = count
    | _ => fun _ => True
    end r
  end.

Definition kernel_ok_resourceful (w : kworld) (h : khist) (e : event ksig) : Prop :=
  kernel_ok w h e /\ resourceful e.

#[export] Instance kernel_ok_resourceful_spec w : KernelSpec w (kernel_ok_resourceful w).
Proof. constructor. by intros h e []. Qed.

Lemma page_of_page p : p mod PAGE_SIZE = 0 -> page_of p = p.
Proof. unfold page_of. lia. Qed.

(** An address inside a page names that page. *)
Lemma page_of_inside p a : p mod PAGE_SIZE = 0 -> p <= a < p + PAGE_SIZE -> page_of a = p.
Proof.
  unfold page_of, PAGE_SIZE. intros Hp Ha.
  pose proof (Z.div_mod p 4096 ltac:(lia)) as E.
  rewrite <- (Z.mod_unique a 4096 (p / 4096) (a - p)); lia.
Qed.

(** ** Stepping through programs

    Each lemma runs one operation in front of a continuation. *)

#[export] Hint Resolve kernel_ok_spec kernel_ok_resourceful_spec : core.

Section Steps.
Context (ok : khist -> event ksig -> Prop).

Lemma wp_kdo {A} c (k : kreply c -> kprog A) Q m h :
  (forall r, ok h (Ev (S := ksig) c r) -> wp ok (k r) Q m (h ++ [Ev (S := ksig) c r])) ->
  wp ok (kdo c ≫= k) Q m h.
Proof. done. Qed.

Lemma check_good p : good_ptr p -> check_ptr p = Ret tt.
Proof.
  intros Hp. unfold check_ptr. rewrite decide_False by (by apply good_ptr_nonnull).
  by rewrite good_ptr_no_err.
Qed.

Lemma wp_check {A} p (k : unit -> kprog A) Q m h :
  good_ptr p -> wp ok (k tt) Q m h -> wp ok (check_ptr p ≫= k) Q m h.
Proof.
  intros Hp Hk. by rewrite check_good.
Qed.

Lemma wp_ld {A} f obj (k : Z -> kprog A) Q m h :
  good_ptr obj ->
  (forall r : Z, ok h (Ev (S := ksig) (load f obj) r) ->
    wp ok (k r) Q m (h ++ [Ev (S := ksig) (load f obj) r])) ->
  wp ok (ld f obj ≫= k) Q m h.
Proof. intros Ho Hk. unfold ld. apply wp_assoc, wp_check; [done|]. exact Hk. Qed.

Lemma wp_st {A} f obj v (k : unit -> kprog A) Q m h :
  good_ptr obj ->
  wp ok (k tt) Q m (h ++ [Ev (S := ksig) (store f obj v) tt]) ->
  wp ok (st f obj v ≫= k) Q m h.
Proof. intros Ho Hk. unfold st. apply wp_assoc, wp_check; [done|]. by intros []. Qed.

Lemma wp_heap_get {A V} (heap : kmem -> gmap Z V) p v (k : V -> kprog A) Q m h :
  good_ptr p -> heap m !! p = Some v ->
  wp ok (k v) Q m h -> wp ok (heap_get heap p ≫= k) Q m h.
Proof.
  intros Hp Hv Hk. unfold heap_get. apply wp_assoc, wp_check; [done|].
  wp_pures. by rewrite Hv.
Qed.

Lemma wp_heap_set {A V} (heap : kmem -> gmap Z V) set p v v' (k : unit -> kprog A) Q m h :
  good_ptr p -> heap m !! p = Some v' ->
  wp ok (k tt) Q (set (<[p := v]> (heap m)) m) h ->
  wp ok (heap_set heap set p v ≫= k) Q m h.
Proof.
  intros Hp Hv Hk. unfold heap_set. apply wp_assoc. by eapply wp_heap_get.
Qed.

Lemma wp_field_get {A} fld obj (k : ptr -> kprog A) Q m h :
  good_ptr obj ->
  wp ok (k (default NULL (fld m !! obj))) Q m h ->
  wp ok (field_get fld obj ≫= k) Q m h.
Proof. intros Ho Hk. unfold field_get. by apply wp_assoc, wp_check. Qed.

Lemma wp_field_set {A} fld set obj p (k : unit -> kprog A) Q m h :
  good_ptr obj ->
  wp ok (k tt) Q (set (<[obj := p]> (fld m)) m) h ->
  wp ok (field_set fld set obj p ≫= k) Q m h.
Proof. intros Ho Hk. unfold field_set. by apply wp_assoc, wp_check. Qed.
End Steps.

(** ** Private data that is in place *)

(** The dentry carries private data, with this lower path. *)
Definition has_lower (m : kmem) (dent info : ptr) (lp : path) : Prop :=
  good_ptr dent /\ d_fsdata m !! dent = Some info /\ good_ptr info /\
  dentry_infos m !! info = Some lp.

(** The super block carries private data. *)
Definition has_sb (m : kmem) (sb p : ptr) (si : trfs_sb_info) : Prop :=
  good_ptr sb /\ s_fs_info m !! sb = Some p /\ good_ptr p /\ sb_infos m !! p = Some si.

Section HelperSteps.
Context (w : kworld) (ok : khist -> event ksig -> Prop) `{HK : !KernelSpec w ok}.
Local Abbreviation WP := (wp ok).

Definition get_lower_path_trace (info : ptr) (lp : path) : khist :=
  [Ev (S := ksig) (spin_lock info) tt; Ev (S := ksig) (path_get lp) tt;
   Ev (S := ksig) (spin_unlock info) tt].

Lemma wp_get_lower_path {A} dent info lp (k : path -> kprog A) Q m h :
  has_lower m dent info lp ->
  WP (k lp) Q m (h ++ get_lower_path_trace info lp) ->
  WP (trfs_get_lower_path dent ≫= k) Q m h.
Proof.
  intros (Hd & Hi & Hgi & Hlp) Hk. unfold trfs_get_lower_path, TRFS_D.
  apply wp_assoc, wp_field_get; [done|]. rewrite Hi. cbn [default from_option id].
  apply wp_assoc, wp_check; [done|]. apply wp_assoc, wp_kdo; intros [] _.
  apply wp_assoc. eapply wp_heap_get; [done..|].
  apply wp_assoc, wp_kdo; intros [] _. apply wp_assoc, wp_kdo; intros [] _.
  apply wp_ret. by rewrite <- !app_assoc.
Qed.

Lemma wp_put_lower_path {A} dent lp (k : unit -> kprog A) Q m h :
  WP (k tt) Q m (h ++ [Ev (S := ksig) (path_put lp) tt]) ->
  WP (trfs_put_lower_path dent lp ≫= k) Q m h.
Proof. intros Hk. unfold trfs_put_lower_path. apply wp_kdo. by intros [] _. Qed.

(** The parent of a dentry, pinned and locked, and its release. *)
Definition lock_parent_trace (d dir : ptr) : khist :=
  [Ev (S := ksig) (dget_parent d) dir; Ev (S := ksig) (load F_d_inode dir) (inode_of w dir);
   Ev (S := ksig) (inode_lock_nested (inode_of w dir)) tt].
Definition unlock_dir_trace (dir : ptr) : khist :=
  [Ev (S := ksig) (load F_d_inode dir) (inode_of w dir);
   Ev (S := ksig) (inode_unlock (inode_of w dir)) tt; Ev (S := ksig) (dput dir) tt].

Lemma wp_d_inode {A} dir (k : ptr -> kprog A) Q m h :
  positive w dir -> good_ptr dir ->
  (good_ptr (inode_of w dir) ->
   WP (k (inode_of w dir)) Q m (h ++ [Ev (S := ksig) (load F_d_inode dir) (inode_of w dir)])) ->
  WP (d_inode dir ≫= k) Q m h.
Proof.
  intros Hdir Hg Hk. unfold d_inode. apply wp_ld; [done|].
  intros r Hr%(kernel_spec (w := w)). destruct Hr as (Hr & _). destruct (Hr Hdir) as [-> ?]. auto.
Qed.

Lemma wp_lock_parent {A} d (k : ptr -> kprog A) Q m h :
  (forall dir, positive w dir -> good_ptr dir -> good_ptr (inode_of w dir) ->
    WP (k dir) Q m (h ++ lock_parent_trace d dir)) ->
  WP (lock_parent d ≫= k) Q m h.
Proof.
  intros Hk. unfold lock_parent. apply wp_assoc, wp_kdo. intros dir [Hd Hg]%(kernel_spec (w := w)).
  apply wp_assoc, wp_d_inode; [done..|]. intros Hi.
  apply wp_assoc, wp_kdo. intros [] _. apply wp_ret.
  specialize (Hk dir Hd Hg Hi). by rewrite <- !app_assoc.
Qed.

Lemma wp_unlock_dir {A} dir (k : unit -> kprog A) Q m h :
  positive w dir -> good_ptr dir ->
  WP (k tt) Q m (h ++ unlock_dir_trace dir) ->
  WP (unlock_dir dir ≫= k) Q m h.
Proof.
  intros Hd Hg Hk. unfold unlock_dir. apply wp_assoc, wp_d_inode; [done..|]. intros Hi.
  apply wp_assoc, wp_kdo. intros [] _. apply wp_kdo. intros [] _.
  by rewrite <- !app_assoc.
Qed.

Lemma wp_TRFS_SB {A} sb p si (k : ptr -> kprog A) Q m h :
  has_sb m sb p si -> WP (k p) Q m h -> WP (TRFS_SB sb ≫= k) Q m h.
Proof.
  intros (Hsb & Hp & _ & _) Hk. unfold TRFS_SB. apply wp_field_get; [done|]. by rewrite Hp.
Qed.

Lemma wp_sb_info {A} sb p si (k : trfs_sb_info -> kprog A) Q m h :
  has_sb m sb p si -> WP (k si) Q m h -> WP (sb_info sb ≫= k) Q m h.
Proof.
  intros Hs Hk. unfold sb_info. apply wp_assoc. eapply wp_TRFS_SB; [done|].
  destruct Hs as (_ & _ & Hp & Hsi). by eapply wp_heap_get.
Qed.

Lemma wp_i_sb {A} i (k : ptr -> kprog A) Q m h :
  good_ptr i ->
  WP (k (sb_of w i)) Q m (h ++ [Ev (S := ksig) (load F_i_sb i) (sb_of w i)]) ->
  WP (ld F_i_sb i ≫= k) Q m h.
Proof. intros Hi Hk. apply wp_ld; [done|]. by intros r [-> ?]%(kernel_spec (w := w)). Qed.
End HelperSteps.

(** Reading fields is invisible to everything the histories are used for. *)
Definition is_load (e : event ksig) : Prop :=
  match ev_call e with load _ _ => True | _ => False end.
Definition silent (t : khist) : Prop := Forall is_load t.

Lemma silent_ledger t : silent t -> t ≡ₗ [].
Proof.
  induction 1 as [|[c r] t Hc _ IH]; [done|].
  intros x. simpl. rewrite IH. by destruct c.
Qed.

(** Programs that compute a value by reading fields only. *)
Definition reads (ok : khist -> event ksig -> Prop) {A} (p : kprog A) (a : A) : Prop :=
  forall B (k : A -> kprog B) Q m h,
    (forall t, silent t -> wp ok (k a) Q m (h ++ t)) -> wp ok (p ≫= k) Q m h.

Section Reads.
Context (w : kworld) (ok : khist -> event ksig -> Prop) `{HK : !KernelSpec w ok}.

(** [inode->i_sb] and [d_inode(dentry)->i_sb]. *)
Lemma reads_i_sb i : good_ptr i -> reads ok (ld F_i_sb i) (sb_of w i).
Proof.
  intros Hi B k Q m h Hk. apply wp_i_sb with (w := w); [done..|].
  apply Hk. by repeat constructor.
Qed.

Lemma reads_d_inode_i_sb d :
  positive w d -> good_ptr d -> reads ok (i ← d_inode d; ld F_i_sb i) (sb_of w (inode_of w d)).
Proof.
  intros Hp Hd B k Q m h Hk. apply wp_assoc, wp_d_inode with (w := w); [done..|]. intros Hi.
  apply wp_i_sb with (w := w); [done..|]. rewrite <- app_assoc.
  apply Hk. by repeat constructor.
Qed.
End Reads.

#[export] Hint Unfold get_lower_path_trace lock_parent_trace unlock_dir_trace : ledger.

Lemma get_lower_path_ledger info lp :
  get_lower_path_trace info lp ≡ₗ [Ev (S := ksig) (path_get lp) tt].
Proof. ledger. Qed.

(** Unlocking a directory releases what locking it took. *)
Lemma lock_unlock_ledger w d dir : lock_parent_trace w d dir ++ unlock_dir_trace w dir ≡ₗ [].
Proof. ledger. Qed.

Lemma path_get_put_ledger lp :
  [Ev (S := ksig) (path_get lp) tt; Ev (S := ksig) (path_put lp) tt] ≡ₗ [].
Proof. ledger. Qed.
