(* ===== verification/TrdumpSpec.v ===== *)
(** * Trace records: specification and proofs

    What [fill_record], [append_record] and the logging block of [Trdump.v] do:
    the contents of the record, the bytes that reach the log, the pages that
    change hands, and the inputs on which the code dies. *)

From S2P Require Import Prelude Prog TrTypes Kernel TrfsH Ledger Trdump.

(** ** The log file

    What the log file holds after a history: [kernel_write] puts the bytes it
    reports as written at the position it was given. *)

Definition log_step (f : ptr) (img : bytes) (e : event ksig) : bytes :=
  match e with
  | Ev c r =>
    match c return kreply c -> bytes with
    | kernel_write g data count pos => fun r =>
        if decide (g = f /\ 0 < r) then splice img (Z.to_nat pos) (take (Z.to_nat r) data) else img
    | _ => fun _ => img
    end r
  end.

Definition log_image (f : ptr) (h : khist) : bytes := foldl (log_step f) [] h.

Lemma log_image_app f h t : log_image f (h ++ t) = foldl (log_step f) (log_image f h) t.
Proof. apply foldl_app. Qed.

(** Calls that do not write to a file. *)
Definition unlogged (t : khist) : Prop := forall f img, foldl (log_step f) img t = img.

Lemma log_image_unlogged f h t : unlogged t -> log_image f (h ++ t) = log_image f h.
Proof. intros Ht. rewrite log_image_app. apply Ht. Qed.

Lemma silent_unlogged t : silent t -> unlogged t.
Proof.
  intros Ht f img. revert img. induction Ht as [|[c r] t Hc _ IH]; intros img; simpl; [done|].
  rewrite IH. by destruct c.
Qed.

Lemma unlogged_app t u : unlogged t -> unlogged u -> unlogged (t ++ u).
Proof. intros Ht Hu f img. by rewrite foldl_app, Ht, Hu. Qed.

(** A full write at the end of the file appends. *)
Lemma log_step_append f img data n :
  0 < n -> n = Z.of_nat (length data) ->
  log_step f img (Ev (S := ksig) (kernel_write f data n (Z.of_nat (length img))) n) = img ++ data.
Proof.
  intros Hn E. simpl. rewrite decide_True by done.
  rewrite Nat2Z.id, E, Nat2Z.id, firstn_all. apply splice_end.
Qed.

(** The bytes a record takes in the log. *)
Definition encode_record (r : tr_record) : bytes :=
  header_bytes r ++ b_data (pathname r) ++ take (Z.to_nat (aux_len r)) (b_data (aux r)).

(** ** Filling a record *)

(** The operations the file system logs. *)
Definition logged (t : rec_type) : Prop := t <> FREAD /\ t <> DREAD.

(** Where the auxiliary part of a record comes from. *)
Definition aux_is_path (t : rec_type) : bool :=
  match t with RENAME | LINK => true | _ => false end.
Definition aux_is_data (t : rec_type) : bool :=
  match t with FWRITE | SYMLINK => true | _ => false end.

Section Fill.
Context (w : kworld) (ok : khist -> event ksig -> Prop) `{HK : !KernelSpec w ok}.
Local Abbreviation WP := (wp ok).

Lemma strlen_chars s : Forall is_char s -> strlen s = Z.of_nat (length s).
Proof. intros H. unfold strlen. by rewrite cstr_id. Qed.

Lemma path_in_page_good p b :
  good_page p -> path_in_buffer p PAGE_SIZE b ->
  good_ptr (b_ptr b) /\ page_of (b_ptr b) = p /\
  Forall is_char (b_data b) /\ 0 < Z.of_nat (length (b_data b)) < PAGE_SIZE.
Proof.
  intros (Hg & Hm & Hp) (Hc & Hh & H1 & H2). unfold PAGE_SIZE in *. unfold good_ptr in *.
  split_and!; [lia|lia| |done| |lia].
  - apply page_of_inside; [done|]. unfold PAGE_SIZE. lia.
  - destruct (b_data b); simpl in *; [done|lia].
Qed.

(** [dentry_path_raw] into a fresh page, and the length of the result. *)
Lemma wp_dentry_path_raw {A} d p s (k : buffer -> kprog A) Q m h :
  good_page p -> path_of w d = Some s ->
  (forall b, b_data b = s -> good_ptr (b_ptr b) -> page_of (b_ptr b) = p ->
     Forall is_char s -> 0 < Z.of_nat (length s) < PAGE_SIZE ->
     WP (k b) Q m (h ++ [Ev (S := ksig) (dentry_path_raw d p PAGE_SIZE) b])) ->
  WP (kdo (dentry_path_raw d p PAGE_SIZE) ≫= k) Q m h.
Proof.
  intros Hp Hs Hk. apply wp_kdo. intros b Hb%(kernel_spec (w := w)). simpl in Hb.
  rewrite Hs in Hb. destruct (Hb eq_refl) as [Hd Hb']; clear Hb; rename Hb' into Hb.
  destruct (path_in_page_good _ _ Hp Hb) as (Hg & Hpg & Hc & Hl).
  rewrite Hd in *. by apply Hk.
Qed.

Lemma wp_c_strlen {A} b (k : Z -> kprog A) Q m h :
  good_ptr (b_ptr b) -> Forall is_char (b_data b) ->
  WP (k (Z.of_nat (length (b_data b)))) Q m h -> WP (c_strlen b ≫= k) Q m h.
Proof.
  intros Hg Hc Hk. unfold c_strlen. apply wp_assoc, wp_check; [done|]. apply wp_ret.
  by rewrite strlen_chars.
Qed.

Lemma RECORD_SIZE_short r :
  short (RECORD_SIZE r) = short (sizeof_header + path_len r).
Proof.
  unfold RECORD_SIZE, short, uint64. rewrite swrap_wrap_wide by lia. f_equal.
  unfold sizeof_tr_record, sizeof_ptr, sizeof_header. lia.
Qed.

Lemma RECORD_SIZE_AUX_short r :
  short (RECORD_SIZE_AUX r) = short (sizeof_header + path_len r + aux_len r).
Proof.
  unfold RECORD_SIZE_AUX, short, uint64. rewrite swrap_wrap_wide by lia. f_equal.
  unfold sizeof_tr_record, sizeof_ptr, sizeof_header. lia.
Qed.

(** What a filled record says of the operation it stands for. *)
Definition filled (t : rec_type) (id flags perm err : Z) (path : bytes)
    (arg : buffer) (arg_len : Z) (apath : bytes) (r : tr_record) : Prop :=
  rec_id r = uint32 id /\ rec_flags r = uint32 flags /\ perm_flags r = uint32 perm /\
  result r = int32 err /\ type r = rec_type_val t /\
  b_data (pathname r) = path /\ path_len r = Z.of_nat (length path) /\
  rec_size r = short (sizeof_header + path_len r + aux_len r) /\
  (if aux_is_path t then b_data (aux r) = apath /\ aux_len r = Z.of_nat (length apath)
   else if aux_is_data t then aux r = arg /\ aux_len r = short arg_len
   else aux r = nullbuf /\ aux_len r = 0).

Lemma wp_fill_aux {A} t id flags perm err path arg arg_len apath p2
    (k : tr_record -> kprog A) Q m h :
  let r0 := TrRecord (uint32 id) (uint32 flags) (uint32 perm) (int32 err) 0
              (short (Z.of_nat (length (b_data path)))) (uint32 (rec_type_val t)) 0 path nullbuf in
  logged t -> good_page p2 -> Z.of_nat (length (b_data path)) < PAGE_SIZE ->
  (aux_is_path t = true -> path_of w (b_ptr arg) = Some apath) ->
  (forall tr r, tr ≡ₗ [] -> unlogged tr ->
     filled t id flags perm err (b_data path) arg arg_len apath r -> pathname r = path ->
     (aux_is_path t = true -> good_ptr (b_ptr (aux r)) /\ page_of (b_ptr (aux r)) = p2 /\
                              0 < aux_len r < PAGE_SIZE) ->
     WP (k r) Q m (h ++ tr)) ->
  WP (fill_aux (rec_type_val t) arg arg_len p2 r0 ≫= k) Q m h.
Proof.
  intros r0 [Ht1 Ht2] Hp2 Hl Ha Hk.
  assert (Htv : uint32 (rec_type_val t) = rec_type_val t)
    by (apply uint32_id; pose proof (rec_type_val_pos t); lia).
  assert (Hpl : short (Z.of_nat (length (b_data path))) = Z.of_nat (length (b_data path)))
    by (apply short_id; unfold PAGE_SIZE in Hl; lia).
  unfold fill_aux. rewrite rec_type_of_val.
  destruct t; try done; cbn [aux_is_path] in *.
  all: try (apply wp_ret; rewrite <- (app_nil_r h); apply Hk; try done;
            unfold filled; cbn -[short uint32 int32 rec_type_val];
            rewrite ?RECORD_SIZE_short, ?RECORD_SIZE_AUX_short;
            cbn -[short uint32 int32 rec_type_val];
            rewrite ?Z.add_0_r, ?Hpl; done).
  all: specialize (Ha eq_refl); apply wp_assoc.
  all: eapply wp_dentry_path_raw; [done..|]; intros b Hb Hg Hpg Hc Hlen.
  all: apply wp_assoc, wp_c_strlen; [done|by rewrite Hb|]; apply wp_ret, Hk; try done.
  all: assert (Hal : short (Z.of_nat (length (b_data b))) = Z.of_nat (length apath))
    by (rewrite Hb; apply short_id; unfold PAGE_SIZE in *; lia).
  all: try (cbn -[short]; rewrite Hal; done).
  all: unfold filled; rewrite RECORD_SIZE_AUX_short; cbn -[short uint32 int32 rec_type_val];
       rewrite Hpl, Hal, Htv; done.
Qed.

Lemma wp_SAFE_FREE_PAGE {A} p (k : unit -> kprog A) Q m h :
  good_page p \/ p = NULL ->
  WP (k tt) Q m (h ++ if nonnull p then [Ev (S := ksig) (free_page p) tt] else []) ->
  WP (SAFE_FREE_PAGE p ≫= k) Q m h.
Proof.
  unfold SAFE_FREE_PAGE, nonnull. intros Hp Hk.
  destruct (decide (p = NULL)) as [->|Hne].
  - rewrite app_nil_r in Hk. exact Hk.
  - rewrite bool_decide_eq_false_2 in Hk by done.
    rewrite bool_decide_eq_true_2 by done. apply wp_kdo. by intros [] _.
Qed.

(** [fill_record] either runs out of pages, and then leaves everything as it
    was, or fills the record and keeps two pages. *)
Lemma wp_fill_record {A} t dentry flags perm err arg arg_len rec0 path apath
    (k : Z * tr_record -> kprog A) Q m h :
  logged t -> path_of w dentry = Some path ->
  (aux_is_path t = true -> path_of w (b_ptr arg) = Some apath) ->
  (forall tr, tr ≡ₗ [] -> unlogged tr -> ~ (forall h e, ok h e -> resourceful e) ->
     WP (k (- ENOMEM, rec0)) Q m (h ++ tr)) ->
  (forall tr r p1 p2, good_page p1 -> good_page p2 ->
     tr ≡ₗ [Ev (S := ksig) get_free_page p1; Ev (S := ksig) get_free_page p2] -> unlogged tr ->
     filled t (int32 (trecord_id m + 1)) flags perm err path arg arg_len apath r ->
     Forall is_char path -> 0 < path_len r < PAGE_SIZE ->
     good_ptr (b_ptr (pathname r)) -> page_of (b_ptr (pathname r)) = p1 ->
     (aux_is_path t = true -> good_ptr (b_ptr (aux r)) /\ page_of (b_ptr (aux r)) = p2 /\
                              0 < aux_len r < PAGE_SIZE) ->
     WP (k (0, r)) Q (set_trecord_id (int32 (trecord_id m + 1)) m) (h ++ tr)) ->
  WP (fill_record (rec_type_val t) dentry flags perm err arg arg_len rec0 ≫= k) Q m h.
Proof.
  intros Ht Hp Ha Hfail Hk. unfold fill_record.
  rewrite decide_False by (pose proof (rec_type_val_pos t); lia).
  apply wp_assoc, wp_kdo. intros p1 Hp1. pose proof (kernel_spec (w := w) _ _ Hp1) as Hg1.
  simpl in Hg1. case_decide as Hn1.
  { subst p1. unfold fill_cleanup. apply Hfail; [done|done|].
    intros Hr. by apply Hr in Hp1. }
  destruct Hg1 as [?|Hg1]; [done|].
  apply wp_assoc, wp_kdo. intros p2 Hp2. pose proof (kernel_spec (w := w) _ _ Hp2) as Hg2.
  simpl in Hg2. case_decide as Hn2.
  { subst p2. unfold fill_cleanup. rewrite bool_decide_eq_true_2 by done. cbn [when].
    apply wp_assoc, wp_assoc, wp_SAFE_FREE_PAGE; [by left|].
    apply wp_SAFE_FREE_PAGE; [by right|]. rewrite nonnull_NULL, app_nil_r.
    assert (nonnull p1 = true) as -> by (apply good_ptr_nonnullb, Hg1).
    apply wp_ret. rewrite <- !app_assoc. apply Hfail; [|done|].
    - intros x. simpl. destruct Hg1 as (? & ? & ?). rewrite page_of_page by done.
      rewrite good_ptr_nonnullb by done. simpl. lia.
    - intros Hr. by apply Hr in Hp2. }
  destruct Hg2 as [?|Hg2]; [done|].
  apply wp_assoc. unfold atomic_inc_return_trecord_id. wp_pures.
  set (id := int32 (trecord_id m + 1)). set (m' := set_trecord_id id m).
  change (WP ((path ← kdo (dentry_path_raw dentry p1 PAGE_SIZE);
    path_len ← c_strlen path;
    record ← fill_aux (rec_type_val t) arg arg_len p2
      (TrRecord (uint32 id) (uint32 flags) (uint32 perm) (int32 err) 0 (short path_len)
         (uint32 (rec_type_val t)) 0 path nullbuf);
    fill_cleanup p1 p2 0 record) ≫= k) Q m' ((h ++ [Ev (S := ksig) get_free_page p1]) ++
      [Ev (S := ksig) get_free_page p2])).
  apply wp_assoc. eapply wp_dentry_path_raw; [done..|]. intros b Hb Hgb Hpb Hc Hl.
  apply wp_assoc, wp_c_strlen; [done|by rewrite Hb|]. apply wp_assoc.
  apply wp_fill_aux with (apath := apath); [done|done|rewrite Hb; lia|done|].
  intros tr r Htr Hun Hr Hrp Hra. apply wp_ret. rewrite <- !app_assoc.
  assert (Hlen : path_len r = Z.of_nat (length path)).
  { destruct Hr as (_ & _ & _ & _ & _ & E1 & E2 & _). by rewrite E2, Hb. }
  eapply (Hk _ r p1 p2); rewrite ?Hrp, ?Hlen; try done.
  - intros x. simpl. rewrite Htr. simpl. lia.
  - by rewrite Hb in Hr.
Qed.
End Fill.

(** ** Appending a record *)

(** A mounted file system, as the logging code needs it: private data in
    place, an open log file, and the page buffer of the size the mount code
    allocates. *)
Record mounted (w : kworld) (m : kmem) (sb lock : ptr) (si : trfs_sb_info) (pos : Z)
    (buf : bytes) : Prop := {
  mt_sb : has_sb m sb lock si;
  mt_file : good_ptr (tr_lower_filep si);
  mt_pos : f_pos m !! tr_lower_filep si = Some pos;
  mt_page : good_ptr (tr_page si);
  mt_buf : kbufs m !! tr_page si = Some buf;
  mt_len : Z.of_nat (length buf) = sizeof_tr_record + PAGE_SIZE;
  mt_type : type_name w sb = TRFS_NAME;
}.

(** A record whose path is in place and whose sizes agree up to the width of
    their fields. *)
Record path_wf (r : tr_record) : Prop := {
  rw_path : Forall is_char (b_data (pathname r));
  rw_path_ptr : good_ptr (b_ptr (pathname r));
  rw_path_len : path_len r = Z.of_nat (length (b_data (pathname r)));
  rw_path_fits : path_len r < PAGE_SIZE;
  rw_common : short (rec_size r - path_len r - aux_len r) = sizeof_header;
}.

(** A record whose sizes agree with its contents. *)
Record record_wf (r : tr_record) : Prop := {
  rw_path_wf : path_wf r;
  rw_aux : 0 <= aux_len r <= Z.of_nat (length (b_data (aux r)));
  rw_size : rec_size r = sizeof_header + path_len r + aux_len r;
  rw_short : rec_size r <= 32767;
}.

(** The logging code's own memory after a record of [n] bytes. *)
Definition advanced (m : kmem) (si : trfs_sb_info) (pos n : Z) (buf : bytes) : kmem :=
  set_f_pos (<[tr_lower_filep si := pos + n]> (f_pos m))
    (set_kbufs (<[tr_page si := buf]> (kbufs m)) m).

Lemma mounted_advanced w m sb lock si pos buf n buf' :
  mounted w m sb lock si pos buf -> length buf' = length buf ->
  mounted w (advanced m si pos n buf') sb lock si (pos + n) buf'.
Proof.
  intros [] Hl. constructor; try done; simpl; try by rewrite lookup_insert_eq. by rewrite Hl.
Qed.

Section Append.
Context (w : kworld) (ok : khist -> event ksig -> Prop) `{HK : !KernelSpec w ok}.
Local Abbreviation WP := (wp ok).

Lemma wp_write_kbuf {A} p off data buf (k : unit -> kprog A) Q m h :
  good_ptr p -> kbufs m !! p = Some buf ->
  0 <= off /\ off + Z.of_nat (length data) <= Z.of_nat (length buf) ->
  WP (k tt) Q (set_kbufs (<[p := splice buf (Z.to_nat off) data]> (kbufs m)) m) h ->
  WP (write_kbuf p off data ≫= k) Q m h.
Proof.
  intros Hp Hb Hoff Hk. unfold write_kbuf. apply wp_assoc. eapply wp_heap_get; [done..|].
  rewrite decide_True by done. by eapply wp_heap_set.
Qed.

Lemma prefix_z_take n l : 0 <= n -> prefix_z n l = take (Z.to_nat n) l.
Proof.
  intros Hn. unfold prefix_z. case_decide; [|done]. rewrite take_ge; [done|lia].
Qed.

Lemma length_prefix_z n l :
  0 <= n <= Z.of_nat (length l) -> Z.of_nat (length (prefix_z n l)) = n.
Proof. intros Hn. rewrite prefix_z_take, length_take by lia. lia. Qed.

(** A write of the log that the lower file system completes. *)
Lemma wp_log_write {A} f buf n pos (k : Z -> kprog A) Q m h :
  (forall h e, ok h e -> resourceful e) ->
  good_ptr f -> f_pos m !! f = Some pos ->
  0 <= n <= 32767 + 32767 -> n <= Z.of_nat (length buf) ->
  WP (k n) Q (set_f_pos (<[f := pos + n]> (f_pos m)) m)
    (h ++ [Ev (S := ksig) (kernel_write f (take (Z.to_nat n) buf) n pos) n]) ->
  WP (log_write f buf n ≫= k) Q m h.
Proof.
  intros Hres Hf Hpos Hn Hl Hk. unfold log_write. apply wp_assoc.
  eapply wp_heap_get; [done..|]. rewrite uint64_id by lia.
  apply wp_assoc, wp_kdo. intros r Hr. apply Hres in Hr. simpl in Hr.
  rewrite length_prefix_z in Hr by lia. unfold MAX_RW_COUNT in Hr.
  rewrite (Hr eq_refl ltac:(lia)) in *. clear Hr r.
  rewrite int32_id by lia. rewrite decide_False by (intros E; by apply E).
  apply wp_assoc. eapply wp_heap_set; [done..|]. apply wp_ret.
  rewrite prefix_z_take by lia. exact Hk.
Qed.

(** What appending leaves in the buffer: the fixed part, the path and a NUL
    in front of the rest. *)
Lemma page_after_copies buf hdr path :
  (length hdr + length path + 1 <= length buf)%nat ->
  let buf' := splice (splice buf 0 hdr) (length hdr) (path ++ [0]) in
  length buf' = length buf /\ take (length hdr + length path) buf' = hdr ++ path.
Proof.
  intros Hl buf'. unfold buf'.
  assert (Hl1 : length (splice buf 0 hdr) = length buf) by (rewrite length_splice; lia).
  split.
  - rewrite length_splice, Hl1, length_app. simpl. lia.
  - assert (Hp : length (path ++ [0]) = (length path + 1)%nat) by (rewrite length_app; done).
    replace (length hdr + length path)%nat
      with (Nat.min (length hdr + length path) (length hdr + (length path + 1))) by lia.
    rewrite <- take_take, <- Hp, splice_take by lia.
    pose proof (splice_take buf 0 hdr ltac:(lia)) as E. simpl in E. rewrite E.
    rewrite app_assoc, take_app_length'; [done|]. rewrite length_app. lia.
Qed.

Lemma struct_header r : slice (struct_bytes r) 0 sizeof_header = Some (header_bytes r).
Proof. apply (slice_app []); [done|]. by rewrite length_header_bytes. Qed.

Lemma wp_copy_record {A} page buf r (k : unit -> kprog A) Q m h :
  path_wf r -> good_ptr page -> kbufs m !! page = Some buf ->
  Z.of_nat (length buf) = sizeof_tr_record + PAGE_SIZE ->
  (forall buf', length buf' = length buf ->
     take (Z.to_nat (sizeof_header + path_len r)) buf' = header_bytes r ++ b_data (pathname r) ->
     WP (k tt) Q (set_kbufs (<[page := buf']> (kbufs m)) m)
       (h ++ [Ev (S := ksig) (free_page (b_ptr (pathname r))) tt])) ->
  WP (copy_record page sizeof_header r ≫= k) Q m h.
Proof.
  intros Hr Hp Hb Hlen Hk. pose proof Hr as []. unfold copy_record.
  rewrite struct_header. cbn [deref]. pose proof (length_header_bytes r) as E3.
  apply wp_assoc, wp_ret. set (hdr := header_bytes r) in *.
  unfold sizeof_tr_record, sizeof_header, PAGE_SIZE in *.
  apply wp_assoc. eapply wp_write_kbuf; [done..|lia|]. apply wp_assoc, wp_check; [done|].
  rewrite cstr_id by done. set (path := b_data (pathname r)) in *.
  apply wp_assoc. eapply wp_write_kbuf; [done|simpl; by rewrite lookup_insert_eq| |].
  { rewrite length_splice, length_app. simpl. lia. }
  apply wp_kdo; intros [] _.
  destruct (page_after_copies buf hdr path ltac:(lia)) as [Hl Htk].
  cbn [kbufs set_kbufs]. rewrite insert_insert_eq.
  apply Hk; change (Z.to_nat 0) with O; replace (Z.to_nat 32) with (length hdr) by lia; [done|].
  rewrite <- Htk. f_equal. lia.
Qed.

Lemma wp_append_aux {A} f r ret pos (k : Z -> kprog A) Q m h :
  (forall h e, ok h e -> resourceful e) ->
  good_ptr f -> f_pos m !! f = Some pos ->
  0 <= aux_len r <= Z.of_nat (length (b_data (aux r))) -> aux_len r <= 32767 ->
  (aux_len r = 0 -> b_ptr (aux r) = NULL) ->
  pos = Z.of_nat (length (log_image f h)) ->
  (forall ret' tr,
     log_image f (h ++ tr) = log_image f h ++ take (Z.to_nat (aux_len r)) (b_data (aux r)) ->
     tr ≡ₗ (if decide (aux_len r = 0 \/ type r = TR_FWRITE) then []
            else [Ev (S := ksig) (free_page (b_ptr (aux r))) tt]) ->
     WP (k ret') Q (set_f_pos (<[f := pos + aux_len r]> (f_pos m)) m) (h ++ tr)) ->
  WP (append_aux f r ret ≫= k) Q m h.
Proof.
  intros Hres Hf Hpos Hr Hr' Ha0 Hp Hk. unfold append_aux.
  destruct (decide (aux_len r = 0)) as [Ha|Ha].
  - apply wp_assoc, wp_bug_on.
    { apply bool_decide_eq_false. rewrite Ha0 by done. by intros H; apply H. }
    apply wp_ret. rewrite <- (app_nil_r h).
    replace m with (set_f_pos (<[f := pos + aux_len r]> (f_pos m)) m).
    + apply Hk; [by rewrite Ha, !app_nil_r|]. rewrite decide_True by auto. done.
    + rewrite Ha, Z.add_0_r, insert_id by done. by destruct m.
  - apply wp_assoc. eapply wp_log_write; [done..|lia|lia|].
    assert (Himg : forall tr, unlogged tr ->
      log_image f (h ++ Ev (S := ksig) (kernel_write f (take (Z.to_nat (aux_len r))
        (b_data (aux r))) (aux_len r) pos) (aux_len r) :: tr) =
      log_image f h ++ take (Z.to_nat (aux_len r)) (b_data (aux r))).
    { intros tr Htr. rewrite log_image_app. cbn [foldl]. rewrite Htr, Hp.
      apply log_step_append; [lia|]. rewrite length_take. lia. }
    destruct (decide (type r = TR_FWRITE)) as [Ht|Ht].
    + rewrite bool_decide_eq_false_2 by (by intros H; apply H). apply wp_assoc, wp_ret, wp_ret.
      apply Hk; [by apply Himg|]. rewrite decide_True by auto. ledger.
    + rewrite bool_decide_eq_true_2 by done. apply wp_assoc, wp_kdo. intros [] _.
      apply wp_ret. rewrite <- app_assoc. apply Hk; [by apply Himg|].
      rewrite decide_False by (by intros [?|?]). ledger.
Qed.

(** Up to the first write: the checks pass and the page buffer holds the
    header and the path. *)
Lemma wp_append_head {A} sb lock si pos buf r (k : Z -> kprog A) Q m h :
  mounted w m sb lock si pos buf -> path_wf r ->
  (forall buf', length buf' = length buf ->
     take (Z.to_nat (sizeof_header + path_len r)) buf' = header_bytes r ++ b_data (pathname r) ->
     WP (ret ← log_write (tr_lower_filep si) buf' (rec_size r - aux_len r);
         ret ← append_aux (tr_lower_filep si) r ret; k ret) Q
       (set_kbufs (<[tr_page si := buf']> (kbufs m)) m)
       (h ++ [Ev (S := ksig) (s_type_name sb) TRFS_NAME;
              Ev (S := ksig) (free_page (b_ptr (pathname r))) tt])) ->
  WP (append_record sb r ≫= k) Q m h.
Proof.
  intros Hm Hr Hk. pose proof Hm as []. unfold append_record.
  apply wp_assoc, wp_kdo. intros nm Hnm%(kernel_spec (w := w)). simpl in Hnm.
  rewrite mt_type0 in Hnm. subst nm.
  apply wp_assoc, wp_bug_on; [by vm_compute|]. apply wp_assoc, wp_fmap.
  eapply wp_sb_info; [done|]. rewrite (rw_common _ Hr).
  apply wp_assoc, wp_bug_on; [done|]. unfold TRFS_PAGE. apply wp_assoc, wp_fmap.
  eapply wp_sb_info; [done|]. apply wp_assoc. eapply wp_copy_record; [done..|].
  intros buf' Hl Htk. apply wp_assoc.
  eapply wp_heap_get; [done|simpl; by rewrite lookup_insert_eq|].
  apply wp_assoc. rewrite <- app_assoc. by apply Hk.
Qed.

(** With a lower file system that completes its writes, appending puts
    exactly the encoded record at the end of the log. *)
Lemma wp_append_record {A} sb lock si pos buf r (k : Z -> kprog A) Q m h :
  (forall h e, ok h e -> resourceful e) ->
  mounted w m sb lock si pos buf -> record_wf r ->
  (aux_len r = 0 -> b_ptr (aux r) = NULL) ->
  pos = Z.of_nat (length (log_image (tr_lower_filep si) h)) ->
  (forall ret tr buf', length buf' = length buf ->
     log_image (tr_lower_filep si) (h ++ tr) =
       log_image (tr_lower_filep si) h ++ encode_record r ->
     tr ≡ₗ Ev (S := ksig) (free_page (b_ptr (pathname r))) tt ::
           (if decide (aux_len r = 0 \/ type r = TR_FWRITE) then []
            else [Ev (S := ksig) (free_page (b_ptr (aux r))) tt]) ->
     WP (k ret) Q (advanced m si pos (rec_size r) buf') (h ++ tr)) ->
  WP (append_record sb r ≫= k) Q m h.
Proof.
  intros Hres Hm Hr Ha0 Hpos Hk. pose proof Hm as []. pose proof Hr as [[] ? ? ?].
  eapply wp_append_head; [done|apply Hr|]. intros buf' Hl Htk.
  assert (E2 : rec_size r - aux_len r = sizeof_header + path_len r) by lia.
  pose proof (length_header_bytes r) as E3.
  rewrite E2. unfold sizeof_tr_record, sizeof_header, PAGE_SIZE in *.
  eapply wp_log_write; [done..|lia|lia|]. rewrite Htk, <- !app_assoc.
  assert (Hlen : length (header_bytes r ++ b_data (pathname r)) = Z.to_nat (32 + path_len r))
    by (rewrite length_app; lia).
  match goal with |- WP _ _ _ (h ++ ?t) => set (tr1 := t) end.
  assert (Himg : log_image (tr_lower_filep si) (h ++ tr1) =
    log_image (tr_lower_filep si) h ++ header_bytes r ++ b_data (pathname r)).
  { rewrite log_image_app. unfold tr1. cbn [app foldl]. rewrite Hpos.
    apply (log_step_append _ (log_image _ h)); [lia|]. rewrite Hlen. lia. }
  eapply wp_append_aux; [done|done|simpl; by rewrite lookup_insert_eq|done|lia|done| |].
  { rewrite Himg, length_app, Hlen. lia. }
  intros ret' tr2 Himg2 Hled2. rewrite <- app_assoc. cbn [f_pos set_f_pos].
  rewrite insert_insert_eq.
  replace (pos + (32 + path_len r) + aux_len r) with (pos + rec_size r) by lia.
  apply (Hk ret' (tr1 ++ tr2) buf'); [done| |].
  - rewrite app_assoc, Himg2, Himg. unfold encode_record. by rewrite <- !app_assoc.
  - intros x. rewrite net_app, Hled2. unfold tr1. simpl. lia.
Qed.

(** Without assumptions on the lower file system's writes: the position
    moves or stays, and pages go back the same way. *)
Lemma wp_log_write_any {A} f buf n pos (k : Z -> kprog A) Q m h :
  good_ptr f -> f_pos m !! f = Some pos ->
  (forall ret r pos', 
     WP (k ret) Q (set_f_pos (<[f := pos']> (f_pos m)) m)
       (h ++ [Ev (S := ksig) (kernel_write f (prefix_z (uint64 n) buf) (uint64 n) pos) r])) ->
  WP (log_write f buf n ≫= k) Q m h.
Proof.
  intros Hf Hpos Hk. unfold log_write. apply wp_assoc. eapply wp_heap_get; [done..|].
  apply wp_assoc, wp_kdo. intros r _. destruct (decide (int32 r <> n)) as [Hne|He].
  - apply wp_ret. specialize (Hk (-1) r pos). rewrite insert_id in Hk by done.
    by destruct m.
  - apply wp_assoc. eapply wp_heap_set; [done..|]. apply wp_ret. apply Hk.
Qed.

(** A negative count is a huge [size_t]: the kernel refuses it, and the file
    and its position stay as they are. *)
Lemma wp_log_write_refused {A} f buf n pos (k : Z -> kprog A) Q m h :
  good_ptr f -> f_pos m !! f = Some pos -> - 2 ^ 31 <= n < - MAX_ERRNO ->
  (forall r, r < 0 ->
     WP (k (-1)) Q m
       (h ++ [Ev (S := ksig) (kernel_write f (prefix_z (uint64 n) buf) (uint64 n) pos) r])) ->
  WP (log_write f buf n ≫= k) Q m h.
Proof.
  intros Hf Hpos Hn Hk. unfold log_write, MAX_ERRNO in *. apply wp_assoc.
  eapply wp_heap_get; [done..|]. apply wp_assoc, wp_kdo. intros r Hr.
  pose proof (kernel_spec (w := w) _ _ Hr) as Hr'. simpl in Hr'.
  pose proof (uint64_neg n ltac:(lia)). unfold MAX_ERRNO in Hr'.
  destruct (Hr' ltac:(lia)) as (? & ? & Hneg). rewrite int32_id by lia.
  rewrite decide_True by lia. apply wp_ret. apply Hk. lia.
Qed.

(** Any negative count is refused, whatever becomes of the position. *)
Lemma wp_log_write_neg {A} f buf n pos (k : Z -> kprog A) Q m h :
  good_ptr f -> f_pos m !! f = Some pos -> - 2 ^ 31 <= n < 0 ->
  (forall ret r pos', r < 0 ->
     WP (k ret) Q (set_f_pos (<[f := pos']> (f_pos m)) m)
       (h ++ [Ev (S := ksig) (kernel_write f (prefix_z (uint64 n) buf) (uint64 n) pos) r])) ->
  WP (log_write f buf n ≫= k) Q m h.
Proof.
  intros Hf Hpos Hn Hk. unfold log_write. apply wp_assoc.
  eapply wp_heap_get; [done..|]. apply wp_assoc, wp_kdo. intros r Hr.
  pose proof (kernel_spec (w := w) _ _ Hr) as Hr'. simpl in Hr'.
  pose proof (uint64_neg n ltac:(lia)). destruct (Hr' ltac:(lia)) as (_ & _ & Hneg).
  specialize (Hneg ltac:(lia)). case_decide.
  - apply wp_ret. specialize (Hk (-1) r pos Hneg). rewrite insert_id in Hk by done. by destruct m.
  - apply wp_assoc. eapply wp_heap_set; [done..|]. apply wp_ret. by apply Hk.
Qed.

Lemma wp_append_record_any {A} sb lock si pos buf r (k : Z -> kprog A) Q m h :
  mounted w m sb lock si pos buf -> record_wf r ->
  (aux_len r = 0 -> b_ptr (aux r) = NULL) ->
  (forall ret tr pos' buf', length buf' = length buf ->
     tr ≡ₗ Ev (S := ksig) (free_page (b_ptr (pathname r))) tt ::
           (if decide (aux_len r = 0 \/ type r = TR_FWRITE) then []
            else [Ev (S := ksig) (free_page (b_ptr (aux r))) tt]) ->
     WP (k ret) Q (advanced m si pos' 0 buf') (h ++ tr)) ->
  WP (append_record sb r ≫= k) Q m h.
Proof.
  intros Hm Hr Ha0 Hk. pose proof Hm as [].
  eapply wp_append_head; [done|apply Hr|]. intros buf' Hl _.
  eapply wp_log_write_any; [done..|]. intros ret r1 pos1.
  unfold append_aux. destruct (decide (aux_len r = 0)) as [Ha|Ha].
  { apply wp_assoc, wp_bug_on.
    { apply bool_decide_eq_false. rewrite Ha0 by done. by intros H; apply H. }
    apply wp_ret. rewrite <- !app_assoc, <- (Z.add_0_r pos1). apply Hk; [done|].
    rewrite decide_True by auto. ledger. }
  apply wp_assoc. eapply wp_log_write_any; [done|simpl; by rewrite lookup_insert_eq|].
  intros ret2 r2 pos2. cbn [f_pos set_f_pos]. rewrite insert_insert_eq.
  destruct (decide (type r = TR_FWRITE)) as [Ht|Ht].
  - rewrite bool_decide_eq_false_2 by (by intros H; apply H). apply wp_assoc, wp_ret, wp_ret.
    rewrite <- !app_assoc. rewrite <- (Z.add_0_r pos2). apply Hk; [done|].
    rewrite decide_True by auto. ledger.
  - rewrite bool_decide_eq_true_2 by done. apply wp_assoc, wp_kdo. intros [] _. apply wp_ret.
    rewrite <- !app_assoc. rewrite <- (Z.add_0_r pos2). apply Hk; [done|].
    rewrite decide_False by (by intros [?|?]). ledger.
Qed.
End Append.

(** ** Logging an operation *)

(** The operation's data fits the record: what is logged of a write or a
    symbolic link is not empty, can be read, and the record's size fits its
    field. *)
Definition op_fits (t : rec_type) (path : bytes) (arg : buffer) (arg_len : Z) : Prop :=
  aux_is_data t = true ->
  0 < arg_len <= Z.of_nat (length (b_data arg)) /\
  sizeof_header + Z.of_nat (length path) + arg_len <= 32767.

Lemma filled_wf t id flags perm err path arg arg_len apath r :
  filled t id flags perm err path arg arg_len apath r -> logged t ->
  op_fits t path arg arg_len -> Forall is_char path -> path_len r < PAGE_SIZE ->
  good_ptr (b_ptr (pathname r)) -> (aux_is_path t = true -> 0 < aux_len r < PAGE_SIZE) ->
  record_wf r /\ (aux_len r = 0 -> b_ptr (aux r) = NULL) /\
  rec_size r = sizeof_header + path_len r + aux_len r.
Proof.
  intros (E1 & E2 & E3 & E4 & E5 & E6 & E7 & E8 & E9) [] Hfit Hc Hpl Hg Hal.
  assert (Ha : 0 <= aux_len r <= Z.of_nat (length (b_data (aux r))) /\
               sizeof_header + path_len r + aux_len r <= 32767 /\
               (aux_len r = 0 -> b_ptr (aux r) = NULL)).
  { unfold op_fits, sizeof_header, PAGE_SIZE in *.
    destruct t; try done; cbn [aux_is_path aux_is_data] in *; destruct E9 as [Ea El];
      rewrite ?Ea, ?El in *; try (specialize (Hal eq_refl)); try (specialize (Hfit eq_refl));
      rewrite ?short_id in * by lia; simpl; split_and!; try lia; done. }
  destruct Ha as (Ha & Hs & Hn).
  assert (Hsz : rec_size r = sizeof_header + path_len r + aux_len r).
  { rewrite E8. apply short_id. unfold sizeof_header in *. lia. }
  split_and!; [|done..]. constructor; try done; [|lia]. constructor; rewrite ?E6 in *; try done.
  rewrite Hsz. replace (_ - _ - _) with sizeof_header by lia. done.
Qed.

(** Only pages change hands. *)
Definition pages_only (t : khist) : Prop :=
  forall r, (forall p, r <> RPage p) -> net t r = 0.

Lemma pages_only_app t u : pages_only t -> pages_only u -> pages_only (t ++ u).
Proof. intros Ht Hu r Hr. by rewrite net_app, Ht, Hu. Qed.

Definition page_event (e : event ksig) : Prop :=
  match ev_call e with get_free_page | free_page _ => True | _ => False end.

Lemma page_events_only t : Forall page_event t -> pages_only t.
Proof.
  induction 1 as [|[c r] t Hc _ IH]; intros x Hx; [done|].
  destruct c; try done; simpl; rewrite IH by done.
  - unfold one_if. destruct (nonnull _); simpl; [|done].
    rewrite hits_ne by (intros E; by eapply Hx). done.
  - rewrite hits_ne by (intros E; by eapply Hx). done.
Qed.

(** The parts of the module's memory logging may change. *)
Definition log_frame (m m' : kmem) : Prop :=
  exists id pos bufs, m' = set_trecord_id id (set_f_pos pos (set_kbufs bufs m)).

Lemma log_frame_refl m : log_frame m m.
Proof. exists (trecord_id m), (f_pos m), (kbufs m). by destruct m. Qed.

Lemma log_frame_advanced m si pos n buf id :
  log_frame m (advanced (set_trecord_id id m) si pos n buf).
Proof. by eexists _, _, _. Qed.

Lemma mounted_trecord_id w m sb lock si pos buf id :
  mounted w m sb lock si pos buf -> mounted w (set_trecord_id id m) sb lock si pos buf.
Proof. by intros []. Qed.

Lemma silent_pages_only t : silent t -> pages_only t.
Proof. intros Ht r _. by apply silent_ledger. Qed.

Lemma pages_only_ledger t u : t ≡ₗ u -> pages_only u -> pages_only t.
Proof. intros Ht Hu r Hr. rewrite Ht. by apply Hu. Qed.

Lemma mutex_pair_ledger lock t :
  Ev (S := ksig) (mutex_lock lock) tt :: t ++ [Ev (S := ksig) (mutex_unlock lock) tt] ≡ₗ t.
Proof. ledger. Qed.

Lemma masked_type t mask :
  uint32 (Z.land (rec_type_val t) mask) =
  if Z.testbit mask (rec_type_bit t) then rec_type_val t else 0.
Proof.
  rewrite rec_type_masked. pose proof (rec_type_val_pos t).
  destruct (Z.testbit _ _); [apply uint32_id; lia|done].
Qed.

(** What a logged operation does to the page allocator: the page of the
    auxiliary path is taken and given back only by renames and links; a
    symbolic link gives back a page that belongs to its caller's string. *)
Definition pages_kept (t : rec_type) (arg : buffer) (p2 : ptr) : khist :=
  match t with
  | RENAME | LINK => []
  | SYMLINK => [Ev (S := ksig) get_free_page p2; Ev (S := ksig) (free_page (b_ptr arg)) tt]
  | _ => [Ev (S := ksig) get_free_page p2]
  end.

(** The pages a record holds, balanced against what appending it frees. *)
Lemma record_pages t id flags perm err path arg arg_len apath r p1 p2 :
  filled t id flags perm err path arg arg_len apath r -> logged t ->
  (aux_is_data t = true -> aux_len r <> 0) ->
  good_page p1 -> good_page p2 -> page_of (b_ptr (pathname r)) = p1 ->
  (aux_is_path t = true -> good_ptr (b_ptr (aux r)) /\ page_of (b_ptr (aux r)) = p2 /\
                           0 < aux_len r < PAGE_SIZE) ->
  [Ev (S := ksig) get_free_page p1; Ev (S := ksig) get_free_page p2] ++
  Ev (S := ksig) (free_page (b_ptr (pathname r))) tt ::
    (if decide (aux_len r = 0 \/ type r = TR_FWRITE) then []
     else [Ev (S := ksig) (free_page (b_ptr (aux r))) tt])
  ≡ₗ pages_kept t arg p2.
Proof.
  intros (_ & _ & _ & _ & E5 & _ & _ & _ & E9) [] Hd Hg1 Hg2 Hp1 Hap.
  assert (N1 : nonnull p1 = true) by apply good_ptr_nonnullb, Hg1.
  assert (N2 : nonnull p2 = true) by apply good_ptr_nonnullb, Hg2.
  intros x. rewrite E5.
  destruct t; try done; cbn [aux_is_path aux_is_data] in *; destruct E9 as [Ea El].
  all: try (specialize (Hap eq_refl) as (? & Hp2 & ?)).
  all: try rewrite decide_True by auto.
  all: try rewrite decide_False by (intros [?|?]; [try lia; by apply Hd|done]).
  all: cbn [pages_kept net count_entries delta one_if app fst snd].
  all: rewrite ?N1, ?N2, ?Hp1, ?Hp2, ?Ea; cbn [one_if count_entries]; lia.
Qed.

Section LogOp.
Context (w : kworld) (ok : khist -> event ksig -> Prop) `{HK : !KernelSpec w ok}.
Local Abbreviation WP := (wp ok).

(** The mutex is taken. *)
Lemma wp_log_enter {A} get_sb sb lock si op dentry flags perm err arg arg_len
    (k : unit -> kprog A) Q m h :
  reads ok get_sb sb -> has_sb m sb lock si ->
  (forall s1, silent s1 ->
     WP (log_locked get_sb op dentry flags perm err arg arg_len ≫= k) Q m
       (h ++ s1 ++ [Ev (S := ksig) (mutex_lock lock) tt])) ->
  WP (log_op get_sb op dentry flags perm err arg arg_len ≫= k) Q m h.
Proof.
  intros Hsb Hs Hk. pose proof Hs as (_ & _ & Hl & _). unfold log_op.
  apply wp_assoc, Hsb. intros s1 H1. apply wp_assoc. eapply wp_TRFS_SB; [done|].
  apply wp_assoc, wp_check; [done|]. apply wp_assoc, wp_kdo. intros [] _.
  rewrite <- app_assoc. by apply Hk.
Qed.

(** The block ends with the release. *)
Lemma wp_log_leave {A} get_sb sb lock si (k : unit -> kprog A) Q m h :
  reads ok get_sb sb -> has_sb m sb lock si ->
  (forall s, silent s -> WP (k tt) Q m (h ++ s ++ [Ev (S := ksig) (mutex_unlock lock) tt])) ->
  WP ((sb ← get_sb; lock ← TRFS_SB sb; check_ptr lock;; kdo (mutex_unlock lock)) ≫= k) Q m h.
Proof.
  intros Hsb Hs Hk. pose proof Hs as (_ & _ & Hl & _).
  apply wp_assoc, Hsb. intros s H. apply wp_assoc. eapply wp_TRFS_SB; [done|].
  apply wp_assoc, wp_check; [done|]. apply wp_kdo. intros [] _.
  rewrite <- app_assoc. by apply Hk.
Qed.

(** The mask drops the operation. *)
Lemma wp_log_locked_masked {A} get_sb sb lock si t dentry flags perm err arg arg_len
    (k : unit -> kprog A) Q m h :
  reads ok get_sb sb -> has_sb m sb lock si ->
  Z.testbit (umask si) (rec_type_bit t) = false ->
  (forall s2, silent s2 -> WP (k tt) Q m (h ++ s2 ++ [Ev (S := ksig) (mutex_unlock lock) tt])) ->
  WP (log_locked get_sb (rec_type_val t) dentry flags perm err arg arg_len ≫= k) Q m h.
Proof.
  intros Hsb Hs Hmask Hk. unfold log_locked.
  apply wp_assoc, Hsb. intros s2 H2. apply wp_assoc. eapply wp_sb_info; [done|].
  rewrite masked_type, Hmask. unfold fill_record. rewrite decide_True by done.
  apply wp_assoc, wp_ret. rewrite bool_decide_eq_false_2 by done. apply wp_assoc, wp_ret.
  eapply wp_log_leave; [done..|]. intros s3 H3. rewrite <- !app_assoc, (app_assoc s2 s3).
  apply Hk. by apply Forall_app.
Qed.

Lemma wp_log_op_masked {A} get_sb sb lock si t dentry flags perm err arg arg_len
    (k : unit -> kprog A) Q m h :
  reads ok get_sb sb -> has_sb m sb lock si ->
  Z.testbit (umask si) (rec_type_bit t) = false ->
  (forall s1 s2, silent s1 -> silent s2 ->
     WP (k tt) Q m (h ++ s1 ++ Ev (S := ksig) (mutex_lock lock) tt :: s2 ++
                    [Ev (S := ksig) (mutex_unlock lock) tt])) ->
  WP (log_op get_sb (rec_type_val t) dentry flags perm err arg arg_len ≫= k) Q m h.
Proof.
  intros Hsb Hs Hmask Hk. eapply wp_log_enter; [done..|]. intros s1 H1.
  eapply wp_log_locked_masked; [done..|]. intros s2 H2. rewrite <- !app_assoc. by apply Hk.
Qed.

(** Logging never fails, takes and releases the mutex, and trades pages
    only, whatever the lower file system answers. *)
Lemma wp_log_op_any {A} get_sb sb lock si pos buf t dentry flags perm err arg arg_len
    path apath (k : unit -> kprog A) Q m h :
  reads ok get_sb sb -> mounted w m sb lock si pos buf -> logged t ->
  path_of w dentry = Some path ->
  (aux_is_path t = true -> path_of w (b_ptr arg) = Some apath) ->
  op_fits t path arg arg_len ->
  (forall tr m', pages_only tr -> log_frame m m' -> WP (k tt) Q m' (h ++ tr)) ->
  WP (log_op get_sb (rec_type_val t) dentry flags perm err arg arg_len ≫= k) Q m h.
Proof.
  intros Hsb Hm Ht Hpath Hap Hfit Hk. pose proof (mt_sb _ _ _ _ _ _ _ Hm) as Hs.
  destruct (Z.testbit (umask si) (rec_type_bit t)) eqn:Hbit; swap 1 2.
  { eapply wp_log_op_masked; [done..|]. intros s1 s2 H1 H2. apply Hk; [|apply log_frame_refl].
    apply pages_only_app; [by apply silent_pages_only|].
    eapply pages_only_ledger; [apply mutex_pair_ledger|by apply silent_pages_only]. }
  eapply wp_log_enter; [done..|]. intros s1 H1. unfold log_locked.
  apply wp_assoc, Hsb. intros s2 H2. apply wp_assoc. eapply wp_sb_info; [done|].
  rewrite masked_type, Hbit.
  (* the end of the block, common to both outcomes *)
  assert (Hend : forall m' tr, has_sb m' sb lock si -> pages_only tr -> log_frame m m' ->
    WP ((sb ← get_sb; lock ← TRFS_SB sb; check_ptr lock;; kdo (mutex_unlock lock)) ≫= k) Q m'
      (h ++ s1 ++ Ev (S := ksig) (mutex_lock lock) tt :: s2 ++ tr)).
  { intros m' tr Hs' Htr Hfr. eapply wp_log_leave; [done..|]. intros s4 H4.
    rewrite <- !app_assoc. cbn [app]. apply Hk; [|done].
    apply pages_only_app; [by apply silent_pages_only|]. rewrite <- !app_assoc, !app_assoc.
    eapply pages_only_ledger; [apply mutex_pair_ledger|].
    auto using pages_only_app, silent_pages_only. }
  apply wp_assoc. eapply wp_fill_record with (w := w); [done..| |].
  - intros tr Htr _ _. rewrite bool_decide_eq_false_2 by done. apply wp_assoc, wp_ret.
    rewrite <- !app_assoc. apply Hend; [done| |apply log_frame_refl].
    intros r Hr. by rewrite Htr.
  - intros tr r p1 p2 Hp1 Hp2 Htr _ Hfil Hc Hpl Hg Hpg Hax.
    destruct (filled_wf _ _ _ _ _ _ _ _ _ _ Hfil Ht Hfit Hc ltac:(lia) Hg) as (Hwf & Ha0 & _).
    { intros E. by apply Hax. }
    rewrite bool_decide_eq_true_2 by done. cbn [when].
    apply wp_assoc, wp_assoc, Hsb. intros s3 H3. apply wp_assoc.
    eapply wp_append_record_any with (w := w); [done|by apply mounted_trecord_id|done..|].
    intros ret tr2 pos' buf' _ Htr2. apply wp_ret.
    rewrite <- !app_assoc. cbn [app].
    apply Hend; [by apply Hs| |apply log_frame_advanced].
    eapply pages_only_ledger; [by rewrite Htr, Htr2, (silent_ledger s3)|].
    apply page_events_only. repeat constructor. by destruct (decide _); repeat constructor.
Qed.

(** On a kernel with pages to spare and completed writes, an operation the
    mask selects appends exactly one record under the mutex. *)
Lemma wp_log_locked {A} get_sb sb lock si pos buf t dentry flags perm err arg arg_len
    path apath (k : unit -> kprog A) Q m h :
  (forall h e, ok h e -> resourceful e) ->
  reads ok get_sb sb -> mounted w m sb lock si pos buf -> logged t ->
  Z.testbit (umask si) (rec_type_bit t) = true ->
  path_of w dentry = Some path ->
  (aux_is_path t = true -> path_of w (b_ptr arg) = Some apath) ->
  op_fits t path arg arg_len ->
  pos = Z.of_nat (length (log_image (tr_lower_filep si) h)) ->
  (forall tr r p2 buf',
     length buf' = length buf -> good_page p2 ->
     filled t (int32 (trecord_id m + 1)) flags perm err path arg arg_len apath r ->
     record_wf r ->
     let h' := h ++ tr ++ [Ev (S := ksig) (mutex_unlock lock) tt] in
     log_image (tr_lower_filep si) h' = log_image (tr_lower_filep si) h ++ encode_record r ->
     tr ≡ₗ pages_kept t arg p2 ->
     WP (k tt) Q (advanced (set_trecord_id (int32 (trecord_id m + 1)) m) si pos (rec_size r) buf') h') ->
  WP (log_locked get_sb (rec_type_val t) dentry flags perm err arg arg_len ≫= k) Q m h.
Proof.
  intros Hres Hsb Hm Ht Hbit Hpath Hap Hfit Hpos Hk. pose proof (mt_sb _ _ _ _ _ _ _ Hm) as Hs.
  unfold log_locked. apply wp_assoc, Hsb. intros s2 H2. apply wp_assoc. eapply wp_sb_info; [done|].
  rewrite masked_type, Hbit. apply wp_assoc. eapply wp_fill_record with (w := w); [done..| |].
  { intros tr _ _ Hn. by destruct Hn. }
  intros tr r p1 p2 Hp1 Hp2 Htr Hun Hfil Hc Hpl Hg Hpg Hax.
  destruct (filled_wf _ _ _ _ _ _ _ _ _ _ Hfil Ht Hfit Hc ltac:(lia) Hg) as (Hwf & Ha0 & Hsz).
  { intros E. by apply Hax. }
  rewrite bool_decide_eq_true_2 by done. cbn [when].
  apply wp_assoc, wp_assoc, Hsb. intros s3 H3. apply wp_assoc.
  set (hpre := (((h ++ s2) ++ tr) ++ s3)).
  assert (Hpre : log_image (tr_lower_filep si) hpre = log_image (tr_lower_filep si) h).
  { unfold hpre. rewrite <- !app_assoc. apply log_image_unlogged.
    repeat (apply unlogged_app; try by apply silent_unlogged); done. }
  eapply wp_append_record with (w := w);
    [done|done|by apply mounted_trecord_id|done|done|by rewrite Hpre|].
  intros ret tr2 buf' Hb Himg Htr2. apply wp_ret.
  eapply wp_log_leave; [done|by apply Hs|]. intros s4 H4.
  set (tr' := s2 ++ tr ++ s3 ++ tr2 ++ s4).
  assert (E : (hpre ++ tr2) ++ s4 ++ [Ev (S := ksig) (mutex_unlock lock) tt] =
    h ++ tr' ++ [Ev (S := ksig) (mutex_unlock lock) tt]).
  { unfold hpre, tr'. by rewrite <- !app_assoc. }
  rewrite E. eapply Hk; [done..| |].
  - rewrite <- E, log_image_unlogged, Himg, Hpre; [done|].
    apply unlogged_app; [by apply silent_unlogged|done].
  - unfold tr'. rewrite (silent_ledger s2), (silent_ledger s3), (silent_ledger s4), Htr, Htr2 by done.
    rewrite app_nil_r. cbn [app]. eapply (record_pages t); try done.
    unfold filled in Hfil. intros Hd. specialize (Hfit Hd) as [? ?].
    destruct Hfil as (_ & _ & _ & _ & _ & _ & _ & _ & Hfil).
    destruct t; try done; cbn in Hfil; destruct Hfil as [_ ->];
      rewrite short_id; unfold sizeof_header in *; lia.
Qed.

(** With the mutex taken before. *)
Lemma wp_log_op {A} get_sb sb lock si pos buf t dentry flags perm err arg arg_len
    path apath (k : unit -> kprog A) Q m h :
  (forall h e, ok h e -> resourceful e) ->
  reads ok get_sb sb -> mounted w m sb lock si pos buf -> logged t ->
  Z.testbit (umask si) (rec_type_bit t) = true ->
  path_of w dentry = Some path ->
  (aux_is_path t = true -> path_of w (b_ptr arg) = Some apath) ->
  op_fits t path arg arg_len ->
  pos = Z.of_nat (length (log_image (tr_lower_filep si) h)) ->
  (forall s tr r p2 buf',
     silent s -> length buf' = length buf -> good_page p2 ->
     filled t (int32 (trecord_id m + 1)) flags perm err path arg arg_len apath r ->
     record_wf r ->
     let h' := h ++ s ++ Ev (S := ksig) (mutex_lock lock) tt :: tr ++
                 [Ev (S := ksig) (mutex_unlock lock) tt] in
     log_image (tr_lower_filep si) h' = log_image (tr_lower_filep si) h ++ encode_record r ->
     tr ≡ₗ pages_kept t arg p2 ->
     WP (k tt) Q (advanced (set_trecord_id (int32 (trecord_id m + 1)) m) si pos (rec_size r) buf') h') ->
  WP (log_op get_sb (rec_type_val t) dentry flags perm err arg arg_len ≫= k) Q m h.
Proof.
  intros Hres Hsb Hm Ht Hbit Hpath Hap Hfit Hpos Hk.
  eapply wp_log_enter; [done|by eapply mt_sb|]. intros s1 H1.
  assert (E1 : log_image (tr_lower_filep si) (h ++ s1 ++ [Ev (S := ksig) (mutex_lock lock) tt]) =
    log_image (tr_lower_filep si) h).
  { apply log_image_unlogged. apply unlogged_app; [by apply silent_unlogged|done]. }
  eapply wp_log_locked; [done..|by rewrite E1|]. intros tr r p2 buf' Hb Hp2 Hfil Hwf h' Himg Htr.
  rewrite E1 in Himg. unfold h' in *. rewrite <- !app_assoc in *. by eapply Hk.
Qed.
End LogOp.
