(* ===== verification/Demo.v ===== *)
(** * A concrete kernel

    An environment that satisfies every assumption the theorems make of the
    kernel, with one mounted file system: the inputs of the witnesses. *)

From S2P Require Import Prelude Prog TrTypes Kernel TrfsH Ledger Trdump TrdumpSpec.

(** A reply that says nothing: zero, false, empty, no error. *)
Definition kdefault (c : kfun) : kreply c.
Proof.
  destruct c; simpl;
    first [exact tt | exact 0 | exact false | exact nullbuf | exact [] | exact (0, [])
          | exact (0, Path 0 0) | exact (0, 0) | exact (0, (0, []))].
Defined.

Definition demo_sb : ptr := 1000.
Definition demo_info : ptr := 2000.
Definition demo_log : ptr := 3000.
Definition demo_buf : ptr := 4000.
Definition demo_dir : ptr := 10.      (* an upper directory inode *)
Definition demo_dentry : ptr := 20.   (* an upper dentry *)
Definition demo_target : ptr := 30.   (* another *)
Definition demo_parent : ptr := 300.  (* the parent of every lower dentry *)

Definition demo_new : ptr := 50.      (* an upper dentry that was never looked up *)
Definition demo_mnt : ptr := 310.
Definition demo_foreign : ptr := 77.  (* an open file of the lower file system *)
Definition demo_lower_sb : ptr := 5000.

Definition demo_made : ptr := 26.     (* the inode of every lower file that is made *)

Definition demo_path (d : ptr) : bytes := if decide (d = demo_target) then lit "/b" else lit "/a".

(** What a function that answers NULL or an object, or an error or an object,
    makes of a number. *)
Definition or_null (p : Z) : ptr := if decide (0 < p < 2 ^ 64 - MAX_ERRNO) then p else NULL.
Definition or_err (p : Z) : ptr := if decide (0 < p < 2 ^ 64 - MAX_ERRNO) then p else ERR_PTR (- ENOENT).

(** The world: the inodes that are not lower ones belong to the one mounted
    super block. *)
Definition demo_sb_of (i : ptr) : ptr :=
  if decide (i = demo_made \/ i = demo_parent + 1) then demo_lower_sb else demo_sb.
Definition demo_type (sb : ptr) : bytes := if decide (sb = demo_sb) then TRFS_NAME else lit "ext4".
Definition demo_world : kworld := KWorld
  demo_sb_of
  (fun d => d = demo_parent \/ d = demo_dentry)
  (fun d => d + 1)
  (fun _ => demo_dentry)
  demo_type
  (fun d => Some (demo_path d)).

Lemma or_null_ok p : or_null p = NULL \/ good_ptr (or_null p).
Proof. unfold or_null. case_decide; [by right|by left]. Qed.
Lemma or_err_ok p : err_ptr (or_err p) \/ good_ptr (or_err p).
Proof. unfold or_err. case_decide; [by right|by left]. Qed.

Ltac small_ptr := unfold demo_parent, demo_mnt, demo_dentry, demo_dir, demo_made, demo_sb, demo_lower_sb, good_ptr, MAX_ERRNO in *; lia.

Section Env.
(** What the operations on the lower file system answer. *)
Variable lower : kfun -> Z.

Definition demo_env : env ksig := fun h c =>
  match c return kreply c with
  | load F_i_sb i => demo_sb_of i
  | load F_d_inode d =>
      if decide (d = demo_parent \/ d = demo_dentry) then d + 1
      else if decide (made d h) then demo_made else 0
  | load F_i_mapping _ => 5100
  | load F_f_inode f => if decide (f = demo_foreign) then demo_parent + 1 else demo_dir
  | load F_f_dentry _ => demo_dentry
  | load F_d_parent _ => demo_parent
  | load F_d_sb d => if decide (d = demo_new) then demo_sb else demo_lower_sb
  | load F_i_op o => or_null (lower (load F_i_op o))
  | load f o => lower (load f o)
  | i_op_readlink d b n => let r := lower (i_op_readlink d b n) in if decide (- MAX_ERRNO <= r <= n) then r else - MAX_ERRNO
  | s_type_name sb => demo_type sb
  | dget_parent _ => demo_parent
  | get_free_page => 4096 * (1 + Z.of_nat (length h) mod 1024)
  | dentry_path_raw d buf n =>
      Buffer (buf + n - 1 - Z.of_nat (length (demo_path d))) (demo_path d)
  | kernel_write _ data count _ =>
      if decide (2 ^ 63 <= count) then - EINVAL else Z.min count (Z.of_nat (length data))
  | vfs_create d a b c => lower (vfs_create d a b c)
  | vfs_link a b c => lower (vfs_link a b c)
  | vfs_unlink a b => lower (vfs_unlink a b)
  | vfs_symlink a b c => lower (vfs_symlink a b c)
  | vfs_mkdir a b c => lower (vfs_mkdir a b c)
  | vfs_rmdir a b => lower (vfs_rmdir a b)
  | vfs_mknod a b c d => lower (vfs_mknod a b c d)
  | vfs_rename a b c d e => lower (vfs_rename a b c d e)
  | vfs_write a b c d => lower (vfs_write a b c d)
  | vfs_read a b c d => lower (vfs_read a b c d)
  | lock_rename a b => lower (lock_rename a b)
  | iget5_locked a b c => or_null (lower (iget5_locked a b c))
  | igrab a => lower (igrab a)
  | d_splice_alias a b => or_null (lower (d_splice_alias a b))
  | filp_open a b c => or_err (lower (filp_open a b c))
  | getname_kernel a => or_err (lower (getname_kernel a))
  | kzalloc a => or_null (lower (kzalloc a))
  | kmalloc n => (if decide (lower (kmalloc n) = 0) then 0 else 600, replicate (Z.to_nat n) 0)
  | kmem_cache_zalloc a => or_null (lower (kmem_cache_zalloc a))
  | kmem_cache_alloc a => or_null (lower (kmem_cache_alloc a))
  | d_make_root a => or_null (lower (d_make_root a))
  | d_lookup a b => or_null (lower (d_lookup a b))
  | d_alloc a b => or_null (lower (d_alloc a b))
  | dentry_open a b => or_err (lower (dentry_open a b))
  | class_create => or_err (lower class_create)
  | device_create c => or_err (lower (device_create c))
  | alloc_chrdev_region => lower alloc_chrdev_region
  | cdev_add => lower cdev_add
  | mntget m => m
  | kern_path n f => (if decide (lower (kern_path n f) = 0) then 0 else - ENOENT, Path demo_parent demo_mnt)
  | vfs_path_lookup d m n f =>
      (if decide (lower (vfs_path_lookup d m n f) = 0) then 0 else - ENOENT, Path demo_parent demo_mnt)
  | copy_from_user a => (lower (copy_from_user a), (5, lit "/m"))
  | copy_to_user a v => lower (copy_to_user a v)
  | c' => kdefault c'
  end.

Lemma demo_env_ok : env_ok (kernel_ok_resourceful demo_world) demo_env.
Proof.
  intros h c. split.
  - destruct c; try done; simpl; try apply or_null_ok; try apply or_err_ok.
    + destruct f; try done; simpl.
      * unfold demo_parent, demo_dentry, demo_made in *. split_and!; intros.
        -- rewrite decide_True by done. split; [done|]. small_ptr.
        -- repeat case_decide; try done; small_ptr.
        -- repeat case_decide; [right|right|by left]; small_ptr.
      * case_decide; small_ptr.
      * split; [done|]. unfold demo_sb_of. by case_decide.
      * apply or_null_ok.
      * case_decide; small_ptr.
    + split; [by left|small_ptr].
    + right. pose proof (Z.mod_pos_bound (Z.of_nat (length h)) 1024 ltac:(lia)).
      unfold good_page, good_ptr, PAGE_SIZE, MAX_ERRNO. split_and!; [lia|lia| |lia].
      rewrite Z.mul_comm. by apply Z.mod_mul.
    + intros Hn. rewrite length_replicate. case_decide; [by left|right]. split; [small_ptr|lia].
    + intros Hc. unfold MAX_ERRNO, EINVAL. case_decide; lia.
    + case_decide; [left|right]; unfold ENOENT, MAX_ERRNO; [|lia].
      split_and!; [done|by left|small_ptr..].
    + intros ->. split; [done|]. unfold path_in_buffer, demo_path, PAGE_SIZE.
      case_decide; simpl; unfold is_char; split_and!; try lia; try done;
        repeat constructor; lia.
    + case_decide; [left|right]; unfold ENOENT, MAX_ERRNO; [|lia].
      split_and!; [done|by left|small_ptr..].
    + intros Hs. case_decide; [done|unfold MAX_ERRNO; lia].
    + destruct (or_null_ok (lower (d_splice_alias i d))); auto.
  - destruct c; try done; simpl.
    + pose proof (Z.mod_pos_bound (Z.of_nat (length h)) 1024 ltac:(lia)). unfold NULL. lia.
    + unfold MAX_RW_COUNT. intros E ?. rewrite decide_False by lia. lia.
Qed.

Lemma demo_env_kernel_ok : env_ok (kernel_ok demo_world) demo_env.
Proof. intros h c. apply demo_env_ok. Qed.
End Env.

(** The module's memory after a mount, with two dentries and a file looked up. *)
Definition demo_si (mask : Z) : trfs_sb_info := SbInfo 5000 demo_log demo_buf mask.

Definition demo_mem (mask : Z) : kmem := KMem (-1)
  {[ demo_sb := demo_info ]} {[ demo_info := demo_si mask ]}
  {[ demo_buf := replicate (Z.to_nat (sizeof_tr_record + PAGE_SIZE)) 0 ]}
  {[ demo_log := 0 ]}
  (<[demo_dentry := 21]> {[ demo_target := 31 ]})
  (<[21 := Path 22 23]> {[ 31 := Path 32 33 ]})
  (<[demo_dir := 11]> {[ 21 := 24 ]})
  {[ 40 := 41 ]} {[ 41 := FileInfo 42 0 ]} 0 0.

Definition umask_all : Z := 2 ^ 64 - 1.

Lemma demo_mounted mask :
  mounted demo_world (demo_mem mask) demo_sb demo_info (demo_si mask) 0
    (replicate (Z.to_nat (sizeof_tr_record + PAGE_SIZE)) 0).
Proof.
  constructor; try done.
Qed.
