(* ===== verification/LogThms.v ===== *)
(** * The logging code: what it guarantees

    Theorems about runs of the logging block of the handlers ([log_op]) and of
    [fill_record], in every environment that behaves as documented, and the
    inputs on which the code fails. *)

From S2P Require Import Prelude Prog TrTypes Kernel TrfsH Ledger Trdump TrdumpSpec Demo.

Lemma resourceful_of w h e : kernel_ok_resourceful w h e -> resourceful e.
Proof. by intros []. Qed.

Lemma length_encode_record r : record_wf r -> Z.of_nat (length (encode_record r)) = rec_size r.
Proof.
  intros [[] ? ? ?]. unfold encode_record, sizeof_header in *.
  rewrite !length_app, length_header_bytes, length_take. lia.
Qed.

(** A filled record passes the checks of [append_record], whatever its size. *)
Lemma filled_path_wf t id flags perm err path arg arg_len apath r :
  filled t id flags perm err path arg arg_len apath r ->
  Forall is_char path -> path_len r < PAGE_SIZE -> good_ptr (b_ptr (pathname r)) -> path_wf r.
Proof.
  intros (_ & _ & _ & _ & _ & E6 & E7 & E8 & _) Hc Hl Hg.
  constructor; rewrite ?E6; try done.
  rewrite E8. unfold short. rewrite <- Z.sub_add_distr, <- Z.add_opp_r, swrap_add by lia.
  replace (_ + _ + _ + _) with sizeof_header by lia. done.
Qed.

(** ** Logging one operation *)

(** C8: with pages to spare and completed writes, an operation selected by the
    mask adds to the log exactly the encoding of a record that says what the
    operation was, at the end; the file position follows, and the record
    counter moves by one. *)
Theorem log_op_appends w (env : kenv) dir lock si pos buf t dentry flags perm err arg arg_len
    path apath m h :
  env_ok (kernel_ok_resourceful w) env -> good_ptr dir ->
  mounted w m (sb_of w dir) lock si pos buf -> logged t ->
  Z.testbit (umask si) (rec_type_bit t) = true ->
  path_of w dentry = Some path ->
  (aux_is_path t = true -> path_of w (b_ptr arg) = Some apath) ->
  op_fits t path arg arg_len ->
  pos = Z.of_nat (length (log_image (tr_lower_filep si) h)) ->
  exists m' h' r buf',
    run env (log_op (ld F_i_sb dir) (rec_type_val t) dentry flags perm err arg arg_len) m h
      = finished tt m' h' /\
    filled t (int32 (trecord_id m + 1)) flags perm err path arg arg_len apath r /\
    log_image (tr_lower_filep si) h' = log_image (tr_lower_filep si) h ++ encode_record r /\
    mounted w m' (sb_of w dir) lock si
      (Z.of_nat (length (log_image (tr_lower_filep si) h'))) buf' /\
    trecord_id m' = int32 (trecord_id m + 1).
Proof.
  intros Hw Hdir Hm Ht Hbit Hp Ha Hfit Hpos.
  by_wp (kernel_ok_resourceful w). apply wp_tail.
  eapply wp_log_op with (w := w); try done; [apply resourceful_of|by apply reads_i_sb|].
  intros s tr r p2 buf' _ Hb _ Hfil Hwf h' Himg _.
  eexists _, _, r, buf'. split_and!; [done|done|done| |done].
  rewrite Himg, length_app, Nat2Z.inj_add, length_encode_record, <- Hpos by done.
  apply mounted_advanced with (buf := buf); [by apply mounted_trecord_id|done].
Qed.

Lemma log_op_appends_witness :
  exists m' h' r buf',
    run (demo_env (fun _ => 0))
      (log_op (ld F_i_sb demo_dir) TR_DCREAT demo_dentry 0 493 0 nullbuf 0)
      (demo_mem umask_all) [] = finished tt m' h' /\
    filled DCREAT (int32 0) 0 493 0 (lit "/a") nullbuf 0 [] r /\
    log_image demo_log h' = [] ++ encode_record r /\
    mounted demo_world m' demo_sb demo_info (demo_si umask_all)
      (Z.of_nat (length (log_image demo_log h'))) buf' /\
    trecord_id m' = int32 0.
Proof.
  apply (log_op_appends demo_world (demo_env (fun _ => 0)) demo_dir demo_info
    (demo_si umask_all) 0 (replicate (Z.to_nat (sizeof_tr_record + PAGE_SIZE)) 0) DCREAT
    demo_dentry 0 493 0 nullbuf 0 (lit "/a") [] (demo_mem umask_all) []);
    [apply demo_env_ok|done|apply demo_mounted|done|done|done|done|done|done].
Defined.

(** An operation whose bit is cleared in the mask leaves no trace: no
    record, no change of the module's memory, no resource taken. *)
Theorem log_op_masked w (env : kenv) dir lock si t dentry flags perm err arg arg_len m h :
  env_ok (kernel_ok w) env -> good_ptr dir -> has_sb m (sb_of w dir) lock si ->
  Z.testbit (umask si) (rec_type_bit t) = false ->
  exists h',
    run env (log_op (ld F_i_sb dir) (rec_type_val t) dentry flags perm err arg arg_len) m h
      = finished tt m h' /\
    h' ≡ₗ h /\ forall f, log_image f h' = log_image f h.
Proof.
  intros Hw Hdir Hs Hbit. by_wp (kernel_ok w). apply wp_tail.
  eapply wp_log_op_masked; [by apply reads_i_sb|done..|].
  intros s1 s2 H1 H2. eexists. split_and!; [done| |].
  - by rewrite mutex_pair_ledger, (silent_ledger s1), (silent_ledger s2), !app_nil_r.
  - intros f. apply log_image_unlogged. apply unlogged_app; [by apply silent_unlogged|].
    apply (unlogged_app [_]); [done|]. apply unlogged_app; [by apply silent_unlogged|done].
Qed.

Lemma log_op_masked_witness :
  exists h',
    run (demo_env (fun _ => 0))
      (log_op (ld F_i_sb demo_dir) TR_UNLINK demo_dentry 0 0 0 nullbuf 0)
      (demo_mem (2 ^ 64 - 1 - TR_UNLINK)) [] = finished tt (demo_mem (2 ^ 64 - 1 - TR_UNLINK)) h' /\
    h' ≡ₗ [] /\ forall f, log_image f h' = log_image f [].
Proof.
  apply (log_op_masked demo_world (demo_env (fun _ => 0)) demo_dir demo_info
    (demo_si (2 ^ 64 - 1 - TR_UNLINK)) UNLINK demo_dentry 0 0 0 nullbuf 0);
    [apply demo_env_kernel_ok|done|apply (mt_sb _ _ _ _ _ _ _ (demo_mounted _))|done].
Defined.

(** C25: whatever the page allocator and the lower file system answer, logging
    an operation whose data fits the record's fields does not kill the
    machine, takes and releases the logging mutex, and changes only the record
    counter, the log position and the page buffer; of all resources only pages
    may change hands. *)
Theorem log_op_total w (env : kenv) dir lock si pos buf t dentry flags perm err arg arg_len
    path apath m h :
  env_ok (kernel_ok w) env -> good_ptr dir ->
  mounted w m (sb_of w dir) lock si pos buf -> logged t ->
  path_of w dentry = Some path ->
  (aux_is_path t = true -> path_of w (b_ptr arg) = Some apath) ->
  op_fits t path arg arg_len ->
  exists m' h',
    run env (log_op (ld F_i_sb dir) (rec_type_val t) dentry flags perm err arg arg_len) m h
      = finished tt m' h' /\
    log_frame m m' /\
    forall r, (forall p, r <> RPage p) -> net h' r = net h r.
Proof.
  intros Hw Hdir Hm Ht Hp Ha Hfit. by_wp (kernel_ok w). apply wp_tail.
  eapply wp_log_op_any with (w := w); try done; [by apply reads_i_sb|].
  intros tr m' Htr Hfr. eexists _, _. split_and!; [done|done|].
  intros r Hr. rewrite net_app, Htr by done. lia.
Qed.

Lemma log_op_total_witness :
  exists m' h',
    run (demo_env (fun _ => 0))
      (log_op (ld F_i_sb demo_dir) TR_RENAME demo_dentry 0 0 0 (Buffer demo_target []) 0)
      (demo_mem umask_all) [] = finished tt m' h' /\
    log_frame (demo_mem umask_all) m' /\
    forall r, (forall p, r <> RPage p) -> net h' r = net [] r.
Proof.
  apply (log_op_total demo_world (demo_env (fun _ => 0)) demo_dir demo_info
    (demo_si umask_all) 0 (replicate (Z.to_nat (sizeof_tr_record + PAGE_SIZE)) 0) RENAME
    demo_dentry 0 0 0 (Buffer demo_target []) 0 (lit "/a") (lit "/b"));
    [apply demo_env_kernel_ok|done|apply demo_mounted|done|done|done|done].
Defined.

(** C39: the pages of a logged operation are not all returned: every operation
    but a rename or a link keeps the page of the unused auxiliary path, and a
    symbolic link frees the page its caller's target string lies in, which
    this code never took.  Everything else is balanced. *)
Theorem log_op_pages w (env : kenv) dir lock si pos buf t dentry flags perm err arg arg_len
    path apath m h :
  env_ok (kernel_ok_resourceful w) env -> good_ptr dir ->
  mounted w m (sb_of w dir) lock si pos buf -> logged t ->
  Z.testbit (umask si) (rec_type_bit t) = true ->
  path_of w dentry = Some path ->
  (aux_is_path t = true -> path_of w (b_ptr arg) = Some apath) ->
  op_fits t path arg arg_len ->
  pos = Z.of_nat (length (log_image (tr_lower_filep si) h)) ->
  exists m' h' p,
    run env (log_op (ld F_i_sb dir) (rec_type_val t) dentry flags perm err arg arg_len) m h
      = finished tt m' h' /\
    p <> NULL /\
    forall r, net h' r = net h r +
      (if aux_is_path t then 0 else hits r (RPage p)) -
      (if decide (t = SYMLINK) then hits r (RPage (page_of (b_ptr arg))) else 0).
Proof.
  intros Hw Hdir Hm Ht Hbit Hp Ha Hfit Hpos.
  by_wp (kernel_ok_resourceful w). apply wp_tail.
  eapply wp_log_op with (w := w); try done; [apply resourceful_of|by apply reads_i_sb|].
  intros s tr r p2 buf' Hs _ Hp2 _ _ h' _ Htr. eexists _, _, p2.
  pose proof (good_ptr_nonnull p2 ltac:(apply Hp2)) as Hne.
  assert (Hnn : nonnull p2 = true) by (apply good_ptr_nonnullb, Hp2).
  split_and!; [done|done|]. intros x. unfold h'.
  rewrite !net_app, (silent_ledger s Hs x), (mutex_pair_ledger lock tr x), (Htr x).
  destruct Ht, t; try done; simpl; rewrite ?Hnn; simpl; lia.
Qed.

Lemma log_op_pages_witness :
  exists m' h' p,
    run (demo_env (fun _ => 0))
      (log_op (ld F_i_sb demo_dir) TR_SYMLINK demo_dentry 0 0 0 (Buffer 8200 (lit "t")) 1)
      (demo_mem umask_all) [] = finished tt m' h' /\
    p <> NULL /\
    forall r, net h' r = net [] r + hits r (RPage p) - hits r (RPage (page_of 8200)).
Proof.
  apply (log_op_pages demo_world (demo_env (fun _ => 0)) demo_dir demo_info
    (demo_si umask_all) 0 (replicate (Z.to_nat (sizeof_tr_record + PAGE_SIZE)) 0) SYMLINK
    demo_dentry 0 0 0 (Buffer 8200 (lit "t")) 1 (lit "/a") []);
    [apply demo_env_ok|done|apply demo_mounted|done|done|done|done| |done].
  intros _. split; [split|]; by vm_compute.
Defined.

(** ** Where the code fails *)

(** The block up to the call of [append_record], on a kernel with pages. *)
Lemma wp_log_op_to_append {A} w ok {HK : KernelSpec w ok} get_sb sb lock si pos buf t dentry flags
    perm err arg arg_len path apath (k : unit -> kprog A) Q m h :
  (forall h e, ok h e -> resourceful e) ->
  reads ok get_sb sb -> mounted w m sb lock si pos buf -> logged t ->
  Z.testbit (umask si) (rec_type_bit t) = true -> path_of w dentry = Some path ->
  (aux_is_path t = true -> path_of w (b_ptr arg) = Some apath) ->
  (forall r pre m', filled t (int32 (trecord_id m + 1)) flags perm err path arg arg_len apath r ->
     path_wf r -> mounted w m' sb lock si pos buf -> unlogged pre ->
     wp ok (append_record sb r ≫= fun _ =>
       (sb ← get_sb; lock ← TRFS_SB sb; check_ptr lock;; kdo (mutex_unlock lock)) ≫= k) Q m' (h ++ pre)) ->
  wp ok (log_op get_sb (rec_type_val t) dentry flags perm err arg arg_len ≫= k) Q m h.
Proof.
  intros Hres Hsb Hm Ht Hbit Hp Ha Hk. pose proof (mt_sb _ _ _ _ _ _ _ Hm) as Hs.
  pose proof Hs as (_ & _ & Hl & _). unfold log_op.
  apply wp_assoc, Hsb. intros s1 H1. apply wp_assoc. eapply wp_TRFS_SB; [done|].
  apply wp_assoc, wp_check; [done|]. apply wp_assoc, wp_kdo. intros [] _.
  apply wp_assoc, Hsb. intros s2 H2. apply wp_assoc. eapply wp_sb_info; [done|].
  rewrite masked_type, Hbit. apply wp_assoc. eapply wp_fill_record with (w := w); [done..| |].
  { intros tr _ _ Hn. by destruct Hn. }
  intros tr r p1 p2 Hp1 Hp2 Htr Hun Hfil Hc Hpl Hg Hpg Hax.
  rewrite bool_decide_eq_true_2 by done. cbn [when].
  apply wp_assoc, wp_assoc, Hsb. intros s3 H3. apply wp_assoc.
  rewrite <- !app_assoc. apply Hk; [done| |by apply mounted_trecord_id|].
  - eapply filled_path_wf; [done|done|lia|done].
  - apply unlogged_app; [by apply silent_unlogged|]. apply (unlogged_app [_]); [done|].
    apply unlogged_app; [by apply silent_unlogged|]. apply unlogged_app; [done|by apply silent_unlogged].
Qed.

(** C35: a write whose length is a multiple of 65536 (a write of nothing, or of
    64 KiB) kills the kernel: the length kept in the record is zero, and
    [append_record] then insists that there be no data. *)
Theorem log_write_64k_bug w (env : kenv) dir lock si pos buf dentry flags err arg arg_len path m h :
  env_ok (kernel_ok_resourceful w) env -> good_ptr dir ->
  mounted w m (sb_of w dir) lock si pos buf ->
  Z.testbit (umask si) (rec_type_bit FWRITE) = true ->
  path_of w dentry = Some path ->
  b_ptr arg <> NULL -> arg_len mod 65536 = 0 ->
  exists m' h',
    run env (log_op (ld F_i_sb dir) TR_FWRITE dentry flags 0 err arg arg_len) m h
      = died BugOn m' h'.
Proof.
  intros Hw Hdir Hm Hbit Hp Harg Hlen. by_wp (kernel_ok_resourceful w). apply wp_tail.
  eapply (wp_log_op_to_append w _ _ _ _ _ _ _ FWRITE) with (apath := []); try done;
    [apply resourceful_of|by apply reads_i_sb|].
  intros r pre m' Hfil Hwf Hm' _. eapply wp_append_head; [done..|].
  intros buf' Hl Htk. pose proof Hm' as [].
  eapply wp_log_write_any; [done..|]. intros ret r1 pos1.
  destruct Hfil as (_ & _ & _ & _ & _ & _ & _ & _ & Ea & El). unfold append_aux.
  rewrite El, decide_True, Ea, bool_decide_eq_true_2 by (try done; by apply short_multiple).
  wp_pures. by eexists _, _.
Qed.

Lemma log_write_64k_bug_witness :
  exists m' h',
    run (demo_env (fun _ => 0))
      (log_op (ld F_i_sb demo_dir) TR_FWRITE demo_dentry 1 0 65536 (Buffer 8192 []) 65536)
      (demo_mem umask_all) [] = died BugOn m' h'.
Proof.
  apply (log_write_64k_bug demo_world (demo_env (fun _ => 0)) demo_dir demo_info
    (demo_si umask_all) 0 (replicate (Z.to_nat (sizeof_tr_record + PAGE_SIZE)) 0) demo_dentry
    1 65536 (Buffer 8192 []) 65536 (lit "/a"));
    [apply demo_env_ok|done|apply demo_mounted|done|done|done|done].
Defined.

(** *** Writes of any length

    What reaches the log of the record of a write depends on its length as a
    [short]: a negative length lets the header and the path through, and no
    data; a size that is too large for a [short] lets the data through, and no
    header. *)
Definition written (r : tr_record) : bytes :=
  if decide (aux_len r < 0) then header_bytes r ++ b_data (pathname r)
  else if decide (32767 < sizeof_header + path_len r + aux_len r) then
    take (Z.to_nat (aux_len r)) (b_data (aux r))
  else encode_record r.

Section Write.
Context (w : kworld) (dir : ptr) (Hdir : good_ptr dir) (lock : ptr) (si : trfs_sb_info).
Local Abbreviation WP := (wp (kernel_ok_resourceful w)).
Local Abbreviation sb := (sb_of w dir).

(** The last part of [append_record] for a header that was written and data
    that is refused, and the other way around. *)
Lemma wp_append_header {A} pos buf r (k : Z -> kprog A) Q m h :
  mounted w m sb lock si pos buf -> path_wf r -> type r = TR_FWRITE -> - 32768 <= aux_len r < 0 ->
  rec_size r = sizeof_header + path_len r + aux_len r ->
  pos = Z.of_nat (length (log_image (tr_lower_filep si) h)) ->
  (forall ret tr m', has_sb m' sb lock si ->
     log_image (tr_lower_filep si) (h ++ tr) =
       log_image (tr_lower_filep si) h ++ header_bytes r ++ b_data (pathname r) ->
     WP (k ret) Q m' (h ++ tr)) ->
  WP (append_record sb r ≫= k) Q m h.
Proof.
  intros Hm Hwf Ht Ha Hsz Hpos Hk. pose proof Hm as []. pose proof Hwf as [].
  eapply wp_append_head; [done..|]. intros buf' Hl Htk.
  replace (rec_size r - aux_len r) with (sizeof_header + path_len r) by lia.
  unfold sizeof_tr_record, sizeof_header, PAGE_SIZE in *.
  eapply wp_log_write; [apply resourceful_of|done|done|lia|lia|]. rewrite Htk.
  set (m1 := set_f_pos _ _). set (h1 := (h ++ _) ++ [_]).
  unfold append_aux. rewrite decide_False by lia. apply wp_assoc.
  eapply (wp_log_write_neg w _ _ _ _ (pos + (32 + path_len r))); [done|apply lookup_insert_eq|lia|].
  intros ret e pos' He. rewrite bool_decide_eq_false_2 by (rewrite Ht; by intros E; apply E). apply wp_assoc, wp_ret, wp_ret.
  unfold h1. rewrite <- !app_assoc. apply Hk; [done|].
  rewrite !log_image_app. cbn [app foldl].
  assert (Hr : forall img, log_step (tr_lower_filep si) img (Ev (S := ksig) (kernel_write (tr_lower_filep si)
      (prefix_z (uint64 (aux_len r)) (b_data (aux r))) (uint64 (aux_len r)) (pos + (32 + path_len r))) e) = img).
  { intros img. simpl. rewrite decide_False; [done|lia]. }
  rewrite Hr, Hpos. apply (log_step_append _ (log_image _ h)); [lia|]. rewrite length_app, length_header_bytes. lia.
Qed.

Lemma wp_append_data {A} pos buf r (k : Z -> kprog A) Q m h :
  mounted w m sb lock si pos buf -> path_wf r -> type r = TR_FWRITE ->
  0 < aux_len r <= 32767 -> aux_len r <= Z.of_nat (length (b_data (aux r))) ->
  32767 < sizeof_header + path_len r + aux_len r ->
  rec_size r = sizeof_header + path_len r + aux_len r - 65536 ->
  pos = Z.of_nat (length (log_image (tr_lower_filep si) h)) ->
  (forall ret tr m', has_sb m' sb lock si ->
     log_image (tr_lower_filep si) (h ++ tr) =
       log_image (tr_lower_filep si) h ++ take (Z.to_nat (aux_len r)) (b_data (aux r)) ->
     WP (k ret) Q m' (h ++ tr)) ->
  WP (append_record sb r ≫= k) Q m h.
Proof.
  intros Hm Hwf Ht Ha Hd Hbig Hsz Hpos Hk. pose proof Hm as []. pose proof Hwf as [].
  eapply wp_append_head; [done..|]. intros buf' Hl Htk. unfold PAGE_SIZE, sizeof_header in *.
  eapply (wp_log_write_refused w); [done..|unfold MAX_ERRNO; lia|]. intros x Hx.
  set (h1 := (h ++ _) ++ [_]).
  assert (Himg : log_image (tr_lower_filep si) h1 = log_image (tr_lower_filep si) h).
  { unfold h1. rewrite <- app_assoc. apply log_image_unlogged.
    intros f img. simpl. rewrite decide_False; [done|lia]. }
  eapply wp_append_aux; [apply resourceful_of|done|done|lia|lia|lia|by rewrite Himg|].
  intros ret tr Htr _. rewrite Himg in Htr. unfold h1 in *. rewrite <- !app_assoc in *. by apply Hk.
Qed.

(** Together: whatever length the record of a write has, but none. *)
Lemma wp_append_write {A} id flags err path arg arg_len pos buf r (k : Z -> kprog A) Q m h :
  mounted w m sb lock si pos buf -> path_wf r -> filled FWRITE id flags 0 err path arg arg_len [] r ->
  0 <= arg_len <= Z.of_nat (length (b_data arg)) -> short arg_len <> 0 ->
  pos = Z.of_nat (length (log_image (tr_lower_filep si) h)) ->
  (forall ret tr m', has_sb m' sb lock si ->
     log_image (tr_lower_filep si) (h ++ tr) = log_image (tr_lower_filep si) h ++ written r ->
     WP (k ret) Q m' (h ++ tr)) ->
  WP (append_record sb r ≫= k) Q m h.
Proof.
  intros Hm Hwf Hfil Hlen Hne Hpos Hk. pose proof Hwf as [].
  destruct Hfil as (_ & _ & _ & _ & Et & _ & _ & Esz & Ea & El).
  pose proof (short_range arg_len). pose proof (short_le arg_len ltac:(lia)). rewrite <- El in *.
  unfold written in Hk. unfold PAGE_SIZE, sizeof_header in *. case_decide; [|case_decide].
  - eapply wp_append_header; [done..|lia| |done|exact Hk]. rewrite Esz. unfold sizeof_header. apply short_id. lia.
  - eapply wp_append_data; [done..|lia|by rewrite Ea; lia| | |done|exact Hk]; unfold sizeof_header; [lia|].
    rewrite Esz. apply short_over. lia.
  - assert (Hsz : rec_size r = sizeof_header + path_len r + aux_len r)
      by (rewrite Esz; unfold sizeof_header; apply short_id; lia).
    eapply (wp_append_record w); [apply _|apply resourceful_of|done| |lia|done|].
    + constructor; [done|rewrite Ea; lia|done|unfold sizeof_header in *; lia].
    + intros ret tr buf' _ Himg _. apply Hk; [|done]. apply Hm.
Qed.

(** The block of a write leaves that in the log. *)
Lemma wp_log_write_op pos buf dentry flags err arg arg_len path (Q : outcome ksig unit -> Prop) m h :
  mounted w m sb lock si pos buf -> Z.testbit (umask si) (rec_type_bit FWRITE) = true ->
  path_of w dentry = Some path ->
  0 <= arg_len <= Z.of_nat (length (b_data arg)) -> short arg_len <> 0 ->
  pos = Z.of_nat (length (log_image (tr_lower_filep si) h)) ->
  (forall m' h' r, filled FWRITE (int32 (trecord_id m + 1)) flags 0 err path arg arg_len [] r -> path_wf r ->
     log_image (tr_lower_filep si) h' = log_image (tr_lower_filep si) h ++ written r ->
     Q (finished tt m' h')) ->
  WP (log_op (ld F_i_sb dir) TR_FWRITE dentry flags 0 err arg arg_len) Q m h.
Proof.
  intros Hm Hbit Hp Hlen Hne Hpos HQ. apply wp_tail.
  eapply (wp_log_op_to_append w _ _ _ _ _ _ _ FWRITE) with (apath := []); try done;
    [apply resourceful_of|by apply reads_i_sb|].
  intros r pre m1 Hfil Hwf Hm1 Hpre.
  assert (Hpre' : log_image (tr_lower_filep si) (h ++ pre) = log_image (tr_lower_filep si) h)
    by by apply log_image_unlogged.
  eapply wp_append_write; [done..|by rewrite Hpre'|]. intros ret tr m' Hsb' Himg.
  rewrite Hpre' in Himg. apply wp_assoc, (reads_i_sb w _ dir Hdir). intros s1 H1. apply wp_assoc.
  eapply wp_TRFS_SB; [exact Hsb'|]. apply wp_assoc, wp_check; [apply Hsb'|].
  apply wp_kdo. intros [] _. apply HQ with (r := r); [done..|].
  rewrite <- (app_assoc (_ ++ tr)), log_image_unlogged; [done|].
  apply unlogged_app; [by apply silent_unlogged|done].
Qed.
End Write.

(** C34: what a write of any length, but a multiple of 65536, leaves in the log.
    The record keeps the length as a [short], [a] here.  When the record fits
    a [short], the whole record is there, with the first [a] bytes of the data
    (which are not all, if 65536 bytes or more were written).  When it does not,
    its size wraps to a negative number and the write of the header is refused: the
    data is appended all the same, with nothing in front of it.  When [a] is
    negative, the header and the path are there, with a size that is short of
    the data, and the data is refused. *)
Theorem log_write_oversize w (env : kenv) dir lock si pos buf dentry flags err arg arg_len path m h :
  env_ok (kernel_ok_resourceful w) env -> good_ptr dir ->
  mounted w m (sb_of w dir) lock si pos buf ->
  Z.testbit (umask si) (rec_type_bit FWRITE) = true ->
  path_of w dentry = Some path ->
  0 <= arg_len <= Z.of_nat (length (b_data arg)) -> arg_len mod 65536 <> 0 ->
  pos = Z.of_nat (length (log_image (tr_lower_filep si) h)) ->
  let a := short arg_len in
  let size := sizeof_header + Z.of_nat (length path) + a in
  exists m' h' r,
    run env (log_op (ld F_i_sb dir) TR_FWRITE dentry flags 0 err arg arg_len) m h = finished tt m' h' /\
    filled FWRITE (int32 (trecord_id m + 1)) flags 0 err path arg arg_len [] r /\
    let new := log_image (tr_lower_filep si) h' in
    let old := log_image (tr_lower_filep si) h in
    (0 < a -> size <= 32767 -> new = old ++ header_bytes r ++ path ++ take (Z.to_nat a) (b_data arg)) /\
    (0 < a -> 32767 < size -> new = old ++ take (Z.to_nat a) (b_data arg)) /\
    (a < 0 -> new = old ++ header_bytes r ++ path /\ rec_size r = size).
Proof.
  intros Hw Hdir Hm Hbit Hp Hlen Hmod Hpos a size. by_wp (kernel_ok_resourceful w).
  assert (Ha : a <> 0) by (intros E; by apply Hmod, short_zero).
  eapply wp_log_write_op; [done..|]. intros m' h' r Hfil Hwf Himg. exists m', h', r. split; [done|]. split; [done|].
  destruct Hfil as (_ & _ & _ & _ & _ & Ep & Epl & Esz & Ea & El). fold a in El. simpl. unfold written, encode_record in Himg.
  rewrite Ep, Ea, El, Epl in Himg. unfold size.
  pose proof (rw_path_fits _ Hwf). pose proof (short_range arg_len). fold a in H0. rewrite Himg.
  split_and!; intros; repeat first [rewrite decide_True by lia|rewrite decide_False by lia]; try done.
  split; [done|]. rewrite Esz, El, Epl. apply short_id. unfold sizeof_header, PAGE_SIZE in *. lia.
Qed.

Lemma log_write_oversize_witness :
  (exists m' h',
    run (demo_env (fun _ => 0))
      (log_op (ld F_i_sb demo_dir) TR_FWRITE demo_dentry 1 0 32767
        (Buffer 8192 (replicate (Z.to_nat 32767) 7)) 32767)
      (demo_mem umask_all) [] = finished tt m' h' /\
    log_image demo_log h' = [] ++ take (Z.to_nat 32767) (replicate (Z.to_nat 32767) 7)) /\
  (exists m' h' r,
    run (demo_env (fun _ => 0))
      (log_op (ld F_i_sb demo_dir) TR_FWRITE demo_dentry 1 0 40000
        (Buffer 8192 (replicate (Z.to_nat 40000) 7)) 40000)
      (demo_mem umask_all) [] = finished tt m' h' /\
    log_image demo_log h' = [] ++ header_bytes r ++ lit "/a" /\ rec_size r = -25502).
Proof.
  split.
  - destruct (log_write_oversize demo_world (demo_env (fun _ => 0)) demo_dir demo_info
      (demo_si umask_all) 0 (replicate (Z.to_nat (sizeof_tr_record + PAGE_SIZE)) 0) demo_dentry
      1 32767 (Buffer 8192 (replicate (Z.to_nat 32767) 7)) 32767 (lit "/a") (demo_mem umask_all) [])
      as (m' & h' & r & E & _ & _ & H & _);
      [apply demo_env_ok|done|apply demo_mounted|done|done| |done|done|].
    { cbn [b_data]. by rewrite length_replicate. }
    exists m', h'. split; [exact E|]. by apply H.
  - destruct (log_write_oversize demo_world (demo_env (fun _ => 0)) demo_dir demo_info
      (demo_si umask_all) 0 (replicate (Z.to_nat (sizeof_tr_record + PAGE_SIZE)) 0) demo_dentry
      1 40000 (Buffer 8192 (replicate (Z.to_nat 40000) 7)) 40000 (lit "/a") (demo_mem umask_all) [])
      as (m' & h' & r & E & _ & _ & _ & H);
      [apply demo_env_ok|done|apply demo_mounted|done|done| |done|done|].
    { cbn [b_data]. by rewrite length_replicate. }
    destruct (H ltac:(done)) as [H1 H2]. exists m', h', r. split; [exact E|]. split; [exact H1|]. by rewrite H2.
Defined.

(** A dentry whose path does not fit a page kills the kernel:
    [dentry_path_raw] answers an error pointer and its length is taken. *)
Theorem fill_record_long_path w (env : kenv) t dentry flags perm err arg arg_len rec0 m h :
  env_ok (kernel_ok_resourceful w) env -> path_of w dentry = None ->
  exists m' h',
    run env (fill_record (rec_type_val t) dentry flags perm err arg arg_len rec0) m h
      = died ErrDeref m' h'.
Proof.
  intros Hw Hp. by_wp (kernel_ok_resourceful w). unfold fill_record.
  rewrite decide_False by (pose proof (rec_type_val_pos t); lia).
  apply wp_kdo. intros p1 [_ H1]. simpl in H1. rewrite decide_False by done.
  apply wp_kdo. intros p2 [_ H2]. simpl in H2. rewrite decide_False by done.
  unfold atomic_inc_return_trecord_id. wp_pures. intros b [Hb _]. simpl in Hb.
  rewrite Hp in Hb. specialize (Hb eq_refl).
  wp_pures. unfold c_strlen, check_ptr. rewrite decide_False, Hb; [by eexists _, _|].
  intros E. rewrite E in Hb. by vm_compute in Hb.
Qed.

(** The demonstration kernel, with every path too long. *)
Definition long_world : kworld :=
  KWorld (sb_of demo_world) (positive demo_world) (inode_of demo_world) (dentry_of demo_world) (type_name demo_world)
    (fun _ => None).
Definition long_env : kenv := fun h c =>
  match c return kreply c with
  | dentry_path_raw _ _ _ => Buffer (ERR_PTR (- ENAMETOOLONG)) []
  | c' => demo_env (fun _ => 0) h c'
  end.

Lemma long_env_ok : env_ok (kernel_ok_resourceful long_world) long_env.
Proof.
  intros h c. pose proof (demo_env_ok (fun _ => 0) h c) as H.
  destruct c; try exact H. split; [|done]. by intros _.
Qed.

Lemma fill_record_long_path_witness :
  exists m' h',
    run long_env (fill_record TR_DCREAT demo_dentry 0 493 0 nullbuf 0 zero_record)
      (demo_mem umask_all) [] = died ErrDeref m' h'.
Proof.
  apply (fill_record_long_path long_world long_env DCREAT demo_dentry 0 493 0 nullbuf 0);
    [apply long_env_ok|done].
Defined.
