(* ===== verification/UserSpec.v ===== *)
(** * What the user-space programs assume of their system

    The documented behaviour of the C library and system calls, as far as the
    proofs about the replay tool use it, and one lemma per memory operation of
    [User.v]. *)

From S2P Require Import Prelude Prog TrTypes User.

(** ** Histories *)

(** The heap blocks in use after a history. *)
Definition live_step (s : gset Z) (e : event usig) : gset Z :=
  match e with
  | Ev c r =>
    match c return ureply c -> gset Z with
    | u_malloc _ => fun r => {[ fst r ]} ∪ s
    | u_free p => fun _ => s ∖ {[ p ]}
    | _ => fun _ => s
    end r
  end.
Definition live (h : uhist) : gset Z := foldl live_step ∅ h.

(** How far a descriptor has been read. *)
Definition read_size (fd : Z) (e : event usig) : Z :=
  match e with
  | Ev c r =>
    match c return ureply c -> Z with
    | u_read fd' _ => fun r => if decide (fd' = fd) then Z.of_nat (length (snd r)) else 0
    | _ => fun _ => 0
    end r
  end.
Fixpoint read_pos (fd : Z) (h : uhist) : Z :=
  match h with
  | [] => 0
  | e :: h => read_size fd e + read_pos fd h
  end.

Lemma live_app h t : live (h ++ t) = foldl live_step (live h) t.
Proof. apply foldl_app. Qed.

Lemma read_pos_app fd h t : read_pos fd (h ++ t) = read_pos fd h + read_pos fd t.
Proof. induction h as [|e h IH]; simpl; [done|]. rewrite IH. lia. Qed.

(** The calls that show: operations on files, and output. *)
Definition visible (e : event usig) : Prop :=
  match ev_call e with
  | u_open _ _ _ | u_close _ | u_write _ _ _ | u_mkdir _ _ | u_rename _ _ | u_link _ _
  | u_symlink _ _ | u_remove _ | u_ioctl _ _ _ _ | u_print _ => True
  | _ => False
  end.
#[global] Instance visible_dec e : Decision (visible e).
Proof. unfold visible. destruct (ev_call e); apply _. Defined.
Definition vis (h : uhist) : uhist := filter visible h.

Lemma vis_app h t : vis (h ++ t) = vis h ++ vis t.
Proof. apply filter_app. Qed.

(** ** Assumptions *)

(** The current directory and the contents of the file that is read. *)
Record uworld := UWorld { u_cwd : bytes; u_file : bytes }.

Definition user_ok (w : uworld) (h : uhist) (e : event usig) : Prop :=
  match e with
  | Ev c r =>
    match c return ureply c -> Prop with
    | u_stat (Some _) => fun r => r = Some (Z.of_nat (length (u_file w)))
    | u_malloc n => fun r =>
        0 <= n ->
        fst r <> NULL /\ (fst r ∉ live h) /\ Z.of_nat (length (snd r)) = n
    | u_read fd n => fun r =>
        let data := take (Z.to_nat n) (drop (Z.to_nat (read_pos fd h)) (u_file w)) in
        r = (Z.of_nat (length data), data)
    | u_getcwd n => fun r => Z.of_nat (length (u_cwd w)) < n -> r = Some (u_cwd w)
    | _ => fun _ => True
    end r
  end.

(** Blocks the program holds are in use. *)
Definition owned (m : gmap Z bytes) (h : uhist) : Prop := forall p b, m !! p = Some b -> p ∈ live h.

(** ** C strings in blocks *)

(** The block starts with the string and its terminator. *)
Definition holds_str (b s : bytes) : Prop := Forall is_char s /\ exists rest, b = s ++ 0 :: rest.

Lemma holds_str_splice b s :
  Forall is_char s -> (length s < length b)%nat ->
  holds_str (splice b 0 (s ++ [0])) s /\ length (splice b 0 (s ++ [0])) = length b.
Proof.
  intros Hs Hl. split.
  - split; [done|]. eexists. unfold splice. simpl. by rewrite <- app_assoc.
  - rewrite length_splice, length_app. simpl. lia.
Qed.

Lemma holds_str_app b d s :
  holds_str b d -> Forall is_char s -> (length d + length s < length b)%nat ->
  holds_str (splice b (length d) (s ++ [0])) (d ++ s) /\
  length (splice b (length d) (s ++ [0])) = length b.
Proof.
  intros [Hd [rest ->]] Hs Hl. split.
  - split; [by apply Forall_app|]. eexists. unfold splice.
    rewrite take_app_length, length_app.
    replace (length d - _)%nat with O by (simpl; lia). simpl.
    rewrite <- !app_assoc. done.
  - rewrite length_splice, !length_app. rewrite length_app in Hl. simpl in *. lia.
Qed.

(** A terminator put after [n] bytes makes them a string. *)
Lemma holds_str_terminate b s :
  Forall is_char s -> (length s < length b)%nat ->
  holds_str (splice (splice b 0 s) (length s) [0]) s /\
  length (splice (splice b 0 s) (length s) [0]) = length b.
Proof.
  intros Hs Hl. split.
  - split; [done|]. eexists. unfold splice at 1.
    pose proof (splice_take b 0 s ltac:(lia)) as E. simpl in E. rewrite E.
    replace (length s - _)%nat with O by (rewrite length_splice; lia). simpl. done.
  - rewrite !length_splice. simpl. lia.
Qed.

Lemma is_char_no_nul s : Forall is_char s -> 0 ∉ s.
Proof.
  intros Hs Hin. rewrite Forall_forall in Hs. apply Hs in Hin. unfold is_char in Hin. lia.
Qed.

Section Steps.
Context (w : uworld).
Local Abbreviation WP := (wp (user_ok w)).

Lemma wp_udo {A} c (k : ureply c -> uprog A) Q (m : gmap Z bytes) h :
  (forall r, user_ok w h (Ev (S := usig) c r) -> WP (k r) Q m (h ++ [Ev (S := usig) c r])) ->
  WP (udo c ≫= k) Q m h.
Proof. done. Qed.

Lemma wp_block {A} p b (k : bytes -> uprog A) Q (m : gmap Z bytes) h :
  p <> NULL -> m !! p = Some b -> WP (k b) Q m h -> WP (block p ≫= k) Q m h.
Proof.
  intros Hp Hb Hk. unfold block. rewrite decide_False by done. apply wp_assoc.
  wp_pures. by rewrite Hb.
Qed.

Lemma wp_mem_read {A} p b off n d (k : bytes -> uprog A) Q (m : gmap Z bytes) h :
  p <> NULL -> m !! p = Some b -> slice b off n = Some d ->
  WP (k d) Q m h -> WP (mem_read p off n ≫= k) Q m h.
Proof.
  intros Hp Hb Hd Hk. unfold mem_read. apply wp_assoc. eapply wp_block; [done..|]. by rewrite Hd.
Qed.

Lemma wp_mem_write {A} p b off data (k : unit -> uprog A) Q (m : gmap Z bytes) h :
  p <> NULL -> m !! p = Some b ->
  0 <= off /\ off + Z.of_nat (length data) <= Z.of_nat (length b) ->
  WP (k tt) Q (<[p := splice b (Z.to_nat off) data]> m) h ->
  WP (mem_write p off data ≫= k) Q m h.
Proof.
  intros Hp Hb Hoff Hk. unfold mem_write. apply wp_assoc. eapply wp_block; [done..|].
  rewrite decide_True by done. exact Hk.
Qed.

Lemma wp_read_str {A} p b s (k : bytes -> uprog A) Q (m : gmap Z bytes) h :
  p <> NULL -> m !! p = Some b -> holds_str b s ->
  WP (k s) Q m h -> WP (read_str p 0 ≫= k) Q m h.
Proof.
  intros Hp Hb [Hs [rest ->]] Hk. unfold read_str. apply wp_assoc. eapply wp_block; [done..|].
  rewrite decide_True by lia. change (Z.to_nat 0) with O. rewrite drop_0.
  rewrite decide_True by set_solver. rewrite cstr_app_nul by done. exact Hk.
Qed.

Lemma wp_memcpy {A} dst src off n bs bd d (k : unit -> uprog A) Q (m : gmap Z bytes) h :
  dst <> NULL -> src <> NULL -> m !! src = Some bs -> m !! dst = Some bd ->
  0 <= n < 2 ^ 64 -> slice bs off n = Some d -> (length d <= length bd)%nat ->
  WP (k tt) Q (<[dst := splice bd 0 d]> m) h ->
  WP (memcpy dst src off n ≫= k) Q m h.
Proof.
  intros Hd Hs Hbs Hbd Hn Hsl Hl Hk. unfold memcpy. rewrite uint64_id by lia. apply wp_assoc.
  eapply wp_mem_read; [done..|]. eapply wp_mem_write; [done..|lia|]. exact Hk.
Qed.

Lemma wp_strcat {A} p b d s (k : unit -> uprog A) Q (m : gmap Z bytes) h :
  p <> NULL -> m !! p = Some b -> holds_str b d -> Forall is_char s ->
  (length d + length s < length b)%nat ->
  (forall b', holds_str b' (d ++ s) -> length b' = length b -> WP (k tt) Q (<[p := b']> m) h) ->
  WP (strcat p s ≫= k) Q m h.
Proof.
  intros Hp Hb Hd Hs Hl Hk. unfold strcat. apply wp_assoc. eapply wp_read_str; [done..|].
  eapply wp_mem_write; [done..| |].
  - rewrite length_app. simpl. lia.
  - rewrite Nat2Z.id. destruct (holds_str_app b d s Hd Hs Hl). by apply Hk.
Qed.

Lemma wp_getcwd {A} p b size (k : ptr -> uprog A) Q (m : gmap Z bytes) h :
  p <> NULL -> m !! p = Some b -> Forall is_char (u_cwd w) ->
  Z.of_nat (length (u_cwd w)) < size -> size <= Z.of_nat (length b) ->
  (forall b', holds_str b' (u_cwd w) -> length b' = length b ->
     WP (k p) Q (<[p := b']> m) (h ++ [Ev (S := usig) (u_getcwd size) (Some (u_cwd w))])) ->
  WP (getcwd p size ≫= k) Q m h.
Proof.
  intros Hp Hb Hc Hl Hs Hk. unfold getcwd. apply wp_assoc, wp_udo. intros r Hr.
  simpl in Hr. specialize (Hr Hl). subst r. apply wp_assoc.
  eapply wp_mem_write; [done..| |].
  - rewrite length_app. simpl. lia.
  - destruct (holds_str_splice b (u_cwd w) Hc ltac:(lia)). apply wp_ret. by apply Hk.
Qed.

Lemma wp_malloc {A} n (k : ptr -> uprog A) Q (m : gmap Z bytes) h :
  0 <= n -> owned m h ->
  (forall p c, p <> NULL -> m !! p = None -> Z.of_nat (length c) = n ->
     let h' := h ++ [Ev (S := usig) (u_malloc n) (p, c)] in
     owned (<[p := c]> m) h' -> WP (k p) Q (<[p := c]> m) h') ->
  WP (malloc n ≫= k) Q m h.
Proof.
  intros Hn Ho Hk. unfold malloc. apply wp_assoc, wp_udo. intros [p c] Hr.
  destruct (Hr Hn) as (Hp & Hf & Hl). simpl in *. apply wp_assoc.
  rewrite bool_decide_eq_true_2 by done. apply wp_ret. apply Hk; [done| |done|].
  - destruct (m !! p) eqn:E; [|done]. by apply Ho in E.
  - intros q b. rewrite live_app. simpl. intros [[-> _]|[_ Hq]]%lookup_insert_Some; [set_solver|].
    apply Ho in Hq. set_solver.
Qed.
End Steps.

Lemma owned_insert m h p b b' : owned m h -> m !! p = Some b -> owned (<[p := b']> m) h.
Proof. intros Ho Hp q c [[-> _]|[_ Hq]]%lookup_insert_Some; eauto. Qed.

(** Calls other than [free] keep blocks in use. *)
Definition no_free (e : event usig) : Prop := match ev_call e with u_free _ => False | _ => True end.

Lemma live_no_free h t : Forall no_free t -> live h ⊆ live (h ++ t).
Proof.
  rewrite live_app. generalize (live h) as s. intros s Ht. revert s.
  induction Ht as [|[c r] t Hc _ IH]; intros s; simpl; [done|].
  etrans; [|apply IH]. destruct c; simpl; try done; set_solver.
Qed.

Lemma owned_app m h t : owned m h -> Forall no_free t -> owned m (h ++ t).
Proof. intros Ho Ht p b Hp. apply live_no_free; [done|]. by eapply Ho. Qed.

(** Calls that neither release memory nor move a descriptor. *)
Definition calm (e : event usig) : Prop :=
  match ev_call e with u_free _ | u_read _ _ => False | _ => True end.

Lemma calm_owned m h t : owned m h -> Forall calm t -> owned m (h ++ t).
Proof.
  intros Ho Ht. apply owned_app; [done|]. eapply Forall_impl; [exact Ht|].
  by intros [[] ?].
Qed.

Lemma calm_read_pos fd h t : Forall calm t -> read_pos fd (h ++ t) = read_pos fd h.
Proof.
  intros Ht. rewrite read_pos_app.
  assert (read_pos fd t = 0) as ->; [|lia].
  induction Ht as [|[c r] t Hc _ IH]; [done|]. simpl. rewrite IH. by destruct c.
Qed.

Section Frees.
Context (w : uworld).

Lemma wp_SAFE_FREE {A} p (k : unit -> uprog A) Q (m : gmap Z bytes) h :
  p = NULL \/ is_Some (m !! p) ->
  (forall t, vis t = [] -> wp (user_ok w) (k tt) Q (if decide (p = NULL) then m else delete p m) (h ++ t)) ->
  wp (user_ok w) (SAFE_FREE p ≫= k) Q m h.
Proof.
  intros Hp Hk. unfold SAFE_FREE. apply wp_when. destruct (decide (p = NULL)) as [->|Hne].
  - rewrite bool_decide_eq_false_2 by (intros E; by apply E). rewrite <- (app_nil_r h). by apply Hk.
  - rewrite bool_decide_eq_true_2 by done. destruct Hp as [?|[b Hb]]; [done|].
    apply wp_assoc. eapply wp_block; [done..|]. apply wp_assoc, wp_udo. intros [] _. by apply Hk.
Qed.
End Frees.
