(* ===== verification/TreplaySpec.v ===== *)
(** * Replaying: specification and proofs

    What replaying one record should do ([replays], [shows]), what walking a
    list of them should do ([walk]), and proofs that the loops of [Treplay.v]
    do it on the encoding of the records. *)

From S2P Require Import Prelude Prog TrTypes Trdump TrdumpSpec Mount User UserSpec Treplay.

(** ** What a record stands for *)

Abbreviation UEv c r := (Ev (S := usig) c r).

Definition rec_path (r : tr_record) : bytes := b_data (pathname r).
Definition rec_aux (r : tr_record) : bytes := take (Z.to_nat (aux_len r)) (b_data (aux r)).

(** Printed for every call that is replayed, and for every call that is not. *)
Definition succeeds (r : tr_record) (e : Z) : bool := bool_decide (0 <= e /\ 0 <= result r).
Definition report (r : tr_record) (syscall : bytes) (e : Z) : uhist :=
  [UEv (u_print (if succeeds r e then L_success (rec_id r) else L_failed (rec_id r))) tt;
   UEv (u_print (L_record (strip r) syscall (Some e))) tt].
Definition show_lines (r : tr_record) (syscalls : list bytes) : uhist :=
  (fun s => UEv (u_print (L_record (strip r) s None)) tt) <$> syscalls.

(** A descriptor that was obtained is closed. *)
Definition closes (fd : Z) (t : uhist) : Prop :=
  if decide (0 <= fd) then exists c : Z, t = [UEv (u_close fd) c] else t = [].

(** The visible calls that replay a record below a directory, and whether
    they all succeed. *)
Inductive replays (strict : bool) (cwd : bytes) (r : tr_record) : uhist -> bool -> Prop :=
| replays_creat (fd : Z) t :
    rec_type_of (type r) = Some FCREAT -> closes fd t ->
    replays strict cwd r
      (UEv (u_open (cwd ++ rec_path r) O_CREAT (perm_flags r)) fd :: t ++ report r (lit "open") fd)
      (succeeds r fd)
| replays_write (fd n : Z) t :
    rec_type_of (type r) = Some FWRITE -> closes fd t ->
    negb strict || succeeds r fd = true ->
    replays strict cwd r
      (UEv (u_open (cwd ++ rec_path r) (int32 (rec_flags r)) 0) fd :: report r (lit "open") fd ++
       UEv (u_write fd (rec_aux r) (aux_len r)) n :: report r (lit "write") (int32 n) ++ t)
      (succeeds r (int32 n))
| replays_write_fail (fd : Z) t :
    rec_type_of (type r) = Some FWRITE -> closes fd t ->
    strict = true -> succeeds r fd = false ->
    replays strict cwd r
      (UEv (u_open (cwd ++ rec_path r) (int32 (rec_flags r)) 0) fd :: report r (lit "open") fd ++ t)
      false
| replays_mkdir (e : Z) :
    rec_type_of (type r) = Some DCREAT ->
    replays strict cwd r
      (UEv (u_mkdir (cwd ++ rec_path r) (perm_flags r)) e :: report r (lit "mkdir") e) (succeeds r e)
| replays_rename (e : Z) :
    rec_type_of (type r) = Some RENAME ->
    replays strict cwd r
      (UEv (u_rename (cwd ++ rec_path r) (cwd ++ rec_aux r)) e :: report r (lit "rename") e)
      (succeeds r e)
| replays_link (e : Z) :
    rec_type_of (type r) = Some LINK ->
    replays strict cwd r
      (UEv (u_link (cwd ++ rec_path r) (cwd ++ rec_aux r)) e :: report r (lit "link") e)
      (succeeds r e)
| replays_symlink (e : Z) :
    rec_type_of (type r) = Some SYMLINK ->
    replays strict cwd r
      (UEv (u_symlink (rec_aux r) (cwd ++ rec_path r)) e :: report r (lit "symlink") e)
      (succeeds r e)
| replays_remove (e : Z) :
    rec_type_of (type r) = Some UNLINK ->
    replays strict cwd r
      (UEv (u_remove (cwd ++ rec_path r)) e :: report r (lit "remove") e) (succeeds r e).

(** The calls a record names when it is only shown. *)
Definition syscalls (t : rec_type) : list bytes :=
  match t with
  | FCREAT => [lit "open"]
  | FWRITE => [lit "open"; lit "write"]
  | DCREAT => [lit "mkdir"]
  | RENAME => [lit "rename"]
  | LINK => [lit "link"]
  | SYMLINK => [lit "symlink"]
  | UNLINK => [lit "remove"]
  | FREAD | DREAD => []
  end.

(** What one record does under the options. *)
Definition record_run (noreplay strict : bool) (cwd : bytes) (r : tr_record) (t : uhist) (go : bool)
    : Prop :=
  if noreplay then
    go = true /\ exists ty, rec_type_of (type r) = Some ty /\ t = show_lines r (syscalls ty)
  else exists ok, replays strict cwd r t ok /\ go = negb strict || ok.

(** All of it shows. *)
Lemma show_lines_visible r l : Forall (fun e => visible e /\ calm e) (show_lines r l).
Proof. unfold show_lines. apply Forall_fmap, Forall_true. by intros s. Qed.

Lemma report_visible r s e : Forall (fun e => visible e /\ calm e) (report r s e).
Proof. by repeat constructor. Qed.

Lemma closes_visible fd t : closes fd t -> Forall (fun e => visible e /\ calm e) t.
Proof. unfold closes. case_decide; [intros [c ->]|intros ->]; by repeat constructor. Qed.

Lemma replays_visible strict cwd r t ok :
  replays strict cwd r t ok -> Forall (fun e => visible e /\ calm e) t.
Proof.
  destruct 1;
    repeat first [apply Forall_nil; done | apply report_visible | by eapply closes_visible
      | apply Forall_cons; split; [done|] | apply Forall_app; split].
Qed.

Lemma record_run_visible noreplay strict cwd r t go :
  record_run noreplay strict cwd r t go -> vis t = t /\ Forall calm t.
Proof.
  intros H. assert (Hv : Forall (fun e => visible e /\ calm e) t).
  { destruct noreplay; [destruct H as (_ & ty & _ & ->); apply show_lines_visible|].
    destruct H as (ok & H & _). by eapply replays_visible. }
  apply Forall_and in Hv as [Hv Hc]. split; [|done].
  clear H Hc. induction Hv as [|e t He _ IH]; [done|].
  unfold vis. rewrite filter_cons_True by done. f_equal. exact IH.
Qed.

(** Records one after the other, until one says to stop. *)
Inductive walk (P : tr_record -> uhist -> bool -> Prop) : list tr_record -> uhist -> bool -> Prop :=
| walk_nil : walk P [] [] true
| walk_go r rs t u go : P r t true -> walk P rs u go -> walk P (r :: rs) (t ++ u) go
| walk_stop r rs t : P r t false -> walk P (r :: rs) t false.

Lemma walk_app P rs1 rs2 t u go :
  walk P rs1 t true -> walk P rs2 u go -> walk P (rs1 ++ rs2) (t ++ u) go.
Proof.
  intros H1 H2. remember true as b eqn:E. induction H1; simplify_eq; simpl; [done|].
  rewrite <- app_assoc. constructor; auto.
Qed.

Lemma walk_app_stop P rs1 rs2 t : walk P rs1 t false -> walk P (rs1 ++ rs2) t false.
Proof.
  intros H. remember false as b eqn:E. induction H; simplify_eq; simpl;
    [constructor; auto|by constructor].
Qed.

(** ** Records that can be replayed *)

(** The path and the auxiliary string fit the buffers of the tool. *)
Record replayable (cwd : bytes) (r : tr_record) : Prop := {
  rp_range : record_in_range r;
  rp_path : Forall is_char (rec_path r);
  rp_path_len : path_len r = Z.of_nat (length (rec_path r));
  rp_aux : 0 <= aux_len r <= Z.of_nat (length (b_data (aux r)));
  rp_size : rec_size r = sizeof_header + path_len r + aux_len r;
  rp_cwd : Z.of_nat (length cwd) + path_len r < BUFFER_SIZE;
  rp_aux_str : type r <> TR_FWRITE ->
    Forall is_char (rec_aux r) /\
    (if decide (type r = TR_SYMLINK) then 0 else Z.of_nat (length cwd)) + aux_len r < BUFFER_SIZE;
  rp_type : match rec_type_of (type r) with
            | Some RENAME | Some LINK | Some SYMLINK => aux_len r <> 0
            | Some FREAD | Some DREAD | None => False
            | _ => True
            end;
}.

Lemma length_rec_aux cwd r : replayable cwd r -> Z.of_nat (length (rec_aux r)) = aux_len r.
Proof. intros []. unfold rec_aux. rewrite length_take. lia. Qed.

Lemma length_encode_replayable cwd r :
  replayable cwd r -> Z.of_nat (length (encode_record r)) = rec_size r.
Proof.
  intros H. pose proof (length_rec_aux _ _ H). destruct H. unfold encode_record, sizeof_header in *.
  rewrite !length_app, length_header_bytes. fold (rec_aux r) (rec_path r). lia.
Qed.

Lemma replayable_size cwd r : replayable cwd r -> 32 <= rec_size r <= 32767.
Proof.
  intros []. destruct rp_range0 as (_ & _ & _ & _ & ? & _). unfold sizeof_header in *. lia.
Qed.

(** ** Reading an encoded record *)

Lemma field_take l off n k : (off + n <= k)%nat -> field (take k l) off n = field l off n.
Proof.
  intros H. unfold field. rewrite skipn_firstn_comm, take_take. do 2 f_equal. lia.
Qed.

Lemma record_of_bytes_take l : record_of_bytes (take 26 l) = record_of_bytes l.
Proof. unfold record_of_bytes. rewrite !field_take by lia. done. Qed.

Lemma record_of_encode cwd r : replayable cwd r -> record_of_bytes (encode_record r) = strip r.
Proof. intros Hr. unfold encode_record. apply record_of_header_bytes, Hr. Qed.

(** Parts of a block, by what lies in front of them. *)
Lemma slice_at (pre mid post : bytes) off n :
  off = Z.of_nat (length pre) -> n = Z.of_nat (length mid) ->
  slice (pre ++ mid ++ post) off n = Some mid.
Proof. apply slice_app. Qed.

Lemma slice_prefix (pre mid : bytes) off n :
  off = Z.of_nat (length pre) -> 0 <= n <= Z.of_nat (length mid) ->
  slice (pre ++ mid) off n = Some (take (Z.to_nat n) mid).
Proof.
  intros -> Hn. unfold slice. rewrite decide_True by (rewrite length_app; lia).
  by rewrite Nat2Z.id, drop_app_length.
Qed.

(** The four parts of a block around and in a record. *)
Definition at_record (blk : bytes) (off : Z) (r : tr_record) : Prop :=
  exists pre post, blk = pre ++ encode_record r ++ post /\ off = Z.of_nat (length pre).

Lemma at_record_fields blk off cwd r :
  at_record blk off r -> replayable cwd r ->
  exists d, slice blk off 26 = Some d /\ record_of_bytes d = strip r.
Proof.
  intros (pre & post & -> & ->) Hr. pose proof (length_encode_replayable _ _ Hr).
  pose proof (replayable_size _ _ Hr). eexists. split.
  - apply slice_prefix; [done|]. rewrite length_app. lia.
  - change (Z.to_nat 26) with 26%nat. rewrite record_of_bytes_take. unfold encode_record.
    rewrite <- !app_assoc. apply record_of_header_bytes, Hr.
Qed.

Lemma at_record_path blk off cwd r :
  at_record blk off r -> replayable cwd r ->
  slice blk (off + sizeof_header) (path_len r) = Some (rec_path r).
Proof.
  intros (pre & post & -> & ->) Hr. unfold encode_record. fold (rec_path r) (rec_aux r).
  replace (pre ++ (header_bytes r ++ rec_path r ++ rec_aux r) ++ post)
    with ((pre ++ header_bytes r) ++ rec_path r ++ rec_aux r ++ post) by (by rewrite <- !app_assoc).
  apply slice_at; [|apply Hr]. rewrite length_app, length_header_bytes. unfold sizeof_header. lia.
Qed.

Lemma at_record_aux blk off cwd r :
  at_record blk off r -> replayable cwd r ->
  slice blk (off + sizeof_header + path_len r) (aux_len r) = Some (rec_aux r).
Proof.
  intros (pre & post & -> & ->) Hr. unfold encode_record. fold (rec_path r) (rec_aux r).
  replace (pre ++ (header_bytes r ++ rec_path r ++ rec_aux r) ++ post)
    with ((pre ++ header_bytes r ++ rec_path r) ++ rec_aux r ++ post) by (by rewrite <- !app_assoc).
  pose proof (length_rec_aux _ _ Hr). pose proof (rp_path_len _ _ Hr).
  apply slice_at; [|done]. rewrite !length_app, length_header_bytes. unfold sizeof_header. lia.
Qed.

(** ** The buffers of the tool *)

Record buffers (m : gmap Z bytes) (sb pb rb : ptr) (blk : bytes) : Prop := {
  bf_sb : sb <> NULL; bf_pb : pb <> NULL; bf_rb : rb <> NULL;
  bf_sp : sb <> pb; bf_sr : sb <> rb; bf_pr : pb <> rb;
  bf_blk : m !! sb = Some blk;
  bf_path : exists b, m !! pb = Some b /\ Z.of_nat (length b) = BUFFER_SIZE;
  bf_res : exists b, m !! rb = Some b /\ Z.of_nat (length b) = BUFFER_SIZE;
}.

Lemma buffers_res m sb pb rb blk b :
  buffers m sb pb rb blk -> Z.of_nat (length b) = BUFFER_SIZE ->
  buffers (<[rb := b]> m) sb pb rb blk.
Proof.
  intros [? ? ? ? ? ? ? (b1 & H1 & ?) ?] Hb. constructor; try done.
  - by rewrite lookup_insert_ne.
  - exists b1. by rewrite lookup_insert_ne.
  - exists b. by rewrite lookup_insert_eq.
Qed.

Lemma buffers_path m sb pb rb blk b :
  buffers m sb pb rb blk -> Z.of_nat (length b) = BUFFER_SIZE ->
  buffers (<[pb := b]> m) sb pb rb blk.
Proof.
  intros [? ? ? ? ? ? ? ? (b1 & H1 & ?)] Hb. constructor; try done.
  - by rewrite lookup_insert_ne.
  - exists b. by rewrite lookup_insert_eq.
  - exists b1. by rewrite lookup_insert_ne.
Qed.

Lemma buffers_new m sb pb rb blk p b :
  buffers m sb pb rb blk -> m !! p = None -> buffers (<[p := b]> m) sb pb rb blk.
Proof.
  intros [? ? ? ? ? ? ? (b1 & H1 & ?) (b2 & H2 & ?)] Hp.
  constructor; try done; [|exists b1|exists b2]; rewrite ?lookup_insert_ne by congruence; eauto.
Qed.

Lemma buffers_owned_res m h sb pb rb blk b :
  buffers m sb pb rb blk -> owned m h -> owned (<[rb := b]> m) h.
Proof. intros [? ? ? ? ? ? ? ? (b2 & H2 & ?)] Ho. by eapply owned_insert. Qed.

Lemma buffers_owned_path m h sb pb rb blk b :
  buffers m sb pb rb blk -> owned m h -> owned (<[pb := b]> m) h.
Proof. intros [? ? ? ? ? ? ? (b2 & H2 & ?) ?] Ho. by eapply owned_insert. Qed.

Section Proofs.
Context (w : uworld) (Hcwd : Forall is_char (u_cwd w)).
Local Abbreviation WP := (wp (user_ok w)).
Local Abbreviation cwd := (u_cwd w).

(** Terminated copies of parts of a record land in the resolve buffer. *)
Lemma wp_copy_str {A} sb rb pb blk off n s (k : unit -> uprog A) Q (m : gmap Z bytes) h :
  buffers m sb pb rb blk -> owned m h -> slice blk off n = Some s -> n = Z.of_nat (length s) ->
  Forall is_char s -> Z.of_nat (length s) < BUFFER_SIZE ->
  (forall b, holds_str b s -> buffers (<[rb := b]> m) sb pb rb blk -> owned (<[rb := b]> m) h ->
     WP (k tt) Q (<[rb := b]> m) h) ->
  WP (copy_str rb sb off n ≫= k) Q m h.
Proof.
  intros Hb Ho Hs Hn Hc Hl Hk. pose proof Hb as [? ? ? ? ? ? ? _ (b & Hrb & Hbl)].
  unfold BUFFER_SIZE in *. apply wp_assoc. eapply wp_memcpy; [done..|lia|done|lia|].
  destruct (holds_str_terminate b s Hc ltac:(lia)) as [Hh Hhl].
  eapply wp_mem_write; [done|by rewrite lookup_insert_eq| |].
  { rewrite length_splice. simpl. lia. }
  rewrite insert_insert_eq. subst n. rewrite Nat2Z.id. apply Hk; [done| |].
  - apply buffers_res; [done|]. unfold BUFFER_SIZE. lia.
  - by eapply buffers_owned_res.
Qed.

Lemma wp_resolve_path {A} sb pb rb blk off r (k : unit -> uprog A) Q (m : gmap Z bytes) h :
  buffers m sb pb rb blk -> owned m h ->
  slice blk (off + sizeof_header) (path_len r) = Some (rec_path r) ->
  Forall is_char (rec_path r) -> path_len r = Z.of_nat (length (rec_path r)) ->
  Z.of_nat (length cwd) + path_len r < BUFFER_SIZE ->
  (forall m' tr b, (forall p, is_Some (m !! p) -> is_Some (m' !! p)) -> buffers m' sb pb rb blk -> m' !! pb = Some b ->
     holds_str b (cwd ++ rec_path r) -> owned m' (h ++ tr) -> vis tr = [] -> Forall calm tr ->
     WP (k tt) Q m' (h ++ tr)) ->
  WP (resolve_path sb pb rb off (strip r) ≫= k) Q m h.
Proof.
  intros Hb Ho Hs Hpc Hpl Hcl Hk.
  unfold resolve_path. cbn [path_len strip]. apply wp_assoc. unfold BUFFER_SIZE in Hcl.
  eapply wp_copy_str; [done|done|done|done|done|unfold BUFFER_SIZE; lia|].
  intros b1 Hh1 Hb1 Ho1. apply wp_assoc.
  pose proof Hb1 as [? ? ? ? ? ? ? (b2 & Hpb & Hpbl) _]. unfold BUFFER_SIZE in Hpbl.
  eapply wp_getcwd; [done|done|done|unfold BUFFER_SIZE; lia|unfold BUFFER_SIZE; lia|].
  intros b3 Hh3 Hl3. apply wp_assoc.
  eapply wp_read_str; [done|rewrite lookup_insert_ne by done; by rewrite lookup_insert_eq|done|].
  eapply wp_strcat; [done|by rewrite lookup_insert_eq|done|done|lia|].
  intros b4 Hh4 Hl4. rewrite insert_insert_eq.
  eapply Hk; [| |by rewrite lookup_insert_eq|done| |done|by repeat constructor].
  - intros p Hp. apply lookup_insert_is_Some'; right. by apply lookup_insert_is_Some'; right.
  - apply buffers_path; [done|]. unfold BUFFER_SIZE. lia.
  - apply calm_owned; [|by repeat constructor]. by eapply buffers_owned_path.
Qed.

(** The block of the last second path is the tool's to free. *)
Definition aux_ok (m : gmap Z bytes) (sb pb rb : ptr) (st : rstate) : Prop :=
  auxbuf st = NULL \/
  auxbuf st <> sb /\ auxbuf st <> pb /\ auxbuf st <> rb /\ is_Some (m !! auxbuf st).

Lemma aux_ok_insert m sb pb rb st p b : aux_ok m sb pb rb st -> aux_ok (<[p := b]> m) sb pb rb st.
Proof.
  intros [?|(? & ? & ? & ?)]; [by left|right]. split_and!; [done..|].
  by apply lookup_insert_is_Some'; right.
Qed.

(** What the operation finds as its second argument. *)
Definition aux_ready (m : gmap Z bytes) (sb : ptr) (blk : bytes) (r : tr_record) (aux auxoff : Z)
    (st : rstate) : Prop :=
  match rec_type_of (type r) with
  | Some FWRITE => aux = sb /\ slice blk auxoff (aux_len r) = Some (rec_aux r)
  | Some SYMLINK =>
      aux <> NULL /\ auxoff = 0 /\ exists b, m !! aux = Some b /\ holds_str b (rec_aux r)
  | Some RENAME | Some LINK =>
      exists p b, auxpath st = Some p /\ p <> NULL /\ m !! p = Some b /\
        holds_str b (cwd ++ rec_aux r)
  | _ => True
  end.

Lemma wp_resolve_aux {A} sb pb rb blk off r st (k : Z * Z * rstate -> uprog A) Q
    (m : gmap Z bytes) h :
  buffers m sb pb rb blk -> owned m h -> at_record blk off r -> replayable cwd r ->
  aux_ok m sb pb rb st ->
  (forall m' tr aux auxoff st', buffers m' sb pb rb blk -> m' !! pb = m !! pb ->
     owned m' (h ++ tr) -> vis tr = [] -> Forall calm tr -> aux_ok m' sb pb rb st' ->
     aux_ready m' sb blk r aux auxoff st' ->
     WP (k (aux, auxoff, st')) Q m' (h ++ tr)) ->
  WP (resolve_aux sb rb off (strip r) st ≫= k) Q m h.
Proof.
  intros Hb Ho Hat Hr Hax Hk. pose proof (at_record_aux _ _ _ _ Hat Hr) as Hs.
  pose proof (length_rec_aux _ _ Hr) as Hal. pose proof Hr as [_ _ _ ? _ _ Hstr Hty].
  unfold resolve_aux. cbn [path_len aux_len type strip].
  destruct (decide (aux_len r <> 0 /\ type r <> TR_FWRITE)) as [[Ha Ht]|Hn].
  2: { apply wp_ret. rewrite <- (app_nil_r h).
    apply Hk; rewrite ?app_nil_r; try done. unfold aux_ready.
    destruct (rec_type_of (type r)) as [[]|] eqn:E; try done;
      apply rec_type_of_Some in E; destruct Hn; split; try done; rewrite E; done. }
  destruct (Hstr Ht) as [Hc Hl]. clear Hstr. unfold BUFFER_SIZE in Hl.
  apply wp_assoc. eapply wp_copy_str; [done|done|done|done|done| |].
  { unfold BUFFER_SIZE. case_decide; lia. }
  intros b1 Hh1 Hb1 Ho1. pose proof Hb1 as [? ? ? ? ? ? ? ? _].
  destruct (decide (type r = TR_SYMLINK)) as [Hsym|Hsym].
  { rewrite decide_False by (intros E; by apply E). apply wp_ret. rewrite <- (app_nil_r h).
    apply Hk; rewrite ?app_nil_r; try done;
      [by rewrite lookup_insert_ne|by apply aux_ok_insert|].
    unfold aux_ready. rewrite Hsym. simpl. split_and!; [done..|].
    exists b1. by rewrite lookup_insert_eq. }
  rewrite decide_True by done. apply wp_assoc, wp_malloc; [done|done|].
  intros p c Hp Hf Hcl h1 Ho2. unfold BUFFER_SIZE in Hcl.
  assert (p <> pb) by (intros ->; destruct Hb1 as [_ _ _ _ _ _ _ (? & ? & _) _]; congruence).
  assert (p <> rb) by (intros ->; by rewrite lookup_insert_eq in Hf).
  apply wp_assoc. eapply wp_getcwd;
    [done|by rewrite lookup_insert_eq|done|unfold BUFFER_SIZE; lia|unfold BUFFER_SIZE; lia|].
  intros b2 Hh2 Hl2. rewrite insert_insert_eq. apply wp_assoc. eapply wp_read_str; [done| |exact Hh1|].
  { rewrite lookup_insert_ne by done. by rewrite lookup_insert_eq. }
  apply wp_assoc. eapply wp_strcat; [done|by rewrite lookup_insert_eq|done|done|lia|].
  intros b3 Hh3 Hl3. rewrite insert_insert_eq. apply wp_ret. unfold h1. rewrite <- app_assoc.
  assert (p <> sb).
  { intros ->. destruct Hb1 as [_ _ _ _ _ _ Hsb _ _]. congruence. }
  apply Hk; [by apply buffers_new| | |done|by repeat constructor| |].
  - by rewrite !lookup_insert_ne.
  - rewrite app_assoc. apply calm_owned; [|by repeat constructor].
    rewrite <- (insert_insert_eq _ p b3 c). eapply owned_insert; [exact Ho2|].
    by rewrite lookup_insert_eq.
  - right. cbn [auxbuf]. rewrite lookup_insert_eq. by split_and!.
  - unfold aux_ready. cbn [auxpath].
    assert (Hgoal : exists q b, Some p = Some q /\ q <> NULL /\
      <[p:=b3]> (<[rb:=b1]> m) !! q = Some b /\ holds_str b (cwd ++ rec_aux r)).
    { exists p, b3. split_and!; [done|done|by rewrite lookup_insert_eq|done]. }
    destruct (rec_type_of (type r)) as [[]|] eqn:E; try done;
      apply rec_type_of_Some in E; by rewrite E in Hsym.
Qed.

(** *** The switch *)

Lemma wp_status {A} r syscall strict st (k : bool * rstate -> uprog A) Q (m : gmap Z bytes) h :
  WP (k (negb strict || succeeds r (rs_err st), st)) Q m (h ++ report r syscall (rs_err st)) ->
  WP (status (strip r) syscall strict st ≫= k) Q m h.
Proof.
  intros Hk. unfold status, replayed_status, report, succeeds in *. cbn [result rec_id strip] in *.
  apply wp_assoc. destruct (decide (0 <= rs_err st /\ 0 <= result r)) as [Hs|Hs].
  - rewrite bool_decide_eq_true_2, orb_true_r in Hk by done.
    apply wp_assoc, wp_udo; intros [] _. apply wp_assoc, wp_udo; intros [] _. apply wp_ret, wp_ret.
    by rewrite <- app_assoc.
  - rewrite bool_decide_eq_false_2, orb_false_r in Hk by done.
    apply wp_assoc, wp_udo; intros [] _. apply wp_assoc, wp_udo; intros [] _. apply wp_ret, wp_ret.
    rewrite <- app_assoc. by destruct strict.
Qed.

Lemma wp_close_fd {A} fd (k : unit -> uprog A) Q (m : gmap Z bytes) h :
  (forall t, closes fd t -> WP (k tt) Q m (h ++ t)) ->
  WP (when (bool_decide (0 <= fd)) (udo (u_close fd);; mret tt) ≫= k) Q m h.
Proof.
  intros Hk. apply wp_when. unfold closes in Hk. case_bool_decide as Hd.
  - apply wp_assoc, wp_udo. intros c _. apply wp_ret. apply Hk. rewrite decide_True by done.
    by exists c.
  - rewrite <- (app_nil_r h). apply Hk. by rewrite decide_False.
Qed.

Lemma wp_show {A} r syscalls st (k : bool * rstate -> uprog A) Q (m : gmap Z bytes) h :
  WP (k (true, st)) Q m (h ++ show_lines r syscalls) ->
  WP (show (strip r) syscalls st ≫= k) Q m h.
Proof.
  revert h. unfold show. induction syscalls as [|s l IH]; intros h Hk; cbn [foldr].
  - rewrite app_nil_r in Hk. exact Hk.
  - apply wp_assoc, wp_udo. intros [] _. refine (IH _ _). rewrite <- app_assoc. exact Hk.
Qed.

(** One call, then its report. *)
Lemma wp_call_status {A} c (e : ureply c -> Z) r syscall strict st
    (k : bool * rstate -> uprog A) Q (m : gmap Z bytes) h :
  (forall v : ureply c, let st' := set_err (e v) st in
     WP (k (negb strict || succeeds r (e v), st')) Q m (h ++ UEv c v :: report r syscall (e v))) ->
  WP ((v ← udo c; status (strip r) syscall strict (set_err (e v) st)) ≫= k) Q m h.
Proof.
  intros Hk. apply wp_assoc, wp_udo. intros v _. apply wp_status. cbn [rs_err set_err].
  rewrite <- app_assoc. apply Hk.
Qed.

Lemma wp_replay_write {A} strict pb b sb blk off r st (k : bool * rstate -> uprog A) Q
    (m : gmap Z bytes) h :
  pb <> NULL -> m !! pb = Some b -> holds_str b (cwd ++ rec_path r) ->
  sb <> NULL -> m !! sb = Some blk -> slice blk off (aux_len r) = Some (rec_aux r) ->
  rec_type_of (type r) = Some FWRITE -> replayable cwd r ->
  (forall tr st' ok, replays strict cwd r tr ok -> auxbuf st' = auxbuf st ->
     WP (k (negb strict || ok, st')) Q m (h ++ tr)) ->
  WP (replay_op false strict pb (strip r) sb off st ≫= k) Q m h.
Proof.
  intros Hp Hb Hh Hs Hsb Hsl Hty Hr Hk. unfold replay_op. cbn [type rec_flags strip]. rewrite Hty.
  apply wp_assoc. eapply wp_read_str; [done..|]. apply wp_assoc, wp_udo. intros fd _.
  apply wp_assoc, wp_status. cbn [rs_err set_err]. rewrite <- app_assoc. cbn [app].
  destruct (negb strict || succeeds r fd) eqn:Hgo; cbn [negb].
  - apply wp_assoc. unfold write_aux. pose proof (rp_aux _ _ Hr). destruct Hr as [(_ & _ & _ & _ & _ & _ & _ & ?) _ _ _ _ _ _ _].
    cbn [aux_len strip]. rewrite uint64_id, decide_False by lia.
    apply wp_assoc. eapply wp_mem_read; [done..|]. apply wp_assoc, wp_udo. intros n _. apply wp_ret.
    apply wp_assoc, wp_status. cbn [rs_err set_err]. apply wp_assoc, wp_close_fd. intros t Ht.
    apply wp_ret. rewrite <- !app_assoc. cbn [app].
    apply Hk; [by apply replays_write|done].
  - apply orb_false_iff in Hgo as [Hstr Hsu]. apply negb_false_iff in Hstr. subst strict.
    apply wp_assoc, wp_close_fd. intros t Ht. apply wp_ret. rewrite <- !app_assoc. cbn [app].
    apply (Hk _ _ false); [by apply replays_write_fail|done].
Qed.

Lemma wp_replay_op {A} noreplay strict pb b sb blk aux off r st (k : bool * rstate -> uprog A) Q
    (m : gmap Z bytes) h :
  pb <> NULL -> m !! pb = Some b -> holds_str b (cwd ++ rec_path r) ->
  sb <> NULL -> m !! sb = Some blk -> aux_ready m sb blk r aux off st -> replayable cwd r ->
  (forall tr st' go, record_run noreplay strict cwd r tr go -> auxbuf st' = auxbuf st ->
     WP (k (go, st')) Q m (h ++ tr)) ->
  WP (replay_op noreplay strict pb (strip r) aux off st ≫= k) Q m h.
Proof.
  intros Hp Hb Hh Hs Hsb Ha Hr Hk. pose proof (rp_type _ _ Hr) as Hty.
  destruct (rec_type_of (type r)) as [t|] eqn:E; [|done].
  destruct noreplay.
  { unfold replay_op. cbn [type strip]. rewrite E.
    destruct t; try done; apply wp_show, Hk; try done; (split; [done|]); eexists; split; done. }
  unfold record_run in Hk. unfold aux_ready in Ha. rewrite E in Ha.
  assert (Hk' : forall tr st' ok, replays strict cwd r tr ok -> auxbuf st' = auxbuf st ->
    WP (k (negb strict || ok, st')) Q m (h ++ tr)) by eauto. clear Hk.
  destruct (decide (t = FWRITE)) as [->|Hw].
  { destruct Ha as [-> Hsl]. eapply wp_replay_write; done. }
  unfold replay_op. cbn [type perm_flags strip]. rewrite E.
  destruct t; try done; apply wp_assoc; (eapply wp_read_str; [done..|]).
  - apply wp_assoc, wp_udo. intros fd _. apply wp_assoc, wp_close_fd. intros t Ht.
    apply wp_status. cbn [rs_err set_err]. rewrite <- !app_assoc. cbn [app].
    apply Hk'; [by apply replays_creat|done].
  - apply (wp_call_status (u_mkdir _ _) (fun v => v)). intros v st'. apply Hk'; [by apply replays_mkdir|done].
  - destruct Ha as (p & b' & Hap & Hpn & Hb' & Hh'). unfold second_path. rewrite Hap.
    apply wp_assoc. eapply wp_read_str; [done..|].
    apply (wp_call_status (u_rename _ _) (fun v => v)). intros v st'. apply Hk'; [by apply replays_rename|done].
  - destruct Ha as (p & b' & Hap & Hpn & Hb' & Hh'). unfold second_path. rewrite Hap.
    apply wp_assoc. eapply wp_read_str; [done..|].
    apply (wp_call_status (u_link _ _) (fun v => v)). intros v st'. apply Hk'; [by apply replays_link|done].
  - destruct Ha as (Hpn & -> & b' & Hb' & Hh'). apply wp_assoc. eapply wp_read_str; [done..|].
    apply (wp_call_status (u_symlink _ _) (fun v => v)). intros v st'. apply Hk'; [by apply replays_symlink|done].
  - apply (wp_call_status (u_remove _) (fun v => v)). intros v st'. apply Hk'; [by apply replays_remove|done].
Qed.

(** *** One record and the loop over a chunk *)

Lemma wp_replay_record {A} noreplay strict sb pb rb blk off r st
    (k : bool * Z * rstate -> uprog A) Q (m : gmap Z bytes) h :
  buffers m sb pb rb blk -> owned m h -> at_record blk off r -> replayable cwd r ->
  aux_ok m sb pb rb st ->
  (forall m' tr go st', record_run noreplay strict cwd r (vis tr) go -> Forall calm tr ->
     buffers m' sb pb rb blk -> owned m' (h ++ tr) -> aux_ok m' sb pb rb st' ->
     WP (k (go, rec_size r, st')) Q m' (h ++ tr)) ->
  WP (replay_record noreplay strict sb pb rb off st ≫= k) Q m h.
Proof.
  intros Hb Ho Hat Hr Hax Hk. unfold replay_record, read_record.
  destruct (at_record_fields _ _ _ _ Hat Hr) as (d & Hd & Hrec).
  pose proof Hb as [? ? ? ? ? ? ? _ _].
  apply wp_assoc, wp_assoc. eapply wp_mem_read; [done..|]. apply wp_ret. rewrite Hrec.
  apply wp_assoc. eapply wp_resolve_path; [done|done|by eapply at_record_path|apply Hr|apply Hr|apply Hr|].
  intros m1 tr1 b1 Hkeep Hb1 Hpb1 Hh1 Ho1 Hv1 Hc1. apply wp_assoc.
  eapply wp_resolve_aux; [done..| |].
  { destruct Hax as [?|(? & ? & ? & ?)]; [by left|right]. split_and!; auto. }
  intros m2 tr2 aux auxoff st2 Hb2 Hpb2 Ho2 Hv2 Hc2 Hax2 Ha.
  apply wp_assoc. pose proof Hb2 as [? ? ? ? ? ? ? _ _].
  eapply (wp_replay_op _ _ _ _ sb blk); [done|by rewrite Hpb2|done..|].
  intros tr3 st3 go Hrun Haux. apply wp_ret.
  destruct (record_run_visible _ _ _ _ _ _ Hrun) as [Hv3 Hc3].
  rewrite <- !app_assoc. apply Hk; [|by rewrite !Forall_app|done| |].
  - rewrite !vis_app, Hv1, Hv2, Hv3. exact Hrun.
  - rewrite !app_assoc. by apply calm_owned.
  - unfold aux_ok in *. by rewrite Haux.
Qed.

(** The records from an offset of the buffer to the end of what was read. *)
Definition records_at (blk : bytes) (off limit : Z) (rs : list tr_record) : Prop :=
  exists pre stale, blk = pre ++ concat (encode_record <$> rs) ++ stale /\
    off = Z.of_nat (length pre) /\
    limit = off + Z.of_nat (length (concat (encode_record <$> rs))).

Lemma records_at_cons blk off limit r rs :
  records_at blk off limit (r :: rs) -> replayable cwd r ->
  at_record blk off r /\ off < limit /\ records_at blk (off + rec_size r) limit rs.
Proof.
  intros (pre & stale & -> & -> & ->) Hr. pose proof (length_encode_replayable _ _ Hr) as El.
  pose proof (replayable_size _ _ Hr). cbn [fmap list_fmap concat].
  rewrite length_app. split_and!; [|lia|].
  - exists pre, (concat (encode_record <$> rs) ++ stale). by rewrite <- app_assoc.
  - exists (pre ++ encode_record r), stale. rewrite length_app, <- !app_assoc.
    split_and!; [done|lia|lia].
Qed.

Lemma wp_replay_chunk {A} noreplay strict fuel sb pb rb blk off limit rs st
    (k : bool * rstate -> uprog A) Q (m : gmap Z bytes) h :
  buffers m sb pb rb blk -> owned m h -> records_at blk off limit rs ->
  Forall (replayable cwd) rs -> (length rs <= fuel)%nat -> aux_ok m sb pb rb st ->
  (forall m' tr go st', walk (record_run noreplay strict cwd) rs (vis tr) go -> Forall calm tr ->
     buffers m' sb pb rb blk -> owned m' (h ++ tr) -> aux_ok m' sb pb rb st' ->
     WP (k (go, st')) Q m' (h ++ tr)) ->
  WP (replay_chunk noreplay strict fuel sb pb rb off limit st ≫= k) Q m h.
Proof.
  revert rs off st m h. induction fuel as [|fuel IH]; intros rs off st m h Hb Ho Hat Hrs Hf Hax Hk.
  all: destruct rs as [|r rs]; cbn [replay_chunk].
  1,3: destruct Hat as (pre & stale & -> & -> & ->); rewrite decide_False by (simpl; lia);
    apply wp_ret; rewrite <- (app_nil_r h); apply Hk; rewrite ?app_nil_r; try done; constructor.
  { simpl in Hf. lia. }
  apply Forall_cons in Hrs as [Hr Hrs].
  destruct (records_at_cons _ _ _ _ _ Hat Hr) as (H1 & H2 & H3).
  rewrite decide_True by done. apply wp_assoc. eapply wp_replay_record; [done..|].
  intros m1 tr1 go st1 Hrun Hc1 Hb1 Ho1 Hax1. destruct go.
  - eapply IH; [done..|simpl in Hf; lia|done|]. intros m2 tr2 go st2 Hw Hc2 Hb2 Ho2 Hax2.
    rewrite <- app_assoc. apply Hk; [|by rewrite Forall_app|done|by rewrite app_assoc|done].
    rewrite vis_app. by apply walk_go.
  - apply wp_ret. apply Hk; try done. by apply walk_stop.
Qed.

(** *** The loop over the file *)

Definition encodings (rs : list tr_record) : bytes := concat (encode_record <$> rs).
Definition size_of (rs : list tr_record) : Z := Z.of_nat (length (encodings rs)).

(** Every chunk but the last ends where a record does. *)
Fixpoint chunked (rss : list (list tr_record)) : Prop :=
  match rss with
  | [] => True
  | rs :: rss =>
      0 < size_of rs <= CHUNK_SIZE /\ (rss <> [] -> size_of rs = CHUNK_SIZE) /\ chunked rss
  end.

Lemma encodings_app rs1 rs2 : encodings (rs1 ++ rs2) = encodings rs1 ++ encodings rs2.
Proof. unfold encodings. by rewrite fmap_app, concat_app. Qed.

Lemma size_of_app rs1 rs2 : size_of (rs1 ++ rs2) = size_of rs1 + size_of rs2.
Proof. unfold size_of. rewrite encodings_app, length_app. lia. Qed.

Lemma size_of_nonneg rs : 0 <= size_of rs.
Proof. unfold size_of. lia. Qed.

(** One read of the file gives one chunk. *)
Lemma read_chunk pre rs rss :
  chunked (rs :: rss) ->
  take (Z.to_nat CHUNK_SIZE) (drop (length pre) (pre ++ encodings (concat (rs :: rss)))) = encodings rs.
Proof.
  intros (Hs & Hfull & _). rewrite drop_app_length. cbn [concat]. rewrite encodings_app.
  unfold size_of in *. destruct rss as [|rs' rss].
  - cbn [concat]. rewrite app_nil_r. apply take_ge. lia.
  - rewrite take_app_length'; [done|]. rewrite <- Hfull by done. lia.
Qed.

Lemma splice_block blk data :
  (length data <= length blk)%nat -> splice blk 0 data = data ++ drop (length data) blk.
Proof. intros H. unfold splice. simpl. done. Qed.

Lemma buffers_blk m sb pb rb blk b :
  buffers m sb pb rb blk -> buffers (<[sb := b]> m) sb pb rb b.
Proof.
  intros [? ? ? ? ? ? ? (b1 & H1 & ?) (b2 & H2 & ?)]. constructor; try done.
  - by rewrite lookup_insert_eq.
  - exists b1. by rewrite lookup_insert_ne.
  - exists b2. by rewrite lookup_insert_ne.
Qed.

Lemma wp_replay_file {A} noreplay strict fuel fd fsize sb pb rb blk rss pre st
    (k : rstate -> uprog A) Q (m : gmap Z bytes) h :
  buffers m sb pb rb blk -> owned m h -> aux_ok m sb pb rb st ->
  u_file w = pre ++ encodings (concat rss) -> read_pos fd h = Z.of_nat (length pre) ->
  chunked rss -> Forall (replayable cwd) (concat rss) ->
  fsize = Z.of_nat (length (u_file w)) -> fsize < 2 ^ 31 ->
  Z.min fsize CHUNK_SIZE <= Z.of_nat (length blk) ->
  (length (concat rss) + length rss <= fuel)%nat ->
  (forall m' tr go st' blk', walk (record_run noreplay strict cwd) (concat rss) (vis tr) go ->
     buffers m' sb pb rb blk' -> aux_ok m' sb pb rb st' ->
     WP (k st') Q m' (h ++ tr)) ->
  WP (replay_file noreplay strict fuel fd fsize sb pb rb (Z.of_nat (length pre)) st ≫= k) Q m h.
Proof.
  revert rss pre st blk m h. induction fuel as [|fuel IH];
    intros rss pre st blk m h Hb Ho Hax Hfile Hpos Hch Hrs Hfs Hmax Hblk Hfuel Hk.
  all: rewrite Hfile in Hfs; rewrite length_app, Nat2Z.inj_add in Hfs.
  all: destruct rss as [|rs rss].
  1,3: cbn [replay_file]; rewrite decide_False by (simpl in Hfs; lia);
    apply wp_ret; rewrite <- (app_nil_r h); eapply Hk; rewrite ?app_nil_r; try done; constructor.
  { simpl in Hfuel. lia. }
  pose proof Hch as (Hsz & _ & Hch').
  cbn [concat] in Hfs, Hrs. rewrite encodings_app, length_app in Hfs.
  apply Forall_app in Hrs as [Hrs Hrss]. unfold size_of in Hsz.
  cbn [replay_file]. rewrite decide_True by lia. apply wp_assoc, wp_udo.
  intros [n data] Hr. simpl in Hr. rewrite Hpos, Nat2Z.id, Hfile, read_chunk in Hr by done.
  injection Hr as -> ->. unfold CHUNK_SIZE, BUFFER_SIZE in Hsz.
  assert (Hne : (0 < length rs)%nat) by (destruct rs; simpl in *; lia).
  rewrite int32_id, decide_False by lia. apply wp_assoc, wp_when.
  rewrite bool_decide_eq_true_2 by (intros E; rewrite E in Hsz; simpl in Hsz; lia).
  set (data := encodings rs) in *. set (blk' := splice blk 0 data).
  assert (Hle : (length data <= length blk)%nat) by (unfold CHUNK_SIZE, BUFFER_SIZE in Hblk; lia).
  pose proof Hb as [? ? ? ? ? ? Hsb _ _].
  eapply wp_mem_write; [done|done|lia|]. change (Z.to_nat 0) with O. fold blk'.
  match goal with |- wp _ _ _ _ (h ++ ?t) => set (tr0 := t) end.
  apply wp_assoc. eapply (wp_replay_chunk _ _ _ _ _ _ blk' _ _ rs);
    [by eapply buffers_blk| | |done| |by apply aux_ok_insert|].
  { apply owned_app; [by eapply owned_insert|by repeat constructor]. }
  { exists [], (drop (length data) blk). split_and!; [by apply splice_block|done|done]. }
  { cbn [concat length] in Hfuel. rewrite length_app in Hfuel. lia. }
  intros m1 tr1 go st1 Hw Hc1 Hb1 Ho1 Hax1.
  assert (Hv0 : vis tr0 = []) by done.
  destruct go.
  - assert (El : int32 (Z.of_nat (length pre) + Z.of_nat (length data)) =
      Z.of_nat (length (pre ++ data))).
    { rewrite length_app, int32_id by lia. lia. }
    rewrite El. eapply (IH rss (pre ++ data)); try done.
    + rewrite Hfile. cbn [concat]. rewrite encodings_app. by rewrite <- app_assoc.
    + rewrite calm_read_pos by done. rewrite read_pos_app, Hpos. unfold tr0. simpl.
      rewrite decide_True by done. rewrite length_app. lia.
    + rewrite Hfile, length_app. cbn [concat]. rewrite encodings_app, length_app. fold data. lia.
    + unfold blk'. rewrite length_splice. lia.
    + cbn [concat length] in Hfuel. rewrite length_app in Hfuel. lia.
    + intros m2 tr2 go st2 blk2 Hw2 Hb2 Hax2. rewrite <- !app_assoc. eapply Hk; [|done|done].
      rewrite !vis_app, Hv0. cbn [concat app]. by apply walk_app with (t := vis tr1).
  - apply wp_ret. rewrite <- app_assoc. eapply Hk; [|done|done].
    rewrite vis_app, Hv0. cbn [concat app]. by apply walk_app_stop.
Qed.

(** *** Records that do not end inside the block *)

Lemma slice_None l off n : Z.of_nat (length l) < off + n -> slice l off n = None.
Proof. intros H. unfold slice. rewrite decide_False; [done|lia]. Qed.

Definition overruns {A} (o : outcome usig A) : Prop := exists m h, o = crashed OutOfBounds m h.

Lemma wp_mem_read_oob {A} p b off n (k : bytes -> uprog A) (m : gmap Z bytes) h :
  p <> NULL -> m !! p = Some b -> slice b off n = None ->
  WP (mem_read p off n ≫= k) overruns m h.
Proof.
  intros Hp Hb Hn. unfold mem_read. apply wp_assoc. eapply wp_block; [done..|]. rewrite Hn.
  by exists m, h.
Qed.

(** Of a record of which the block holds the beginning, the path is read if it
    is all there. *)
Lemma slice_cut_path pre avail r :
  replayable cwd r -> 32 + path_len r <= Z.of_nat avail < rec_size r ->
  slice (pre ++ take avail (encode_record r)) (Z.of_nat (length pre) + sizeof_header) (path_len r) =
    Some (rec_path r).
Proof.
  intros Hr Hav. pose proof (length_encode_replayable _ _ Hr) as El.
  pose proof (rp_path_len _ _ Hr) as Hpl. unfold sizeof_header, slice.
  rewrite decide_True by (rewrite length_app, length_take; lia). f_equal.
  unfold encode_record. fold (rec_path r). rewrite drop_app_ge by lia.
  replace (Z.to_nat (Z.of_nat (length pre) + 32) - length pre)%nat with 32%nat by lia.
  rewrite skipn_firstn_comm, take_take, drop_app_ge by (rewrite length_header_bytes; lia).
  rewrite length_header_bytes, Nat.sub_diag, drop_0, take_app_le by lia. apply take_ge. lia.
Qed.

(** When the block ends before the record does, replaying the record reads
    beyond the end of the block. *)
Lemma wp_replay_record_cut {A} sb pb rb pre avail r st (k : bool * Z * rstate -> uprog A)
    (m : gmap Z bytes) h :
  buffers m sb pb rb (pre ++ take avail (encode_record r)) -> owned m h -> replayable cwd r ->
  Z.of_nat avail < rec_size r ->
  WP (replay_record false false sb pb rb (Z.of_nat (length pre)) st ≫= k) overruns m h.
Proof.
  intros Hb Ho Hr Hav. pose proof (length_encode_replayable _ _ Hr) as El.
  set (blk := pre ++ take avail (encode_record r)) in *.
  assert (Hlen : Z.of_nat (length blk) = Z.of_nat (length pre) + Z.of_nat avail).
  { unfold blk. rewrite length_app, length_take. lia. }
  pose proof (rp_size _ _ Hr) as Hsz. pose proof (rp_aux _ _ Hr) as Haux.
  pose proof (rp_path_len _ _ Hr) as Hpl. unfold sizeof_header in Hsz.
  unfold replay_record, read_record. pose proof Hb as [? ? ? ? ? ? Hsb _ _].
  apply wp_assoc, wp_assoc. destruct (decide (Z.of_nat avail < 26)) as [H26|H26].
  { eapply wp_mem_read_oob; [done..|]. apply slice_None. lia. }
  (* the fields can be read *)
  eapply wp_mem_read; [done|done| |].
  { apply slice_prefix; [done|]. rewrite length_take. lia. }
  rewrite take_take. replace (Z.to_nat 26 `min` avail)%nat with 26%nat by lia.
  apply wp_ret. rewrite record_of_bytes_take, (record_of_encode _ _ Hr).
  apply wp_assoc. destruct (decide (Z.of_nat avail < 32 + path_len r)) as [Hp|Hp].
  { unfold resolve_path, copy_str, memcpy. cbn [path_len strip].
    pose proof (rp_range _ _ Hr) as (_ & _ & _ & _ & _ & ? & _).
    rewrite uint64_id by lia. do 3 apply wp_assoc. eapply wp_mem_read_oob; [done..|].
    apply slice_None. unfold sizeof_header. lia. }
  (* the path can be read *)
  eapply wp_resolve_path; [done|done| |apply Hr|apply Hr|apply Hr|].
  { apply slice_cut_path; [done|lia]. }
  intros m1 tr1 b1 Hkeep Hb1 Hpb1 Hh1 Ho1 Hv1 Hc1. pose proof Hb1 as [? ? ? ? ? ? Hsb1 _ _].
  apply wp_assoc. unfold resolve_aux. cbn [path_len aux_len type strip].
  assert (Hcut : forall f, f = Z.of_nat (length pre) + sizeof_header + path_len r ->
    slice blk f (aux_len r) = None).
  { intros f ->. apply slice_None. unfold sizeof_header. lia. }
  pose proof (rp_range _ _ Hr) as (_ & _ & _ & _ & _ & _ & _ & ?).
  destruct (decide (type r = TR_FWRITE)) as [Hw|Hw].
  - rewrite decide_False by (by intros [_ ?]). apply wp_ret. apply wp_assoc.
    unfold replay_op. cbn [type strip]. rewrite Hw. cbn [rec_type_of].
    change (rec_type_of TR_FWRITE) with (Some FWRITE). cbn iota.
    apply wp_assoc. eapply wp_read_str; [done..|]. apply wp_assoc, wp_udo. intros fd _.
    apply wp_assoc, wp_status. cbn [negb orb]. apply wp_assoc. unfold write_aux.
    cbn [aux_len strip]. rewrite uint64_id, decide_False by lia.
    apply wp_assoc. eapply wp_mem_read_oob; [done..|]. by apply Hcut.
  - rewrite decide_True by (split; [lia|done]). unfold copy_str, memcpy.
    rewrite uint64_id by lia. do 3 apply wp_assoc. eapply wp_mem_read_oob; [done..|]. by apply Hcut.
Qed.

(** *** The loop up to some record *)

Lemma wp_replay_chunk_prefix {A} noreplay strict fuel sb pb rb blk off limit rs st
    (k : bool * rstate -> uprog A) Q (m : gmap Z bytes) h :
  noreplay || negb strict = true ->
  buffers m sb pb rb blk -> owned m h -> aux_ok m sb pb rb st ->
  records_at blk off (off + size_of rs) rs -> off + size_of rs <= limit ->
  Forall (replayable cwd) rs -> (length rs <= fuel)%nat ->
  (forall m' tr st', buffers m' sb pb rb blk -> owned m' (h ++ tr) -> aux_ok m' sb pb rb st' ->
     WP (replay_chunk noreplay strict (fuel - length rs) sb pb rb (off + size_of rs) limit st' ≫= k)
       Q m' (h ++ tr)) ->
  WP (replay_chunk noreplay strict fuel sb pb rb off limit st ≫= k) Q m h.
Proof.
  intros Hmode. revert fuel off st m h.
  induction rs as [|r rs IH]; intros fuel off st m h Hb Ho Hax Hat Hlim Hrs Hf Hk.
  { specialize (Hk m [] st). rewrite app_nil_r, Nat.sub_0_r in Hk. unfold size_of in Hk.
    simpl in Hk. rewrite Z.add_0_r in Hk. by apply Hk. }
  apply Forall_cons in Hrs as [Hr Hrs].
  destruct (records_at_cons _ _ _ _ _ Hat Hr) as (H1 & H2 & H3).
  assert (Es : size_of (r :: rs) = rec_size r + size_of rs).
  { pose proof (length_encode_replayable _ _ Hr) as El. unfold size_of, encodings.
    cbn [fmap list_fmap concat]. rewrite length_app. lia. }
  destruct fuel as [|fuel]; [simpl in Hf; lia|]. cbn [replay_chunk].
  rewrite decide_True by lia. apply wp_assoc. eapply wp_replay_record; [done..|].
  intros m1 tr1 go st1 Hrun Hc1 Hb1 Ho1 Hax1.
  assert (go = true) as ->.
  { destruct noreplay; [apply Hrun|]. destruct Hrun as (ok & _ & ->). simpl in Hmode.
    by rewrite Hmode. }
  apply IH; [done|done|done| |lia|done|simpl in Hf; lia|].
  { by rewrite <- Z.add_assoc, <- Es. }
  intros m2 tr2 st2 Hb2 Ho2 Hax2. rewrite <- app_assoc in *. rewrite <- Z.add_assoc, <- Es.
  by apply (Hk m2 (tr1 ++ tr2) st2).
Qed.

(** *** A record of no size *)

(** What a write whose record's size wraps to zero leaves in the log. *)
Record sizeless (r : tr_record) : Prop := {
  sl_range : record_in_range r;
  sl_type : type r = TR_FWRITE;
  sl_path : Forall is_char (rec_path r);
  sl_path_len : path_len r = Z.of_nat (length (rec_path r));
  sl_size : rec_size r = 0;
  sl_aux : aux_len r < 0;
}.

Lemma wp_replay_record_sizeless {A} noreplay strict sb pb rb rest r st
    (k : bool * Z * rstate -> uprog A) Q (m : gmap Z bytes) h :
  noreplay || negb strict = true -> sizeless r ->
  Z.of_nat (length cwd) + path_len r < BUFFER_SIZE ->
  buffers m sb pb rb (header_bytes r ++ rec_path r ++ rest) -> owned m h ->
  (forall m' tr st', buffers m' sb pb rb (header_bytes r ++ rec_path r ++ rest) ->
     owned m' (h ++ tr) -> WP (k (true, 0, st')) Q m' (h ++ tr)) ->
  WP (replay_record noreplay strict sb pb rb 0 st ≫= k) Q m h.
Proof.
  intros Hmode [Hrange Hty Hpc Hpl Hsz Hax] Hcl Hb Ho Hk. unfold replay_record, read_record.
  pose proof Hb as [? ? ? ? ? ? Hsb _ _]. apply wp_assoc, wp_assoc.
  eapply wp_mem_read; [done|done| |].
  { apply (slice_prefix [] (header_bytes r ++ rec_path r ++ rest)); [done|]. rewrite length_app, length_header_bytes. lia. }
  change (Z.to_nat 26) with 26%nat.
  apply wp_ret. rewrite record_of_bytes_take, record_of_header_bytes by done.
  apply wp_assoc. eapply wp_resolve_path; [done|done| |done..|].
  { apply slice_at; [|done]. by rewrite length_header_bytes. }
  intros m1 tr1 b1 _ Hb1 Hpb1 Hh1 Ho1 Hv1 Hc1. apply wp_assoc. unfold resolve_aux.
  cbn [path_len aux_len type strip]. rewrite Hty, decide_False by (by intros [_ ?]).
  apply wp_ret. apply wp_assoc.
  assert (Hend : forall tr2 st', Forall calm tr2 ->
    WP (k (true, rec_size (strip r), st')) Q m1 ((h ++ tr1) ++ tr2)).
  { intros tr2 st' Hc2. cbn [rec_size strip]. rewrite Hsz, <- app_assoc. apply Hk; [done|].
    rewrite app_assoc. by apply calm_owned. }
  unfold replay_op. cbn [type strip]. rewrite Hty. change (rec_type_of TR_FWRITE) with (Some FWRITE).
  cbn iota. destruct noreplay.
  { apply wp_show, wp_ret. apply Hend. by repeat constructor. }
  apply wp_assoc. eapply wp_read_str; [apply Hb1|done|done|]. apply wp_assoc, wp_udo. intros fd _.
  apply wp_assoc, wp_status. simpl in Hmode. rewrite Hmode. cbn [orb negb]. apply wp_assoc.
  unfold write_aux. cbn [aux_len strip].
  destruct Hrange as (_ & _ & _ & _ & _ & _ & _ & ?).
  rewrite decide_True by (apply uint64_neg; lia). apply wp_assoc, wp_ret, wp_assoc, wp_udo.
  intros n _. apply wp_ret, wp_assoc, wp_status. rewrite Hmode. cbn [orb].
  apply wp_assoc, wp_close_fd. intros t Ht. apply wp_ret, wp_ret. rewrite <- !app_assoc, app_assoc.
  apply closes_visible in Ht. apply Hend. rewrite !Forall_app.
  split_and!; try by repeat constructor. eapply Forall_impl; [exact Ht|]. by intros e [_ ?].
Qed.

(** The loop over the chunk runs for as long as it is given fuel. *)
Lemma wp_replay_chunk_sizeless {A} noreplay strict fuel sb pb rb rest r limit st
    (k : bool * rstate -> uprog A) (m : gmap Z bytes) h :
  noreplay || negb strict = true -> sizeless r -> 0 < limit ->
  Z.of_nat (length cwd) + path_len r < BUFFER_SIZE ->
  buffers m sb pb rb (header_bytes r ++ rec_path r ++ rest) -> owned m h ->
  WP (replay_chunk noreplay strict fuel sb pb rb 0 limit st ≫= k)
    (fun o => exists m h, o = crashed NoFuel m h) m h.
Proof.
  intros Hmode Hr Hl Hcl. revert st m h. induction fuel as [|fuel IH]; intros st m h Hb Ho.
  all: cbn [replay_chunk]; rewrite decide_True by lia.
  { by exists m, h. }
  apply wp_assoc. eapply wp_replay_record_sizeless; [done..|].
  intros m' tr st' Hb' Ho'. rewrite Z.add_0_r. by apply IH.
Qed.
End Proofs.
