(* ===== verification/ReplayThms.v ===== *)
(** * The replay tool: what it guarantees

    Theorems about whole runs of [treplay]: which calls it makes for a log, in
    every environment that behaves as documented, and the logs on which it
    fails. *)

From S2P Require Import Prelude Prog TrTypes Trdump TrdumpSpec Mount User UserSpec Treplay.
From S2P Require Import TreplaySpec.

Section Trace.
Context (w : uworld) (Hcwd : Forall is_char (u_cwd w)).
Local Abbreviation WP := (wp (user_ok w)).

(** The blocks of the tool are freed, each once. *)
Lemma wp_free_all {A} sb pb rb blk st (k : unit -> uprog A) Q (m : gmap Z bytes) h :
  buffers m sb pb rb blk -> aux_ok m sb pb rb st ->
  (forall m' t, vis t = [] -> WP (k tt) Q m' (h ++ t)) ->
  WP (SAFE_FREE sb ≫= fun _ => SAFE_FREE pb ≫= fun _ => SAFE_FREE (auxbuf st) ≫= fun _ =>
      SAFE_FREE rb ≫= k) Q m h.
Proof.
  intros [? ? ? ? ? ? Hsb (b1 & H1 & _) (b2 & H2 & _)] Hax Hk.
  apply wp_SAFE_FREE; [right; eauto|]. intros t1 Hv1. rewrite decide_False by done.
  apply wp_SAFE_FREE; [right; rewrite lookup_delete_ne by done; eauto|]. intros t2 Hv2.
  rewrite decide_False by done.
  apply wp_SAFE_FREE.
  { destruct Hax as [?|(? & ? & ? & ?)]; [by left|right]. by rewrite !lookup_delete_ne. }
  intros t3 Hv3. apply wp_SAFE_FREE.
  { right. case_decide; [rewrite !lookup_delete_ne by done; eauto|].
    destruct Hax as [?|(? & ? & ? & ?)]; [done|]. rewrite !lookup_delete_ne by done. eauto. }
  intros t4 Hv4. rewrite <- !app_assoc. apply Hk. by rewrite !vis_app, Hv1, Hv2, Hv3, Hv4.
Qed.

(** The three blocks the tool starts with. *)
Lemma wp_mallocs {A} n (k : ptr -> ptr -> ptr -> uprog A) Q h :
  0 <= n ->
  (forall m sb pb rb blk t, buffers m sb pb rb blk -> Z.of_nat (length blk) = n ->
     owned m (h ++ t) -> vis t = [] -> (forall fd, read_pos fd t = 0) ->
     WP (k sb pb rb) Q m (h ++ t)) ->
  WP (sb ← malloc n; pb ← malloc BUFFER_SIZE; rb ← malloc BUFFER_SIZE; k sb pb rb) Q (∅ : gmap Z bytes) h.
Proof.
  intros Hn Hk. apply wp_malloc; [done|intros p b; by rewrite lookup_empty|].
  intros sb c1 ? _ Hl1 h1 Ho1. apply wp_malloc; [done|done|].
  intros pb c2 ? Hf2 Hl2 h2 Ho2. apply wp_malloc; [done|done|].
  intros rb c3 ? Hf3 Hl3 h3 Ho3.
  assert (sb <> pb) by (intros ->; by rewrite lookup_insert_eq in Hf2).
  apply lookup_insert_None in Hf3 as [Hf3 ?]. apply lookup_insert_None in Hf3 as [_ ?].
  unfold h3, h2, h1 in *. rewrite <- !app_assoc in *. eapply (Hk _ _ _ _ c1); try done.
  constructor; try done.
  - rewrite !lookup_insert_ne by done. by rewrite lookup_insert_eq.
  - exists c2. rewrite lookup_insert_ne by done. by rewrite lookup_insert_eq.
  - exists c3. by rewrite lookup_insert_eq.
Qed.

Lemma wp_replay_trace noreplay strict fuel name rss (Q : outcome usig Z -> Prop) h :
  u_file w = encodings (concat rss) -> chunked rss ->
  Forall (replayable (u_cwd w)) (concat rss) -> Z.of_nat (length (u_file w)) < 2 ^ 31 ->
  (length (concat rss) + length rss <= fuel)%nat -> (forall fd, read_pos fd h = 0) ->
  (forall e m' (fd : Z) (c : Z) t go tr,
     vis tr = UEv (u_open name O_RDONLY 0) fd :: t ++ [UEv (u_close fd) c] ->
     (if decide (0 <= fd) then walk (record_run noreplay strict (u_cwd w)) (concat rss) t go
      else t = []) ->
     Q (Done e m' (h ++ tr))) ->
  WP (replay_trace noreplay strict fuel (Some name)) Q (∅ : gmap Z bytes) h.
Proof.
  intros Hfile Hch Hrs Hmax Hfuel Hpos Hk. unfold replay_trace.
  apply wp_udo. intros r ->. set (fsize := Z.of_nat (length (u_file w))) in *.
  rewrite int32_id by lia.
  assert (Hmin : MIN fsize CHUNK_SIZE = Z.min fsize CHUNK_SIZE) by (unfold MIN; case_decide; lia).
  assert (0 <= Z.min fsize CHUNK_SIZE < 2 ^ 63) by (unfold CHUNK_SIZE, BUFFER_SIZE; lia).
  rewrite Hmin, uint64_id by lia.
  apply wp_mallocs; [lia|]. intros m sb pb rb blk t0 Hb Hl Ho Hv0 Hp0.
  apply wp_udo. intros fd _.
  assert (Hend : forall st m' blk' t1 t go, buffers m' sb pb rb blk' -> aux_ok m' sb pb rb st ->
    vis t1 = t ->
    (if decide (0 <= fd) then walk (record_run noreplay strict (u_cwd w)) (concat rss) t go
      else t = []) ->
    WP (udo (u_close fd);; SAFE_FREE sb;; SAFE_FREE pb;; SAFE_FREE (auxbuf st);; SAFE_FREE rb;;
        mret (rs_err st)) Q m'
      (((h ++ [UEv (u_stat (Some name)) (Some fsize)]) ++ t0) ++
        [UEv (u_open name O_RDONLY 0) fd] ++ t1)).
  { intros st m' blk' t1 t go Hb' Hax Hv1 Hw. apply wp_udo. intros c _.
    eapply wp_free_all; [done..|]. intros m2 t2 Hv2. rewrite <- !app_assoc.
    eapply (Hk _ _ fd c t go); [|exact Hw].
    rewrite !vis_app, Hv0, Hv1, Hv2, app_nil_r. done. }
  destruct (decide (fd < 0)) as [Hfd|Hfd].
  - apply wp_ret. specialize (Hend (RState fd NULL None) m blk [] [] true). apply Hend; try done.
    + by left.
    + by rewrite decide_False by lia.
  - eapply (wp_replay_file w Hcwd) with (pre := []) (rss := rss); [done| |by left|done| |done..| |done|].
    + apply owned_app; [done|by repeat constructor].
    + rewrite !read_pos_app, Hpos, Hp0. done.
    + lia.
    + intros m' tr go st blk' Hw Hb' Hax. rewrite <- !app_assoc.
      specialize (Hend st m' blk' tr (vis tr) go Hb' Hax eq_refl).
      rewrite decide_True in Hend by lia. specialize (Hend Hw). by rewrite <- !app_assoc in Hend.
Qed.

(** The log cannot be opened. *)
Definition not_opened (name : bytes) (h : uhist) : Prop :=
  exists fd : Z, fd < 0 /\ UEv (u_open name O_RDONLY 0) fd ∈ h.

(** The run up to the first chunk of a log that is not empty. *)
Lemma wp_first_chunk noreplay strict fuel name (Q : outcome usig Z -> Prop) h :
  0 < Z.of_nat (length (u_file w)) < 2 ^ 31 -> (forall fd, read_pos fd h = 0) ->
  (forall e m t, not_opened name t -> Q (Done e m t)) ->
  (fuel = O -> forall m t, Q (Faulted NoFuel m t)) ->
  (forall fuel' m sb pb rb (k : bool * rstate -> uprog Z) h', fuel = S fuel' ->
     let data := take (Z.to_nat CHUNK_SIZE) (u_file w) in
     buffers m sb pb rb data -> owned m h' -> aux_ok m sb pb rb (RState 0 NULL None) ->
     WP (replay_chunk noreplay strict fuel sb pb rb 0 (Z.of_nat (length data)) (RState 0 NULL None)
           ≫= k) Q m h') ->
  WP (replay_trace noreplay strict fuel (Some name)) Q (∅ : gmap Z bytes) h.
Proof.
  intros Hlen Hpos Hno Hfuel0 Hk. unfold replay_trace.
  apply wp_udo. intros r ->. set (fsize := Z.of_nat (length (u_file w))) in *.
  rewrite int32_id by lia.
  assert (Hmin : MIN fsize CHUNK_SIZE = Z.min fsize CHUNK_SIZE) by (unfold MIN; case_decide; lia).
  assert (0 < Z.min fsize CHUNK_SIZE <= 16384) by (unfold CHUNK_SIZE, BUFFER_SIZE; lia).
  rewrite Hmin, uint64_id by lia.
  apply wp_mallocs; [lia|]. intros m sb pb rb blk t0 Hb Hl Ho Hv0 Hp0.
  apply wp_udo. intros fd _. destruct (decide (fd < 0)) as [Hfd|Hfd].
  { apply wp_ret. apply wp_udo. intros c _.
    eapply (wp_free_all sb pb rb blk (RState fd NULL None)); [done|by left|].
    intros m' t _. apply Hno. exists fd. split; [done|]. set_solver. }
  destruct fuel as [|fuel]; [cbn [replay_file]; rewrite decide_True by lia; by apply Hfuel0|].
  set (n := S fuel). unfold n at 1. cbn [replay_file]. rewrite decide_True by lia.
  apply wp_assoc, wp_udo. intros [x data] Hr. simpl in Hr.
  assert (Hrp : read_pos fd (((h ++ [UEv (u_stat (Some name)) (Some fsize)]) ++ t0) ++
      [UEv (u_open name O_RDONLY 0) fd]) = 0) by (rewrite !read_pos_app, Hpos, Hp0; done).
  rewrite Hrp, drop_0 in Hr.
  set (chunk := take (Z.to_nat CHUNK_SIZE) (u_file w)) in *. injection Hr as -> ->.
  assert (Hcl : Z.of_nat (length chunk) = Z.min fsize CHUNK_SIZE).
  { unfold chunk, fsize. rewrite length_take. lia. }
  rewrite int32_id, decide_False by lia. apply wp_assoc, wp_when.
  rewrite bool_decide_eq_true_2 by (intros E; rewrite E in Hcl; simpl in Hcl; lia).
  pose proof Hb as [? ? ? ? ? ? Hsb _ _].
  eapply wp_mem_write; [done|done|lia|]. change (Z.to_nat 0) with O.
  assert (Es : splice blk 0 chunk = chunk).
  { rewrite splice_block, drop_ge by lia. apply app_nil_r. }
  rewrite Es. apply wp_assoc. apply (Hk fuel); [done|by eapply buffers_blk| |by left].
  apply owned_app; [|by repeat constructor]. apply owned_app; [|by repeat constructor].
  by eapply owned_insert.
Qed.
End Trace.

(** ** A concrete system *)

Section Env.
Variables (w : uworld) (sys : ucallee -> Z).

Definition user_env : uenv := fun h c =>
  match c return ureply c with
  | u_stat _ => Some (Z.of_nat (length (u_file w)))
  | u_malloc n => (fresh ({[0]} ∪ live h), replicate (Z.to_nat n) 0)
  | u_read fd n =>
      let data := take (Z.to_nat n) (drop (Z.to_nat (read_pos fd h)) (u_file w)) in
      (Z.of_nat (length data), data)
  | u_getcwd n => Some (u_cwd w)
  | u_ioctl _ _ v _ => (0, v)
  | u_free _ | u_print _ => tt
  | c => sys c
  end.

Lemma user_env_ok : env_ok (user_ok w) user_env.
Proof.
  intros h c. destruct c as [[n|]|n| | | | | | | | | | | | |]; try done. intros Hn. simpl.
  pose proof (is_fresh ({[0]} ∪ live h)) as Hf. rewrite length_replicate.
  split_and!; [|set_solver|lia]. intros E. rewrite E in Hf. unfold NULL in Hf. set_solver.
Qed.
End Env.

Definition demo_record (ty id perm : Z) (path aux : bytes) : tr_record :=
  TrRecord id 1 perm 0 (32 + Z.of_nat (length path) + Z.of_nat (length aux))
    (Z.of_nat (length path)) ty (Z.of_nat (length aux)) (Buffer 8192 path) (Buffer 12288 aux).

Definition demo_records : list tr_record :=
  [demo_record TR_DCREAT 0 493 (lit "/d") [];
   demo_record TR_FCREAT 1 420 (lit "/d/f") [];
   demo_record TR_FWRITE 2 0 (lit "/d/f") (lit "hello");
   demo_record TR_RENAME 3 0 (lit "/d/f") (lit "/g");
   demo_record TR_SYMLINK 4 0 (lit "/l") (lit "g");
   demo_record TR_UNLINK 5 0 (lit "/g") []].

Definition demo_uworld : uworld := UWorld (lit "/mnt") (encodings demo_records).

Lemma demo_cwd : Forall is_char (u_cwd demo_uworld).
Proof. repeat constructor; unfold is_char; lia. Qed.

Lemma demo_replayable : Forall (replayable (u_cwd demo_uworld)) demo_records.
Proof.
  repeat constructor; simpl; try done; try lia; try (unfold is_char; lia); try (intros []; done);
    try (split; [repeat constructor; unfold is_char; lia|]; vm_compute; done).
Qed.

(** ** Walks *)

Lemma walk_all P rs t go :
  (forall r t go, P r t go -> go = true) -> walk P rs t go ->
  exists ts, t = concat ts /\ Forall2 (fun r t => P r t true) rs ts.
Proof.
  intros HP. induction 1 as [|r rs t u go Hr _ (ts & -> & IH)|r rs t Hr].
  - by exists [].
  - exists (t :: ts). split; [done|]. by constructor.
  - by apply HP in Hr.
Qed.

Lemma walk_prefix P rs t go :
  walk P rs t go ->
  exists n ts, Forall2 (fun r t => P r t true) (take n rs) ts /\
    (n = length rs /\ t = concat ts \/
     exists r t1, rs !! n = Some r /\ P r t1 false /\ t = concat ts ++ t1).
Proof.
  induction 1 as [|r rs t u go Hr _ (n & ts & Hts & Hend)|r rs t Hr].
  - exists O, []. split; [constructor|by left].
  - exists (S n), (t :: ts). split; [by constructor|].
    destruct Hend as [[-> ->]|(r1 & t1 & Hn & Hr1 & ->)]; [by left|right].
    exists r1, t1. split_and!; [done..|]. simpl. by rewrite app_assoc.
  - exists O, []. split; [constructor|right]. by exists r, t.
Qed.

(** ** What a run does *)

Section Runs.
Context (w : uworld) (env : uenv) (Henv : env_ok (user_ok w) env).
Context (Hcwd : Forall is_char (u_cwd w)).
Context (rss : list (list tr_record)) (Hfile : u_file w = encodings (concat rss)).
Context (Hch : chunked rss) (Hrs : Forall (replayable (u_cwd w)) (concat rss)).
Context (Hmax : Z.of_nat (length (u_file w)) < 2 ^ 31).

(** The visible part of a run: the name of the log is printed, the log is
    opened and at the end closed; in between [P] holds, if it could be opened. *)
Definition run_shows (name : bytes) (o : outcome usig Z) (P : uhist -> Prop) : Prop :=
  exists e m h (fd : Z) (c : Z) t,
    o = exited e m h /\
    vis h = UEv (u_print (L_trace_file (Some name))) tt :: UEv (u_open name O_RDONLY 0) fd ::
            t ++ [UEv (u_close fd) c] /\
    if decide (0 <= fd) then P t else t = [].

Lemma run_shows_mono name o (P P' : uhist -> Prop) :
  (forall t, P t -> P' t) -> run_shows name o P -> run_shows name o P'.
Proof.
  intros HP (e & m & h & fd & c & t & Ho & Hv & Ht). exists e, m, h, fd, c, t.
  split_and!; [done..|]. case_decide; auto.
Qed.

Lemma treplay_run n0 s0 opts bits noreplay strict fuel name :
  parse_options opts 0 n0 s0 = Some (bits, noreplay, strict) -> exclusive bits = true ->
  (length (concat rss) + length rss <= fuel)%nat ->
  run_shows name (run env (treplay_main n0 s0 fuel opts (Some name)) ∅ [])
    (fun t => exists go, walk (record_run noreplay strict (u_cwd w)) (concat rss) t go).
Proof.
  intros Hopt Hex Hfuel. unfold treplay_main. rewrite Hopt, Hex.
  by_wp (user_ok w). apply wp_udo. intros [] _.
  eapply wp_replay_trace; [done..|].
  intros e m' fd c t go tr Hv Hw. exists e, m', (([] ++ [UEv (u_print (L_trace_file (Some name))) tt]) ++ tr), fd, c, t.
  split_and!; [done| |].
  - rewrite vis_app, Hv. done.
  - case_decide; eauto.
Qed.

(** C9: on a log that consists of chunks of 16 KiB, the last one maybe shorter,
    each of whole records of the kind that the file system writes ([chunked],
    [replayable]), and if memory is to be had and the calls that
    find the log's size, its contents and the current directory succeed ([user_ok]), the
    tool without options that say otherwise, and with flags that happen to be
    clear, performs every operation of the log, in order, below the current
    directory: one group of calls per record, none left out and none added,
    whatever these calls answer; and it ends. *)
Theorem replay_all n0 s0 opts bits fuel name :
  parse_options opts 0 n0 s0 = Some (bits, false, false) -> exclusive bits = true ->
  (length (concat rss) + length rss <= fuel)%nat ->
  run_shows name (run env (treplay_main n0 s0 fuel opts (Some name)) ∅ [])
    (fun t => exists ts, t = concat ts /\
       Forall2 (fun r t => exists ok, replays false (u_cwd w) r t ok) (concat rss) ts).
Proof.
  intros Ho Hx Hf. eapply run_shows_mono; [|by eapply treplay_run]. intros t [go Hw].
  apply walk_all in Hw as (ts & -> & Hts).
  - exists ts. split; [done|]. eapply Forall2_impl; [exact Hts|]. intros r t (ok & Hr & _). eauto.
  - by intros r t' go' (ok & _ & ->).
Qed.

(** C26: with [-s] the tool performs the operations in order up to the first
    that fails, or whose record says that it failed, and stops there. *)
Theorem replay_strict n0 s0 opts bits fuel name :
  parse_options opts 0 n0 s0 = Some (bits, false, true) -> exclusive bits = true ->
  (length (concat rss) + length rss <= fuel)%nat ->
  run_shows name (run env (treplay_main n0 s0 fuel opts (Some name)) ∅ [])
    (fun t => exists n ts,
       Forall2 (fun r t => replays true (u_cwd w) r t true) (take n (concat rss)) ts /\
       (n = length (concat rss) /\ t = concat ts \/
        exists r t1, concat rss !! n = Some r /\ replays true (u_cwd w) r t1 false /\
                     t = concat ts ++ t1)).
Proof.
  intros Ho Hx Hf. eapply run_shows_mono; [|by eapply treplay_run]. intros t [go Hw].
  apply walk_prefix in Hw as (n & ts & Hts & Hend). exists n, ts. split.
  - eapply Forall2_impl; [exact Hts|]. intros r t1 (ok & Hr & Hok). simpl in Hok. by subst ok.
  - destruct Hend as [?|(r & t1 & Hn & (ok & Hr & Hok) & ->)]; [by left|right].
    exists r, t1. simpl in Hok. by subst ok.
Qed.

Definition listing (rs : list tr_record) : uhist :=
  concat ((fun r => show_lines r (from_option syscalls [] (rec_type_of (type r)))) <$> rs).

Lemma treplay_listing n0 s0 opts bits strict fuel name :
  parse_options opts 0 n0 s0 = Some (bits, true, strict) -> exclusive bits = true ->
  (length (concat rss) + length rss <= fuel)%nat ->
  run_shows name (run env (treplay_main n0 s0 fuel opts (Some name)) ∅ [])
    (fun t => t = listing (concat rss)).
Proof.
  intros Ho Hx Hf. eapply run_shows_mono; [|by eapply treplay_run]. intros t [go Hw].
  apply walk_all in Hw as (ts & -> & Hts); [|by intros r t' go' [-> _]].
  unfold listing. f_equal. clear -Hts. induction Hts as [|r t rs ts (_ & ty & Hty & ->) _ IH]; [done|].
  cbn [fmap list_fmap]. rewrite Hty. cbn [from_option]. by f_equal.
Qed.

(** C27: with [-n] the tool performs nothing: it prints one line per system
    call that each record stands for. *)
Theorem replay_none n0 s0 opts bits strict fuel name :
  parse_options opts 0 n0 s0 = Some (bits, true, strict) -> exclusive bits = true ->
  (length (concat rss) + length rss <= fuel)%nat ->
  run_shows name (run env (treplay_main n0 s0 fuel opts (Some name)) ∅ [])
    (fun t => t = listing (concat rss)).
Proof. apply treplay_listing. Qed.

(** The flag that stops the replay is never cleared: without [-n] the log
    is replayed only if the stack happened to hold a zero there. *)
Theorem replay_uninitialised n0 s0 fuel name :
  (length (concat rss) + length rss <= fuel)%nat ->
  run_shows name (run env (treplay_main n0 s0 fuel [115] (Some name)) ∅ [])
    (fun t => n0 = true -> t = listing (concat rss)).
Proof.
  intros Hf. destruct n0.
  - eapply run_shows_mono; [|eapply (treplay_listing true s0 [115] STRICT true)]; auto.
  - eapply run_shows_mono; [|by eapply (treplay_run false s0 [115] STRICT false true)]. by intros.
Qed.
End Runs.

(** ** Logs the tool fails on *)

(** C37: a log in which a record lies across the end of the first 16 KiB, as
    any log of some length will, is not replayed: the tool reads beyond the end
    of its buffer. *)
Theorem replay_straddle w env rs1 r rs2 n0 s0 opts bits fuel name :
  env_ok (user_ok w) env -> Forall is_char (u_cwd w) ->
  u_file w = encodings (rs1 ++ r :: rs2) -> Z.of_nat (length (u_file w)) < 2 ^ 31 ->
  Forall (replayable (u_cwd w)) rs1 -> replayable (u_cwd w) r ->
  size_of rs1 < CHUNK_SIZE < size_of rs1 + rec_size r ->
  parse_options opts 0 n0 s0 = Some (bits, false, false) -> exclusive bits = true ->
  (length rs1 < fuel)%nat ->
  exists m h,
    run env (treplay_main n0 s0 fuel opts (Some name)) ∅ [] = crashed OutOfBounds m h \/
    exists e, run env (treplay_main n0 s0 fuel opts (Some name)) ∅ [] = exited e m h /\
              not_opened name h.
Proof.
  intros Henv Hcwd Hfile Hmax Hrs1 Hr Hcut Hopt Hex Hfuel. unfold treplay_main. rewrite Hopt, Hex.
  by_wp (user_ok w). apply wp_udo. intros [] _.
  pose proof (size_of_nonneg rs1) as Hnn. pose proof (length_encode_replayable _ _ Hr) as El.
  unfold size_of, CHUNK_SIZE, BUFFER_SIZE in *.
  assert (Hlen : (length (u_file w) = length (encodings rs1) + length (encode_record r) +
    length (encodings rs2))%nat).
  { rewrite Hfile, encodings_app. unfold encodings. cbn [fmap list_fmap concat].
    rewrite !length_app. lia. }
  apply wp_first_chunk with (w := w); [done|lia|done| |intros ->; lia|].
  { intros e m t Hno. exists m, t. right. eauto. }
  intros fuel' m sb pb rb k h' -> data Hb Ho Hax.
  set (avail := Z.to_nat (16384 - Z.of_nat (length (encodings rs1)))).
  assert (Hd : data = encodings rs1 ++ take avail (encode_record r)).
  { unfold data, CHUNK_SIZE, BUFFER_SIZE. rewrite Hfile, encodings_app.
    change (encodings (r :: rs2)) with (encode_record r ++ encodings rs2).
    rewrite take_app, take_ge by lia. f_equal.
    replace (_ - _)%nat with avail by lia. apply take_app_le. lia. }
  assert (Hdl : Z.of_nat (length data) = 16384).
  { rewrite Hd, length_app, length_take. lia. }
  eapply wp_replay_chunk_prefix with (rs := rs1); [done|done|done|done|done| | |done|lia|].
  { exists [], (take avail (encode_record r)). unfold size_of. by split_and!. }
  { unfold size_of. lia. }
  intros m1 tr1 st1 Hb1 Ho1 Hax1. rewrite Hd in Hb1.
  destruct (S fuel' - length rs1)%nat as [|f] eqn:Ef; [lia|].
  cbn [replay_chunk]. unfold size_of. rewrite decide_True by lia.
  apply wp_assoc. eapply wp_mono; [|apply (wp_replay_record_cut w Hcwd sb pb rb _ avail r)].
  - intros o (m2 & h2 & ->). exists m2, h2. by left.
  - exact Hb1.
  - exact Ho1.
  - done.
  - lia.
Qed.

(** A log that begins with a record of no size keeps the tool busy for ever: it
    does not end with any fuel. *)
Lemma treplay_sizeless w env r rest n0 s0 opts bits noreplay strict fuel name :
  env_ok (user_ok w) env -> Forall is_char (u_cwd w) ->
  sizeless r -> u_file w = header_bytes r ++ rec_path r ++ rest ->
  Z.of_nat (length (u_file w)) <= CHUNK_SIZE ->
  Z.of_nat (length (u_cwd w)) + path_len r < BUFFER_SIZE ->
  parse_options opts 0 n0 s0 = Some (bits, noreplay, strict) -> exclusive bits = true ->
  noreplay || negb strict = true ->
  exists m h,
    run env (treplay_main n0 s0 fuel opts (Some name)) ∅ [] = crashed NoFuel m h \/
    exists e, run env (treplay_main n0 s0 fuel opts (Some name)) ∅ [] = exited e m h /\
              not_opened name h.
Proof.
  intros Henv Hcwd Hr Hfile Hlen Hcl Hopt Hex Hmode. unfold treplay_main. rewrite Hopt, Hex.
  by_wp (user_ok w). apply wp_udo. intros [] _.
  unfold CHUNK_SIZE, BUFFER_SIZE in Hlen.
  assert (0 < Z.of_nat (length (u_file w))).
  { rewrite Hfile, length_app, length_header_bytes. lia. }
  apply wp_first_chunk with (w := w); [done|lia|done| | |].
  - intros e m t Hno. exists m, t. right. eauto.
  - intros -> m t. exists m, t. by left.
  - intros fuel' m sb pb rb k h' -> data Hb Ho Hax.
    assert (Hd : data = u_file w) by (apply take_ge; unfold CHUNK_SIZE, BUFFER_SIZE; lia).
    rewrite Hd in *. rewrite Hfile in Hb.
    eapply wp_mono; [|by eapply (wp_replay_chunk_sizeless w Hcwd)].
    intros o (m2 & h2 & ->). exists m2, h2. by left.
Qed.

(** ** Witnesses *)

Lemma demo_file : u_file demo_uworld = encodings (concat [demo_records]).
Proof. done. Qed.

Lemma demo_chunked : chunked [demo_records].
Proof. split_and!; [by vm_compute|by vm_compute|done|done]. Qed.

Lemma demo_all_replayable : Forall (replayable (u_cwd demo_uworld)) (concat [demo_records]).
Proof. apply demo_replayable. Qed.

Lemma demo_small : Z.of_nat (length (u_file demo_uworld)) < 2 ^ 31.
Proof. by vm_compute. Qed.

Definition demo_run (n0 s0 : bool) (opts : list Z) (sys : ucallee -> Z) : outcome usig Z :=
  run (user_env demo_uworld sys) (treplay_main n0 s0 10 opts (Some (lit "log"))) ∅ [].

Lemma replay_all_witness :
  run_shows (lit "log") (demo_run false false [] (fun _ => 3))
    (fun t => exists ts, t = concat ts /\
       Forall2 (fun r t => exists ok, replays false (lit "/mnt") r t ok) (concat [demo_records]) ts).
Proof.
  apply (replay_all demo_uworld (user_env demo_uworld (fun _ => 3)) (user_env_ok _ _) demo_cwd
    [demo_records] demo_file demo_chunked demo_all_replayable demo_small false false [] 0);
    [reflexivity|reflexivity|simpl; lia].
Defined.

Lemma replay_strict_witness :
  run_shows (lit "log") (demo_run false false [115] (fun _ => -1))
    (fun t => exists n ts,
       Forall2 (fun r t => replays true (lit "/mnt") r t true) (take n (concat [demo_records])) ts /\
       (n = length (concat [demo_records]) /\ t = concat ts \/
        exists r t1, concat [demo_records] !! n = Some r /\ replays true (lit "/mnt") r t1 false /\
                     t = concat ts ++ t1)).
Proof.
  apply (replay_strict demo_uworld (user_env demo_uworld (fun _ => -1)) (user_env_ok _ _) demo_cwd
    [demo_records] demo_file demo_chunked demo_all_replayable demo_small false false [115] STRICT);
    [reflexivity|reflexivity|simpl; lia].
Defined.

Lemma replay_none_witness :
  run_shows (lit "log") (demo_run false false [110] (fun _ => 3))
    (fun t => t = listing (concat [demo_records])).
Proof.
  apply (replay_none demo_uworld (user_env demo_uworld (fun _ => 3)) (user_env_ok _ _) demo_cwd
    [demo_records] demo_file demo_chunked demo_all_replayable demo_small false false [110] NOREPLAY
    false); [reflexivity|reflexivity|simpl; lia].
Defined.

Lemma replay_uninitialised_witness :
  run_shows (lit "log") (demo_run true false [115] (fun _ => 3))
    (fun t => true = true -> t = listing (concat [demo_records])).
Proof.
  apply (replay_uninitialised demo_uworld (user_env demo_uworld (fun _ => 3)) (user_env_ok _ _)
    demo_cwd [demo_records] demo_file demo_chunked demo_all_replayable demo_small true false).
  simpl; lia.
Defined.

Lemma demo_write_replayable cwd path n :
  Forall is_char path -> Z.of_nat (length cwd) + Z.of_nat (length path) < BUFFER_SIZE ->
  32 + Z.of_nat (length path) + Z.of_nat n <= 32767 ->
  replayable cwd (demo_record TR_FWRITE 0 0 path (replicate n 7)).
Proof.
  intros Hc Hl Hn. unfold BUFFER_SIZE in *.
  constructor; cbn -[Z.of_nat TR_FWRITE]; rewrite ?length_replicate; try done; try lia.
  unfold record_in_range. change TR_FWRITE with 4. cbn -[Z.of_nat]. rewrite length_replicate. lia.
Qed.

(** Two writes, the second across the end of the first chunk. *)
Definition straddling : list tr_record :=
  [demo_record TR_FWRITE 0 0 (lit "/a") (replicate (Z.to_nat 16000) 7)].
Definition straddler : tr_record := demo_record TR_FWRITE 0 0 (lit "/a") (replicate (Z.to_nat 1000) 7).
Definition straddle_world : uworld := UWorld (lit "/mnt") (encodings (straddling ++ [straddler])).

Lemma straddler_replayable n :
  Z.of_nat n <= 32733 -> replayable (lit "/mnt") (demo_record TR_FWRITE 0 0 (lit "/a") (replicate n 7)).
Proof.
  intros Hn. apply demo_write_replayable; [repeat constructor; unfold is_char; lia| |];
    unfold BUFFER_SIZE; simpl; lia.
Qed.

Lemma replay_straddle_witness :
  exists m h,
    run (user_env straddle_world (fun _ => 3))
      (treplay_main false false 10 [] (Some (lit "log"))) ∅ [] = crashed OutOfBounds m h \/
    exists e, run (user_env straddle_world (fun _ => 3))
      (treplay_main false false 10 [] (Some (lit "log"))) ∅ [] = exited e m h /\
              not_opened (lit "log") h.
Proof.
  apply (replay_straddle straddle_world (user_env straddle_world (fun _ => 3)) straddling straddler []
    false false [] 0 10 (lit "log")).
  - apply user_env_ok.
  - repeat constructor; unfold is_char; lia.
  - reflexivity.
  - vm_compute. reflexivity.
  - constructor; [|constructor]. apply straddler_replayable. lia.
  - apply straddler_replayable. lia.
  - vm_compute. split; reflexivity.
  - reflexivity.
  - reflexivity.
  - simpl. lia.
Defined.

