(* ===== verification/EndToEnd.v ===== *)
(** * From operations to their replay

    A sequence of operations on a mounted file system leaves a log that is the
    encoding of one record per operation, numbered consecutively; and the
    replay tool, given that log, performs the operations again. *)

From S2P Require Import Prelude Prog TrTypes Kernel TrfsH Ledger Trdump TrdumpSpec Demo LogThms.
From S2P Require Import Mount User UserSpec Treplay TreplaySpec ReplayThms.

(** ** Sequences of operations *)

(** What a handler passes to the logging block, and the paths behind the
    dentries. *)
Record op := Op {
  op_type : rec_type;
  op_dentry : ptr;
  op_flags : Z;
  op_perm : Z;
  op_err : Z;
  op_arg : buffer;
  op_arg_len : Z;
  op_path : bytes;
  op_apath : bytes;
}.

(** The blocks of the handlers, one after the other. *)
Fixpoint log_ops (dir : ptr) (ops : list op) : kprog unit :=
  match ops with
  | [] => mret tt
  | o :: ops =>
      log_op (ld F_i_sb dir) (rec_type_val (op_type o)) (op_dentry o) (op_flags o) (op_perm o)
        (op_err o) (op_arg o) (op_arg_len o);;
      log_ops dir ops
  end.

Record op_ok (w : kworld) (mask : Z) (o : op) : Prop := {
  ok_logged : logged (op_type o);
  ok_bit : Z.testbit mask (rec_type_bit (op_type o)) = true;
  ok_path : path_of w (op_dentry o) = Some (op_path o);
  ok_apath : aux_is_path (op_type o) = true -> path_of w (b_ptr (op_arg o)) = Some (op_apath o);
  ok_fits : op_fits (op_type o) (op_path o) (op_arg o) (op_arg_len o);
}.

Definition op_filled (id : Z) (o : op) (r : tr_record) : Prop :=
  filled (op_type o) id (op_flags o) (op_perm o) (op_err o) (op_path o) (op_arg o) (op_arg_len o)
    (op_apath o) r /\ record_wf r.

(** The records of the operations, numbered from the one after [id]. *)
Inductive logged_as : Z -> list op -> list tr_record -> Prop :=
| logged_nil id : logged_as id [] []
| logged_cons id o ops r rs :
    op_filled (int32 (id + 1)) o r -> logged_as (int32 (id + 1)) ops rs ->
    logged_as id (o :: ops) (r :: rs).

Section Log.
Context (w : kworld) (ok : khist -> event ksig -> Prop) `{HK : !KernelSpec w ok}.
Context (Hres : forall h e, ok h e -> resourceful e).

Lemma wp_log_ops dir lock si pos buf ops (Q : outcome ksig unit -> Prop) m h :
  good_ptr dir -> mounted w m (sb_of w dir) lock si pos buf ->
  Forall (op_ok w (umask si)) ops ->
  pos = Z.of_nat (length (log_image (tr_lower_filep si) h)) ->
  (forall m' h' rs, logged_as (trecord_id m) ops rs ->
     log_image (tr_lower_filep si) h' = log_image (tr_lower_filep si) h ++ encodings rs ->
     Q (Done tt m' h')) ->
  wp ok (log_ops dir ops) Q m h.
Proof.
  revert pos buf m h. induction ops as [|o ops IH]; intros pos buf m h Hdir Hm Hops Hpos HQ.
  { apply (HQ m h []); [constructor|]. by rewrite app_nil_r. }
  apply Forall_cons in Hops as [[Hl Hb Hp Ha Hf] Hops]. cbn [log_ops].
  eapply wp_log_op with (w := w); [done|done|by eapply (reads_i_sb w)|done..|].
  intros s tr r p2 buf' _ Hbl _ Hfil Hwf h' Himg _.
  eapply (IH _ buf' _ h'); [done| |done| |].
  - apply mounted_advanced with (buf := buf); [by apply mounted_trecord_id|done].
  - rewrite Himg, length_app, Nat2Z.inj_add, length_encode_record, <- Hpos by done. done.
  - intros m2 h2 rs Hrs Himg2. apply (HQ m2 h2 (r :: rs)).
    + constructor; [by split|exact Hrs].
    + rewrite Himg2, Himg, <- app_assoc. done.
Qed.
End Log.

(** ** What the log means to the replay tool *)

(** The paths of an operation fit the buffers of the tool, below [cwd]; the
    target of a symbolic link is a string. *)
Definition op_reaches (cwd : bytes) (o : op) : Prop :=
  Z.of_nat (length cwd) + Z.of_nat (length (op_path o)) < BUFFER_SIZE /\
  match op_type o with
  | RENAME | LINK =>
      Forall is_char (op_apath o) /\ 0 < Z.of_nat (length (op_apath o)) /\
      Z.of_nat (length cwd) + Z.of_nat (length (op_apath o)) < BUFFER_SIZE
  | SYMLINK =>
      Forall is_char (take (Z.to_nat (op_arg_len o)) (b_data (op_arg o))) /\
      op_arg_len o < BUFFER_SIZE
  | _ => True
  end.

Lemma filled_in_range id o r : op_filled id o r -> logged (op_type o) -> record_in_range r.
Proof.
  intros [(E1 & E2 & E3 & E4 & E5 & _ & _ & _ & _) Hwf] _. destruct Hwf as [[] ? ? ?].
  unfold record_in_range, sizeof_header in *. rewrite E1, E2, E3, E4, E5.
  pose proof (rec_type_val_pos (op_type o)). pose proof (int32_range (op_err o)).
  pose proof (uint32_range id). pose proof (uint32_range (op_flags o)).
  pose proof (uint32_range (op_perm o)). lia.
Qed.

Lemma filled_replayable cwd id o r :
  op_filled id o r -> logged (op_type o) -> op_fits (op_type o) (op_path o) (op_arg o) (op_arg_len o) ->
  op_reaches cwd o -> replayable cwd r.
Proof.
  intros Hf Hl Hfit [Hc Ho]. pose proof (filled_in_range _ _ _ Hf Hl) as Hr.
  destruct Hf as [(_ & _ & _ & _ & E5 & E6 & E7 & _ & E9) Hwf].
  destruct Hwf as [[? ? ? ? _] ? ? ?]. unfold BUFFER_SIZE, sizeof_header in *. destruct Hl.
  assert (Ht : rec_type_of (type r) = Some (op_type o)) by (rewrite E5; apply rec_type_of_val).
  constructor; unfold rec_path, rec_aux; try done; [rewrite <- E6 in Hc; unfold BUFFER_SIZE; lia| |].
  - intros Hw. unfold op_fits, BUFFER_SIZE in *. rewrite E5 in *.
    destruct (op_type o); try done; cbn [aux_is_path aux_is_data] in *; destruct E9 as [Ea El];
      rewrite ?Ea, ?El in *.
    all: try (split; [simpl; constructor|case_decide; lia]).
    + destruct Ho as (? & ? & ?). rewrite Nat2Z.id, firstn_all. rewrite decide_False by done. by split.
    + destruct Ho as (? & ? & ?). rewrite Nat2Z.id, firstn_all. rewrite decide_False by done. by split.
    + destruct Ho, (Hfit eq_refl). rewrite short_id by (unfold sizeof_header in *; lia).
      rewrite decide_True by done. by split.
  - rewrite Ht. unfold op_fits, sizeof_header in *.
    destruct (op_type o); try done; cbn [aux_is_path aux_is_data] in *; destruct E9 as [Ea El];
      rewrite El; try (destruct Ho; lia).
    destruct (Hfit eq_refl). rewrite short_id; lia.
Qed.

Lemma logged_as_replayable w mask cwd id ops rs :
  logged_as id ops rs -> Forall (op_ok w mask) ops -> Forall (op_reaches cwd) ops ->
  Forall (replayable cwd) rs.
Proof.
  induction 1 as [|id o ops r rs Hf _ IH]; intros Ho Hc; [constructor|].
  apply Forall_cons in Ho as [[] Ho]. apply Forall_cons in Hc as [Hc Hcs].
  constructor; [|by apply IH]. eapply filled_replayable; done.
Qed.

(** A log of at most one chunk. *)
Lemma one_chunk cwd rs :
  Forall (replayable cwd) rs -> size_of rs <= CHUNK_SIZE ->
  exists rss, concat rss = rs /\ chunked rss /\ (length rss <= 1)%nat.
Proof.
  intros Hrs Hl. destruct Hrs as [|r rs Hr Hrs]; [exists []; split_and!; [done|done|simpl; lia]|].
  exists [r :: rs]. split; [simpl; by rewrite app_nil_r|]. split; [|simpl; lia].
  split; [|done]. split; [|done]. pose proof (length_encode_replayable _ _ Hr). pose proof (replayable_size _ _ Hr).
  unfold size_of, encodings. cbn [fmap list_fmap concat]. rewrite length_app. lia.
Qed.

(** The replay of the log of some operations performs them. *)
Lemma replay_logged w mask cwd id ops rs fuel name ue :
  logged_as id ops rs -> Forall (op_ok w mask) ops -> Forall (op_reaches cwd) ops ->
  Forall is_char cwd -> (length ops < fuel)%nat -> size_of rs <= CHUNK_SIZE ->
  env_ok (user_ok (UWorld cwd (encodings rs))) ue ->
  run_shows name (run ue (treplay_main false false fuel [] (Some name)) ∅ [])
    (fun t => exists ts, t = concat ts /\
       Forall2 (fun r t => exists ok, replays false cwd r t ok) rs ts).
Proof.
  intros Hrs Hops Hreach Hcwd Hfuel Hlen Henv.
  pose proof (logged_as_replayable _ _ _ _ _ _ Hrs Hops Hreach) as Hrep.
  assert (Hrl : length rs = length ops) by (clear -Hrs; induction Hrs; simpl; congruence).
  destruct (one_chunk cwd rs Hrep Hlen) as (rss & Hc & Hch & Hl).
  eapply run_shows_mono;
    [|apply (treplay_run (UWorld cwd (encodings rs)) ue Henv Hcwd rss)
        with (bits := 0) (noreplay := false) (strict := false)]; rewrite ?Hc; try done.
  - intros t [go Hwk]. apply walk_all in Hwk as (ts & -> & Hts).
    + exists ts. split; [done|]. eapply Forall2_impl; [exact Hts|]. intros r t (ok & Hr & _). eauto.
    + by intros r t' go' (ok & _ & ->).
  - unfold size_of, CHUNK_SIZE, BUFFER_SIZE in Hlen. simpl. lia.
  - lia.
Qed.

(** ** The two ends *)

(** C7: a sequence of logged operations leaves in the log exactly one record
    per operation, in order, numbered consecutively, each saying what the
    operation was; nothing in between. *)
Theorem log_sequence w (env : kenv) dir lock si pos buf ops m h :
  env_ok (kernel_ok_resourceful w) env -> good_ptr dir ->
  mounted w m (sb_of w dir) lock si pos buf -> Forall (op_ok w (umask si)) ops ->
  pos = Z.of_nat (length (log_image (tr_lower_filep si) h)) ->
  exists m' h' rs,
    run env (log_ops dir ops) m h = finished tt m' h' /\
    logged_as (trecord_id m) ops rs /\
    log_image (tr_lower_filep si) h' = log_image (tr_lower_filep si) h ++ encodings rs.
Proof.
  intros Hw Hdir Hm Hops Hpos. by_wp (kernel_ok_resourceful w).
  eapply wp_log_ops with (w := w); [done|apply resourceful_of|done..|].
  intros m' h' rs Hrs Himg. by exists m', h', rs.
Qed.

(** C1: the replay tool, given the log that a sequence of operations leaves,
    performs these operations again, each once and in order, below its current
    directory. *)
Theorem trace_replay w (env : kenv) dir lock si buf ops m h cwd fuel name :
  env_ok (kernel_ok_resourceful w) env -> good_ptr dir ->
  mounted w m (sb_of w dir) lock si 0 buf -> Forall (op_ok w (umask si)) ops ->
  log_image (tr_lower_filep si) h = [] ->
  Forall is_char cwd -> Forall (op_reaches cwd) ops -> (length ops < fuel)%nat ->
  exists m' h' rs,
    run env (log_ops dir ops) m h = finished tt m' h' /\
    logged_as (trecord_id m) ops rs /\
    let log := log_image (tr_lower_filep si) h' in
    (forall ue, Z.of_nat (length log) <= CHUNK_SIZE -> env_ok (user_ok (UWorld cwd log)) ue ->
     run_shows name (run ue (treplay_main false false fuel [] (Some name)) ∅ [])
       (fun t => exists ts, t = concat ts /\
          Forall2 (fun r t => exists ok, replays false cwd r t ok) rs ts)).
Proof.
  intros Hw Hdir Hm Hops Hlog Hcwd Hreach Hfuel. by_wp (kernel_ok_resourceful w).
  eapply wp_log_ops with (w := w); [done|apply resourceful_of|done..|by rewrite Hlog|].
  intros m' h' rs Hrs Himg. rewrite Hlog in Himg. simpl in Himg. exists m', h', rs.
  split_and!; [done|done|]. rewrite Himg. intros log ue Hlen Henv.
  by eapply replay_logged.
Qed.

(** ** A write that spoils the log *)

(** The record of a write of 65504 bytes less the length of its path has a size
    of zero and a negative data length. *)
Lemma filled_sizeless id flags err path arg arg_len r :
  filled FWRITE id flags 0 err path arg arg_len [] r -> path_wf r ->
  arg_len = 65504 - Z.of_nat (length path) -> sizeless r /\ written r = header_bytes r ++ rec_path r.
Proof.
  intros (E1 & E2 & E3 & E4 & Et & Ep & Epl & Esz & Ea & El) [Hwc _ Hwl Hfits _] Hal.
  unfold PAGE_SIZE, sizeof_header in *. rewrite <- Ep in Hal. rewrite Hal, short_over in El by lia.
  assert (Hsz : rec_size r = 0) by (rewrite Esz, El, Hwl; by replace (_ + _ + _) with 0 by lia).
  split; [|unfold written; by rewrite decide_True by lia].
  constructor; try done; [|lia]. unfold record_in_range. rewrite E1, E2, E3, E4, Et.
  pose proof (rec_type_val_pos FWRITE). pose proof (int32_range err). pose proof (uint32_range id).
  pose proof (uint32_range flags). pose proof (uint32_range 0). lia.
Qed.

(** A path that the kernel can build fits a page. *)
Lemma env_path_short w env d path :
  env_ok (kernel_ok_resourceful w) env -> path_of w d = Some path -> Z.of_nat (length path) < PAGE_SIZE.
Proof.
  intros Hw Hp. destruct (Hw [] (dentry_path_raw d 0 PAGE_SIZE)) as [H _]. simpl in H.
  rewrite Hp in H. destruct (H eq_refl) as (<- & _ & _ & ? & ?). lia.
Qed.

(** C36: a write of 65504 bytes less the length of its path, as the first
    operation of a log, makes the log useless: whatever follows, in a log of at
    most 16 KiB, the tool without [-s] or with [-n] is busy with the first record
    for ever.  With no fuel does it end, unless it cannot open the log. *)
Theorem write_loops w (env : kenv) dir lock si buf dentry flags err arg arg_len path m h :
  env_ok (kernel_ok_resourceful w) env -> good_ptr dir ->
  mounted w m (sb_of w dir) lock si 0 buf ->
  Z.testbit (umask si) (rec_type_bit FWRITE) = true ->
  path_of w dentry = Some path -> arg_len = 65504 - Z.of_nat (length path) ->
  arg_len <= Z.of_nat (length (b_data arg)) -> log_image (tr_lower_filep si) h = [] ->
  exists m' h',
    run env (log_op (ld F_i_sb dir) TR_FWRITE dentry flags 0 err arg arg_len) m h = finished tt m' h' /\
    forall rest cwd ue n0 s0 opts bits noreplay strict fuel name,
      let log := log_image (tr_lower_filep si) h' ++ rest in
      env_ok (user_ok (UWorld cwd log)) ue -> Forall is_char cwd -> Z.of_nat (length log) <= CHUNK_SIZE ->
      Z.of_nat (length cwd) + Z.of_nat (length path) < BUFFER_SIZE ->
      parse_options opts 0 n0 s0 = Some (bits, noreplay, strict) -> exclusive bits = true ->
      noreplay || negb strict = true ->
      let o := run ue (treplay_main n0 s0 fuel opts (Some name)) ∅ [] in
      exists mu hu, o = crashed NoFuel mu hu \/ exists e, o = exited e mu hu /\ not_opened name hu.
Proof.
  intros Hw Hdir Hm Hbit Hp Hal Hdata Hlog. by_wp (kernel_ok_resourceful w).
  assert (Hpl : 0 <= arg_len <= Z.of_nat (length (b_data arg)) /\ short arg_len <> 0).
  { pose proof (env_path_short w env dentry path Hw Hp). unfold PAGE_SIZE in *. rewrite short_over; lia. }
  destruct Hpl as [Hlen Hne]. eapply wp_log_write_op; [done..|by rewrite Hlog|].
  intros m' h' r Hfil Hwf Himg. destruct (filled_sizeless _ _ _ _ _ _ _ Hfil Hwf Hal) as [Hsl Hwr].
  exists m', h'. split; [done|].
  intros rest cwd ue n0 s0 opts bits noreplay strict fuel name log Hue Hcwd Hfit Hcl Hopt Hex Hmode.
  eapply (treplay_sizeless (UWorld cwd log) ue r rest); try done.
  - unfold log. rewrite Himg, Hlog, Hwr. cbn [u_file app]. by rewrite <- app_assoc.
  - destruct Hfil as (_ & _ & _ & _ & _ & _ & Epl & _). simpl. lia.
Qed.

(** ** Witnesses *)

Lemma write_loops_witness :
  exists m' h',
    run (demo_env (fun _ => 0))
      (log_op (ld F_i_sb demo_dir) TR_FWRITE demo_dentry 1 0 65502
        (Buffer 8192 (replicate (Z.to_nat 65502) 7)) 65502)
      (demo_mem umask_all) [] = finished tt m' h' /\
    exists mu hu,
      let o := run (user_env (UWorld (lit "/mnt") (log_image demo_log h' ++ [])) (fun _ => 3))
        (treplay_main false false 1000 [110] (Some (lit "log"))) ∅ [] in
      o = crashed NoFuel mu hu \/ exists e, o = exited e mu hu /\ not_opened (lit "log") hu.
Proof.
  destruct (write_loops demo_world (demo_env (fun _ => 0)) demo_dir demo_info
    (demo_si umask_all) (replicate (Z.to_nat (sizeof_tr_record + PAGE_SIZE)) 0) demo_dentry
    1 65502 (Buffer 8192 (replicate (Z.to_nat 65502) 7)) 65502 (lit "/a") (demo_mem umask_all) [])
    as (m' & h' & E & H); [apply demo_env_ok|done|apply demo_mounted|done|done|done| |done|].
  { cbn [b_data]. by rewrite length_replicate. }
  exists m', h'. split; [exact E|].
  apply (H [] (lit "/mnt") (user_env (UWorld (lit "/mnt") (log_image demo_log h' ++ [])) (fun _ => 3))
    false false [110] NOREPLAY true false 1000%nat (lit "log")); [apply user_env_ok| | |done..].
  - repeat constructor; unfold is_char; lia.
  - assert (Hl : length (log_image demo_log h') = 34%nat).
    { clear H. apply (f_equal (fun o => length (log_image demo_log (outcome_hist o)))) in E.
      cbn [outcome_hist] in E.
      rewrite <- E. vm_compute. reflexivity. }
    rewrite app_nil_r. change (Z.of_nat (length (log_image demo_log h')) <= CHUNK_SIZE). by rewrite Hl.
Defined.

Definition demo_ops : list op :=
  [Op DCREAT demo_dentry 0 493 0 nullbuf 0 (lit "/a") [];
   Op FWRITE demo_dentry 1 0 5 (Buffer 8192 (lit "hello")) 5 (lit "/a") [];
   Op RENAME demo_dentry 0 0 0 (Buffer demo_target []) 0 (lit "/a") (lit "/b")].

Lemma demo_ops_ok : Forall (op_ok demo_world (umask (demo_si umask_all))) demo_ops.
Proof.
  repeat (apply Forall_cons; split); try exact I; try apply Forall_nil; try exact I.
  all: constructor; [by split|by vm_compute|reflexivity|by intros|].
  all: intros H; try discriminate H. split; [split|]; by vm_compute.
Qed.

Lemma demo_ops_reach : Forall (op_reaches (lit "/mnt")) demo_ops.
Proof.
  repeat constructor; unfold BUFFER_SIZE, is_char; simpl; lia.
Qed.

Lemma log_sequence_witness :
  exists m' h' rs,
    run (demo_env (fun _ => 0)) (log_ops demo_dir demo_ops) (demo_mem umask_all) [] = finished tt m' h' /\
    logged_as (-1) demo_ops rs /\
    log_image demo_log h' = [] ++ encodings rs.
Proof.
  apply (log_sequence demo_world (demo_env (fun _ => 0)) demo_dir demo_info (demo_si umask_all) 0
    (replicate (Z.to_nat (sizeof_tr_record + PAGE_SIZE)) 0) demo_ops (demo_mem umask_all) []);
    [apply demo_env_ok|done|apply demo_mounted|apply demo_ops_ok|done].
Defined.

Lemma trace_replay_witness :
  exists m' h' rs,
    run (demo_env (fun _ => 0)) (log_ops demo_dir demo_ops) (demo_mem umask_all) [] = finished tt m' h' /\
    logged_as (-1) demo_ops rs /\
    let log := log_image demo_log h' in
    (forall ue, Z.of_nat (length log) <= CHUNK_SIZE -> env_ok (user_ok (UWorld (lit "/mnt") log)) ue ->
     run_shows (lit "trace") (run ue (treplay_main false false 4 [] (Some (lit "trace"))) ∅ [])
       (fun t => exists ts, t = concat ts /\
          Forall2 (fun r t => exists ok, replays false (lit "/mnt") r t ok) rs ts)).
Proof.
  apply (trace_replay demo_world (demo_env (fun _ => 0)) demo_dir demo_info (demo_si umask_all)
    (replicate (Z.to_nat (sizeof_tr_record + PAGE_SIZE)) 0) demo_ops (demo_mem umask_all) []
    (lit "/mnt") 4 (lit "trace"));
    [apply demo_env_ok|done|apply demo_mounted|apply demo_ops_ok|done| |apply demo_ops_reach|
     simpl; lia].
  repeat constructor; unfold is_char; lia.
Defined.
