(* ===== verification/HandlerSpec.v ===== *)
(** * What the handlers of the file system share

    The logging block as the handlers see it, the interposition of a new upper
    inode, and the operation on the lower file system with its parent locked. *)

From S2P Require Import Prelude Prog TrTypes Kernel TrfsH Ledger Lookup Trdump TrdumpSpec Inode.

Abbreviation KEv c r := (Ev (S := ksig) c r).

(** ** Operations on the lower file system *)

Definition is_lower_op (c : kfun) : Prop :=
  match c with
  | vfs_create _ _ _ _ | vfs_link _ _ _ | vfs_unlink _ _ | vfs_symlink _ _ _ | vfs_mkdir _ _ _
  | vfs_rmdir _ _ | vfs_mknod _ _ _ _ | vfs_rename _ _ _ _ _ | vfs_write _ _ _ _ | vfs_read _ _ _ _
  | notify_change _ _ _ _ | vfs_setxattr _ _ _ _ _ | vfs_removexattr _ _ => True
  | _ => False
  end.
#[global] Instance is_lower_op_dec c : Decision (is_lower_op c).
Proof. destruct c; apply _. Defined.

Definition lower_op (e : event ksig) : Prop := is_lower_op (ev_call e).
#[global] Instance lower_op_dec e : Decision (lower_op e).
Proof. unfold lower_op. apply _. Defined.

(** The operations a history performs on lower files. *)
Definition lower_ops (h : khist) : khist := filter lower_op h.

Lemma lower_ops_app h t : lower_ops (h ++ t) = lower_ops h ++ lower_ops t.
Proof. apply filter_app. Qed.

Lemma lower_ops_none (t : khist) : Forall (fun e : event ksig => ~ is_lower_op (ev_call e)) t -> lower_ops t = [].
Proof.
  induction 1 as [|e t He _ IH]; [done|]. unfold lower_ops. rewrite filter_cons_False; done.
Qed.

(** Calls that leave files alone: the lower ones, and the log. *)
Definition passive (c : kfun) : Prop :=
  ~ is_lower_op c /\ match c with kernel_write _ _ _ _ => False | _ => True end.

Lemma passive_lower (t : khist) : Forall (fun e : event ksig => passive (ev_call e)) t -> lower_ops t = [].
Proof. intros Ht. apply lower_ops_none. eapply Forall_impl; [exact Ht|]. by intros e []. Qed.

Lemma passive_unlogged (t : khist) : Forall (fun e : event ksig => passive (ev_call e)) t -> unlogged t.
Proof.
  intros Ht f img. revert img. induction Ht as [|[c r] t [_ Hc] _ IH]; intros img; simpl; [done|].
  rewrite IH. by destruct c.
Qed.

(** ** Proving which calls a handler can make *)

Create HintDb calls.
Ltac calls_step :=
  lazymatch goal with
  | |- calls_only _ (mbind _ _) => apply calls_bind; [|intros ?]
  | |- calls_only _ (fmap _ _) => apply calls_fmap
  | |- calls_only _ (mret _) => exact I
  | |- calls_only _ (Ret _) => exact I
  | |- calls_only _ (Fault _) => exact I
  | |- calls_only _ (kdo _) => split; [first [by intros []|by split; [intros []|]|done]|by intros]
  | |- calls_only _ (gets _) => by intros
  | |- calls_only _ (modify _) => by intros
  | |- calls_only _ (match ?x with _ => _ end) => destruct x
  | |- calls_only _ (let _ := _ in _) => cbv zeta
  | |- calls_only _ (or_out _ _) => unfold or_out
  | |- calls_only _ _ => solve [auto with calls nocore]
  end.
Ltac calls := repeat calls_step.

Section Calls.
Variable P : kfun -> Prop.
Hypothesis Pload : forall f o, P (load f o).

Lemma calls_check p : calls_only (S := ksig) P (check_ptr p).
Proof. unfold check_ptr. calls. Qed.
Lemma calls_ld f o : calls_only (S := ksig) P (ld f o).
Proof. unfold ld. apply calls_bind; [apply calls_check|]. intros _. by split. Qed.
Lemma calls_heap_get {V} (heap : kmem -> gmap Z V) p : calls_only (S := ksig) P (heap_get heap p).
Proof.
  unfold heap_get. apply calls_bind; [apply calls_check|]. intros _.
  apply calls_bind; [done|]. by intros [v|].
Qed.
Lemma calls_heap_set {V} (heap : kmem -> gmap Z V) set p v :
  calls_only (S := ksig) P (heap_set heap set p v).
Proof. unfold heap_set. apply calls_bind; [apply calls_heap_get|]. by intros _. Qed.
Lemma calls_field_get fld o : calls_only (S := ksig) P (field_get fld o).
Proof. unfold field_get. apply calls_bind; [apply calls_check|]. by intros _. Qed.
Lemma calls_field_set fld set o p : calls_only (S := ksig) P (field_set fld set o p).
Proof. unfold field_set. apply calls_bind; [apply calls_check|]. by intros _. Qed.
Lemma calls_bug_on b : calls_only (S := ksig) P (bug_on b).
Proof. by destruct b. Qed.
Lemma calls_deref {V} f (o : option V) : calls_only (S := ksig) P (deref f o).
Proof. by destruct o. Qed.
Lemma calls_when b p : calls_only (S := ksig) P p -> calls_only (S := ksig) P (when b p).
Proof. by destruct b. Qed.
Lemma calls_write_kbuf p o d : calls_only (S := ksig) P (write_kbuf p o d).
Proof.
  unfold write_kbuf. apply calls_bind; [apply calls_heap_get|]. intros b.
  case_decide; [apply calls_heap_set|done].
Qed.
Lemma calls_TRFS_SB sb : calls_only (S := ksig) P (TRFS_SB sb).
Proof. apply calls_field_get. Qed.
Lemma calls_sb_info sb : calls_only (S := ksig) P (sb_info sb).
Proof. apply calls_bind; [apply calls_TRFS_SB|]. intros p. apply calls_heap_get. Qed.
Lemma calls_lower_inode i : calls_only (S := ksig) P (trfs_lower_inode i).
Proof. apply calls_field_get. Qed.
Lemma calls_set_lower_inode i l : calls_only (S := ksig) P (trfs_set_lower_inode i l).
Proof. apply calls_field_set. Qed.
End Calls.

#[export] Hint Resolve calls_check calls_ld calls_heap_get calls_heap_set calls_field_get
  calls_field_set calls_bug_on calls_deref calls_write_kbuf calls_TRFS_SB
  calls_sb_info calls_lower_inode calls_set_lower_inode : calls.
#[export] Hint Extern 1 (calls_only _ (when _ _)) => apply calls_when; calls : calls.

Lemma load_passive f o : passive (load f o).
Proof. by split; [intros []|]. Qed.
#[export] Hint Resolve load_passive : calls.

(** The logging block does nothing to the lower files. *)
Definition not_lower (c : kfun) : Prop := ~ is_lower_op c.

Lemma load_not_lower f o : not_lower (load f o).
Proof. by intros []. Qed.
#[export] Hint Resolve load_not_lower : calls.

Lemma calls_log_write f buf n : calls_only (S := ksig) not_lower (log_write f buf n).
Proof. unfold log_write. calls. Qed.
#[export] Hint Resolve calls_log_write : calls.

Lemma calls_append_record sb r : calls_only (S := ksig) not_lower (append_record sb r).
Proof. unfold append_record, TRFS_PAGE, copy_record, append_aux. calls. Qed.
#[export] Hint Resolve calls_append_record : calls.

Lemma calls_fill_record t d fl pf err arg n r :
  calls_only (S := ksig) not_lower (fill_record t d fl pf err arg n r).
Proof.
  unfold fill_record, fill_aux, fill_cleanup, SAFE_FREE_PAGE, c_strlen, atomic_inc_return_trecord_id.
  calls. all: by intros.
Qed.
#[export] Hint Resolve calls_fill_record : calls.

Lemma calls_log_op get_sb t d fl pf err arg n :
  calls_only (S := ksig) not_lower get_sb ->
  calls_only (S := ksig) not_lower (log_op get_sb t d fl pf err arg n).
Proof. intros Hsb. unfold log_op, log_locked. calls; try exact Hsb. all: try (apply calls_when; calls; exact Hsb). Qed.

(** ** The logging block in a handler *)

(** What logging adds to the log: the record, if the mask selects it. *)
Definition log_effect (si : trfs_sb_info) (t : rec_type) (id flags perm err : Z) (path : bytes)
    (arg : buffer) (arg_len : Z) (apath : bytes) (h h' : khist) : Prop :=
  let f := tr_lower_filep si in
  if Z.testbit (umask si) (rec_type_bit t) then
    exists r, filled t id flags perm err path arg arg_len apath r /\ record_wf r /\
      log_image f h' = log_image f h ++ encode_record r
  else log_image f h' = log_image f h.

Lemma log_effect_unlogged si t id flags perm err path arg arg_len apath h h' t1 t2 :
  unlogged t1 -> unlogged t2 ->
  log_effect si t id flags perm err path arg arg_len apath (h ++ t1) h' ->
  log_effect si t id flags perm err path arg arg_len apath h (h' ++ t2).
Proof.
  intros H1 H2. unfold log_effect. by rewrite !log_image_unlogged by done.
Qed.

Section LogBlock.
Context (w : kworld) (ok : khist -> event ksig -> Prop) `{HK : !KernelSpec w ok}.
(** [Res]: there is memory, and writes of the log complete. *)
Context (Res : Prop) (HRes : Res -> forall h e, ok h e -> resourceful e).
Local Abbreviation WP := (wp ok).

Lemma wp_log_block {A} get_sb sb lock si pos buf t dentry flags perm err arg arg_len path apath
    (k : unit -> kprog A) Q m h :
  reads ok get_sb sb -> calls_only (S := ksig) not_lower get_sb ->
  mounted w m sb lock si pos buf -> logged t ->
  path_of w dentry = Some path ->
  (aux_is_path t = true -> path_of w (b_ptr arg) = Some apath) ->
  op_fits t path arg arg_len ->
  (forall tr m', lower_ops tr = [] -> pages_only tr ->
     (Res -> pos = Z.of_nat (length (log_image (tr_lower_filep si) h)) ->
      log_effect si t (int32 (trecord_id m + 1)) flags perm err path arg arg_len apath h (h ++ tr)) ->
     WP (k tt) Q m' (h ++ tr)) ->
  WP (log_op get_sb (rec_type_val t) dentry flags perm err arg arg_len ≫= k) Q m h.
Proof.
  intros Hsb Hcalls Hm Ht Hp Ha Hfit Hk. rewrite wp_bind.
  set (R := Res /\ pos = Z.of_nat (length (log_image (tr_lower_filep si) h))).
  set (p := log_op get_sb (rec_type_val t) dentry flags perm err arg arg_len).
  assert (H1 : WP p (fun o => exists m' tr, o = Done tt m' (h ++ tr) /\ pages_only tr) m h).
  { apply wp_tail. eapply wp_log_op_any with (w := w); try done.
    intros tr m' Htr _. by exists m', tr. }
  assert (H2 : R -> WP p (fun o => log_effect si t (int32 (trecord_id m + 1)) flags perm err path
      arg arg_len apath h (outcome_hist o)) m h).
  { intros [Hres Hpos]. unfold log_effect. apply wp_tail.
    destruct (Z.testbit (umask si) (rec_type_bit t)) eqn:Hbit.
    - eapply wp_log_op with (w := w); try done; [by apply HRes|].
      intros s tr r p2 buf' _ _ _ Hfil Hwf h' Himg _. by exists r.
    - eapply wp_log_op_masked; [done|apply Hm|done|]. intros s1 s2 Hs1 Hs2.
      apply log_image_unlogged. apply unlogged_app; [by apply silent_unlogged|].
      apply (unlogged_app [_]); [done|]. by apply unlogged_app; [apply silent_unlogged|]. }
  pose proof (wp_calls ok not_lower p _ m h (calls_log_op _ _ _ _ _ _ _ _ Hcalls)
    (wp_and ok R p _ _ m h H1 H2)) as H.
  eapply wp_mono; [|exact H]. intros o [[(m' & tr & -> & Htr) Heff] (t' & Et & Hno)].
  simpl in Et. apply app_inv_head in Et. subst t'.
  apply Hk; [by apply lower_ops_none|done|]. intros Hr Hpos. by apply Heff.
Qed.
End LogBlock.

(** ** Calls that change nothing the theorems track *)

(** Pages are the logging code's own; references to inodes are handed to and
    from the inode cache; and there are none to the null pointer. *)
Definition tracked (r : resource) : Prop :=
  match r with
  | RPage _ | RInode _ => False
  | RDentry p | RMnt p => p <> NULL
  | _ => True
  end.

Definition tame_event (e : event ksig) : Prop :=
  passive (ev_call e) /\ forall r, tracked r -> count_entries r (delta e) = 0.
Definition tame (t : khist) : Prop := Forall tame_event t.

Lemma count_inode r b i : tracked r -> count_entries r (one_if b (RInode i)) = 0.
Proof. intros Hr. destruct b; [|done]. simpl. rewrite hits_ne; [done|]. by intros <-. Qed.

Lemma tame_net t r : tame t -> tracked r -> net t r = 0.
Proof. intros Ht Hr. induction Ht as [|e t [_ He] _ IH]; [done|]. simpl. rewrite He, IH; done. Qed.

Lemma tame_passive t : tame t -> Forall (fun e : event ksig => passive (ev_call e)) t.
Proof. intros Ht. eapply Forall_impl; [exact Ht|]. by intros e []. Qed.

Lemma tame_lower t : tame t -> lower_ops t = [].
Proof. intros Ht. by apply passive_lower, tame_passive. Qed.

Lemma tame_unlogged t : tame t -> unlogged t.
Proof. intros Ht. by apply passive_unlogged, tame_passive. Qed.

Lemma tame_app t u : tame t -> tame u -> tame (t ++ u).
Proof. intros. by apply Forall_app. Qed.

Lemma tame_nil : tame [].
Proof. constructor. Qed.

Lemma silent_tame t : silent t -> tame t.
Proof.
  intros Ht. eapply Forall_impl; [exact Ht|]. intros [c r] Hc. destruct c; try done.
  split; [by apply load_passive|by intros].
Qed.

Ltac tame_event :=
  split; [by split; [intros []|]|];
  first [by intros | by intros ? ?; apply count_inode
        | intros ? ?; simpl; rewrite hits_ne by (by intros <-); done
        | intros ? ?; simpl; case_match; simpl; rewrite ?hits_ne by (by intros <-); done ].
Ltac tame := repeat first [apply tame_app | assumption | apply Forall_nil; exact I
                          | apply Forall_cons; split; [tame_event|]].

(** The module's memory after inodes have been set up. *)
Definition infos_frame (m m' : kmem) : Prop :=
  m' = m \/ exists i l, good_ptr l /\ m' = set_inode_infos (<[i := l]> (inode_infos m)) m.

Lemma infos_frame_refl m : infos_frame m m.
Proof. by left. Qed.
#[export] Hint Resolve infos_frame_refl tame_nil : trfs.

Lemma infos_frame_mounted w m m' sb lock si pos buf :
  infos_frame m m' -> mounted w m sb lock si pos buf -> mounted w m' sb lock si pos buf.
Proof. by intros [->|(i & l & _ & ->)] []. Qed.

(** The lower inode of an inode stays valid. *)
Definition has_lower_inode (m : kmem) (i : ptr) : Prop :=
  good_ptr i /\ exists l, inode_infos m !! i = Some l /\ good_ptr l.

Lemma infos_frame_lower m m' i :
  infos_frame m m' -> has_lower_inode m i -> has_lower_inode m' i.
Proof.
  intros [->|(j & l & Hl & ->)] [Hi (l' & Hil & Hl')]; split; try done; [by exists l'|].
  simpl. destruct (decide (j = i)) as [->|Hne].
  - exists l. by rewrite lookup_insert_eq.
  - exists l'. by rewrite lookup_insert_ne.
Qed.

(** ** One step of a handler *)

Ltac unit_reply r Hr :=
  let T := type of r in
  lazymatch eval cbv in T with
  | unit => destruct r; clear Hr
  | _ => idtac
  end.

Ltac kassoc :=
  repeat lazymatch goal with
  | |- wp _ (mbind _ (mbind _ _)) _ _ _ => apply wp_assoc
  | |- wp _ (mbind _ (or_out _ _)) _ _ _ => unfold or_out at 1
  end.
Ltac kstep :=
  cbn iota;
  lazymatch goal with
  | |- wp _ (mbind _ (mbind _ _)) _ _ _ => apply wp_assoc; kstep
  | |- wp _ (mbind _ (fmap _ _)) _ _ _ => apply wp_fmap
  | |- wp _ (mbind _ (or_out _ _)) _ _ _ => unfold or_out at 1; kstep
  | |- wp _ (mbind _ (kdo _)) _ _ _ =>
      let r := fresh "r" in let Hr := fresh "Hr" in
      apply wp_kdo; intros r Hr; unit_reply r Hr
  | |- wp _ (mbind _ (ld _ _)) _ _ _ =>
      let r := fresh "r" in let Hr := fresh "Hr" in apply wp_ld; [done|intros r Hr]
  | |- wp _ (mbind _ (d_inode ?d)) _ _ _ =>
      let r := fresh "r" in let Hr := fresh "Hr" in
      apply (wp_ld _ F_d_inode d); [done|intros r Hr]
  | |- wp _ (mbind _ (st _ _ _)) _ _ _ => apply wp_st; [done|]
  | |- wp _ (mbind _ (mret _)) _ _ _ => apply wp_ret
  | |- wp _ (mbind _ (when _ _)) _ _ _ => apply wp_when
  | |- wp _ (mbind _ (check_ptr _)) _ _ _ => apply wp_check; [done|]
  | |- wp _ (mbind _ (trfs_set_lower_inode _ _)) _ _ _ => apply wp_field_set; [done|]
  end.

Section Interpose.
Context (w : kworld) (ok : khist -> event ksig -> Prop) `{HK : !KernelSpec w ok}.
Local Abbreviation WP := (wp ok).

Lemma ERR_PTR_IS_ERR e : - MAX_ERRNO <= e < 0 -> IS_ERR (ERR_PTR e) = true.
Proof. intros He. by apply PTR_ERR_ERR_PTR. Qed.

(** The kernel refuses an object that was asked for. *)
Definition refusal (e : event ksig) : Prop :=
  match e with
  | Ev c r =>
    match c return kreply c -> Prop with
    | iget5_locked _ _ _ | igrab _ | d_make_root _ | kmem_cache_zalloc _ => fun r => r = NULL
    | _ => fun _ => False
    end r
  end.

(** How setting up an inode ends. *)
Definition inode_answer (inode r : ptr) (tr : khist) : Prop :=
  good_ptr r /\ r = inode /\ Forall (fun e => ~ refusal e) tr \/ err_ptr r /\ Exists refusal tr.

(** The inode that the kernel answered for the lower one. *)
Definition iget_answer (sb lower r : ptr) (tr : khist) : Prop :=
  good_ptr r /\ Forall (fun e => ~ refusal e) tr /\ (exists ino, In (KEv (iget5_locked sb ino lower) r) tr) \/
  err_ptr r /\ Exists refusal tr.

Ltac no_refusal := repeat constructor; simpl; auto with trfs; by intros [].

Lemma wp_init_inode {A} inode lower (k : ptr -> kprog A) Q m h :
  good_ptr inode -> good_ptr lower ->
  (forall r tr m', tame tr -> infos_frame m m' -> inode_answer inode r tr -> WP (k r) Q m' (h ++ tr)) ->
  WP (init_inode inode lower ≫= k) Q m h.
Proof.
  intros Hi Hl Hk. unfold init_inode. kstep. kstep. kstep. case_decide as Hg.
  { kstep. rewrite <- !app_assoc. apply Hk; [tame|auto with trfs|right].
    split; [split; [apply ERR_PTR_IS_ERR|]; by unfold MAX_ERRNO, ESTALE|].
    right; right; left. done. }
  kstep. set (m1 := set_inode_infos _ _).
  assert (Hfr : infos_frame m m1) by (right; by exists inode, lower).
  kstep. kstep. kstep. kstep. kstep. kstep.
  match goal with H : ok _ (Ev (load F_i_mapping _) ?r) |- _ =>
    assert (good_ptr r) by (by apply (kernel_spec (w := w)) in H) end.
  kstep. kstep. kstep. kstep. kstep. destruct (is_special _).
  1: kstep; kstep.
  all: kstep; kstep; kstep; kstep; rewrite <- !app_assoc; apply Hk; [tame|done|].
  all: left; split_and!; [done|done|no_refusal].
Qed.

Lemma wp_trfs_iget {A} sb lower (k : ptr -> kprog A) Q m h :
  good_ptr lower ->
  (forall r tr m', tame tr -> infos_frame m m' -> iget_answer sb lower r tr -> WP (k r) Q m' (h ++ tr)) ->
  WP (trfs_iget sb lower ≫= k) Q m h.
Proof.
  intros Hl Hk. unfold trfs_iget. kstep. kstep.
  pose proof (kernel_spec (w := w) _ _ Hr0) as Hi. simpl in Hi. case_decide as Hn.
  { kstep. kstep. rewrite <- !app_assoc. apply Hk; [tame|auto with trfs|right].
    split; [split; [apply ERR_PTR_IS_ERR|]; by unfold MAX_ERRNO, EACCES|].
    right; left. done. }
  destruct Hi as [?|Hi]; [done|]. kstep. case_decide as Hnew.
  - kstep. rewrite <- !app_assoc. apply Hk; [tame|auto with trfs|]. left.
    split_and!; [done|no_refusal|]. eexists. right. by left.
  - kassoc. apply wp_init_inode; [done|done|]. intros x tr m' Htr Hfr Hx. rewrite <- !app_assoc.
    apply Hk; [tame|done|]. destruct Hx as [[Hx [-> Ht]]|[Hx Ht]]; [left|right]; split_and!; try done.
    + repeat constructor; [by intros []|done|by intros []|done].
    + eexists. right. by left.
    + by do 3 apply Exists_cons_tl.
Qed.

(** The file of a lower dentry exists. *)
Definition exists_at (d : ptr) (h : khist) : Prop := positive w d \/ made d h.

Lemma wp_d_inode_exists {A} d (k : ptr -> kprog A) Q m h :
  good_ptr d -> exists_at d h ->
  (forall i, good_ptr i -> WP (k i) Q m (h ++ [KEv (load F_d_inode d) i])) ->
  WP (d_inode d ≫= k) Q m h.
Proof.
  intros Hd Hex Hk. apply wp_ld; [done|]. intros i (Hp & Hm & _)%(kernel_spec (w := w)).
  apply Hk. destruct Hex as [He|He]; [by apply Hp|by apply Hm].
Qed.

(** How interposing ends. *)
Definition dentry_answer (r : ptr) : Prop := r = NULL \/ good_ptr r \/ err_ptr r.

(** Exactly what interposing asks and answers: the lower inode is of another
    file system, or there is no upper inode for it, or the upper inode that the
    kernel has for the lower one is bound to the dentry. *)
Inductive interposes (sb lower_sb lower dentry : ptr) : ptr -> khist -> Prop :=
| int_foreign li s : s <> lower_sb ->
    interposes sb lower_sb lower dentry (ERR_PTR (- EXDEV))
      [KEv (load F_d_inode lower) li; KEv (load F_i_sb li) s]
| int_refused li x tr : err_ptr x -> Exists refusal tr ->
    interposes sb lower_sb lower dentry (ERR_PTR (PTR_ERR x))
      ([KEv (load F_d_inode lower) li; KEv (load F_i_sb li) lower_sb] ++ tr)
| int_bound li i ino r tr : good_ptr i -> In (KEv (iget5_locked sb ino li) i) tr ->
    interposes sb lower_sb lower dentry r
      ([KEv (load F_d_inode lower) li; KEv (load F_i_sb li) lower_sb] ++ tr ++ [KEv (d_splice_alias i dentry) r]).

Lemma wp_interpose_dentry {A} dentry sb p si lp (k : ptr -> kprog A) Q m h :
  has_sb m sb p si -> good_ptr (p_dentry lp) -> exists_at (p_dentry lp) h ->
  (forall r tr m', tame tr -> infos_frame m m' -> dentry_answer r ->
     interposes sb (lower_sb si) (p_dentry lp) dentry r tr -> WP (k r) Q m' (h ++ tr)) ->
  WP (__trfs_interpose dentry sb lp ≫= k) Q m h.
Proof.
  intros Hsb Hg Hex Hk. unfold __trfs_interpose. kassoc. apply wp_d_inode_exists; [done|done|].
  intros i Hi. unfold trfs_lower_super. kstep. eapply wp_sb_info; [done|].
  kstep. case_decide as Hs.
  { kstep. rewrite <- !app_assoc. apply Hk; [tame|auto with trfs|right; right|by apply int_foreign].
    by apply err_ptr_ERR_PTR. }
  assert (r = lower_sb si) as -> by (destruct (decide (r = lower_sb si)); [done|by destruct Hs]).
  kassoc. apply wp_trfs_iget; [done|]. intros x tr m' Htr Hfr [(Hx & _ & [ino Hin])|[Hx Href]].
  - rewrite good_ptr_no_err by done. apply wp_kdo. intros y Hy%(kernel_spec (w := w)). simpl in Hy.
    rewrite <- !app_assoc. apply Hk; [tame|done|unfold dentry_answer; tauto|by eapply int_bound].
  - rewrite (proj1 Hx). kstep. rewrite <- !app_assoc. apply Hk; [tame|done|right; right|by eapply int_refused].
    by apply err_ptr_ERR_PTR, err_ptr_neg.
Qed.

(** The error that [trfs_interpose] makes of it. *)
Definition interposed (sb lower_sb : ptr) (lp : path) (dentry : ptr) (err : Z) (tr : khist) : Prop :=
  exists r, interposes sb lower_sb (p_dentry lp) dentry r tr /\ err = int32 (PTR_ERR r).

(** Interposing an upper inode for a lower dentry whose file was just made. *)
Lemma wp_trfs_interpose {A} dentry sb p si lp (k : Z -> kprog A) Q m h :
  has_sb m sb p si -> good_ptr (p_dentry lp) -> made (p_dentry lp) h ->
  (forall err tr m', tame tr -> infos_frame m m' -> interposed sb (lower_sb si) lp dentry err tr ->
     WP (k err) Q m' (h ++ tr)) ->
  WP (trfs_interpose dentry sb lp ≫= k) Q m h.
Proof.
  intros Hsb Hg Hmade Hk. unfold trfs_interpose. kassoc.
  eapply wp_interpose_dentry; [done|done|by right|]. intros r tr m' Htr Hfr _ Hr. kstep. apply Hk; [done..|by exists r].
Qed.
End Interpose.

(** ** The frame of a handler *)

(** Between two histories one operation on the lower file system was done,
    with these locks and references held. *)
Definition performs (h h' held : khist) (e : event ksig) : Prop :=
  exists t1 t2, h' = h ++ t1 ++ e :: t2 /\ t1 ≡ₗ held /\ lower_ops t1 = [] /\ lower_ops t2 = [].

(** The same, with what was done from the operation to the log. *)
Definition performs_then (h h' held : khist) (e : event ksig) (tb : khist) : Prop :=
  exists t1 t2, h' = h ++ t1 ++ e :: tb ++ t2 /\ t1 ≡ₗ held /\ lower_ops t1 = [] /\ lower_ops (tb ++ t2) = [].

Lemma performs_then_performs h h' held e tb : performs_then h h' held e tb -> performs h h' held e.
Proof. intros (t1 & t2 & ? & ? & ? & ?). by exists t1, (tb ++ t2). Qed.

(** Every lock, every reference to a dentry, a mount or a file, and every object
    that was taken was given back, and no other; pages, which the log keeps
    ([log_op_pages]), and references to inodes, which pass to the upper inodes
    ([requests_keep_inodes]), are not counted here. *)
Definition balanced (h h' : khist) : Prop := forall r, tracked r -> net h' r = net h r.

(** The lower dentry pinned, its parent pinned and locked. *)
Definition entry_trace (w : kworld) (info : ptr) (lp : path) (dir : ptr) : khist :=
  get_lower_path_trace info lp ++ lock_parent_trace w (p_dentry lp) dir.
Definition exit_trace (w : kworld) (lp : path) (dir : ptr) : khist :=
  unlock_dir_trace w dir ++ [KEv (path_put lp) tt].

Definition parent_locked (w : kworld) (lp : path) (dir : ptr) : khist :=
  [KEv (path_get lp) tt; KEv (dget (dir)) tt; KEv (inode_lock (inode_of w dir)) tt].

Lemma entry_locked w info lp dir : entry_trace w info lp dir ≡ₗ parent_locked w lp dir.
Proof. unfold entry_trace, parent_locked. ledger. Qed.

Lemma entry_exit w info lp dir : entry_trace w info lp dir ++ exit_trace w lp dir ≡ₗ [].
Proof. unfold entry_trace, exit_trace. ledger. Qed.

(** Entering and leaving leaves files alone. *)
Ltac passive_trace :=
  match goal with
  | |- Forall _ _ => repeat constructor; by intros []
  end.

Lemma entry_passive w info lp dir :
  Forall (fun e : event ksig => passive (ev_call e)) (entry_trace w info lp dir).
Proof. passive_trace. Qed.
Lemma exit_passive w lp dir :
  Forall (fun e : event ksig => passive (ev_call e)) (exit_trace w lp dir).
Proof. passive_trace. Qed.

(** The parts of the history of a handler that does not log, put together. *)
Lemma handler_parts_unlogged (h t1 : khist) e tb tu held :
  Forall (fun e : event ksig => passive (ev_call e)) t1 ->
  Forall (fun e : event ksig => passive (ev_call e)) tu ->
  tame tb -> delta e = [] -> unlogged [e] -> t1 ≡ₗ held -> t1 ++ tu ≡ₗ [] ->
  let h' := (h ++ t1 ++ e :: tb) ++ tu in
  performs_then h h' held e tb /\ balanced h h' /\ forall f, log_image f h' = log_image f h.
Proof.
  intros H1 Hu Htb He Hune Hheld Hbal h'. split_and!.
  - exists t1, tu. unfold h'. rewrite <- !app_assoc. split_and!; [done|done| |].
    + by apply passive_lower.
    + by rewrite !lower_ops_app, tame_lower, (passive_lower tu) by done.
  - intros r Hr. unfold h'. rewrite !net_app. cbn [net]. rewrite He, (tame_net tb) by done.
    pose proof (Hbal r) as Hb. rewrite net_app in Hb. simpl in *. lia.
  - intros f. unfold h'. rewrite <- !app_assoc. apply log_image_unlogged.
    apply unlogged_app; [by apply passive_unlogged|]. apply (unlogged_app [e]); [done|].
    apply unlogged_app; [by apply tame_unlogged|by apply passive_unlogged].
Qed.

Section Handlers.
Context (w : kworld) (ok : khist -> event ksig -> Prop) `{HK : !KernelSpec w ok}.
Local Abbreviation WP := (wp ok).

(** Pinning the lower dentry and locking its parent. *)
Lemma wp_enter {A} dentry info lp (k : path -> ptr -> kprog A) Q m h :
  has_lower m dentry info lp ->
  (forall dir, positive w dir -> good_ptr dir -> good_ptr (inode_of w dir) ->
     WP (k lp dir) Q m (h ++ entry_trace w info lp dir)) ->
  WP (lower_path ← trfs_get_lower_path dentry;
      dir ← lock_parent (p_dentry lower_path); k lower_path dir) Q m h.
Proof.
  intros Hlp Hk. eapply wp_get_lower_path; [done|].
  apply wp_lock_parent with (w := w); [done|]. intros dir Hd Hg Hi.
  rewrite <- app_assoc. by apply Hk.
Qed.

(** Refreshing the upper directory after a change in it. *)
Definition dir_attrs (dir l parent : ptr) : khist :=
  [KEv (fsstack_copy_attr_times dir l) tt; KEv (load F_d_inode parent) (inode_of w parent);
   KEv (fsstack_copy_inode_size dir (inode_of w parent)) tt].

Lemma wp_copy_dir_attrs {A} dir parent (k : unit -> kprog A) Q m h :
  has_lower_inode m dir -> positive w parent -> good_ptr parent ->
  (forall l, inode_infos m !! dir = Some l -> good_ptr l -> WP (k tt) Q m (h ++ dir_attrs dir l parent)) ->
  WP (copy_dir_attrs dir parent ≫= k) Q m h.
Proof.
  intros [Hd (l & Hl & Hgl)] Hp Hg Hk. unfold copy_dir_attrs, trfs_lower_inode. kassoc.
  apply wp_field_get; [done|]. rewrite Hl. cbn [default from_option id].
  kstep. kassoc. apply wp_d_inode with (w := w); [done..|]. intros _.
  kstep. rewrite <- !app_assoc. by apply Hk.
Qed.

Lemma wp_lower_inode {A} i (k : ptr -> kprog A) Q m h :
  has_lower_inode m i -> (forall l, inode_infos m !! i = Some l -> good_ptr l -> WP (k l) Q m h) ->
  WP (trfs_lower_inode i ≫= k) Q m h.
Proof.
  intros [Hi (l & Hl & Hgl)] Hk. apply wp_field_get; [done|]. rewrite Hl. by apply Hk.
Qed.

Definition nlink_trace (i l n : Z) : khist := [KEv (load F_i_nlink l) n; KEv (set_nlink i n) tt].

Lemma wp_copy_nlink {A} i l (k : unit -> kprog A) Q m h :
  good_ptr l -> (forall n, WP (k tt) Q m (h ++ nlink_trace i l n)) ->
  WP (copy_nlink i l ≫= k) Q m h.
Proof.
  intros Hl Hk. unfold copy_nlink. kstep. kstep. rewrite <- app_assoc. apply Hk.
Qed.
End Handlers.
