(* ===== verification/HandlerThms.v ===== *)
(** * The handlers that change the name space: what they guarantee

    For each handler of [Inode.v], in every environment that behaves as
    documented and whatever the lower file system answers: it finishes, it
    performs one operation on the lower file system, on the lower objects of its
    arguments and with the lower parent locked; it gives back every lock and
    reference; it answers the lower file system's error; and, with memory to
    spare and completed writes, it logs that answer, if the mask asks for it. *)

From S2P Require Import Prelude Prog TrTypes Kernel TrfsH Ledger Lookup Trdump TrdumpSpec Inode.
From S2P Require Import HandlerSpec Demo.

(** There is memory, and the writes of the log complete. *)
Definition plentiful (env : kenv) : Prop := forall h c, resourceful (KEv c (env h c)).

Definition kernel_ok_if (w : kworld) (Res : Prop) (h : khist) (e : event ksig) : Prop :=
  kernel_ok w h e /\ (Res -> resourceful e).

#[export] Instance kernel_ok_if_spec w Res : KernelSpec w (kernel_ok_if w Res).
Proof. constructor. by intros h e []. Qed.
#[export] Hint Resolve kernel_ok_if_spec : core.

Lemma kernel_ok_if_res w (Res : Prop) : Res -> forall h e, kernel_ok_if w Res h e -> resourceful e.
Proof. intros HR h e [_ H]. by apply H. Qed.
#[export] Hint Resolve kernel_ok_if_res : core.

Lemma kernel_ok_if_env w env : env_ok (kernel_ok w) env -> env_ok (kernel_ok_if w (plentiful env)) env.
Proof. intros Hw h c. split; [apply Hw|]. intros Hp. apply Hp. Qed.

(** What the handlers find in place: a mounted file system, the directory's
    lower inode, the dentry's lower path. *)
Record in_place (w : kworld) (m : kmem) (sb lock : ptr) (si : trfs_sb_info) (pos : Z) (buf : bytes)
    (dir dentry info : ptr) (lp : path) (path : bytes) : Prop := {
  ip_mounted : mounted w m sb lock si pos buf;
  ip_dir : has_lower_inode m dir;
  ip_dentry : has_lower m dentry info lp;
  ip_lower : good_ptr (p_dentry lp);
  ip_path : path_of w dentry = Some path;
}.

(** The log after a handler, if there is memory and the log is where its
    position says. *)
Definition logs (env : kenv) (si : trfs_sb_info) (pos : Z) (t : rec_type) (id flags perm err : Z)
    (path : bytes) (arg : buffer) (arg_len : Z) (apath : bytes) (h h' : khist) : Prop :=
  plentiful env /\ pos = Z.of_nat (length (log_image (tr_lower_filep si) h)) ->
  log_effect si t id flags perm err path arg arg_len apath h h'.

Lemma calls_i_sb dir : calls_only (S := ksig) not_lower (i_sb dir).
Proof. unfold i_sb. calls. Qed.

Lemma made_snoc h c r d : makes d (KEv c r) -> made d (h ++ [KEv c r]).
Proof. intros H. apply Exists_app. right. by apply Exists_cons; left. Qed.

(** From the [out] label of a handler on: with the history in front of the
    lower operation [c] and what came after it in hand, the log and the release
    of what was taken. *)
Section OpThenLog.
Context (w : kworld) (env : kenv) (m : kmem) (h : khist).
Context (sb lock : ptr) (si : trfs_sb_info) (pos : Z) (buf : bytes).
Local Abbreviation ok := (kernel_ok_if w (plentiful env)).

Lemma then_log get_sb dentry t flags perm err arg arg_len apath path (release : kprog Z) m1 tr tu
    (Q : outcome ksig Z -> Prop) :
  reads ok get_sb sb -> calls_only (S := ksig) not_lower get_sb ->
  mounted w m sb lock si pos buf -> infos_frame m m1 -> logged t -> path_of w dentry = Some path ->
  (aux_is_path t = true -> path_of w (b_ptr arg) = Some apath) -> op_fits t path arg arg_len ->
  unlogged tr -> Forall (fun e : event ksig => passive (ev_call e)) tu ->
  (forall r, tracked r -> net (tr ++ tu) r = 0) ->
  (forall (R : outcome ksig Z -> Prop) m' h', R (Done err m' (h' ++ tu)) -> wp ok release R m' h') ->
  (forall m' tl, lower_ops tl = [] ->
     let h' := ((h ++ tr) ++ tl) ++ tu in
     balanced h h' -> logs env si pos t (int32 (trecord_id m + 1)) flags perm err path arg arg_len apath h h' ->
     Q (Done err m' h')) ->
  wp ok (log_op get_sb (rec_type_val t) dentry flags perm err arg arg_len;; release) Q m1 (h ++ tr).
Proof.
  intros Hsb Hcalls Hm Hfr Ht Hpath Hap Had Htr Hu Hbal Hrel HQ.
  assert (Hid : trecord_id m1 = trecord_id m) by (by destruct Hfr as [->|(? & ? & _ & ->)]).
  eapply (wp_log_block w ok (plentiful env) (kernel_ok_if_res w _)); [done|done| |done..|].
  { by eapply infos_frame_mounted. }
  intros tl m' Hl Hpo Heff. rewrite Hid in Heff. apply Hrel. apply HQ; [done| |].
  - intros r Hr. rewrite !net_app, (Hpo r) by (by intros p ->).
    specialize (Hbal r Hr). rewrite net_app in Hbal. lia.
  - intros [Hres Hpos]. apply log_effect_unlogged with (t1 := tr); [done|by apply passive_unlogged|].
    apply Heff; [done|]. by rewrite log_image_unlogged.
Qed.

Lemma op_then_log get_sb dentry t flags perm err arg arg_len apath path (release : kprog Z) m1 t1 c tb tu held
    (Q : outcome ksig Z -> Prop) :
  reads ok get_sb sb -> calls_only (S := ksig) not_lower get_sb ->
  mounted w m sb lock si pos buf -> infos_frame m m1 -> logged t -> path_of w dentry = Some path ->
  (aux_is_path t = true -> path_of w (b_ptr arg) = Some apath) -> op_fits t path arg arg_len ->
  Forall (fun e : event ksig => passive (ev_call e)) t1 ->
  Forall (fun e : event ksig => passive (ev_call e)) tu ->
  tame tb -> delta c = [] -> unlogged [c] -> t1 ≡ₗ held -> t1 ++ tu ≡ₗ [] ->
  (forall (R : outcome ksig Z -> Prop) m' h', R (Done err m' (h' ++ tu)) -> wp ok release R m' h') ->
  (forall m' h', (exists t2, h' = h ++ t1 ++ c :: tb ++ t2) -> performs_then h h' held c tb -> balanced h h' ->
     logs env si pos t (int32 (trecord_id m + 1)) flags perm err path arg arg_len apath h h' ->
     Q (Done err m' h')) ->
  wp ok (log_op get_sb (rec_type_val t) dentry flags perm err arg arg_len;; release) Q m1 (h ++ t1 ++ c :: tb).
Proof.
  intros Hsb Hcalls Hm Hfr Ht Hpath Hap Had H1 Hu Htb Hd Hun Hheld Hbal Hrel HQ.
  eapply then_log with (tu := tu); try done.
  - apply unlogged_app; [by apply passive_unlogged|]. apply (unlogged_app [c]); [done|].
    by apply tame_unlogged.
  - intros r Hr. rewrite !net_app. cbn [net]. rewrite Hd, (tame_net tb) by done.
    pose proof (Hbal r) as Hb. rewrite net_app in Hb. simpl in *. lia.
  - intros m' tl Hl h' P2 P3. apply HQ; [| |done..].
    { exists (tl ++ tu). unfold h'. by rewrite <- !app_assoc. }
    exists t1, (tl ++ tu). unfold h'. rewrite <- !app_assoc. split_and!; [done|done| |].
    + by apply passive_lower.
    + by rewrite !lower_ops_app, tame_lower, Hl, (passive_lower tu) by done.
Qed.
End OpThenLog.

Section Create.
Context (w : kworld) (ok : khist -> event ksig -> Prop) `{HK : !KernelSpec w ok}.
Context (m : kmem) (lock : ptr) (si : trfs_sb_info) (pos : Z) (buf : bytes).
Context (dir dentry info : ptr) (lp : path) (path : bytes).
Context (Hip : in_place w m (sb_of w dir) lock si pos buf dir dentry info lp path).

(** The handlers that make a file, after the lower operation succeeded: the
    new inode is interposed and the directory refreshed; [rest] is what a
    handler adds to that. *)
Lemma make_interpose {A} parent (rest : kprog Z) (k : Z -> kprog A) Q h1 :
  positive w parent -> good_ptr parent -> made (p_dentry lp) h1 ->
  (forall err ti m1, err <> 0 -> tame ti -> infos_frame m m1 ->
     interposed (sb_of w dir) (lower_sb si) lp dentry err ti ->
     wp ok (k err) Q m1 (h1 ++ KEv (load F_i_sb dir) (sb_of w dir) :: ti)) ->
  (forall ti l m1, tame ti -> infos_frame m m1 -> inode_infos m1 !! dir = Some l -> good_ptr l ->
     interposed (sb_of w dir) (lower_sb si) lp dentry 0 ti ->
     wp ok (rest ≫= k) Q m1 (h1 ++ KEv (load F_i_sb dir) (sb_of w dir) :: ti ++ dir_attrs w dir l parent)) ->
  wp ok (((sb ← i_sb dir; trfs_interpose dentry sb lp) >>?
          (copy_dir_attrs dir parent;; rest)) ≫= k) Q m h1.
Proof.
  intros Hp Hg Hmade Hk Hrest. destruct Hip as [Hm Hd Hl Hlg Hpath]. unfold i_sb. kassoc.
  apply wp_i_sb with (w := w); [done|apply Hd|].
  eapply wp_trfs_interpose with (w := w);
    [done|by eapply mt_sb|done|apply Exists_app; by left|].
  intros err ti m1 Htb Hfr Hint. case_decide as He.
  - kstep. rewrite <- app_assoc. by apply Hk.
  - assert (err = 0) as -> by lia.
    kassoc. eapply wp_copy_dir_attrs with (w := w); [done|by eapply infos_frame_lower|done|done|].
    intros l Hl1 Hg1. rewrite <- !app_assoc. by eapply Hrest.
Qed.
End Create.

(** The concrete kernel has everything in place. *)
Lemma demo_in_place mask :
  in_place demo_world (demo_mem mask) demo_sb demo_info (demo_si mask) 0
    (replicate (Z.to_nat (sizeof_tr_record + PAGE_SIZE)) 0) demo_dir demo_dentry 21 (Path 22 23) (lit "/a").
Proof.
  constructor; [apply demo_mounted|..|done]; try done.
  split; [done|]. by exists 11.
Qed.

Lemma demo_plentiful lower : plentiful (demo_env lower).
Proof. intros h c. apply demo_env_ok. Qed.

(** ** What a handler does *)

(** A run that did one lower operation, with the parent [parent] of the lower
    dentry locked, did what [after] says from there to the log, gives back what it
    took, and logs its answer. *)
Definition handles (w : kworld) (env : kenv) (m : kmem) (h : khist) (si : trfs_sb_info) (pos : Z)
    (lp : path) (path : bytes) (t : rec_type) (perm : Z) (ev : ptr -> Z -> event ksig)
    (after : ptr -> Z -> Z -> khist -> Prop) (o : outcome ksig Z) : Prop :=
  exists err e parent tb m' h',
    o = finished err m' h' /\
    performs_then h h' (parent_locked w lp parent) (ev parent e) tb /\ after parent e err tb /\
    balanced h h' /\
    logs env si pos t (int32 (trecord_id m + 1)) 0 perm err path nullbuf 0 [] h h'.

(** After a file was to be made: the lower error is the answer, and nothing else
    is done; otherwise the new inode is interposed, its error is the answer, and
    without one the directory takes over the times of its lower inode [l] and the
    size of the lower parent, and [more] follows. *)
Definition made_then (w : kworld) (m : kmem) (si : trfs_sb_info) (lp : path) (dir dentry : ptr)
    (more : ptr -> khist -> Prop) (parent : ptr) (e err : Z) (tb : khist) : Prop :=
  if decide (e <> 0) then err = e /\ tb = [] else
  exists x ti tr, tb = KEv (load F_i_sb dir) (sb_of w dir) :: ti ++ tr /\
    interposed (sb_of w dir) (lower_sb si) lp dentry x ti /\
    if decide (x <> 0) then err = x /\ tr = [] else
    err = 0 /\ exists m1 l tm, infos_frame m m1 /\ inode_infos m1 !! dir = Some l /\
      tr = dir_attrs w dir l parent ++ tm /\ more l tm.

(** Nothing follows; the link count of the directory's lower inode does. *)
Definition no_more (l : ptr) (tm : khist) : Prop := tm = [].
Definition nlink_more (dir l : ptr) (tm : khist) : Prop := exists n, tm = nlink_trace dir l n.

(** After a directory was to be removed: the upper one is dropped, and cleared
    if there is an inode, and its parent refreshed. *)
Definition removed_then (w : kworld) (dir dentry parent : ptr) (e err : Z) (tb : khist) : Prop :=
  err = e /\
  if decide (e <> 0) then tb = [] else
  exists i n, tb = [KEv (d_drop dentry) tt; KEv (load F_d_inode dentry) i] ++
    (if nonzero i then [KEv (clear_nlink i) tt] else []) ++
    [KEv (load F_d_inode parent) (inode_of w parent);
     KEv (fsstack_copy_attr_times dir (inode_of w parent)) tt;
     KEv (fsstack_copy_inode_size dir (inode_of w parent)) tt] ++ nlink_trace dir (inode_of w parent) n.

(** After a file was to be removed: an answer of EBUSY counts as success if the
    lower dentry is flagged as renamed away; after a success the directory and
    the inode [i] of the dentry are refreshed, and the dentry dropped. *)
Definition unlinked_then (w : kworld) (m : kmem) (lp : path) (dir dentry l : ptr) (e err : Z) (tb : khist) : Prop :=
  exists t0 t1, tb = t0 ++ t1 /\
    (if decide (e = - EBUSY) then
       exists fl, t0 = [KEv (load F_d_flags (p_dentry lp)) fl] /\
         err = if decide (Z.land fl DCACHE_NFSFS_RENAMED <> 0) then 0 else e
     else t0 = [] /\ err = e) /\
    if decide (err <> 0) then t1 = [] else
    let i := inode_of w dentry in
    exists li n ct, inode_infos m !! i = Some li /\
      t1 = [KEv (fsstack_copy_attr_times dir l) tt; KEv (fsstack_copy_inode_size dir l) tt;
            KEv (load F_d_inode dentry) i] ++ nlink_trace i li n ++
           [KEv (load F_i_ctime dir) ct; KEv (store F_i_ctime i ct) tt; KEv (d_drop dentry) tt].

(** The history up to the lower operation. *)
Definition before_op (w : kworld) (info : ptr) (lp : path) (parent : ptr) : khist :=
  entry_trace w info lp parent ++ [KEv (load F_d_inode parent) (inode_of w parent)].

Ltac as_tail e0 tb :=
  match goal with |- wp _ _ _ _ ?hh =>
    match hh with context [?h0 ++ entry_trace ?w ?info ?lp ?parent] =>
      replace hh with (h0 ++ before_op w info lp parent ++ e0 :: tb)
        by (unfold before_op; by rewrite <- !app_assoc) end end.

Section Makers.
Context (w : kworld) (env : kenv) (Henv : env_ok (kernel_ok w) env).
Context (m : kmem) (h : khist) (lock : ptr) (si : trfs_sb_info) (pos : Z) (buf : bytes).
Context (dir dentry info : ptr) (lp : path) (path : bytes).
Context (Hip : in_place w m (sb_of w dir) lock si pos buf dir dentry info lp path).

Local Abbreviation ok := (kernel_ok_if w (plentiful env)).

Lemma before_op_passive parent :
  Forall (fun e : event ksig => passive (ev_call e)) (before_op w info lp parent).
Proof.
  apply Forall_app. split; [apply entry_passive|]. constructor; [apply load_passive|done].
Qed.

Lemma before_op_locked parent : before_op w info lp parent ≡ₗ parent_locked w lp parent.
Proof.
  unfold before_op. by rewrite (silent_ledger [KEv (load F_d_inode parent) _]), app_nil_r, entry_locked
    by (by repeat constructor).
Qed.

Lemma before_op_exit parent : before_op w info lp parent ++ exit_trace w lp parent ≡ₗ [].
Proof.
  unfold before_op. rewrite <- app_assoc.
  by rewrite (silent_ledger [KEv (load F_d_inode parent) _]), app_nil_l, entry_exit
    by (by repeat constructor).
Qed.

Lemma wp_release parent (err : Z) (R : outcome ksig Z -> Prop) m' h' :
  positive w parent -> good_ptr parent -> R (Done err m' (h' ++ exit_trace w lp parent)) ->
  wp ok (unlock_dir parent;; trfs_put_lower_path dentry lp;; mret err) R m' h'.
Proof.
  intros Hp Hg HR. apply wp_unlock_dir with (w := w); [done..|]. apply wp_put_lower_path.
  by rewrite <- app_assoc.
Qed.

Lemma handles_tail t perm ev after c parent (e : Z) err tb m1 :
  logged t -> aux_is_path t = false -> aux_is_data t = false ->
  positive w parent -> good_ptr parent -> infos_frame m m1 -> tame tb ->
  ev parent e = c -> delta c = [] -> unlogged [c] -> after parent e err tb ->
  wp ok (log_op (i_sb dir) (rec_type_val t) dentry 0 perm err nullbuf 0;;
         unlock_dir parent;; trfs_put_lower_path dentry lp;; mret err)
    (handles w env m h si pos lp path t perm ev after) m1 (h ++ before_op w info lp parent ++ c :: tb).
Proof.
  intros Ht Ha Hd Hp Hg Hfr Htb Hev Hdl Hun Herr. pose proof Hip as [? [Hdir _] ? ? ?].
  eapply op_then_log with (apath := []) (held := parent_locked w lp parent)
    (tu := exit_trace w lp parent); try done.
  - refine (reads_i_sb w _ _ _). done.
  - apply calls_i_sb.
  - by rewrite Ha.
  - unfold op_fits. by rewrite Hd.
  - apply before_op_passive.
  - apply exit_passive.
  - apply before_op_locked.
  - apply before_op_exit.
  - intros R m' h'. by apply wp_release.
  - intros m' h' _ H1 H2 H3. exists err, e, parent, tb, m', h'. by rewrite Hev.
Qed.

Local Abbreviation MADE more := (made_then w m si lp dir dentry more).

Lemma made_failed more parent (e : Z) : e <> 0 -> MADE more parent e e [].
Proof. intros He. unfold made_then. by rewrite decide_True. Qed.

Lemma made_unbound more parent (x : Z) ti : x <> 0 -> interposed (sb_of w dir) (lower_sb si) lp dentry x ti ->
  MADE more parent 0 x (KEv (load F_i_sb dir) (sb_of w dir) :: ti).
Proof.
  intros Hx Hi. unfold made_then. rewrite decide_False by lia. exists x, ti, []. rewrite app_nil_r.
  by rewrite decide_True.
Qed.

Lemma made_bound (more : ptr -> khist -> Prop) parent m1 l ti tm :
  infos_frame m m1 -> inode_infos m1 !! dir = Some l -> interposed (sb_of w dir) (lower_sb si) lp dentry 0 ti ->
  more l tm -> MADE more parent 0 0 (KEv (load F_i_sb dir) (sb_of w dir) :: ti ++ dir_attrs w dir l parent ++ tm).
Proof.
  intros Hf Hl Hi Hm. unfold made_then. rewrite decide_False by lia.
  exists 0, ti, (dir_attrs w dir l parent ++ tm). rewrite decide_False by lia. split_and!; [done..|].
  by exists m1, l, tm.
Qed.

Lemma wp_trfs_create mode excl :
  wp ok (trfs_create dir dentry mode excl)
    (handles w env m h si pos lp path FCREAT mode
      (fun parent e => KEv (vfs_create (inode_of w parent) (p_dentry lp) mode excl) e) (MADE no_more)) m h.
Proof.
  unfold trfs_create. eapply wp_enter with (w := w); [done|apply Hip|]. intros parent Hp Hg Hi.
  kassoc. apply wp_d_inode with (w := w); [done..|]. intros _. apply wp_kdo. intros e _. cbn in e.
  set (c := vfs_create _ _ _ _). case_decide as He.
  - kstep. as_tail (KEv c e) (@nil (event ksig)).
    eapply (handles_tail FCREAT); auto with trfs; [done..|by apply made_failed].
  - assert (e = 0) as -> by lia.
    eapply make_interpose; [done..|apply made_snoc; by split| |].
    + intros err ti m1 He' Htb Hfr Hint. as_tail (KEv c 0) (KEv (load F_i_sb dir) (sb_of w dir) :: ti).
      eapply (handles_tail FCREAT); try done; [tame|by apply made_unbound].
    + intros ti l m1 Htb Hfr Hl Hgl Hint. kstep.
      as_tail (KEv c 0) (KEv (load F_i_sb dir) (sb_of w dir) :: ti ++ dir_attrs w dir l parent).
      eapply (handles_tail FCREAT); try done; [unfold dir_attrs; tame|].
      rewrite <- (app_nil_r (dir_attrs _ _ _ _)). by eapply made_bound.
Qed.

(** C11: creating a file ends, whatever the kernel answers; it asks the lower
    file system once, for the lower dentry, with the lower parent locked.  A lower
    error is the answer; after a success the inode that the kernel has for the
    new lower one is bound to the dentry, an error of that is the answer, and
    without one the directory is refreshed and the answer is 0.  Locks and
    references ([balanced]) are given back in every branch, and the log gets one
    record of the mode, the path and the answer. *)
Theorem trfs_create_ok mode excl :
  handles w env m h si pos lp path FCREAT mode
    (fun parent e => KEv (vfs_create (inode_of w parent) (p_dentry lp) mode excl) e)
    (made_then w m si lp dir dentry no_more)
    (run env (trfs_create dir dentry mode excl) m h).
Proof.
  pose proof (kernel_ok_if_env _ _ Henv). by_wp (kernel_ok_if w (plentiful env)).
  apply wp_trfs_create.
Qed.

Lemma wp_trfs_mkdir mode :
  wp ok (trfs_mkdir dir dentry mode)
    (handles w env m h si pos lp path DCREAT mode
      (fun parent e => KEv (vfs_mkdir (inode_of w parent) (p_dentry lp) mode) e) (MADE (nlink_more dir))) m h.
Proof.
  unfold trfs_mkdir. eapply wp_enter with (w := w); [done|apply Hip|]. intros parent Hp Hg Hi.
  kassoc. apply wp_d_inode with (w := w); [done..|]. intros _. apply wp_kdo. intros e _. cbn in e.
  set (c := vfs_mkdir _ _ _). case_decide as He.
  - kstep. as_tail (KEv c e) (@nil (event ksig)).
    eapply (handles_tail DCREAT); auto with trfs; [done..|by apply made_failed].
  - assert (e = 0) as -> by lia.
    eapply make_interpose; [done..|apply made_snoc; by split| |].
    + intros err ti m1 He' Htb Hfr Hint. as_tail (KEv c 0) (KEv (load F_i_sb dir) (sb_of w dir) :: ti).
      eapply (handles_tail DCREAT); try done; [tame|by apply made_unbound].
    + intros ti l m1 Htb Hfr Hl Hgl Hint. kassoc.
      eapply wp_lower_inode; [by eapply infos_frame_lower; [|apply Hip]|]. intros l' Hl' _.
      rewrite Hl in Hl'. injection Hl' as <-. kassoc. apply wp_copy_nlink; [done..|].
      intros n. kstep.
      replace (_ ++ nlink_trace dir l n) with (h ++ before_op w info lp parent ++ KEv c 0 ::
        KEv (load F_i_sb dir) (sb_of w dir) :: ti ++ dir_attrs w dir l parent ++ nlink_trace dir l n)
        by (unfold before_op; by rewrite <- !app_assoc; simpl; rewrite <- !app_assoc).
      eapply (handles_tail DCREAT); try done; [unfold dir_attrs, nlink_trace; tame|].
      eapply made_bound; [done..|by exists n].
Qed.

(** C14: making a directory ends, whatever the kernel answers: one lower
    [vfs_mkdir] under the lower parent's lock, whose error is the answer; after a
    success the new inode is bound to the dentry as in [trfs_create_ok], and the
    directory is refreshed and takes over the link count of its lower inode; locks
    and references are given back in every branch, and there is one record of the
    mode, the path and the answer. *)
Theorem trfs_mkdir_ok mode :
  handles w env m h si pos lp path DCREAT mode
    (fun parent e => KEv (vfs_mkdir (inode_of w parent) (p_dentry lp) mode) e)
    (made_then w m si lp dir dentry (nlink_more dir))
    (run env (trfs_mkdir dir dentry mode) m h).
Proof.
  pose proof (kernel_ok_if_env _ _ Henv). by_wp (kernel_ok_if w (plentiful env)).
  apply wp_trfs_mkdir.
Qed.

Lemma wp_trfs_rmdir :
  wp ok (trfs_rmdir dir dentry)
    (handles w env m h si pos lp path UNLINK 0
      (fun parent e => KEv (vfs_rmdir (inode_of w parent) (p_dentry lp)) e) (removed_then w dir dentry)) m h.
Proof.
  assert (good_ptr dentry) by apply Hip.
  unfold trfs_rmdir. eapply wp_enter with (w := w); [done|apply Hip|]. intros parent Hp Hg Hi.
  kassoc. apply wp_d_inode with (w := w); [done..|]. intros _. apply wp_kdo. intros e _. cbn in e.
  set (c := vfs_rmdir _ _). case_decide as He.
  { kstep. as_tail (KEv c e) (@nil (event ksig)).
    eapply (handles_tail UNLINK); auto with trfs; [done..|]. split; [done|]. by rewrite decide_True. }
  assert (e = 0) as -> by lia.
  kstep. kstep. kstep. match goal with |- context [KEv (load F_d_inode dentry) ?r] => set (i := r) end.
  assert (Hend : forall tc, tc = (if nonzero i then [KEv (clear_nlink i) tt] else []) ->
    wp ok ((i ← d_inode parent; kdo (fsstack_copy_attr_times dir i);;
            kdo (fsstack_copy_inode_size dir i);; copy_nlink dir i;; mret 0) ≫= fun err =>
           log_op (i_sb dir) TR_UNLINK dentry 0 0 err nullbuf 0;; unlock_dir parent;;
           trfs_put_lower_path dentry lp;; mret err)
      (handles w env m h si pos lp path UNLINK 0
        (fun parent e => KEv (vfs_rmdir (inode_of w parent) (p_dentry lp)) e) (removed_then w dir dentry)) m
      (h ++ before_op w info lp parent ++ KEv c 0 :: [KEv (d_drop dentry) tt; KEv (load F_d_inode dentry) i] ++ tc)).
  { intros tc Htc. kassoc. apply wp_d_inode with (w := w); [done..|]. intros _. kstep. kstep. kassoc.
    apply wp_copy_nlink; [done..|]. intros n. kstep.
    rewrite <- !app_assoc, <- !app_comm_cons, <- !app_assoc.
    eapply (handles_tail UNLINK); auto with trfs; try done.
    - rewrite Htc. unfold nlink_trace. destruct (nonzero i); tame.
    - split; [done|]. rewrite decide_False by lia. exists i, n. by rewrite Htc. }
  destruct (nonzero i).
  - kstep. as_tail (KEv c 0) [KEv (d_drop dentry) tt; KEv (load F_d_inode dentry) i; KEv (clear_nlink i) tt].
    by apply (Hend [_]).
  - as_tail (KEv c 0) [KEv (d_drop dentry) tt; KEv (load F_d_inode dentry) i]. by apply (Hend []).
Qed.


Lemma wp_trfs_mknod mode dev :
  wp ok (trfs_mknod dir dentry mode dev)
    (fun o => exists err e parent tb m' h',
    o = finished err m' h' /\
    performs_then h h' (parent_locked w lp parent)
      (KEv (vfs_mknod (inode_of w parent) (p_dentry lp) mode dev) e) tb /\
    MADE no_more parent e err tb /\ balanced h h' /\
    forall f, log_image f h' = log_image f h) m h.
Proof.
  unfold trfs_mknod. eapply wp_enter with (w := w); [done|apply Hip|]. intros parent Hp Hg Hi.
  kassoc. apply wp_d_inode with (w := w); [done..|]. intros _. apply wp_kdo. intros e _. cbn in e.
  set (c := vfs_mknod _ _ _ _).
  match goal with |- wp _ _ ?Q _ _ => assert (Hend : forall err tb m1, tame tb -> MADE no_more parent e err tb ->
    wp ok (unlock_dir parent;; trfs_put_lower_path dentry lp;; mret err) Q m1
      (h ++ before_op w info lp parent ++ KEv c e :: tb)) end.
  { intros err tb m1 Htb Herr. apply wp_unlock_dir with (w := w); [done..|].
    apply wp_put_lower_path. rewrite <- (app_assoc (h ++ _)). fold (exit_trace w lp parent).
    destruct (handler_parts_unlogged h (before_op w info lp parent) (KEv c e) tb
      (exit_trace w lp parent) (parent_locked w lp parent)) as (H1 & H2 & H3); try done.
    - apply before_op_passive.
    - apply exit_passive.
    - apply before_op_locked.
    - apply before_op_exit.
    - by exists err, e, parent, tb, m1, ((h ++ before_op w info lp parent ++ KEv c e :: tb) ++
        exit_trace w lp parent). }
  case_decide as He.
  - kstep. as_tail (KEv c e) (@nil (event ksig)). apply Hend; auto with trfs. by apply made_failed.
  - assert (e = 0) as -> by lia.
    eapply make_interpose; [done..|apply made_snoc; by split| |].
    + intros err ti m1 He' Htb Hfr Hint. as_tail (KEv c 0) (KEv (load F_i_sb dir) (sb_of w dir) :: ti).
      apply Hend; [tame|by apply made_unbound].
    + intros ti l m1 Htb Hfr Hl Hgl Hint. kstep.
      as_tail (KEv c 0) (KEv (load F_i_sb dir) (sb_of w dir) :: ti ++ dir_attrs w dir l parent).
      apply Hend; [unfold dir_attrs; tame|].
      rewrite <- (app_nil_r (dir_attrs _ _ _ _)). by eapply made_bound.
Qed.

(** Making a device node ends, whatever the kernel answers: one lower
    [vfs_mknod] under the lower parent's lock; what follows, and the answer, are as
    for a file, and locks and references are given back; but no log changes. *)
Theorem trfs_mknod_ok mode dev :
  exists err e parent tb m' h',
    run env (trfs_mknod dir dentry mode dev) m h = finished err m' h' /\
    performs_then h h' (parent_locked w lp parent)
      (KEv (vfs_mknod (inode_of w parent) (p_dentry lp) mode dev) e) tb /\
    made_then w m si lp dir dentry no_more parent e err tb /\ balanced h h' /\
    forall f, log_image f h' = log_image f h.
Proof.
  pose proof (kernel_ok_if_env _ _ Henv). by_wp (kernel_ok_if w (plentiful env)).
  by apply wp_trfs_mknod.
Qed.

Section Unlink.
Context (Hpos : positive w dentry).
(** The directory's lower inode, the lower parent, and the lower answer. *)
Context (l parent e : Z) (Hl : inode_infos m !! dir = Some l).
Context (Hp : positive w parent) (Hg : good_ptr parent).

Definition unlink_entry : khist :=
  get_lower_path_trace info lp ++ [KEv (dget (p_dentry lp)) tt] ++ lock_parent_trace w (p_dentry lp) parent.
Definition unlink_exit : khist :=
  unlock_dir_trace w parent ++ [KEv (dput (p_dentry lp)) tt; KEv (path_put lp) tt].
Definition unlink_end (o : outcome ksig Z) : Prop :=
  exists err tb m' h', o = finished err m' h' /\
    performs_then h h' (KEv (dget (p_dentry lp)) tt :: parent_locked w lp parent)
      (KEv (vfs_unlink l (p_dentry lp)) e) tb /\
    unlinked_then w m lp dir dentry l e err tb /\ balanced h h' /\
    logs env si pos UNLINK (int32 (trecord_id m + 1)) 0 0 err path nullbuf 0 [] h h'.

Definition unlink_leave (err : Z) : kprog Z :=
  log_op (i_sb dir) TR_UNLINK dentry 0 0 err nullbuf 0;; unlock_dir parent;;
  kdo (dput (p_dentry lp));; trfs_put_lower_path dentry lp;; mret err.
Local Abbreviation since tb := (h ++ unlink_entry ++ KEv (vfs_unlink l (p_dentry lp)) e :: tb).

Lemma unlink_logged err tb : tame tb -> unlinked_then w m lp dir dentry l e err tb ->
  wp ok (unlink_leave err) unlink_end m (since tb).
Proof.
  intros Htb Herr. pose proof Hip as [Hm Hdir Hlp Hlg Hpath]. assert (good_ptr dir) by apply Hdir.
  unfold unlink_leave.
  assert (Hp1 : Forall (fun e : event ksig => passive (ev_call e)) unlink_entry) by passive_trace.
  assert (Hpu : Forall (fun e : event ksig => passive (ev_call e)) unlink_exit) by passive_trace.
  eapply (op_then_log w env m h _ lock si pos buf) with (t := UNLINK) (apath := []) (tu := unlink_exit)
      (held := KEv (dget (p_dentry lp)) tt :: parent_locked w lp parent);
    [refine (reads_i_sb w _ _ _); done|apply calls_i_sb|done|auto with trfs|done..|
     unfold unlink_entry, parent_locked; ledger|unfold unlink_entry, unlink_exit; ledger| |].
  - intros R m' h' HR. apply wp_unlock_dir with (w := w); [done..|]. kstep.
    apply wp_put_lower_path. by rewrite <- !app_assoc.
  - intros m' h' _ H1 H2 H3. by exists err, tb, m', h'.
Qed.

(** When the file was removed, or counts as removed, the upper inode is
    refreshed. *)
Lemma unlink_refreshed err t0 :
  has_lower_inode m (inode_of w dentry) -> tame t0 ->
  (if decide (e = - EBUSY) then
     exists fl, t0 = [KEv (load F_d_flags (p_dentry lp)) fl] /\
       err = if decide (Z.land fl DCACHE_NFSFS_RENAMED <> 0) then 0 else e
   else t0 = [] /\ err = e) ->
  wp ok ((mret err >>?
    (kdo (fsstack_copy_attr_times dir l);; kdo (fsstack_copy_inode_size dir l);;
     inode ← d_inode dentry; lower_inode ← trfs_lower_inode inode;
     copy_nlink inode lower_inode;; ctime ← ld F_i_ctime dir; st F_i_ctime inode ctime;;
     kdo (d_drop dentry);; mret 0)) ≫= unlink_leave) unlink_end m (since t0).
Proof.
  intros Hli Htb Herr. pose proof Hip as [Hm Hdir Hlp Hlg Hpath]. assert (good_ptr dir) by apply Hdir.
  assert (good_ptr dentry) by apply Hlp.
  kstep. destruct (decide (err <> 0)) as [He|He].
  { kstep. apply unlink_logged; [done|]. exists t0, []. rewrite app_nil_r. split_and!; [done..|].
    by rewrite decide_True. }
  assert (err = 0) as -> by lia.
  kstep. kstep. kassoc. apply wp_d_inode with (w := w); [done..|]. intros Hgi. kassoc.
  eapply wp_lower_inode; [done|]. intros li Hli' Hgli. kassoc. apply wp_copy_nlink; [done|].
  intros n. kstep. kstep. kstep. kstep.
  rewrite <- !app_assoc, <- !app_comm_cons. apply unlink_logged; [unfold nlink_trace; tame|].
  exists t0. eexists. split; [reflexivity|]. split; [done|]. rewrite decide_False by lia. by eexists li, n, _.
Qed.
End Unlink.

Lemma wp_trfs_unlink :
  positive w dentry -> has_lower_inode m (inode_of w dentry) ->
  wp ok (trfs_unlink dir dentry)
    (fun o => exists e parent l, inode_infos m !! dir = Some l /\ unlink_end l parent e o) m h.
Proof.
  intros Hpos Hli. pose proof Hip as [Hm [Hdir (l & Hl & Hgl)] Hlp Hlg Hpath].
  assert (Hdg : good_ptr dentry) by apply Hlp.
  unfold trfs_unlink, trfs_lower_inode. apply wp_field_get; [done|].
  replace (default NULL (inode_infos m !! dir)) with l by (by rewrite Hl).
  eapply wp_get_lower_path; [done|]. kstep.
  apply wp_lock_parent with (w := w); [done|]. intros parent Hp Hg Hi.
  apply wp_kdo. intros e _. cbn in e.
  apply (wp_mono _ _ (unlink_end l parent e)); [intros o Ho; by exists e, parent, l|].
  assert (E : forall tb, ((((h ++ get_lower_path_trace info lp) ++ [KEv (dget (p_dentry lp)) tt]) ++
    lock_parent_trace w (p_dentry lp) parent) ++ [KEv (vfs_unlink l (p_dentry lp)) e]) ++ tb =
    h ++ unlink_entry parent ++ KEv (vfs_unlink l (p_dentry lp)) e :: tb)
    by (intros tb; unfold unlink_entry; by rewrite <- !app_assoc).
  case_decide as Hb.
  - kstep. kstep. rewrite E. apply unlink_refreshed; try done; [tame|]. rewrite decide_True by done. by eexists.
  - kstep. rewrite <- (app_nil_r (_ ++ [KEv (vfs_unlink l (p_dentry lp)) e])), E.
    apply unlink_refreshed; auto with trfs. by rewrite decide_False.
Qed.

End Makers.

(** ** The handlers at a concrete kernel *)

Lemma trfs_create_ok_witness :
  plentiful (demo_env (fun _ => 0)) /\ umask (demo_si umask_all) = umask_all /\
  handles demo_world (demo_env (fun _ => 0)) (demo_mem umask_all) [] (demo_si umask_all) 0 (Path 22 23) (lit "/a") FCREAT 420
    (fun parent e => KEv (vfs_create (inode_of demo_world parent) 22 420 true) e)
    (made_then demo_world (demo_mem umask_all) (demo_si umask_all) (Path 22 23) demo_dir demo_dentry no_more)
    (run (demo_env (fun _ => 0)) (trfs_create demo_dir demo_dentry 420 true) (demo_mem umask_all) []).
Proof.
  split; [apply demo_plentiful|]. split; [done|].
  apply (trfs_create_ok demo_world _ (demo_env_kernel_ok _) _ [] demo_info (demo_si umask_all) 0 _
    demo_dir demo_dentry 21 (Path 22 23) (lit "/a") (demo_in_place umask_all)).
Defined.

Lemma trfs_mkdir_ok_witness :
  plentiful (demo_env (fun _ => 0)) /\ umask (demo_si umask_all) = umask_all /\
  handles demo_world (demo_env (fun _ => 0)) (demo_mem umask_all) [] (demo_si umask_all) 0 (Path 22 23) (lit "/a") DCREAT 493
    (fun parent e => KEv (vfs_mkdir (inode_of demo_world parent) 22 493) e)
    (made_then demo_world (demo_mem umask_all) (demo_si umask_all) (Path 22 23) demo_dir demo_dentry (nlink_more demo_dir))
    (run (demo_env (fun _ => 0)) (trfs_mkdir demo_dir demo_dentry 493) (demo_mem umask_all) []).
Proof.
  split; [apply demo_plentiful|]. split; [done|].
  apply (trfs_mkdir_ok demo_world _ (demo_env_kernel_ok _) _ [] demo_info (demo_si umask_all) 0 _
    demo_dir demo_dentry 21 (Path 22 23) (lit "/a") (demo_in_place umask_all)).
Defined.


Lemma trfs_mknod_ok_witness :
  exists err e parent tb m' h',
    run (demo_env (fun _ => 0)) (trfs_mknod demo_dir demo_dentry 8612 259) (demo_mem umask_all) [] = finished err m' h' /\
    performs_then [] h' (parent_locked demo_world (Path 22 23) parent)
      (KEv (vfs_mknod (inode_of demo_world parent) 22 8612 259) e) tb /\
    made_then demo_world (demo_mem umask_all) (demo_si umask_all) (Path 22 23) demo_dir demo_dentry no_more parent e err tb /\ balanced [] h' /\
    forall f, log_image f h' = log_image f [].
Proof.
  apply (trfs_mknod_ok demo_world _ (demo_env_kernel_ok _) _ [] demo_info (demo_si umask_all) 0 _
    demo_dir demo_dentry 21 (Path 22 23) (lit "/a") (demo_in_place umask_all)).
Defined.


(** ** Handlers on two dentries *)

Lemma app_cons_cons {A} (t : list A) a b l : t ++ a :: b :: l = (t ++ [a; b]) ++ l.
Proof. by rewrite <- app_assoc. Qed.

Section Two.
Context (w : kworld) (env : kenv) (Henv : env_ok (kernel_ok w) env).
Context (m : kmem) (h : khist) (lock : ptr) (si : trfs_sb_info) (pos : Z) (buf : bytes).
Context (dir old_dentry new_dentry old_info new_info : ptr) (old_lp new_lp : path).
Context (old_path new_path : bytes).
(** The two dentries have lower paths, and the old one exists, on the same
    file system. *)
Context (Hip : in_place w m (sb_of w dir) lock si pos buf dir new_dentry new_info new_lp new_path).
Context (Hold : has_lower m old_dentry old_info old_lp).
Context (Hpos : positive w old_dentry) (Hsame : sb_of w (inode_of w old_dentry) = sb_of w dir).
Context (Hop : path_of w old_dentry = Some old_path).

Local Abbreviation ok := (kernel_ok_if w (plentiful env)).
Local Abbreviation lower_old := (p_dentry old_lp).
Local Abbreviation lower_new := (p_dentry new_lp).

(** What a link or a rename logs: the old path and the new one. *)
Definition logs_two (t : rec_type) (err : Z) (h' : khist) : Prop :=
  logs env si pos t (int32 (trecord_id m + 1)) 0 0 err old_path (Buffer new_dentry []) 0 new_path h h'.

Lemma two_log t err (release : kprog Z) m1 tr tu (Q : outcome ksig Z -> Prop) :
  aux_is_path t = true -> infos_frame m m1 -> unlogged tr ->
  Forall (fun e : event ksig => passive (ev_call e)) tu ->
  (forall r, tracked r -> net (tr ++ tu) r = 0) ->
  (forall (R : outcome ksig Z -> Prop) m' h', R (Done err m' (h' ++ tu)) -> wp ok release R m' h') ->
  (forall m' tl, lower_ops tl = [] -> let h' := ((h ++ tr) ++ tl) ++ tu in
     balanced h h' -> logs_two t err h' -> Q (Done err m' h')) ->
  wp ok (log_op (dentry_sb old_dentry) (rec_type_val t) old_dentry 0 0 err (Buffer new_dentry []) 0;;
         release) Q m1 (h ++ tr).
Proof.
  intros Ht Hfr Hun Hu Hbal Hrel HQ. destruct Hip as [Hm _ _ _ Hnp].
  rewrite <- Hsame in Hm.
  eapply then_log with (tu := tu) (apath := new_path); try done.
  - refine (reads_d_inode_i_sb w _ _ _ _); [done|apply Hold].
  - unfold dentry_sb, d_inode. calls.
  - by destruct t.
  - unfold op_fits. by destruct t.
Qed.

Lemma two_then_log t err (release : kprog Z) m1 t1 c tb tu held (Q : outcome ksig Z -> Prop) :
  aux_is_path t = true ->
  infos_frame m m1 ->
  Forall (fun e : event ksig => passive (ev_call e)) t1 ->
  Forall (fun e : event ksig => passive (ev_call e)) tu ->
  tame tb -> delta c = [] -> unlogged [c] -> t1 ≡ₗ held -> t1 ++ tu ≡ₗ [] ->
  (forall (R : outcome ksig Z -> Prop) m' h', R (Done err m' (h' ++ tu)) -> wp ok release R m' h') ->
  (forall m' h', (exists t2, h' = h ++ t1 ++ c :: tb ++ t2) -> performs_then h h' held c tb -> balanced h h' ->
     logs_two t err h' -> Q (Done err m' h')) ->
  wp ok (log_op (dentry_sb old_dentry) (rec_type_val t) old_dentry 0 0 err (Buffer new_dentry []) 0;;
         release) Q m1 (h ++ t1 ++ c :: tb).
Proof.
  intros Ht Hfr H1 Hu Htb Hd Hun Hheld Hbal Hrel HQ. destruct Hip as [Hm _ _ _ Hnp].
  rewrite <- Hsame in Hm.
  eapply op_then_log with (tu := tu) (held := held) (apath := new_path); try done.
  - refine (reads_d_inode_i_sb w _ _ _ _); [done|apply Hold].
  - unfold dentry_sb, d_inode. calls.
  - by destruct t.
  - unfold op_fits. by destruct t.
Qed.

(** After a link was to be made: the lower error is the answer; otherwise the
    new name's inode is interposed, its error is the answer, and without one the
    directory is refreshed from the lower inode [ln], the link count of the old
    inode becomes that of its lower inode [lo], and the size of the new inode is
    the one that the old one had before. *)
Definition linked_then (size e err : Z) (tb : khist) : Prop :=
  if decide (e <> 0) then err = e /\ tb = [] else
  exists ln1 x ti tr,
    tb = [KEv (load F_d_inode lower_new) ln1; KEv (load F_i_sb dir) (sb_of w dir)] ++ ti ++ tr /\
    interposed (sb_of w dir) (lower_sb si) new_lp new_dentry x ti /\
    if decide (x <> 0) then err = x /\ tr = [] else
    let i := inode_of w old_dentry in
    err = 0 /\ exists m1 ln lo n j, infos_frame m m1 /\ inode_infos m1 !! i = Some lo /\
      tr = [KEv (load F_d_inode lower_new) ln; KEv (fsstack_copy_attr_times dir ln) tt;
            KEv (fsstack_copy_inode_size dir ln) tt; KEv (load F_d_inode old_dentry) i] ++ nlink_trace i lo n ++
           [KEv (load F_d_inode new_dentry) j; KEv (i_size_write j size) tt].

(** After the lower link was made: the new inode is interposed, and the
    directory and the old inode are refreshed. *)
Lemma link_interpose {A} (size : Z) (k : Z -> kprog A) Q h1 :
  has_lower_inode m (inode_of w old_dentry) -> made lower_new h1 ->
  (forall err tb m1, tame tb -> infos_frame m m1 -> linked_then size 0 err tb -> wp ok (k err) Q m1 (h1 ++ tb)) ->
  wp ok ((ln ← d_inode (p_dentry new_lp);
          if decide (ln = NULL) then mret 0 else
          (sb ← i_sb dir; trfs_interpose new_dentry sb new_lp) >>?
          (ln ← d_inode (p_dentry new_lp);
           kdo (fsstack_copy_attr_times dir ln);;
           kdo (fsstack_copy_inode_size dir ln);;
           old_inode ← d_inode old_dentry;
           lo ← trfs_lower_inode old_inode;
           copy_nlink old_inode lo;;
           new_inode ← d_inode new_dentry;
           kdo (i_size_write new_inode size);;
           mret 0)) ≫= k) Q m h1.
Proof.
  intros Hli Hmade Hk. pose proof Hip as [Hm Hdir Hnew Hlg Hnp].
  assert (good_ptr old_dentry) by apply Hold. assert (good_ptr new_dentry) by apply Hnew.
  kassoc. apply wp_d_inode_exists with (w := w); [apply _|done|by right|]. intros i Hi.
  rewrite decide_False by (by apply good_ptr_nonnull). unfold i_sb. kassoc.
  apply wp_i_sb with (w := w); [done|apply Hdir|].
  eapply wp_trfs_interpose with (w := w);
    [done|by eapply mt_sb|done|by do 2 (apply Exists_app; left)|].
  intros err ti m1 Htb Hfr Hint. case_decide as He.
  { kstep. rewrite <- !app_assoc. apply Hk; [tame|done|]. unfold linked_then. rewrite decide_False by lia.
    exists i, err, ti, []. rewrite app_nil_r. by rewrite decide_True. }
  assert (err = 0) as -> by lia.
  kassoc. apply wp_d_inode_exists with (w := w); [apply _|done|right; by do 3 (apply Exists_app; left)|]. intros i2 Hi2.
  kstep. kstep. kassoc. apply wp_d_inode with (w := w); [done..|]. intros Hgo. kassoc.
  eapply wp_lower_inode; [by eapply infos_frame_lower|]. intros lo Hlo Hglo. kassoc.
  apply wp_copy_nlink; [done|]. intros n. kstep. kstep. kstep.
  rewrite <- !app_assoc. apply Hk; [unfold nlink_trace; tame|done|].
  unfold linked_then. rewrite decide_False by lia. exists i, 0, ti. eexists.
  split; [reflexivity|]. rewrite decide_False by lia. split_and!; [done..|].
  eexists m1, i2, lo, n, _. split_and!; done.
Qed.

(** How a link ends. *)
Definition link_end (o : outcome ksig Z) : Prop :=
  exists err e parent size tb m' h', o = finished err m' h' /\
    In (KEv (i_size_read (inode_of w old_dentry)) size) h' /\
    performs_then h h' (KEv (path_get old_lp) tt :: parent_locked w new_lp parent)
      (KEv (vfs_link lower_old (inode_of w parent) lower_new) e) tb /\
    linked_then size e err tb /\ balanced h h' /\ logs_two LINK err h'.

Lemma wp_trfs_link :
  has_lower_inode m (inode_of w old_dentry) -> wp ok (trfs_link old_dentry dir new_dentry) link_end m h.
Proof.
  intros Hli. pose proof Hip as [Hm Hdir Hnew Hlg Hnp].
  assert (good_ptr old_dentry) by apply Hold. assert (good_ptr new_dentry) by apply Hnew.
  unfold trfs_link. apply wp_d_inode with (w := w); [done..|]. intros _.
  apply wp_kdo. intros size _. eapply wp_get_lower_path; [done|]. eapply wp_get_lower_path; [done|].
  apply wp_lock_parent with (w := w); [done|]. intros parent Hp Hg Hi.
  kassoc. apply wp_d_inode with (w := w); [done..|]. intros _. apply wp_kdo. intros e _. cbn in e, size.
  set (c := vfs_link _ _ _).
  set (t1 := KEv (load F_d_inode old_dentry) (inode_of w old_dentry) ::
    KEv (i_size_read (inode_of w old_dentry)) size :: get_lower_path_trace old_info old_lp ++
    get_lower_path_trace new_info new_lp ++ lock_parent_trace w lower_new parent ++
    [KEv (load F_d_inode parent) (inode_of w parent)]).
  set (tu := unlock_dir_trace w parent ++ [KEv (path_put old_lp) tt; KEv (path_put new_lp) tt]).
  assert (Hend : forall err tb m1, tame tb -> infos_frame m m1 -> linked_then size e err tb ->
    wp ok (log_op (dentry_sb old_dentry) TR_LINK old_dentry 0 0 err (Buffer new_dentry []) 0;;
           unlock_dir parent;; trfs_put_lower_path old_dentry old_lp;;
           trfs_put_lower_path new_dentry new_lp;; mret err) link_end m1 (h ++ t1 ++ KEv c e :: tb)).
  { intros err tb m1 Htb Hfr Herr.
    eapply (two_then_log LINK) with (tu := tu)
      (held := KEv (path_get old_lp) tt :: parent_locked w new_lp parent);
      [done|done|passive_trace|passive_trace|done..|unfold t1, parent_locked; ledger|
       unfold t1, tu; ledger| |].
    - intros R m' h' HR. apply wp_unlock_dir with (w := w); [done..|]. apply wp_put_lower_path.
      apply wp_put_lower_path. by rewrite <- !app_assoc.
    - intros m' h' [t2 ->] P1 P2 P3. eexists err, e, parent, size, tb, m', _. split_and!; [reflexivity| |done..].
      apply in_or_app. right. right. by left. }
  assert (E : forall tb, (((((((h ++ [KEv (load F_d_inode old_dentry) (inode_of w old_dentry)]) ++
    [KEv (i_size_read (inode_of w old_dentry)) size]) ++ get_lower_path_trace old_info old_lp) ++
    get_lower_path_trace new_info new_lp) ++ lock_parent_trace w lower_new parent) ++
    [KEv (load F_d_inode parent) (inode_of w parent)]) ++ [KEv c e]) ++ tb = h ++ t1 ++ KEv c e :: tb)
    by (intros tb; unfold t1; by rewrite <- !app_assoc).
  rewrite <- (app_nil_r (_ ++ [KEv c e])), E. case_decide as He.
  { kstep. apply Hend; auto with trfs. unfold linked_then. by rewrite decide_True. }
  assert (e = 0) as -> by lia. eapply link_interpose; [done| |].
  - do 2 (apply Exists_app; right). apply Exists_cons; left. by split.
  - intros err tb m1 Htb Hfr Hl. rewrite <- !app_assoc. by apply Hend.
Qed.

(** C12: making a hard link ends, whatever the kernel answers: one lower
    [vfs_link] from the old lower dentry to the new one, with both lower paths
    held and the new parent locked, whose error is the answer.  After a success
    the new name is bound to the inode of the lower file, an error of that is the
    answer, and without one the old inode takes over the link count of its lower
    inode and the new one the size that the old one had.  Locks and references
    ([balanced]) are given back in every branch, and there is one record of both
    paths and the answer. *)
Theorem trfs_link_ok :
  has_lower_inode m (inode_of w old_dentry) ->
  exists err e parent size tb m' h',
    run env (trfs_link old_dentry dir new_dentry) m h = finished err m' h' /\
    In (KEv (i_size_read (inode_of w old_dentry)) size) h' /\
    performs_then h h' (KEv (path_get old_lp) tt :: parent_locked w new_lp parent)
      (KEv (vfs_link lower_old (inode_of w parent) lower_new) e) tb /\
    linked_then size e err tb /\ balanced h h' /\ logs_two LINK err h'.
Proof.
  intros Hli. pose proof (kernel_ok_if_env _ _ Henv). by_wp (kernel_ok_if w (plentiful env)).
  by apply wp_trfs_link.
Qed.

Section Rename.
(** The directories, the two lower parents, and what locking them answered. *)
Context (old_dir new_dir p1 p2 trap : ptr).

Definition rename_entry : khist :=
  get_lower_path_trace old_info old_lp ++ get_lower_path_trace new_info new_lp ++
  [KEv (dget_parent lower_old) p1; KEv (dget_parent lower_new) p2; KEv (lock_rename p1 p2) trap].
Definition rename_exit : khist :=
  [KEv (unlock_rename p1 p2) tt; KEv (dput p1) tt; KEv (dput p2) tt;
   KEv (path_put old_lp) tt; KEv (path_put new_lp) tt].

(** After a rename was to be done: its error is the answer; otherwise the
    directories are refreshed from the lower parents, the old one if it is another. *)
Definition renamed_then (err : Z) (tb : khist) : Prop :=
  if decide (err <> 0) then tb = [] else
  tb = [KEv (load F_d_inode p2) (inode_of w p2); KEv (fsstack_copy_attr_all new_dir (inode_of w p2)) tt;
        KEv (fsstack_copy_inode_size new_dir (inode_of w p2)) tt] ++
       (if decide (new_dir = old_dir) then [] else
        [KEv (load F_d_inode p1) (inode_of w p1); KEv (fsstack_copy_attr_all old_dir (inode_of w p1)) tt;
         KEv (fsstack_copy_inode_size old_dir (inode_of w p1)) tt]).

(** How a rename ends: refused, or done by the lower file system; [trap] is what
    locking the parents answered. *)
Definition rename_end (o : outcome ksig Z) : Prop :=
  exists err m' h', o = finished err m' h' /\ (exists t, h' = h ++ rename_entry ++ t) /\
    balanced h h' /\ logs_two RENAME err h' /\
    if decide (trap = lower_old) then err = - EINVAL /\ lower_ops h' = lower_ops h
    else if decide (trap = lower_new) then err = - ENOTEMPTY /\ lower_ops h' = lower_ops h
    else exists tb, renamed_then err tb /\ performs_then h h'
      [KEv (path_get old_lp) tt; KEv (path_get new_lp) tt; KEv (dget p1) tt; KEv (dget p2) tt;
       KEv (lock_rename p1 p2) trap]
      (KEv (vfs_rename (inode_of w p1) lower_old (inode_of w p2) lower_new 0) err) tb.

Definition rename_leave (err : Z) : kprog Z :=
  kdo (unlock_rename p1 p2);; kdo (dput p1);; kdo (dput p2);;
  trfs_put_lower_path old_dentry old_lp;; trfs_put_lower_path new_dentry new_lp;; mret err.
Definition rename_log_leave (err : Z) : kprog Z :=
  log_op (dentry_sb old_dentry) TR_RENAME old_dentry 0 0 err (Buffer new_dentry []) 0;; rename_leave err.

Lemma rename_release err (R : outcome ksig Z -> Prop) m' h' :
  R (Done err m' (h' ++ rename_exit)) -> wp ok (rename_leave err) R m' h'.
Proof.
  intros HR. unfold rename_leave. kstep. kstep. kstep. do 2 apply wp_put_lower_path. by rewrite <- !app_assoc.
Qed.

Lemma rename_refused err :
  (if decide (trap = lower_old) then err = - EINVAL else trap = lower_new /\ err = - ENOTEMPTY) ->
  wp ok (rename_log_leave err) rename_end m (h ++ rename_entry).
Proof.
  intros Herr. unfold rename_log_leave. eapply (two_log RENAME) with (tu := rename_exit);
    [done|auto with trfs|done|passive_trace| |apply rename_release|].
  { intros r _. enough (rename_entry ++ rename_exit ≡ₗ []) as -> by done.
    unfold rename_entry, rename_exit. ledger. }
  intros m' tl Htl h' Hb Hlog. exists err, m', h'. split_and!; [done| |done..|].
  { exists (tl ++ rename_exit). unfold h'. by rewrite <- !app_assoc. }
  assert (lower_ops h' = lower_ops h).
  { unfold h'. rewrite !lower_ops_app, Htl. simpl. by rewrite !app_nil_r. }
  case_decide; [done|]. destruct Herr as [Ht ?]. by rewrite decide_True by done.
Qed.

(** The lower file system was asked, and answered [err]. *)
Lemma rename_asked err tb : tame tb -> renamed_then err tb -> trap <> lower_old -> trap <> lower_new ->
  wp ok (rename_log_leave err) rename_end m
    (h ++ rename_entry ++ KEv (load F_d_inode p1) (inode_of w p1) :: KEv (load F_d_inode p2) (inode_of w p2) ::
     KEv (vfs_rename (inode_of w p1) lower_old (inode_of w p2) lower_new 0) err :: tb).
Proof.
  intros Htb Hthen N1 N2. unfold rename_log_leave. rewrite (app_cons_cons rename_entry).
  eapply (two_then_log RENAME) with (tu := rename_exit)
    (held := [KEv (path_get old_lp) tt; KEv (path_get new_lp) tt; KEv (dget p1) tt;
              KEv (dget p2) tt; KEv (lock_rename p1 p2) trap]);
    [done|auto with trfs|passive_trace|passive_trace|done..|unfold rename_entry; ledger|
     unfold rename_entry, rename_exit; ledger|apply rename_release|].
  intros m' h' [t2 E] P1 P2 P3. exists err, m', h'. split_and!; [done| |done..|].
  { rewrite E, <- app_assoc. by eexists. }
  rewrite !decide_False by done. by exists tb.
Qed.
End Rename.

Lemma wp_trfs_rename old_dir new_dir :
  wp ok (trfs_rename old_dir old_dentry new_dir new_dentry)
    (fun o => exists p1 p2 trap, rename_end old_dir new_dir p1 p2 trap o) m h.
Proof.
  unfold trfs_rename. eapply wp_get_lower_path; [done|]. eapply wp_get_lower_path; [apply Hip|].
  apply wp_kdo. intros p1 [Hp1 Hg1]%(kernel_spec (w := w)).
  apply wp_kdo. intros p2 [Hp2 Hg2]%(kernel_spec (w := w)). apply wp_kdo. intros trap _.
  cbn in p1, p2, trap.
  apply (wp_mono _ _ (rename_end old_dir new_dir p1 p2 trap)); [intros o Ho; by exists p1, p2, trap|].
  assert (E : ((((h ++ get_lower_path_trace old_info old_lp) ++
    get_lower_path_trace new_info new_lp) ++ [KEv (dget_parent lower_old) p1]) ++
    [KEv (dget_parent lower_new) p2]) ++ [KEv (lock_rename p1 p2) trap] = h ++ rename_entry p1 p2 trap)
    by (unfold rename_entry; by rewrite <- !app_assoc).
  rewrite E. case_decide as D1.
  { kstep. apply rename_refused. by rewrite decide_True by done. }
  case_decide as D2.
  { kstep. apply rename_refused. by rewrite decide_False by done. }
  kassoc. apply wp_d_inode with (w := w); [done..|]. intros _. kassoc.
  apply wp_d_inode with (w := w); [done..|]. intros _. apply wp_kdo. intros e _. cbn in e.
  case_decide as He.
  { kstep. rewrite <- !app_assoc. apply (rename_asked old_dir new_dir p1 p2 trap e []); auto with trfs.
    unfold renamed_then. by rewrite decide_True. }
  assert (e = 0) as -> by lia.
  kassoc. apply wp_d_inode with (w := w); [done..|]. intros _. kstep. kstep. kassoc. apply wp_when.
  case_bool_decide as Hd; simpl negb; cbn iota.
  - kstep. rewrite <- !app_assoc. apply rename_asked; [tame| |done|done].
    unfold renamed_then. by rewrite decide_False, decide_True by (done || lia).
  - kassoc. apply wp_d_inode with (w := w); [done..|]. intros _. kstep. kstep. kstep.
    rewrite <- !app_assoc. apply rename_asked; [tame| |done|done].
    unfold renamed_then. by rewrite !decide_False by (done || lia).
Qed.

(** C10: renaming ends, whatever the kernel answers.  The two lower paths and
    parents are taken and the parents locked together, which answers [trap]; when
    that is the dentry that moves, or the one it replaces, the rename is refused
    with the error of its kind and the lower file system is not asked; otherwise
    it is asked once, its answer is the answer, and after a success the
    directories are refreshed.  Locks and references ([balanced]) are given back
    in every branch, and there is one record of both paths and the answer. *)
Theorem trfs_rename_ok old_dir new_dir :
  exists err p1 p2 trap m' h',
    run env (trfs_rename old_dir old_dentry new_dir new_dentry) m h = finished err m' h' /\
    (exists t, h' = h ++ rename_entry p1 p2 trap ++ t) /\
    balanced h h' /\ logs_two RENAME err h' /\
    if decide (trap = lower_old) then err = - EINVAL /\ lower_ops h' = lower_ops h
    else if decide (trap = lower_new) then err = - ENOTEMPTY /\ lower_ops h' = lower_ops h
    else exists tb, renamed_then old_dir new_dir p1 p2 err tb /\ performs_then h h'
      [KEv (path_get old_lp) tt; KEv (path_get new_lp) tt; KEv (dget p1) tt; KEv (dget p2) tt;
       KEv (lock_rename p1 p2) trap]
      (KEv (vfs_rename (inode_of w p1) lower_old (inode_of w p2) lower_new 0) err) tb.
Proof.
  pose proof (kernel_ok_if_env _ _ Henv). by_wp (kernel_ok_if w (plentiful env)).
  eapply wp_mono; [|apply wp_trfs_rename]. intros o (p1 & p2 & trap & err & m' & h' & ? & ? & ? & ? & ?).
  by exists err, p1, p2, trap, m', h'.
Qed.
End Two.

(** A second dentry, in place. *)
Lemma demo_in_place_two mask :
  in_place demo_world (demo_mem mask) demo_sb demo_info (demo_si mask) 0
    (replicate (Z.to_nat (sizeof_tr_record + PAGE_SIZE)) 0) demo_dir demo_target 31 (Path 32 33) (lit "/b").
Proof.
  constructor; [apply demo_mounted|..|done]; try done.
  split; [done|]. by exists 11.
Qed.

Lemma trfs_link_ok_witness :
  plentiful (demo_env (fun _ => 0)) /\
  exists err e parent size tb m' h',
    run (demo_env (fun _ => 0)) (trfs_link demo_dentry demo_dir demo_target) (demo_mem umask_all) [] = finished err m' h' /\
    In (KEv (i_size_read (inode_of demo_world demo_dentry)) size) h' /\
    performs_then [] h' (KEv (path_get (Path 22 23)) tt :: parent_locked demo_world (Path 32 33) parent)
      (KEv (vfs_link 22 (inode_of demo_world parent) 32) e) tb /\
    linked_then demo_world (demo_mem umask_all) (demo_si umask_all) demo_dir demo_dentry demo_target (Path 32 33)
      size e err tb /\ balanced [] h' /\
    logs_two (demo_env (fun _ => 0)) (demo_mem umask_all) [] (demo_si umask_all) 0 demo_target (lit "/a") (lit "/b") LINK err h'.
Proof.
  split; [apply demo_plentiful|].
  apply (trfs_link_ok demo_world _ (demo_env_kernel_ok _) _ [] demo_info (demo_si umask_all) 0 _
    demo_dir demo_dentry demo_target 21 31 (Path 22 23) (Path 32 33) (lit "/a") (lit "/b")
    (demo_in_place_two umask_all));
    [done|by right|done|done|]. split; [done|]. by exists 24.
Defined.

Lemma trfs_rename_ok_witness :
  plentiful (demo_env (fun _ => 0)) /\
  exists err p1 p2 trap m' h',
    run (demo_env (fun _ => 0)) (trfs_rename demo_dir demo_dentry demo_dir demo_target) (demo_mem umask_all) [] = finished err m' h' /\
    (exists t, h' = [] ++ rename_entry 21 31 (Path 22 23) (Path 32 33) p1 p2 trap ++ t) /\ balanced [] h' /\
    logs_two (demo_env (fun _ => 0)) (demo_mem umask_all) [] (demo_si umask_all) 0 demo_target (lit "/a") (lit "/b") RENAME err h' /\
    if decide (trap = 22) then err = - EINVAL /\ lower_ops h' = []
    else if decide (trap = 32) then err = - ENOTEMPTY /\ lower_ops h' = []
    else exists tb, renamed_then demo_world demo_dir demo_dir p1 p2 err tb /\ performs_then [] h'
      [KEv (path_get (Path 22 23)) tt; KEv (path_get (Path 32 33)) tt; KEv (dget p1) tt;
       KEv (dget p2) tt; KEv (lock_rename p1 p2) trap]
      (KEv (vfs_rename (inode_of demo_world p1) 22 (inode_of demo_world p2) 32 0) err) tb.
Proof.
  split; [apply demo_plentiful|].
  by apply (trfs_rename_ok demo_world _ (demo_env_kernel_ok _) _ [] demo_info (demo_si umask_all) 0 _
    demo_dir demo_dentry demo_target 21 31 (Path 22 23) (Path 32 33) (lit "/a") (lit "/b")
    (demo_in_place_two umask_all)); [..|by right| |].
Defined.
