(* ===== verification/IoctlThms.v ===== *)
(** * The control device: what setting and reading the mask guarantees

    In every environment that behaves as documented, the two commands finish;
    what they answer, the calls they make and the memory they leave are fixed
    by what they were told.  The mask that one sets is the mask that the other
    reads, and the mask the logging of every handler obeys. *)

From S2P Require Import Prelude Prog TrTypes Kernel TrfsH Ledger Trdump TrdumpSpec Mount TrIoctl.
From S2P Require Import HandlerSpec HandlerThms Demo.

(** Every live super block of this file system is mounted. *)
Definition all_mounted (w : kworld) (m : kmem) : Prop :=
  forall sb, good_ptr sb -> strcmp_eq (type_name w sb) TRFS_NAME = true ->
    exists p si, has_sb m sb p si.

Definition with_umask (v : Z) (si : trfs_sb_info) : trfs_sb_info :=
  SbInfo (lower_sb si) (tr_lower_filep si) (tr_page si) v.

(** ** The calls of a command *)

(** The argument, and the super block of the mount point it names. *)
Definition opened (w : kworld) (arg : ptr) (v : Z) (mpath : bytes) (n f i : ptr) : khist :=
  [KEv (copy_from_user arg) (0, (v, mpath)); KEv (getname_kernel mpath) n;
   KEv (filp_open mpath O_RDONLY 0) f; KEv (load F_f_inode f) i;
   KEv (load F_i_sb i) (sb_of w i); KEv (s_type_name (sb_of w i)) (type_name w (sb_of w i))].

(** A command that ends before it has a super block of this file system. *)
Inductive refused (w : kworld) (arg : ptr) : Z -> khist -> Prop :=
| refused_copy u b : u <> 0 -> refused w arg (- EACCES) [KEv (copy_from_user arg) (u, b)]
| refused_name v mpath n : err_ptr n ->
    refused w arg (PTR_ERR n)
      [KEv (copy_from_user arg) (0, (v, mpath)); KEv (getname_kernel mpath) n]
| refused_open v mpath n f : IS_ERR n = false -> err_ptr f ->
    refused w arg (PTR_ERR f)
      [KEv (copy_from_user arg) (0, (v, mpath)); KEv (getname_kernel mpath) n;
       KEv (filp_open mpath O_RDONLY 0) f; KEv (putname n) tt]
| refused_fs v mpath n f i : IS_ERR n = false -> IS_ERR f = false ->
    strcmp_eq (type_name w (sb_of w i)) TRFS_NAME = false ->
    refused w arg (- EINVAL) (opened w arg v mpath n f i).

Lemma refused_neg w arg r tr : refused w arg r tr -> r < 0.
Proof. destruct 1; try done; by apply err_ptr_neg. Qed.

(** The rest of a command, on the super block of [i]. *)
Definition release_trace (p n f : ptr) : khist :=
  [KEv (mutex_lock p) tt; KEv (mutex_unlock p) tt; KEv (putname n) tt; KEv (filp_close f) tt].

#[export] Hint Unfold opened release_trace : ledger.

Section Ioctl.
Context (w : kworld) (ok : khist -> event ksig -> Prop) `{HK : !KernelSpec w ok}.
Local Abbreviation WP := (wp ok).

Lemma wp_with_mount arg k (Q : outcome ksig Z -> Prop) m h :
  all_mounted w m ->
  (forall r tr, refused w arg r tr -> Q (finished r m (h ++ tr))) ->
  (forall v mpath n f i p si, IS_ERR n = false -> IS_ERR f = false ->
     has_sb m (sb_of w i) p si ->
     WP (k (TrArg v mpath) n f (sb_of w i)) Q m (h ++ opened w arg v mpath n f i)) ->
  WP (with_mount arg k) Q m h.
Proof.
  intros Hall Href Hk. unfold with_mount. apply wp_kdo. intros [u [v mpath]] _.
  case_decide as Hu; [apply Href; by constructor|].
  assert (u = 0) as -> by lia. apply wp_kdo. intros n Hn%(kernel_spec (w := w)). simpl in Hn.
  destruct Hn as [He|Hn]; [rewrite (proj1 He), <- app_assoc; by apply Href; constructor|].
  assert (En : IS_ERR n = false) by auto with trfs. rewrite En. apply wp_check; [done|].
  apply wp_kdo. intros f Hf%(kernel_spec (w := w)). simpl in Hf.
  destruct Hf as [He|Hf].
  { rewrite (proj1 He). kstep. rewrite <- !app_assoc. by apply Href; constructor. }
  assert (Ef : IS_ERR f = false) by auto with trfs. rewrite Ef.
  apply wp_ld; [done|]. intros i Hi%(kernel_spec (w := w)).
  apply wp_ld; [done|]. intros sb [-> Hsb]%(kernel_spec (w := w)).
  apply wp_check; [done|]. apply wp_kdo. intros name ->%(kernel_spec (w := w)).
  destruct (strcmp_eq _ _) eqn:Es; rewrite <- !app_assoc; simpl.
  - destruct (Hall _ Hsb Es) as (p & si & Hp). by eapply Hk.
  - by apply Href; constructor.
Qed.

Lemma wp_lock_sb {A} sb p si (k : unit -> kprog A) Q m h :
  has_sb m sb p si -> WP (k tt) Q m (h ++ [KEv (mutex_lock p) tt]) -> WP (lock_sb sb ≫= k) Q m h.
Proof.
  intros Hs Hk. unfold lock_sb. kassoc. eapply wp_TRFS_SB; [done|]. kassoc.
  apply wp_check; [apply Hs|]. by kstep.
Qed.

Lemma wp_unlock_sb {A} sb p si (k : unit -> kprog A) Q m h :
  has_sb m sb p si -> WP (k tt) Q m (h ++ [KEv (mutex_unlock p) tt]) -> WP (unlock_sb sb ≫= k) Q m h.
Proof.
  intros Hs Hk. unfold unlock_sb. kassoc. eapply wp_TRFS_SB; [done|]. kassoc.
  apply wp_check; [apply Hs|]. by kstep.
Qed.

(** The memory after the mask of the super block at [p] was set. *)
Definition masked (m : kmem) (p : ptr) (v : Z) (si : trfs_sb_info) : kmem :=
  set_sb_infos (<[p := with_umask v si]> (sb_infos m)) m.

Lemma masked_has_sb m sb p v si : has_sb m sb p si -> has_sb (masked m p v si) sb p (with_umask v si).
Proof. intros (? & ? & ? & ?). split_and!; try done. apply lookup_insert_eq. Qed.

Lemma has_sb_inj m sb p p' si si' : has_sb m sb p si -> has_sb m sb p' si' -> p = p' /\ si = si'.
Proof. intros (_ & H1 & _ & H2) (_ & H1' & _ & H2'). by simplify_eq. Qed.

Lemma masked_mounted m sb p v si : has_sb m sb p si -> all_mounted w m -> all_mounted w (masked m p v si).
Proof.
  intros Hs Hall sb' Hg Ht. destruct (Hall _ Hg Ht) as (p' & si' & Hs').
  destruct (decide (p = p')) as [<-|Hne].
  - exists p, (with_umask v si). destruct Hs' as (? & ? & ? & _). split_and!; try done.
    apply lookup_insert_eq.
  - exists p', si'. destruct Hs' as (? & ? & ? & ?). split_and!; try done.
    simpl. by rewrite lookup_insert_ne.
Qed.

Lemma wp_set_sb_info {A} sb p si g (k : unit -> kprog A) Q m h :
  has_sb m sb p si -> WP (k tt) Q (set_sb_infos (<[p := g si]> (sb_infos m)) m) h ->
  WP (set_sb_info sb g ≫= k) Q m h.
Proof.
  intros Hs Hk. pose proof Hs as (_ & _ & Hp & Hsi). unfold set_sb_info. kassoc.
  eapply wp_TRFS_SB; [done|]. kassoc. eapply wp_heap_get; [done..|]. by eapply wp_heap_set.
Qed.

Lemma wp_store_mask {A} sb p si v (k : unit -> kprog A) Q m h :
  has_sb m sb p si ->
  WP (k tt) Q (masked m p v si) (h ++ [KEv (mutex_lock p) tt; KEv (mutex_unlock p) tt]) ->
  WP (store_mask sb v ≫= k) Q m h.
Proof.
  intros Hs Hk. unfold store_mask. kassoc. eapply wp_lock_sb; [done|].
  kassoc. eapply wp_set_sb_info; [done|]. eapply wp_unlock_sb; [by apply (masked_has_sb _ _ _ v)|].
  by rewrite <- app_assoc.
Qed.

Lemma wp_tr_set_bmap arg (Q : outcome ksig Z -> Prop) m h :
  all_mounted w m ->
  (forall r tr, refused w arg r tr -> Q (finished r m (h ++ tr))) ->
  (forall v mpath n f i p si, IS_ERR n = false -> IS_ERR f = false -> has_sb m (sb_of w i) p si ->
     Q (finished 0 (masked m p v si) (h ++ opened w arg v mpath n f i ++ release_trace p n f))) ->
  WP (tr_set_bmap arg) Q m h.
Proof.
  intros Hall Href HQ. unfold tr_set_bmap. apply wp_with_mount; [done..|].
  intros v mpath n f i p si Hn Hf Hs. eapply wp_store_mask; [done|].
  kstep. kstep. rewrite <- !app_assoc. by eapply HQ.
Qed.

Lemma wp_tr_get_bmap arg (Q : outcome ksig Z -> Prop) m h :
  all_mounted w m ->
  (forall r tr, refused w arg r tr -> Q (finished r m (h ++ tr))) ->
  (forall v mpath n f i p si u, IS_ERR n = false -> IS_ERR f = false -> has_sb m (sb_of w i) p si ->
     Q (finished (if decide (u <> 0) then - EACCES else 0) m
         (h ++ opened w arg v mpath n f i ++ release_trace p n f ++
          [KEv (copy_to_user arg (umask si)) u]))) ->
  WP (tr_get_bmap arg) Q m h.
Proof.
  intros Hall Href HQ. unfold tr_get_bmap. apply wp_with_mount; [done..|].
  intros v mpath n f i p si Hn Hf Hs. eapply wp_lock_sb; [done|]. apply wp_fmap.
  eapply wp_sb_info; [done|]. eapply wp_unlock_sb; [done|]. eapply wp_sb_info; [done|].
  kstep. kstep. apply wp_kdo. intros u _. rewrite <- !app_assoc. by eapply HQ.
Qed.
End Ioctl.

(** The answers an environment gives. *)
Definition answers (w : kworld) (env : kenv) (h : khist) (e : event ksig) : Prop :=
  kernel_ok w h e /\ ev_reply e = env h (ev_call e).
#[export] Instance answers_spec w env : KernelSpec w (answers w env).
Proof. constructor. by intros h e []. Qed.
Lemma answers_env w env : env_ok (kernel_ok w) env -> env_ok (answers w env) env.
Proof. intros Hw h c. by split; [apply Hw|]. Qed.

(** Setting a mask leaves file systems mounted. *)
Lemma masked_mounted_sb w m sb lock si pos buf sb' p si' v :
  mounted w m sb lock si pos buf -> has_sb m sb' p si' ->
  exists si2, mounted w (masked m p v si') sb lock si2 pos buf.
Proof.
  intros [(? & ? & ? & Hl) ? ? ? ? ? ?] (_ & _ & _ & Hp). destruct (decide (p = lock)) as [->|Hne].
  - assert (si' = si) as -> by congruence. exists (with_umask v si). constructor; try done.
    split_and!; try done. apply lookup_insert_eq.
  - exists si. constructor; try done. split_and!; try done. simpl. by rewrite lookup_insert_ne.
Qed.

(** Reading an event back. *)
Definition user_mask (e : event ksig) : option Z :=
  match e with
  | Ev c r => match c return kreply c -> option Z with
              | copy_from_user _ => fun r => Some (fst (snd r))
              | _ => fun _ => None
              end r
  end.
Definition named_sb (e : event ksig) : option ptr :=
  match e with Ev c _ => match c with s_type_name sb => Some sb | _ => None end end.

Ltac in_trace H f :=
  simpl in H; repeat (destruct H as [H|H]); try done; apply (f_equal f) in H; simpl in H; congruence.

(** ** The theorems *)

Section Theorems.
Context (w : kworld) (env : kenv) (Henv : env_ok (kernel_ok w) env).
Context (m : kmem) (h : khist) (Hall : all_mounted w m).

(** C28: setting the mask.  Either the command is refused and changes nothing,
    or it stores the caller's mask in the super block of the mount point, under
    the super block's lock, and closes what it opened. *)
Theorem tr_set_bmap_ok arg :
  exists r m' tr, run env (tr_set_bmap arg) m h = finished r m' (h ++ tr) /\
    (refused w arg r tr /\ m' = m \/
     r = 0 /\ tr ≡ₗ [] /\ exists v mpath n f i p si, has_sb m (sb_of w i) p si /\
       m' = masked m p v si /\ tr = opened w arg v mpath n f i ++ release_trace p n f).
Proof.
  by_wp (kernel_ok w). apply wp_tr_set_bmap with (w := w); [apply _|done|..].
  - intros r tr Hr. exists r, m, tr. auto.
  - intros v mpath n f i p si Hn Hf Hs. eexists 0, _, _. split; [done|]. right.
    split_and!; [done| |by exists v, mpath, n, f, i, p, si].
    autounfold with ledger. intros x. simpl. rewrite Hn, Hf. simpl. lia.
Qed.

(** What one command sets, the other reads: after both succeeded on the
    same super block, the caller gets the mask it gave. *)
Theorem ioctl_set_get arg arg' :
  exists r1 r2 m' t1 t2,
    run env (r1 ← tr_set_bmap arg; r2 ← tr_get_bmap arg'; mret (r1, r2)) m h =
      finished (r1, r2) m' ((h ++ t1) ++ t2) /\
    forall sb v b, r1 = 0 -> r2 = 0 ->
      In (KEv (copy_from_user arg) (0, (v, b))) t1 ->
      In (KEv (s_type_name sb) TRFS_NAME) t1 -> In (KEv (s_type_name sb) TRFS_NAME) t2 ->
      In (KEv (copy_to_user arg' v) 0) t2.
Proof.
  by_wp (kernel_ok w). rewrite wp_bind. apply wp_tr_set_bmap with (w := w); [apply _|done|..].
  - intros r1 t1 Href. rewrite wp_bind. apply wp_tr_get_bmap with (w := w); [apply _|done|..].
    + intros r2 t2 _. exists r1, r2, m, t1, t2. split; [done|]. intros sb v b ->.
      by apply refused_neg in Href.
    + intros v2 mpath2 n2 f2 i2 p2 si2 u _ _ _. eexists r1, _, m, t1, _. split; [done|]. intros sb v b ->.
      by apply refused_neg in Href.
  - intros v mpath n f i p si Hn Hf Hs. rewrite wp_bind.
    apply wp_tr_get_bmap with (w := w); [apply _|by eapply masked_mounted|..].
    + intros r2 t2 Href. eexists 0, r2, _, _, t2. split; [done|]. intros sb v' b _ ->.
      by apply refused_neg in Href.
    + intros v2 mpath2 n2 f2 i2 p2 si2 u _ _ Hs2. eexists 0, _, _, _, _. split; [done|].
      intros sb v' b _ Hu Hin Hsb1 Hsb2. case_decide; [done|].
      assert (v' = v) as -> by in_trace Hin user_mask.
      assert (sb = sb_of w i) as -> by in_trace Hsb1 named_sb.
      assert (sb_of w i = sb_of w i2) as E by in_trace Hsb2 named_sb.
      rewrite <- E in Hs2. pose proof (masked_has_sb _ _ _ v _ Hs) as Hs'.
      destruct (has_sb_inj _ _ _ _ _ _ Hs2 Hs') as [-> ->].
      assert (u = 0) as -> by lia. apply in_or_app. right. simpl. auto 10.
Qed.

(** On a mount point of another file system both commands answer [EINVAL],
    and neither the name nor the file they took is given back. *)
Theorem ioctl_wrong_fs arg v mpath cmd :
  (forall h', env h' (copy_from_user arg) = (0, (v, mpath))) ->
  (forall h', IS_ERR (env h' (getname_kernel mpath)) = false) ->
  (forall h', IS_ERR (env h' (filp_open mpath O_RDONLY 0)) = false) ->
  (forall h1 h2, let f := env h1 (filp_open mpath O_RDONLY 0) in
     strcmp_eq (type_name w (sb_of w (env h2 (load F_f_inode f)))) TRFS_NAME = false) ->
  cmd = TR_GET_BMAP \/ cmd = TR_SET_BMAP ->
  exists n f h',
    run env (tr_ioctl 0 cmd arg) m h = finished (- EINVAL) m h' /\
    net h' (RName n) = net h (RName n) + 1 /\ net h' (ROpen f) = net h (ROpen f) + 1.
Proof.
  intros Hcopy Hname Hopen Hfs Hcmd. pose proof (answers_env w env Henv).
  by_wp (answers w env).
  assert (Hrun : forall k, wp (answers w env) (with_mount arg k) (fun o => exists n f h',
    o = finished (- EINVAL) m h' /\ net h' (RName n) = net h (RName n) + 1 /\
    net h' (ROpen f) = net h (ROpen f) + 1) m h).
  { intros k. unfold with_mount. apply wp_kdo. intros [u [v' mp]] [_ E]. simpl in E.
    rewrite Hcopy in E. injection E as -> -> ->. case_decide; [done|]. apply wp_kdo. intros n [Hn En]. simpl in Hn, En.
    assert (Hg : IS_ERR n = false) by (by rewrite En, Hname). rewrite Hg.
    destruct Hn as [[]|Hn]; [congruence|]. apply wp_check; [done|].
    apply wp_kdo. intros f [Hf Ef]. simpl in Hf, Ef.
    assert (Hgf : IS_ERR f = false) by (by rewrite Ef, Hopen). rewrite Hgf.
    destruct Hf as [[]|Hf]; [congruence|]. apply wp_ld; [done|].
    intros i [Hi Ei]. simpl in Hi, Ei. apply wp_ld; [done|].
    intros sb [[-> Hsb] _]. apply wp_check; [done|].
    apply wp_kdo. intros name [-> _].
    assert (Hs : strcmp_eq (type_name w (sb_of w i)) TRFS_NAME = false) by (rewrite Ei, Ef; apply Hfs).
    rewrite Hs. simpl. exists n, f. eexists. split; [done|].
    rewrite !net_app. simpl. rewrite Hg, Hgf. simpl. rewrite !hits_refl, !hits_ne by done. lia. }
  destruct Hcmd as [->| ->]; apply Hrun.
Qed.

(** The mask that was set decides what is logged from then on: after the
    command succeeded on the super block of an operation, the operation is
    logged if and only if the caller's mask selects it. *)
Lemma set_mask_filters arg lock si pos buf dir t dentry flags perm err aux n path apath :
  mounted w m (sb_of w dir) lock si pos buf -> good_ptr dir -> logged t ->
  path_of w dentry = Some path -> (aux_is_path t = true -> path_of w (b_ptr aux) = Some apath) ->
  op_fits t path aux n ->
  exists r m' t1 t2,
    run env (r ← tr_set_bmap arg;
             log_op (Inode.i_sb dir) (rec_type_val t) dentry flags perm err aux n;; mret r) m h =
      finished r m' ((h ++ t1) ++ t2) /\
    (r = 0 -> exists v b, In (KEv (copy_from_user arg) (0, (v, b))) t1) /\
    forall v b, r = 0 -> In (KEv (copy_from_user arg) (0, (v, b))) t1 ->
      In (KEv (s_type_name (sb_of w dir)) TRFS_NAME) t1 ->
      plentiful env -> pos = Z.of_nat (length (log_image (tr_lower_filep si) h)) ->
      log_effect (with_umask v si) t (int32 (trecord_id m + 1)) flags perm err path aux n apath
        h ((h ++ t1) ++ t2).
Proof.
  intros Hm Hd Ht Hp Ha Hfit. pose proof (kernel_ok_if_env _ _ Henv).
  by_wp (kernel_ok_if w (plentiful env)). rewrite wp_bind.
  assert (Hlog : forall r m1 si' t1 (Q : outcome ksig Z -> Prop),
    mounted w m1 (sb_of w dir) lock si' pos buf ->
    (forall m' t2, (plentiful env -> pos = Z.of_nat (length (log_image (tr_lower_filep si') (h ++ t1))) ->
       log_effect si' t (int32 (trecord_id m1 + 1)) flags perm err path aux n apath (h ++ t1)
         ((h ++ t1) ++ t2)) ->
       Q (finished r m' ((h ++ t1) ++ t2))) ->
    wp (kernel_ok_if w (plentiful env))
      (log_op (Inode.i_sb dir) (rec_type_val t) dentry flags perm err aux n;; mret r) Q m1 (h ++ t1)).
  { intros r m1 si' t1 Q Hm1 HQ.
    eapply (wp_log_block w _ (plentiful env) (kernel_ok_if_res w _)); [|apply calls_i_sb|done..|].
    - refine (reads_i_sb w _ _ _). done.
    - intros t2 m' _ _ Heff. by apply HQ. }
  apply wp_tr_set_bmap with (w := w); [apply _|done|..].
  - intros r t1 Href. eapply Hlog; [done|]. intros m' t2 _. exists r, m', t1, t2.
    apply refused_neg in Href. split_and!; [done|lia|]. intros v b ->. lia.
  - intros v mpath nm f i p si' Hn Hf Hs.
    assert (Hun : unlogged (opened w arg v mpath nm f i ++ release_trace p nm f)) by done.
    pose proof (masked_mounted_sb _ _ _ _ _ _ _ _ _ _ v Hm Hs) as [si2 Hm2].
    eapply Hlog; [exact Hm2|].
    intros m' t2 Heff. eexists 0, _, _, t2. split; [done|]. split; [exists v, mpath; by left|].
    intros v' b _ Hin Hsb Hpl Hpos.
    assert (v' = v) as -> by in_trace Hin user_mask.
    assert (sb_of w dir = sb_of w i) as E by in_trace Hsb named_sb.
    rewrite E in *. destruct (has_sb_inj _ _ _ _ _ _ Hs (mt_sb _ _ _ _ _ _ _ Hm)) as [-> ->].
    destruct (has_sb_inj _ _ _ _ _ _ (mt_sb _ _ _ _ _ _ _ Hm2) (masked_has_sb _ _ _ v _ Hs)) as [_ ->].
    rewrite <- (app_nil_r ((h ++ _) ++ t2)).
    eapply log_effect_unlogged; [exact Hun|done|]. apply Heff; [done|]. simpl.
    by rewrite log_image_unlogged.
Qed.
End Theorems.

(** ** A concrete run *)

Lemma demo_all_mounted mask : all_mounted demo_world (demo_mem mask).
Proof.
  intros sb _ Ht. simpl in Ht. unfold demo_type in Ht. case_decide as Hs; [|done].
  subst sb. by exists demo_info, (demo_si mask).
Qed.

(** Names and files can be had, and the mount point opened is [f]. *)
Definition demo_open (f : ptr) (c : kfun) : Z :=
  match c with getname_kernel _ => 70 | filp_open _ _ _ => f | _ => 0 end.
Local Abbreviation demo_ctl := (demo_env (demo_open 71)).

Lemma tr_set_bmap_ok_witness :
  exists r m' tr, run demo_ctl (tr_set_bmap 9) (demo_mem 0) [] = finished r m' ([] ++ tr) /\
    (refused demo_world 9 r tr /\ m' = demo_mem 0 \/
     r = 0 /\ tr ≡ₗ [] /\ exists v mpath n f i p si, has_sb (demo_mem 0) (sb_of demo_world i) p si /\
       m' = masked (demo_mem 0) p v si /\ tr = opened demo_world 9 v mpath n f i ++ release_trace p n f).
Proof.
  exact (tr_set_bmap_ok demo_world _ (demo_env_kernel_ok _) _ [] (demo_all_mounted 0) 9).
Defined.

Lemma ioctl_set_get_witness :
  (exists m' h', run demo_ctl (r1 ← tr_set_bmap 9; r2 ← tr_get_bmap 8; mret (r1, r2)) (demo_mem 0) [] =
     finished (0, 0) m' h') /\
  exists r1 r2 m' t1 t2,
    run demo_ctl (r1 ← tr_set_bmap 9; r2 ← tr_get_bmap 8; mret (r1, r2)) (demo_mem 0) [] =
      finished (r1, r2) m' (([] ++ t1) ++ t2) /\
    forall sb v b, r1 = 0 -> r2 = 0 ->
      In (KEv (copy_from_user 9) (0, (v, b))) t1 ->
      In (KEv (s_type_name sb) TRFS_NAME) t1 -> In (KEv (s_type_name sb) TRFS_NAME) t2 ->
      In (KEv (copy_to_user 8 v) 0) t2.
Proof.
  split; [eexists _, _; vm_compute; reflexivity|].
  exact (ioctl_set_get demo_world _ (demo_env_kernel_ok _) _ [] (demo_all_mounted 0) 9 8).
Defined.

Lemma ioctl_wrong_fs_witness :
  exists n f h',
    run (demo_env (demo_open demo_foreign)) (tr_ioctl 0 TR_SET_BMAP 9) (demo_mem 0) [] =
      finished (- EINVAL) (demo_mem 0) h' /\
    net h' (RName n) = net [] (RName n) + 1 /\ net h' (ROpen f) = net [] (ROpen f) + 1.
Proof.
  refine (ioctl_wrong_fs demo_world _ (demo_env_kernel_ok _) _ [] 9 5 (lit "/m")
    TR_SET_BMAP _ _ _ _ _); try done; by right.
Defined.
