(* ===== verification/TrctlThms.v ===== *)
(** * The mask tool: what its arguments mean

    The masks the tool accepts and their values, and the calls it makes. *)

From S2P Require Import Prelude Prog TrTypes Mount TrIoctl User Trctl.

(** ** Positional notation *)

Definition digit (c : Z) : Z := default 0 (xdigit c).
Definition is_digit (c : Z) : Prop := is_Some (xdigit c).

Fixpoint hex_value (s : bytes) : Z :=
  match s with
  | [] => 0
  | c :: s => digit c * 16 ^ Z.of_nat (length s) + hex_value s
  end.

Lemma xdigit_range c d : xdigit c = Some d -> 0 <= d < 16 /\ 48 <= c <= 102.
Proof. unfold xdigit. intros H. repeat case_decide; simplify_eq; lia. Qed.

Lemma isxdigit_spec c : isxdigit c = true <-> is_digit c.
Proof. unfold isxdigit, is_digit. by destruct (xdigit c). Qed.

Lemma forallb_digits s : forallb isxdigit s = true <-> Forall is_digit s.
Proof.
  rewrite forallb_forall, List.Forall_forall. by setoid_rewrite isxdigit_spec.
Qed.

Lemma hex_value_range s : Forall is_digit s -> 0 <= hex_value s < 16 ^ Z.of_nat (length s).
Proof.
  induction 1 as [|c s [d Hd] _ IH]; [done|]. apply xdigit_range in Hd as Hr.
  cbn [hex_value length]. unfold digit. rewrite Hd. simpl.
  rewrite Nat2Z.inj_succ, Z.pow_succ_r by lia. nia.
Qed.

Lemma hex_digits_value acc s : Forall is_digit s ->
  hex_digits acc s = acc * 16 ^ Z.of_nat (length s) + hex_value s.
Proof.
  intros Hs. revert acc. induction Hs as [|c s [d Hd] _ IH]; intros acc; simpl hex_digits; [simpl; lia|].
  rewrite Hd, IH. cbn [hex_value length]. unfold digit. rewrite Hd. simpl default.
  rewrite Nat2Z.inj_succ, Z.pow_succ_r by lia. lia.
Qed.

Definition is_x (c : Z) : Prop := c = 120 \/ c = 88.

Lemma tolower_x c : tolower c = 120 <-> is_x c.
Proof. unfold tolower, is_x. case_decide; lia. Qed.

Lemma strtoul16_hex x ds : is_x x -> Forall is_digit ds -> (length ds <= 16)%nat ->
  strtoul16 (48 :: x :: ds) = hex_value ds.
Proof.
  intros Hx Hds Hlen. pose proof (hex_value_range ds Hds).
  assert (16 ^ Z.of_nat (length ds) <= 16 ^ 16) by (apply Z.pow_le_mono_r; lia).
  unfold strtoul16, char_at. cbn [lookup list_lookup default from_option id].
  rewrite bool_decide_true, (bool_decide_true (tolower x = 120)) by (done || by apply tolower_x).
  unfold ULONG_MAX. destruct ds as [|c ds].
  - by destruct Hx as [-> | ->].
  - inversion Hds as [|? ? Hc]; subst. simpl.
    change (digit c * 16 ^ Z.of_nat (length ds) + hex_value ds) with (hex_value (c :: ds)).
    rewrite (proj2 (isxdigit_spec c) Hc). rewrite hex_digits_value by done. lia.
Qed.

Lemma isvalidhex_spec s :
  isvalidhex s = true <->
  exists x ds, s = 48 :: x :: ds /\ is_x x /\ Forall is_digit ds /\ (length ds <= 16)%nat.
Proof.
  unfold isvalidhex. split.
  - case_decide; [done|]. rewrite !andb_true_iff, !bool_decide_eq_true, forallb_digits.
    intros [[H0 H1] Hds]. destruct s as [|c [|x ds]]; try done. unfold char_at in *. simpl in *. subst c.
    exists x, ds. split_and!; [done|by apply tolower_x|done|lia].
  - intros (x & ds & -> & Hx & Hds & Hlen). simpl length. rewrite decide_False by lia.
    rewrite !andb_true_iff, !bool_decide_eq_true, forallb_digits. by split_and!; [|apply tolower_x|].
Qed.

Lemma hex_chars x ds : is_x x -> Forall is_digit ds -> Forall is_char (48 :: x :: ds).
Proof.
  intros Hx Hds. unfold is_char. constructor; [lia|]. constructor; [destruct Hx; lia|].
  eapply Forall_impl; [exact Hds|]. intros c [d Hd]. apply xdigit_range in Hd. lia.
Qed.

Lemma mask_arg_hex x ds : is_x x -> Forall is_digit ds -> (length ds <= 16)%nat ->
  mask_arg (48 :: x :: ds) = Some (hex_value ds).
Proof.
  intros Hx Hds Hlen. unfold mask_arg, strcmp_eq.
  rewrite (cstr_id (48 :: x :: ds)) by by apply hex_chars.
  rewrite !bool_decide_false by done.
  rewrite (proj2 (isvalidhex_spec _)) by by exists x, ds. by rewrite strtoul16_hex.
Qed.

(** ** The theorems *)

(** C30: the masks the tool accepts, and what they mean: [all], [none], or the
    prefix 0x with at most sixteen hexadecimal digits (none at all is zero),
    whose value is the positional one; the value always fits the mask. *)
Theorem mask_arg_spec s v : Forall is_char s ->
  mask_arg s = Some v <->
    s = lit "all" /\ v = 2 ^ 64 - 1 \/ s = lit "none" /\ v = 0 \/
    exists x ds, s = 48 :: x :: ds /\ is_x x /\ Forall is_digit ds /\ (length ds <= 16)%nat /\
      v = hex_value ds /\ 0 <= v < 2 ^ 64.
Proof.
  intros Hs. split.
  - unfold mask_arg, strcmp_eq. rewrite (cstr_id s) by done.
    case_bool_decide as Ha; [intros [= <-]; by left|].
    case_bool_decide as Hn; [intros [= <-]; right; by left|].
    destruct (isvalidhex s) eqn:Hv; [|done]. intros [= <-].
    apply isvalidhex_spec in Hv as (x & ds & -> & Hx & Hds & Hlen).
    right; right. exists x, ds. rewrite strtoul16_hex by done.
    pose proof (hex_value_range ds Hds).
    assert (16 ^ Z.of_nat (length ds) <= 16 ^ 16) by (apply Z.pow_le_mono_r; lia).
    split_and!; try done; lia.
  - intros [[-> ->]|[[-> ->]|(x & ds & -> & Hx & Hds & Hlen & -> & _)]]; [done..|].
    by apply mask_arg_hex.
Qed.

Lemma mask_arg_spec_witness :
  mask_arg (lit "0xFf") = Some 255 <->
    lit "0xFf" = lit "all" /\ 255 = 2 ^ 64 - 1 \/ lit "0xFf" = lit "none" /\ 255 = 0 \/
    exists x ds, lit "0xFf" = 48 :: x :: ds /\ is_x x /\ Forall is_digit ds /\ (length ds <= 16)%nat /\
      255 = hex_value ds /\ 0 <= 255 < 2 ^ 64.
Proof. apply (mask_arg_spec (lit "0xFf") 255). repeat constructor; unfold is_char; lia. Defined.

(** The text of a number in the format [%lx], in at most [n] digits. *)
Definition hex_char (d : Z) : Z := if decide (d < 10) then 48 + d else 87 + d.
Fixpoint to_hex (n : nat) (v : Z) (acc : bytes) : bytes :=
  match n with
  | O => acc
  | S n =>
      if decide (v < 16) then hex_char v :: acc
      else to_hex n (v / 16) (hex_char (v mod 16) :: acc)
  end.

Lemma hex_char_digit d : 0 <= d < 16 -> xdigit (hex_char d) = Some d.
Proof. unfold hex_char, xdigit. intros Hd. repeat case_decide; f_equal; lia. Qed.

Lemma to_hex_spec n v acc : 0 <= v < 16 ^ Z.of_nat n -> (0 < n)%nat -> Forall is_digit acc ->
  exists ds, to_hex n v acc = ds ++ acc /\ (length ds <= n)%nat /\ Forall is_digit ds /\
    hex_value (ds ++ acc) = v * 16 ^ Z.of_nat (length acc) + hex_value acc.
Proof.
  revert v acc. induction n as [|n IH]; intros v acc Hv Hn Hacc; [lia|].
  cbn [to_hex]. case_decide as H16.
  - exists [hex_char v]. assert (E : xdigit (hex_char v) = Some v) by (apply hex_char_digit; lia).
    split_and!; [done|simpl; lia|by repeat constructor; exists v|].
    simpl. unfold digit. by rewrite E.
  - rewrite Nat2Z.inj_succ, Z.pow_succ_r in Hv by lia.
    set (d := v mod 16). pose proof (Z.mod_pos_bound v 16 ltac:(lia)) as Hd.
    assert (E : xdigit (hex_char d) = Some d) by by apply hex_char_digit.
    destruct (IH (v / 16) (hex_char d :: acc)) as (ds & -> & Hl & Hds & Hval).
    { split; [by apply Z.div_pos; lia|apply Z.div_lt_upper_bound; lia]. }
    { destruct n; [simpl in Hv|]; lia. }
    { constructor; [by exists d|done]. }
    exists (ds ++ [hex_char d]). rewrite <- app_assoc. split_and!; [done| | |].
    + rewrite length_app. simpl. lia.
    + apply Forall_app. split; [done|]. constructor; [by exists d|done].
    + simpl. rewrite Hval. cbn [hex_value length]. unfold digit. rewrite E. simpl default.
      rewrite Nat2Z.inj_succ, Z.pow_succ_r by lia.
      pose proof (Z.div_mod v 16 ltac:(lia)). unfold d. nia.
Qed.

(** C31: the mask that the tool prints can be given back to it: for every mask,
    its text is accepted and means that mask. *)
Theorem mask_roundtrip v : 0 <= v < 2 ^ 64 -> mask_arg (lit "0x" ++ to_hex 16 v []) = Some v.
Proof.
  intros Hv. destruct (to_hex_spec 16 v []) as (ds & -> & Hl & Hds & Hval); [done|lia|done|].
  rewrite app_nil_r in *. simpl in *. rewrite mask_arg_hex; [|by left|done|done].
  rewrite Hval. f_equal. lia.
Qed.

Lemma mask_roundtrip_witness :
  0 <= 3735928559 < 2 ^ 64 /\ mask_arg (lit "0x" ++ to_hex 16 3735928559 []) = Some 3735928559.
Proof. split; [lia|]. apply (mask_roundtrip 3735928559). lia. Defined.

(** ** A run of the tool *)

Abbreviation UEv c r := (Ev (S := usig) c r).

Definition device_trace (mnt : bytes) (fd : Z) : uhist :=
  [UEv (u_print (L_mount_path mnt)) tt; UEv (u_open TRCTL_FILEPATH O_RDWR 0) fd].

(** What a run with these arguments may answer and do; what the bitmap holds
    before a read is whatever was on the stack. *)
Inductive tool_run (junk : Z) : list bytes -> Z -> uhist -> Prop :=
| run_usage argv : length argv <> 2%nat ->
    (forall p mask mnt, argv = [p; mask; mnt] -> mask_arg mask = None) ->
    tool_run junk argv 1 [UEv (u_print L_usage) tt]
| run_no_device argv mnt fd : last argv = Some mnt -> fd < 0 ->
    tool_run junk argv fd (device_trace mnt fd)
| run_get p mnt fd r v c : 0 <= fd ->
    tool_run junk [p; mnt] 0
      (device_trace mnt fd ++ [UEv (u_ioctl fd TR_GET_BMAP junk mnt) (r, v)] ++
       (if decide (r = -1) then [] else [UEv (u_print (L_bitmap v)) tt]) ++ [UEv (u_close fd) c])
| run_set p mask mnt fd v r c : 0 <= fd -> mask_arg mask = Some v ->
    tool_run junk [p; mask; mnt] 0
      (device_trace mnt fd ++ [UEv (u_ioctl fd TR_SET_BMAP v mnt) r; UEv (u_close fd) c]).

Lemma trctl_runs (env : uenv) junk argv m h :
  exists code t, run env (trctl_main junk argv) m h = exited code m (h ++ t) /\
    tool_run junk argv code t.
Proof.
  set (ok := fun (_ : uhist) (_ : event usig) => True).
  assert (Henv : env_ok ok env) by done. by_wp ok.
  unfold trctl_main. destruct (parse_args junk argv) as [[o args]|] eqn:Epa.
  - assert (Hmnt : last argv = Some (mntpath args)).
    { destruct argv as [|? [|? [|? [|? ?]]]]; simpl in *; try done; [by simplify_eq|].
      destruct (mask_arg _); by simplify_eq. }
    intros [] _ fd _. simpl. case_decide as Hfd; simpl.
    { exists fd, (device_trace (mntpath args) fd). rewrite <- app_assoc.
      by split; [|apply run_no_device]. }
    destruct argv as [|p [|a1 [|mnt [|? ?]]]]; try done; simpl in Epa.
    + simplify_eq. intros [r v] _. simpl. case_bool_decide as Hr; simpl; [|intros [] _]; intros c _;
        eexists 0, _; rewrite <- !app_assoc; (split; [reflexivity|]);
        pose proof (run_get junk p a1 fd r v c ltac:(lia)) as Hrun.
      * by rewrite decide_True in Hrun.
      * by rewrite decide_False in Hrun.
    + destruct (mask_arg a1) as [v|] eqn:Ev; [|done]. simplify_eq. intros r _ c _.
      eexists 0, _. rewrite <- !app_assoc. split; [reflexivity|]. by apply run_set; [lia|].
  - intros [] _. exists 1, [UEv (u_print L_usage) tt]. split; [done|].
    apply run_usage.
    + by destruct argv as [|? [|? [|? ?]]].
    + intros p mask mnt ->. simpl in Epa. by destruct (mask_arg mask).
Qed.

(** C29: whatever the system answers, the tool finishes without a fault; it
    touches the device only with arguments that make sense, sends it one
    command, the one the arguments ask for with the mask they mean, prints the
    mask it read, and closes the device; and it exits with 0 whatever the
    command answered. *)
Theorem trctl_main_ok (env : uenv) junk argv m h :
  exists code t, run env (trctl_main junk argv) m h = exited code m (h ++ t) /\
    tool_run junk argv code t.
Proof. apply trctl_runs. Qed.
