(* ===== verification/Control.v ===== *)
(** * From the tool to the log

    A user sets a mask with [trctl]; the tool hands it to the device; the device
    stores it in the super block of the mount point; from then on the handlers
    log what it selects. *)

From S2P Require Import Prelude Prog TrTypes Kernel TrfsH Ledger Trdump TrdumpSpec Mount TrIoctl User Trctl.
From S2P Require Import HandlerSpec HandlerThms IoctlThms TrctlThms Demo.

(** The commands a history of the tool sends to the device. *)
Definition commands (t : uhist) : list (Z * Z * tr_arg_t) :=
  omap (fun e : event usig => match (ev_call e : ucallee) with
                 | u_ioctl fd cmd b mnt => Some (fd, cmd, TrArg b mnt)
                 | _ => None
                 end) t.

Lemma tool_commands junk p mask mnt code t c :
  tool_run junk [p; mask; mnt] code t -> c ∈ commands t ->
  exists fd v, c = (fd, TR_SET_BMAP, TrArg v mnt) /\ mask_arg mask = Some v.
Proof.
  intros Hr Hc. remember [p; mask; mnt] as argv eqn:E.
  destruct Hr as [argv Hn Hm|argv mnt' fd Hl Hfd| |p' mask' mnt' fd v r c' Hfd Hv]; subst; simpl in Hc; try done.
  - by apply elem_of_nil in Hc.
  - by apply elem_of_nil in Hc.
  - injection E as -> -> ->. apply list_elem_of_singleton in Hc as ->. eauto.
Qed.

(** C22: whatever mask a user gives to [trctl] for a mount point, every command
    the tool sends to the device sets the mask its argument means; and when the
    device, told so, answers that it has done it for the file system of an
    operation, the operation is logged if and only if that mask selects it. *)
Theorem trctl_controls_log (env : kenv) (uw : uenv) w m h lock si pos buf dir t dentry flags perm err aux n path
    apath junk p mask mnt um uh arg :
  env_ok (kernel_ok w) env -> all_mounted w m -> mounted w m (sb_of w dir) lock si pos buf ->
  good_ptr dir -> logged t -> path_of w dentry = Some path ->
  (aux_is_path t = true -> path_of w (b_ptr aux) = Some apath) -> op_fits t path aux n ->
  exists code tu, run uw (trctl_main junk [p; mask; mnt]) um uh = exited code um (uh ++ tu) /\
    forall fd cmd a, (fd, cmd, a) ∈ commands tu ->
      (forall h', env h' (copy_from_user arg) = (0, (bitmap a, mntpath a))) ->
      exists v r m' t1 t2, mask_arg mask = Some v /\
        run env (r ← tr_ioctl fd cmd arg;
                 log_op (Inode.i_sb dir) (rec_type_val t) dentry flags perm err aux n;; mret r) m h =
          finished r m' ((h ++ t1) ++ t2) /\
        (r = 0 -> In (KEv (s_type_name (sb_of w dir)) TRFS_NAME) t1 ->
         plentiful env -> pos = Z.of_nat (length (log_image (tr_lower_filep si) h)) ->
         log_effect (with_umask v si) t (int32 (trecord_id m + 1)) flags perm err path aux n apath
           h ((h ++ t1) ++ t2)).
Proof.
  intros Henv Hall Hm Hd Ht Hp Ha Hfit.
  destruct (trctl_runs uw junk [p; mask; mnt] um uh) as (code & tu & E & Hr).
  exists code, tu. split; [done|]. intros fd cmd a Hc Hcopy.
  destruct (tool_commands _ _ _ _ _ _ _ Hr Hc) as (fd' & v & [= -> -> ->] & Hv). simpl in Hcopy.
  destruct (set_mask_filters w env Henv m h Hall arg lock si pos buf dir t dentry flags perm err aux n path apath
    Hm Hd Ht Hp Ha Hfit) as (r & m' & t1 & t2 & Erun & Hcp & Heff).
  exists v, r, m', t1, t2. split; [done|]. split; [exact Erun|]. intros -> Hsb Hpl Hpos.
  destruct (Hcp eq_refl) as (v' & b & Hin).
  assert (Ha' : answered env h (t1 ++ t2)) by (eapply run_answered; rewrite Erun; simpl; by rewrite app_assoc).
  pose proof Hin as (u1 & u2 & ->)%in_split. rewrite <- app_assoc in Ha'.
  pose proof (Ha' u1 _ (u2 ++ t2) eq_refl) as Eq. simpl in Eq. rewrite Hcopy in Eq. injection Eq as -> ->.
  by eapply Heff.
Qed.

(** A mask of one bit, the one of directories made: making one is logged. *)
Definition demo_tool : uenv := fun _ c =>
  match c return ureply c with
  | u_open _ _ _ => 3
  | u_ioctl _ _ b _ => (0, b)
  | u_malloc _ => (0, []) | u_read _ _ => (0, []) | u_getcwd _ => None | u_stat _ => None
  | u_free _ | u_print _ => tt
  | _ => 0
  end.

Definition demo_ctl : kenv := fun h c =>
  match c return kreply c -> kreply c with
  | copy_from_user _ => fun _ => (0, (4, lit "/m"))
  | _ => fun r => r
  end (demo_env (demo_open 71) h c).

Lemma demo_ctl_ok : env_ok (kernel_ok demo_world) demo_ctl.
Proof. intros h c. pose proof (demo_env_kernel_ok (demo_open 71) h c). by destruct c. Qed.

Lemma demo_ctl_plentiful : plentiful demo_ctl.
Proof. intros h c. pose proof (demo_plentiful (demo_open 71) h c). by destruct c. Qed.

Lemma trctl_controls_log_witness :
  plentiful demo_ctl /\
  exists code tu, run demo_tool (trctl_main 0 [lit "trctl"; lit "0x4"; lit "/m"]) ∅ [] = exited code ∅ ([] ++ tu) /\
    commands tu = [(3, TR_SET_BMAP, TrArg 4 (lit "/m"))] /\
    exists v r m' t1 t2, mask_arg (lit "0x4") = Some v /\
      run demo_ctl (r ← tr_ioctl 3 TR_SET_BMAP 9;
                    log_op (Inode.i_sb demo_dir) TR_DCREAT demo_dentry 0 493 0 nullbuf 0;; mret r)
        (demo_mem 0) [] = finished r m' (([] ++ t1) ++ t2) /\
      (r = 0 -> In (KEv (s_type_name demo_sb) TRFS_NAME) t1 ->
       plentiful demo_ctl -> 0 = Z.of_nat (length (log_image demo_log [])) ->
       log_effect (with_umask v (demo_si 0)) DCREAT 0 0 493 0 (lit "/a") nullbuf 0 [] [] (([] ++ t1) ++ t2)).
Proof.
  split; [apply demo_ctl_plentiful|].
  destruct (trctl_controls_log demo_ctl demo_tool demo_world (demo_mem 0) [] demo_info (demo_si 0) 0 _
    demo_dir DCREAT demo_dentry 0 493 0 nullbuf 0 (lit "/a") [] 0 (lit "trctl") (lit "0x4") (lit "/m") ∅ [] 9
    demo_ctl_ok (demo_all_mounted 0) (demo_mounted 0) ltac:(done) ltac:(done) ltac:(done) ltac:(done) ltac:(done))
    as (code & tu & E & Hc).
  exists code, tu. split; [exact E|].
  assert (commands tu = [(3, TR_SET_BMAP, TrArg 4 (lit "/m"))]) as Hcs.
  { pose proof E as E'. vm_compute in E'. by injection E' as _ <-. }
  split; [exact Hcs|]. apply (Hc 3 TR_SET_BMAP (TrArg 4 (lit "/m"))); [rewrite Hcs; set_solver|done].
Defined.
