(* ===== verification/MountThms.v ===== *)
(** * Mounting and unmounting: what they take and give back

    A mount either fails early and gives back everything, or succeeds and
    establishes the state the logging code needs, or, when the kernel refuses an
    object after the log file was opened, dies in its own clean-up code.  What a
    mount took, unmounting gives back. *)

From S2P Require Import Prelude Prog TrTypes Kernel TrfsH Lookup Ledger Trdump TrdumpSpec Super.
From S2P Require Import Mount HandlerSpec HandlerThms IoctlThms Demo.

(** The flags a log file is opened with. *)
Definition log_flags : Z := Z.lor (Z.lor O_CREAT O_RDWR) O_EXCL.

Definition acceptable (tr : khist) : Prop := Forall (fun e => ~ refusal e) tr.

Lemma acceptable_app t u : acceptable t -> acceptable u -> acceptable (t ++ u).
Proof. intros. by apply Forall_app. Qed.

Ltac accepted :=
  let H := fresh in intros H; simpl in H;
  first [done | exact (good_ptr_nonnull _ ltac:(eassumption) H) | by destruct H].
Ltac acceptable :=
  repeat first [apply acceptable_app | assumption | apply Forall_nil; exact I
               | apply Forall_cons; split; [accepted|]].

Section Steps.
Context (w : kworld) (ok : khist -> event ksig -> Prop) `{HK : !KernelSpec w ok}.
Local Abbreviation WP := (wp ok).

(** Opening the log file: the option names it, and nothing but the file is
    kept. *)
Lemma wp_create_trfile {A} raw (k : ptr -> kprog A) Q m h :
  (forall e tr, err_ptr e -> tr ≡ₗ [] -> acceptable tr -> WP (k e) Q m (h ++ tr)) ->
  (forall f name tr, good_ptr f -> name_index (b_data raw) = TFILE_LEN ->
     name = cstr (drop 6 (b_data raw)) ->
     tr ≡ₗ [KEv (filp_open name log_flags S_IRUSR) f] ->
     In (KEv (filp_open name log_flags S_IRUSR) f) tr -> acceptable tr ->
     WP (k f) Q (set_f_pos (<[f := 0]> (f_pos m)) m) (h ++ tr)) ->
  WP (create_trfile raw ≫= k) Q m h.
Proof.
  intros Herr Hk. unfold create_trfile. case_decide.
  { kstep. rewrite <- (app_nil_r h). apply Herr; [by apply err_ptr_ERR_PTR|done|acceptable]. }
  case_decide as Hn.
  { kstep. rewrite <- (app_nil_r h). apply Herr; [|done|acceptable]. unfold name_index in *.
    destruct (strncmp_eq _ _ _); [done|]. by apply err_ptr_ERR_PTR. }
  kassoc. apply wp_kdo. intros n Hnm%(kernel_spec (w := w)). simpl in Hnm.
  destruct Hnm as [He|Hg].
  { rewrite (proj1 He). kstep. unfold SAFE_PUTNAME. rewrite (proj1 He), andb_false_r. kstep. kstep.
    apply Herr; [done| |acceptable]. autounfold with ledger. intros x. simpl. rewrite (proj1 He). done. }
  rewrite good_ptr_no_err by done. kstep.
  kassoc. apply wp_kdo. intros f Hf%(kernel_spec (w := w)). simpl in Hf.
  assert (En : IS_ERR n = false) by auto with trfs.
  assert (Enz : nonzero n = true) by by apply good_ptr_nonzero.
  destruct Hf as [He|Hgf].
  { rewrite (proj1 He). kstep. unfold SAFE_PUTNAME. rewrite En, Enz. cbn [when andb negb]. kstep. kstep.
    rewrite <- !app_assoc. apply Herr; [done| |acceptable].
    autounfold with ledger. intros x. simpl. rewrite (proj1 He), En. simpl. lia. }
  rewrite good_ptr_no_err by done. kstep. kassoc.
  unfold modify. simpl. unfold SAFE_PUTNAME. rewrite En, Enz. simpl. intros [] _.
  rewrite <- !app_assoc. eapply Hk; [done..| | |acceptable].
  - autounfold with ledger. intros x. simpl. rewrite (good_ptr_no_err f), En by done. simpl. lia.
  - simpl. auto.
Qed.
End Steps.

(** ** What a mount leaves *)

Lemma count_entries_app r l1 l2 : count_entries r (l1 ++ l2) = count_entries r l1 + count_entries r l2.
Proof. induction l1 as [|[r' n] l1 IH]; simpl; [done|]. rewrite IH. lia. Qed.

(** The calls leave a resource of another kind alone. *)
Ltac untouched :=
  intros; simpl; unfold one_if; rewrite ?count_entries_app;
  repeat match goal with |- context [if ?b then _ else _] => destruct b end;
  simpl; rewrite ?hits_ne by done; lia.

Lemma count_released_inode r b i :
  tracked r -> count_entries r (if b : bool then [(RInode i, -1)] else []) = 0.
Proof. intros Hr. destruct b; [|done]. simpl. rewrite hits_ne; [done|]. by intros <-. Qed.

(** One of each. *)
Definition takes (l : list resource) (r : resource) : Z := count_entries r ((fun x => (x, 1)) <$> l).

(** Over a history, exactly these were taken and kept. *)
Definition keeps (tr : khist) (l : list resource) : Prop :=
  forall r, tracked r -> net tr r = takes l r.

(** What an allocator answers. *)
Definition allocated (e : event ksig) : option ptr :=
  match e with
  | Ev c r =>
    match c return kreply c -> option ptr with
    | kzalloc _ | kmem_cache_alloc _ | kmem_cache_zalloc _ => fun p => Some p
    | kmalloc _ => fun r => Some (fst r)
    | _ => fun _ => None
    end r
  end.

(** An object was allocated, and not released before. *)
Definition allocates (tr : khist) (p : ptr) : Prop :=
  exists t e u, tr = t ++ e :: u /\ allocated e = Some p /\ 0 <= net t (RMem p).

(** The private data of super blocks is as it was, but for masks. *)
Definition same_mounts (m m' : kmem) : Prop :=
  s_fs_info m' = s_fs_info m /\ with_umask 0 <$> sb_infos m' = with_umask 0 <$> sb_infos m.

Lemma same_mounts_has_sb m m' sb p si :
  same_mounts m m' -> has_sb m sb p si -> exists v, has_sb m' sb p (with_umask v si).
Proof.
  intros [E1 E2] (Hg & Hp & Hgp & Hi).
  assert (E : (with_umask 0 <$> sb_infos m') !! p = Some (with_umask 0 si)) by (by rewrite E2, lookup_fmap, Hi).
  rewrite lookup_fmap in E. destruct (sb_infos m' !! p) as [[l f pg v]|] eqn:E'; [|done].
  exists v. unfold has_sb. rewrite E1. split_and!; try done. rewrite E'. destruct si. by injection E as -> -> ->.
Qed.

(** A dentry was given private data, and no other dentry or file. *)
Record given (m m' : kmem) (dentry info : ptr) (lp : path) : Prop := {
  gv_fsdata : d_fsdata m' = <[dentry := info]> (d_fsdata m);
  gv_infos : dentry_infos m' = <[info := lp]> (dentry_infos m);
  gv_private : private_data m' = private_data m;
  gv_files : file_infos m' = file_infos m;
}.

(** The private data of dentries and files is as it was. *)
Record same_private (m m' : kmem) : Prop := {
  sp_fsdata : d_fsdata m' = d_fsdata m;
  sp_infos : dentry_infos m' = dentry_infos m;
  sp_private : private_data m' = private_data m;
  sp_files : lower_file <$> file_infos m' = lower_file <$> file_infos m;
}.

#[export] Instance same_private_order : PreOrder same_private.
Proof.
  split; [by intros m|]. intros m1 m2 m3 [] []. constructor; congruence.
Qed.

(** So is all private data that is not an inode's. *)
Definition same_data (m m' : kmem) : Prop := same_private m m' /\ same_mounts m m'.

#[export] Instance same_data_order : PreOrder same_data.
Proof.
  split; [by intros m|]. intros m1 m2 m3 [H1 [? ?]] [H2 [? ?]]. split; [by etransitivity|].
  split; congruence.
Qed.

(** The three ways a mount of the option [raw] on the super block [sb] ends. *)
Inductive mount_end (w : kworld) (sb : ptr) (raw : bytes) (m : kmem) (h : khist) : outcome ksig Z -> Prop :=
| mount_fails err m' tr : err < 0 -> acceptable tr -> keeps tr [] ->
    mount_end w sb raw m h (finished err m' (h ++ tr))
| mount_done m' tr p lower f page buf lp root info : acceptable tr ->
    name_index raw = TFILE_LEN ->
    In (KEv (filp_open (cstr (drop 6 raw)) log_flags S_IRUSR) f) tr ->
    mounted w m' sb p (SbInfo lower f page (2 ^ 64 - 1)) 0 buf -> good_ptr lower ->
    In (KEv (d_make_root (fst root)) (snd root)) tr -> has_lower m' (snd root) info lp ->
    given m m' (snd root) info lp ->
    keeps tr [RDentry (p_dentry lp); RMnt (p_mnt lp); RMem p; RMem page; ROpen f; RActive lower;
              RDentry (snd root); RMem info] ->
    mount_end w sb raw m h (finished 0 m' (h ++ tr))
| mount_dies m' tr f : Exists refusal tr ->
    In (KEv (filp_open (cstr (drop 6 raw)) log_flags S_IRUSR) f) tr ->
    net tr (ROpen f) = 1 ->
    mount_end w sb raw m h (died NullDeref m' (h ++ tr)).

(** Count what a list of calls took and gave back. *)
Ltac keeps_at :=
  unfold takes; simpl; rewrite ?decide_True by done; unfold one_if; 
  rewrite ?nonnull_NULL, ?(good_ptr_nonnullb _) by done;
  simpl; lia.
Ltac keeps := intros ? ?; keeps_at.

Section Mount.
Context (w : kworld) (ok : khist -> event ksig -> Prop) `{HK : !KernelSpec w ok}.
Context (sb : ptr) (Hsb : good_ptr sb) (Htype : type_name w sb = TRFS_NAME).
Local Abbreviation WP := (wp ok).

Lemma wp_heap_new {A V} (heap : kmem -> gmap Z V) set p v (k : unit -> kprog A) Q m h :
  WP (k tt) Q (set (<[p := v]> (heap m)) m) h -> WP (heap_new heap set p v ≫= k) Q m h.
Proof. done. Qed.

Lemma wp_heap_del {A V} (heap : kmem -> gmap Z V) set p (k : unit -> kprog A) Q m h :
  WP (k tt) Q (set (delete p (heap m)) m) h -> WP (heap_del heap set p ≫= k) Q m h.
Proof. done. Qed.

(** The clean-up code that is reached before the log file was opened. *)
Lemma wp_out_fsi_free p lp err (Q : outcome ksig Z -> Prop) m h :
  s_fs_info m !! sb = Some p ->
  (forall m', Q (finished err m' (h ++ [KEv (kfree p) tt; KEv (path_put lp) tt]))) ->
  WP (out_fsi_free sb lp err) Q m h.
Proof.
  intros Hp HQ. unfold out_fsi_free, TRFS_SB. apply wp_field_get; [done|]. rewrite Hp.
  cbn [default from_option id]. kstep. apply wp_heap_del. unfold out_free. kstep.
  rewrite <- app_assoc. apply HQ.
Qed.

Lemma wp_out_fsp_free p si lp err (Q : outcome ksig Z -> Prop) m h :
  has_sb m sb p si ->
  (forall m', Q (finished err m'
     (h ++ [KEv (kfree (tr_page si)) tt; KEv (kfree p) tt; KEv (path_put lp) tt]))) ->
  WP (out_fsp_free sb lp err) Q m h.
Proof.
  intros Hs HQ. unfold out_fsp_free, TRFS_PAGE. apply wp_fmap. eapply wp_sb_info; [done|].
  kstep. apply wp_heap_del. eapply wp_out_fsi_free; [apply Hs|]. intros m'.
  rewrite <- app_assoc. apply HQ.
Qed.

(** The clean-up code that is reached later: the private data is released, and
    then looked for. *)
Lemma wp_out_sput p si lower lp err (Q : outcome ksig Z -> Prop) m h :
  has_sb m sb p si ->
  (forall m', Q (died NullDeref m' (h ++ [KEv (s_active_dec lower) tt; KEv (kfree p) tt]))) ->
  WP (out_sput sb lower lp err) Q m h.
Proof.
  intros (_ & Hp & _) HQ. unfold out_sput. kstep. unfold TRFS_SB at 1. apply wp_field_get; [done|].
  rewrite Hp. cbn [default from_option id]. kstep. apply wp_heap_del. apply wp_field_set; [done|].
  unfold out_fsp_free, TRFS_PAGE, sb_info, TRFS_SB. apply wp_fmap. kassoc. apply wp_field_get; [done|].
  simpl s_fs_info. rewrite lookup_insert_eq. rewrite <- app_assoc. apply HQ.
Qed.

Lemma wp_out_iput p si lower inode lp err (Q : outcome ksig Z -> Prop) m h :
  has_sb m sb p si ->
  (forall m', Q (died NullDeref m'
     (h ++ [KEv (iput inode) tt; KEv (s_active_dec lower) tt; KEv (kfree p) tt]))) ->
  WP (out_iput sb lower inode lp err) Q m h.
Proof.
  intros Hs HQ. unfold out_iput. kstep. eapply wp_out_sput; [done|]. intros m'.
  rewrite <- app_assoc. apply HQ.
Qed.

Lemma wp_out_freeroot p si lower inode root lp err (Q : outcome ksig Z -> Prop) m h :
  has_sb m sb p si ->
  (forall m', Q (died NullDeref m'
     (h ++ [KEv (dput root) tt; KEv (iput inode) tt; KEv (s_active_dec lower) tt; KEv (kfree p) tt]))) ->
  WP (out_freeroot sb lower inode root lp err) Q m h.
Proof.
  intros Hs HQ. unfold out_freeroot. kstep. eapply wp_out_iput; [done|]. intros m'.
  rewrite <- app_assoc. apply HQ.
Qed.

(** A super block on its way to being mounted: everything but the log file is
    in place. *)
Record filled_sb (m : kmem) (p : ptr) (si : trfs_sb_info) (f : ptr) (buf : bytes) : Prop := {
  fs_sb : has_sb m sb p si;
  fs_file : good_ptr f;
  fs_pos : f_pos m !! f = Some 0;
  fs_page : good_ptr (tr_page si);
  fs_buf : kbufs m !! tr_page si = Some buf;
  fs_len : Z.of_nat (length buf) = sizeof_tr_record + PAGE_SIZE;
}.

(** Allocating and setting the private data of the root. *)
Lemma wp_new_dentry_private_data {A} d (k : Z -> kprog A) Q m h :
  good_ptr d ->
  (forall c, WP (k (- ENOMEM)) Q m (h ++ [KEv (kmem_cache_zalloc c) NULL])) ->
  (forall c info, good_ptr info ->
     WP (k 0) Q (set_d_fsdata (<[d := info]> (d_fsdata m))
                   (set_dentry_infos (<[info := Path NULL NULL]> (dentry_infos m)) m))
       (h ++ [KEv (kmem_cache_zalloc c) info; KEv (spin_lock_init info) tt])) ->
  WP (new_dentry_private_data d ≫= k) Q m h.
Proof.
  intros Hd Hno Hk. unfold new_dentry_private_data. kassoc. unfold gets at 1. cbn [wp mbind prog_mbind prog_bind fst snd].
  kassoc. apply wp_kdo. intros info Hi%(kernel_spec (w := w)). simpl in Hi. case_decide as Hn.
  { kstep. rewrite Hn. apply Hno. }
  destruct Hi as [?|Hi]; [done|]. kassoc. apply wp_heap_new. kstep. kassoc. apply wp_field_set; [done|].
  kstep. rewrite <- app_assoc. by apply Hk.
Qed.

Definition set_lower_trace (info : ptr) : khist :=
  [KEv (spin_lock info) tt; KEv (spin_unlock info) tt].

Lemma wp_set_lower_path {A} d info lp0 lp (k : unit -> kprog A) Q m h :
  has_lower m d info lp0 ->
  WP (k tt) Q (set_dentry_infos (<[info := lp]> (dentry_infos m)) m) (h ++ set_lower_trace info) ->
  WP (trfs_set_lower_path d lp ≫= k) Q m h.
Proof.
  intros (Hd & Hf & Hi & Hl) Hk. unfold trfs_set_lower_path, TRFS_D. kassoc.
  apply wp_field_get; [done|]. rewrite Hf. cbn [default from_option id]. kstep. kstep. kassoc.
  eapply wp_heap_set; [done..|]. kstep. by rewrite <- app_assoc.
Qed.

Lemma wp_fill_root inode lp lower f p si buf (Q : outcome ksig Z -> Prop) m h :
  lower_sb si = lower -> filled_sb m p si f buf ->
  (forall m' tr, Exists refusal tr -> (forall x, net tr (ROpen x) = 0) ->
     Q (died NullDeref m' (h ++ tr))) ->
  (forall m' tr root info, acceptable tr ->
     mounted w m' sb p (SbInfo lower f (tr_page si) (2 ^ 64 - 1)) 0 buf ->
     In (KEv (d_make_root inode) root) tr -> has_lower m' root info lp ->
     given m m' root info lp ->
     keeps tr [RDentry root; RMem info] -> Q (finished 0 m' (h ++ tr))) ->
  WP (fill_root sb lower inode lp f) Q m h.
Proof.
  intros <- [Hs Hf Hpos Hpg Hbuf Hlen] Hdie Hdone. unfold fill_root.
  apply wp_kdo. intros root Hr%(kernel_spec (w := w)). simpl in Hr. kstep. case_decide as Hn.
  { eapply wp_out_iput; [done|]. intros m'. rewrite <- !app_assoc. apply Hdie.
    - left. simpl. exact Hn.
    - untouched. }
  destruct Hr as [?|Hroot]; [done|]. kstep. apply wp_field_set; [done|].
  apply wp_new_dentry_private_data; [done|..].
  { intros c. rewrite decide_True by done. eapply wp_out_freeroot; [exact Hs|]. intros m'.
    rewrite <- !app_assoc. apply Hdie.
    - do 3 right. left. done.
    - untouched. }
  intros c info Hi. rewrite decide_False by lia.
  eapply wp_set_lower_path.
  { split_and!; [done| |done|]; simpl; apply lookup_insert_eq. }
  kstep. destruct Hs as (_ & Hs1 & Hs2 & Hs3).
  eapply wp_set_sb_info; [by split_and!|]. eapply wp_set_sb_info.
  { split_and!; [done..|]. simpl. apply lookup_insert_eq. }
  unfold TRFS_SB at 1. apply wp_field_get; [done|]. simpl s_fs_info. rewrite Hs1.
  cbn [default from_option id]. kstep. kstep. rewrite <- !app_assoc. eapply Hdone with (root := root) (info := info).
  - unfold set_lower_trace. acceptable.
  - constructor; simpl; try done. split_and!; try done. simpl. apply lookup_insert_eq.
  - by left.
  - split_and!; [done|simpl; apply lookup_insert_eq|done|simpl; apply lookup_insert_eq].
  - constructor; simpl; by rewrite ?insert_insert_eq.
  - intros r Hr. unfold takes. simpl.
    rewrite (good_ptr_nonnullb root), (good_ptr_nonnullb info), count_entries_app by done. simpl.
    rewrite count_released_inode by done. lia.
Qed.

(** The tail of a mount, from the lower super block on. *)
Definition mount_rest (lp : path) (f : ptr) : kprog Z :=
  lower_sb ← ld F_d_sb (p_dentry lp);
  check_ptr lower_sb;; kdo (s_active_inc lower_sb);;
  trfs_set_lower_super sb lower_sb;;
  maxbytes ← ld F_s_maxbytes lower_sb;
  st F_s_maxbytes sb maxbytes;; st F_s_time_gran sb 1;; st F_s_op sb trfs_sops;;
  st F_s_export_op sb trfs_export_ops;;
  lower_inode ← d_inode (p_dentry lp);
  inode ← trfs_iget sb lower_inode;
  if IS_ERR inode then out_sput sb lower_sb lp (int32 (PTR_ERR inode)) else
  fill_root sb lower_sb inode lp f.

Lemma wp_mount_rest lp f p si buf (Q : outcome ksig Z -> Prop) m h :
  positive w (p_dentry lp) -> good_ptr (p_dentry lp) -> filled_sb m p si f buf ->
  (forall m' tr, Exists refusal tr -> (forall x, net tr (ROpen x) = 0) ->
     Q (died NullDeref m' (h ++ tr))) ->
  (forall m' tr lower inode root info, acceptable tr -> good_ptr lower ->
     mounted w m' sb p (SbInfo lower f (tr_page si) (2 ^ 64 - 1)) 0 buf ->
     In (KEv (d_make_root inode) root) tr -> has_lower m' root info lp ->
     given m m' root info lp ->
     keeps tr [RActive lower; RDentry root; RMem info] -> Q (finished 0 m' (h ++ tr))) ->
  WP (mount_rest lp f) Q m h.
Proof.
  intros Hpos Hg [Hs Hf Hfp Hpg Hbuf Hlen] Hdie Hdone. unfold mount_rest.
  apply wp_ld; [done|]. intros lower Hlower%(kernel_spec (w := w)). kstep. kstep.
  unfold trfs_set_lower_super. eapply wp_set_sb_info; [done|]. kstep. kstep. kstep. kstep. kstep.
  set (si' := SbInfo lower _ _ _). set (m1 := set_sb_infos _ _).
  assert (Hs1 : has_sb m1 sb p si').
  { destruct Hs as (? & ? & ? & ?). split_and!; try done. apply lookup_insert_eq. }
  apply wp_d_inode with (w := w); [done..|]. intros Hi. apply wp_trfs_iget with (w := w); [apply _|done|].
  intros inode tr m2 Htr Hfr Hans.
  assert (Hs2 : has_sb m2 sb p si') by (by destruct Hfr as [->|(? & ? & _ & ->)]).
  assert (Htame : forall x, net tr (ROpen x) = 0) by (intros x; by apply tame_net).
  rewrite <- !app_assoc. destruct Hans as [(Hgi & Hacc & _)|[[He _] Hex]].
  - rewrite good_ptr_no_err by done. eapply wp_fill_root with (si := si'); [done| | |].
    + destruct Hfr as [->|(? & ? & _ & ->)]; by constructor.
    + intros m' tr' Hex' Hx. rewrite <- !app_assoc. apply Hdie.
      * rewrite !Exists_app. tauto.
      * intros x. rewrite !net_app, Htame, Hx. untouched.
    + intros m' tr' root info Hacc' Hm Hin Hl Hg' Hk. rewrite <- !app_assoc.
      eapply (Hdone _ _ lower inode root info); try done.
      * acceptable.
      * by repeat (apply in_or_app; right).
      * destruct Hg'. by destruct Hfr as [->|(? & ? & _ & ->)].
      * intros x Hx. rewrite !net_app, (Hk x Hx), (tame_net tr) by done. unfold takes. simpl. lia.
  - rewrite He. eapply wp_out_sput; [done|]. intros m'. rewrite <- !app_assoc. apply Hdie.
    + rewrite !Exists_app. tauto.
    + intros x. rewrite !net_app, Htame. untouched.
Qed.

(** From the log file on: a page and private data are there, and the lower path
    is held. *)
Lemma wp_mount_log opt lp p si buf t0 m0 m h :
  positive w (p_dentry lp) -> good_ptr (p_dentry lp) -> good_ptr p ->
  has_sb m sb p si -> good_ptr (tr_page si) -> kbufs m !! tr_page si = Some buf ->
  Z.of_nat (length buf) = sizeof_tr_record + PAGE_SIZE -> acceptable t0 ->
  t0 ≡ₗ [KEv (path_get lp) tt; KEv (kzalloc sizeof_sb_info) p;
         KEv (kmalloc (sizeof_tr_record + PAGE_SIZE)) (tr_page si, buf)] ->
  d_fsdata m = d_fsdata m0 -> dentry_infos m = dentry_infos m0 -> private_data m = private_data m0 ->
  file_infos m = file_infos m0 ->
  WP (tr_filep ← create_trfile opt;
      if IS_ERR tr_filep then out_fsp_free sb lp (int32 (PTR_ERR tr_filep)) else mount_rest lp tr_filep)
    (mount_end w sb (b_data opt) m0 h) m (h ++ t0).
Proof.
  intros Hpos Hg Hp Hs Hpg Hbuf Hlen Hacc0 Ht0 E1 E2 E3 E4.
  eapply wp_create_trfile with (w := w); [apply _|..].
  - intros e tr He Htr Hacc. rewrite (proj1 He). eapply wp_out_fsp_free; [done|]. intros m'.
    apply err_ptr_neg in He. rewrite int32_id by (unfold MAX_ERRNO in He; lia).
    rewrite <- !app_assoc. apply mount_fails; [lia|acceptable|].
    intros r Hr. rewrite !net_app, (Ht0 r), (Htr r). keeps_at.
  - intros f name tr Hf Hidx -> Htr Hin Hacc. rewrite good_ptr_no_err by done.
    eapply wp_mount_rest with (si := si) (p := p) (buf := buf); [done|done| | |].
    + constructor; [exact Hs|done|apply lookup_insert_eq|done..].
    + intros m' t2 Hex Hx. rewrite <- !app_assoc. apply (mount_dies _ _ _ _ _ m' _ f).
      * rewrite !Exists_app. tauto.
      * apply in_or_app; right. apply in_or_app. by left.
      * rewrite !net_app, (Ht0 (ROpen f)), (Htr (ROpen f)), (Hx f). simpl.
        rewrite (good_ptr_nonnullb p), (good_ptr_nonnullb (tr_page si)), (good_ptr_no_err f) by done. simpl.
        rewrite hits_refl, !hits_ne by done. lia.
    + intros m' t2 lower inode root info Hacc2 Hl Hm Hmk Hhl [G1 G2 G3 G4] Hk. rewrite <- !app_assoc.
      eapply (mount_done _ _ _ _ _ m' _ p lower f (tr_page si) buf lp (inode, root) info); try done.
      * acceptable.
      * apply in_or_app; right. apply in_or_app. by left.
      * by do 2 (apply in_or_app; right).
      * simpl in G1, G2, G3, G4. constructor; simpl; congruence.
      * intros r Hr. rewrite !net_app, (Ht0 r), (Htr r), (Hk r Hr). unfold takes. simpl.
        rewrite (good_ptr_nonnullb p), (good_ptr_nonnullb (tr_page si)), (good_ptr_no_err f) by done.
        simpl. lia.
Qed.

Lemma wp_trfs_read_super trdata silent m h :
  WP (trfs_read_super sb trdata silent)
    (mount_end w sb (b_data (trfs_option trdata)) m h) m h.
Proof.
  set (raw := b_data (trfs_option trdata)). unfold trfs_read_super. case_decide.
  { assert (E : mount_end w sb raw m h (finished (- EINVAL) m (h ++ [])))
      by (apply mount_fails; [done|acceptable|done]). by rewrite app_nil_r in E. }
  apply wp_kdo. intros [err lp] Hlp%(kernel_spec (w := w)). simpl in Hlp. case_decide as Herr.
  { destruct Hlp as [[? _]|Hlp]; [done|]. apply mount_fails; [lia|acceptable|].
    intros r _. simpl. by rewrite decide_False. }
  assert (err = 0) as -> by lia. destruct Hlp as [(_ & Hpos & Hg & _)|[? ?]]; [|lia].
  apply wp_kdo. intros p Hp%(kernel_spec (w := w)). simpl in Hp.
  destruct (decide (p = NULL)) as [->|Hn].
  { rewrite (decide_False (P := NULL <> NULL)) by (intros Hc; by apply Hc). kstep.
    apply wp_field_set; [done|]. rewrite (decide_True (P := NULL = NULL)) by done. unfold out_free. rewrite <- app_assoc. kstep. rewrite <- app_assoc.
    apply mount_fails; [done|acceptable|]. keeps. }
  destruct Hp as [?|Hp]; [done|].
  rewrite (decide_True (P := p <> NULL)) by done. apply wp_heap_new, wp_field_set; [done|].
  rewrite (decide_False (P := p = NULL)) by done.
  apply wp_kdo. intros [page contents] Hpg%(kernel_spec (w := w)). simpl in Hpg.
  specialize (Hpg ltac:(done)). set (m1 := set_s_fs_info _ _).
  assert (Hs1 : has_sb m1 sb p (SbInfo NULL NULL NULL 0)).
  { split_and!; [done|simpl; apply lookup_insert_eq|done|simpl; apply lookup_insert_eq]. }
  destruct (decide (page = NULL)) as [->|Hnp].
  { rewrite (decide_False (P := NULL <> NULL)) by (intros Hc; by apply Hc). kstep.
    eapply wp_set_sb_info; [done|].
    eapply wp_out_fsi_free; [apply Hs1|]. intros m'.
    rewrite <- !app_assoc.
    apply mount_fails; [done|acceptable|]. keeps. }
  destruct Hpg as [?|[Hpg Hlen]]; [done|].
  rewrite (decide_True (P := page <> NULL)) by done. apply wp_heap_new. eapply wp_set_sb_info; [exact Hs1|].
  set (si := SbInfo _ _ _ _). set (m2 := set_sb_infos _ _).
  assert (Hs2 : has_sb m2 sb p si).
  { destruct Hs1 as (? & ? & ? & ?). split_and!; try done. apply lookup_insert_eq. }
  rewrite <- !app_assoc. eapply (wp_mount_log _ lp p si contents); try done.
  - apply lookup_insert_eq.
  - acceptable.
Qed.

(** ** Unmounting *)

(** The log file is removed from its directory, and closed. *)
Definition put_super_trace (p : ptr) (si : trfs_sb_info) (d parent dir : ptr) (e : Z) : khist :=
  let f := tr_lower_filep si in
  [KEv (s_active_dec (lower_sb si)) tt; KEv (mutex_destroy p) tt; KEv (load F_f_dentry f) d;
   KEv (load F_d_parent d) parent; KEv (load F_d_inode parent) dir; KEv (vfs_unlink dir d) e;
   KEv (filp_close f) tt; KEv (kfree (tr_page si)) tt; KEv (kfree p) tt].

Lemma wp_trfs_put_super p si (Q : outcome ksig unit -> Prop) m h :
  has_sb m sb p si -> good_ptr (tr_lower_filep si) -> good_ptr (lower_sb si) ->
  (forall m' d parent dir e, s_fs_info m' !! sb = Some NULL -> same_private m m' ->
     inode_infos m' = inode_infos m -> Q (finished tt m' (h ++ put_super_trace p si d parent dir e))) ->
  WP (trfs_put_super sb) Q m h.
Proof.
  intros Hs Hf Hl HQ. pose proof Hs as (_ & Hs1 & Hs2 & Hs3). unfold trfs_put_super.
  eapply wp_TRFS_SB; [done|]. rewrite decide_False by by apply good_ptr_nonnull.
  apply wp_fmap. eapply wp_heap_get; [done..|]. unfold trfs_lower_super. apply wp_fmap.
  eapply wp_sb_info; [done|]. unfold trfs_set_lower_super. eapply wp_set_sb_info; [done|].
  set (si' := SbInfo NULL _ _ _). set (m1 := set_sb_infos _ _).
  assert (Hs' : has_sb m1 sb p si') by (split_and!; try done; apply lookup_insert_eq).
  kstep. kstep. eapply wp_TRFS_SB; [done|]. kstep. kstep.
  unfold SAFE_REMOVE, SAFE_FILPCLOSE. rewrite good_ptr_nonzero, good_ptr_no_err by done.
  cbn [when andb negb]. kassoc. apply wp_ld; [done|]. intros d [_ Hd]%(kernel_spec (w := w)).
  kassoc. apply wp_ld; [done|]. intros parent Hp%(kernel_spec (w := w)).
  kassoc. unfold d_inode. apply wp_ld; [done|]. intros dir _. kassoc. apply wp_kdo. intros e _. kstep. kstep.
  unfold TRFS_PAGE. apply wp_fmap. eapply wp_sb_info; [done|]. kstep. apply wp_heap_del.
  kstep. apply wp_heap_del. apply wp_tail, wp_field_set; [done|]. rewrite <- !app_assoc.
  apply (HQ _ d parent dir e); [apply lookup_insert_eq|done|done].
Qed.

(** Letting go of the lower path of a dentry. *)
Lemma wp_put_reset_lower_path {A} d info lp (k : unit -> kprog A) Q m h :
  has_lower m d info lp ->
  WP (k tt) Q (set_dentry_infos (<[info := Path NULL NULL]> (dentry_infos m)) m)
    (h ++ set_lower_trace info ++ [KEv (path_put lp) tt]) ->
  WP (trfs_put_reset_lower_path d ≫= k) Q m h.
Proof.
  intros (Hd & Hf & Hi & Hl) Hk. unfold trfs_put_reset_lower_path, TRFS_D. kassoc.
  apply wp_field_get; [done|]. rewrite Hf. cbn [default from_option id]. kstep. kstep. kassoc.
  eapply wp_heap_get; [done..|]. kassoc. eapply wp_heap_set; [done..|]. kstep. kstep.
  by rewrite <- !app_assoc.
Qed.

Definition d_release_trace (c info : ptr) (lp : path) : khist :=
  [KEv (spin_lock info) tt; KEv (spin_unlock info) tt; KEv (path_put lp) tt;
   KEv (kmem_cache_free c info) tt].

(** The memory after a dentry was released. *)
Definition released (m : kmem) (d info : ptr) : kmem :=
  let m1 := set_dentry_infos (<[info := Path NULL NULL]> (dentry_infos m)) m in
  let m2 := set_dentry_infos (delete info (dentry_infos m1)) m1 in
  set_d_fsdata (<[d := NULL]> (d_fsdata m2)) m2.

Lemma wp_trfs_d_release {A} d info lp (k : unit -> kprog A) Q m h :
  has_lower m d info lp ->
  (forall c, WP (k tt) Q (released m d info) (h ++ d_release_trace c info lp)) ->
  WP (trfs_d_release d ≫= k) Q m h.
Proof.
  intros Hlow Hk. pose proof Hlow as (Hd & Hf & Hi & _). unfold trfs_d_release. kassoc.
  eapply wp_put_reset_lower_path; [done|].
  unfold free_dentry_private_data. rewrite decide_False by by apply good_ptr_nonnull. kassoc.
  apply wp_field_get; [done|]. simpl d_fsdata. rewrite Hf. cbn [default from_option id].
  rewrite decide_False by by apply good_ptr_nonnull. kassoc. unfold gets at 1.
  cbn [wp mbind prog_mbind prog_bind fst snd]. kstep. kassoc. apply wp_heap_del.
  apply wp_field_set; [done|]. rewrite <- !app_assoc. apply Hk.
Qed.
End Mount.

(** ** The theorems *)

(** C20: a mount ends in one of three ways, whatever the lower file system and
    the allocators answer: it fails early and gives back everything; it
    succeeds, with the super block, the log at position 0, a full mask and the
    root's lower path in place, holding one reference of each of these; or, if
    and only if the kernel refuses an inode or a dentry object after the log
    file was opened, it dies of a NULL pointer with the log file open. *)
Theorem trfs_read_super_ends w env sb trdata silent m h :
  env_ok (kernel_ok w) env -> good_ptr sb -> type_name w sb = TRFS_NAME ->
  mount_end w sb (b_data (trfs_option trdata)) m h (run env (trfs_read_super sb trdata silent) m h).
Proof.
  intros Henv Hsb Ht. by_wp (kernel_ok w). by apply wp_trfs_read_super.
Qed.

(** Unmounting releases what the super block holds, and removes the log
    file from its directory: the only operation on a file. *)
Theorem trfs_put_super_ok w env sb p si pos buf m h :
  env_ok (kernel_ok w) env -> mounted w m sb p si pos buf -> good_ptr (lower_sb si) ->
  exists m' d parent dir e,
    run env (trfs_put_super sb) m h = finished tt m' (h ++ put_super_trace p si d parent dir e) /\
    s_fs_info m' !! sb = Some NULL.
Proof.
  intros Henv Hm Hl. by_wp (kernel_ok w).
  eapply wp_trfs_put_super with (w := w); [apply _|apply Hm|apply Hm|apply Hm|done|].
  intros m' d parent dir e Hnull _ _. by exists m', d, parent, dir, e.
Qed.

(** ** A concrete mount *)

Definition demo_objects (root : ptr) (c : kfun) : Z :=
  match c with
  | kzalloc _ => 800 | kmalloc _ => 1 | getname_kernel _ => 70 | filp_open _ _ _ => 71
  | iget5_locked _ _ _ => 900 | d_make_root _ => root | kmem_cache_zalloc _ => 960
  | _ => 0
  end.
Definition demo_trdata : trfs_data := TrfsData (Buffer 1 (lit "/l")) (Buffer 2 (lit "tfile=/log")).
Definition no_mem : kmem := KMem (-1) ∅ ∅ ∅ ∅ ∅ ∅ ∅ ∅ ∅ 0 0.

Lemma trfs_read_super_ends_witness :
  (exists m' h', run (demo_env (demo_objects 950)) (trfs_read_super demo_sb demo_trdata 0) no_mem [] =
     finished 0 m' h') /\
  (exists m' h', run (demo_env (demo_objects 0)) (trfs_read_super demo_sb demo_trdata 0) no_mem [] =
     died NullDeref m' h') /\
  mount_end demo_world demo_sb (lit "tfile=/log") no_mem []
    (run (demo_env (demo_objects 950)) (trfs_read_super demo_sb demo_trdata 0) no_mem []).
Proof.
  split; [eexists _, _; vm_compute; reflexivity|].
  split; [eexists _, _; vm_compute; reflexivity|].
  by apply (trfs_read_super_ends demo_world _ demo_sb demo_trdata 0 no_mem [] (demo_env_kernel_ok _)).
Defined.

Lemma trfs_put_super_ok_witness :
  exists m' d parent dir e,
    run (demo_env (fun _ => 0)) (trfs_put_super demo_sb) (demo_mem 0) [] =
      finished tt m' ([] ++ put_super_trace demo_info (demo_si 0) d parent dir e) /\
    s_fs_info m' !! demo_sb = Some NULL.
Proof.
  by apply (trfs_put_super_ok demo_world _ demo_sb demo_info (demo_si 0) 0
    (replicate (Z.to_nat (sizeof_tr_record + PAGE_SIZE)) 0) (demo_mem 0) [] (demo_env_kernel_ok _)
    (demo_mounted 0)).
Defined.
