(* ===== verification/LookupThms.v ===== *)
(** * Looking up a name, and letting its dentry go

    A lookup gives the dentry private data and binds it to a lower dentry of the
    same name; what it takes is exactly what releasing the dentry gives back. *)

From S2P Require Import Prelude Prog TrTypes Kernel TrfsH Lookup Ledger TrdumpSpec Super.
From S2P Require Import HandlerSpec HandlerThms IoctlThms MountThms Demo.

(** The lower dentry a lookup under [plp] finds, or makes, for a name, and the
    dentry it answers: when the name exists below, its inode is interposed, and
    what that answered is the answer. *)
Section Found.
Context (sb lower_sb dentry : ptr) (plp : path).

Inductive found (name : bytes) (r : ptr) (tr : khist) : path -> Prop :=
| found_file lp t1 ti t2 :
    In (KEv (vfs_path_lookup (p_dentry plp) (p_mnt plp) name 0) (0, lp)) tr ->
    tr = t1 ++ ti ++ t2 -> interposes sb lower_sb (p_dentry lp) dentry r ti -> found name r tr lp
| found_none lp0 d :
    In (KEv (vfs_path_lookup (p_dentry plp) (p_mnt plp) name 0) (- ENOENT, lp0)) tr ->
    In (KEv (d_lookup (p_dentry plp) name) d) tr \/
      In (KEv (d_alloc (p_dentry plp) name) d) tr /\ In (KEv (d_add d NULL) tt) tr ->
    r = NULL -> found name r tr (Path d (p_mnt plp)).

(** The name is the dentry's. *)
Definition found_own (r : ptr) (tr : khist) (lp : path) : Prop :=
  exists name, In (KEv (d_name dentry) name) tr /\ found name r tr lp.

Lemma found_within name r t1 tr t2 lp : found name r tr lp -> found name r (t1 ++ tr ++ t2) lp.
Proof.
  assert (Hin : forall e, In e tr -> In e (t1 ++ tr ++ t2)).
  { intros e He. apply in_or_app. right. apply in_or_app. by left. }
  intros [lp' u1 ti u2 H E Hi|lp0 d H Hd Hr].
  - eapply (found_file _ _ _ _ (t1 ++ u1) ti (u2 ++ t2)); [by apply Hin| |done].
    by rewrite E, <- !app_assoc.
  - eapply found_none; [by apply Hin| |done]. destruct Hd as [?|[? ?]]; auto.
Qed.

Lemma found_own_within r t1 tr t2 lp : found_own r tr lp -> found_own r (t1 ++ tr ++ t2) lp.
Proof.
  intros (name & Hn & Hf). exists name. split; [|by apply found_within].
  apply in_or_app. right. apply in_or_app. by left.
Qed.
End Found.

(** Memory in which nothing but the lower path of [info], and the set-up of
    inodes, has changed. *)
Record rebound (m m' : kmem) (info : ptr) (lp : path) : Prop := {
  rb_fsdata : d_fsdata m' = d_fsdata m;
  rb_infos : dentry_infos m' = <[info := lp]> (dentry_infos m);
  rb_private : private_data m' = private_data m;
  rb_files : file_infos m' = file_infos m;
  rb_mounts : same_mounts m m';
}.

Lemma rebound_refl m info lp : dentry_infos m !! info = Some lp -> rebound m m info lp.
Proof. intros Hi. constructor; try done. by rewrite insert_id. Qed.

Lemma rebound_set m m1 m2 info lp1 lp :
  rebound m m1 info lp1 -> infos_frame m1 m2 ->
  rebound m (set_dentry_infos (<[info := lp]> (dentry_infos m2)) m2) info lp.
Proof.
  intros [? E ? ? ?] [->|(i & l & _ & ->)]; constructor; simpl; try done; by rewrite E, insert_insert_eq.
Qed.

Lemma rebound_infos m m1 m2 info lp : rebound m m1 info lp -> infos_frame m1 m2 -> rebound m m2 info lp.
Proof. by intros [] [->|(i & l & _ & ->)]. Qed.

(** How binding a dentry with private data [info] ends: with an error or at the
    root, nothing is bound; otherwise a lower path is. *)
Inductive bound (F : ptr -> khist -> path -> Prop) (m0 m : kmem) (dentry info : ptr) (r : ptr) (tr : khist) : Prop :=
| bound_nothing : has_lower m dentry info (Path NULL NULL) -> rebound m0 m info (Path NULL NULL) ->
    err_ptr r \/ r = NULL /\ In (KEv (is_root dentry) true) tr -> keeps tr [] ->
    bound F m0 m dentry info r tr
| bound_path lp : has_lower m dentry info lp -> rebound m0 m info lp ->
    dentry_answer r -> IS_ERR r = false ->
    F r tr lp -> keeps tr [RDentry (p_dentry lp); RMnt (p_mnt lp)] ->
    bound F m0 m dentry info r tr.

Lemma has_lower_infos m m' d info lp : infos_frame m m' -> has_lower m d info lp -> has_lower m' d info lp.
Proof. by intros [->|(? & ? & _ & ->)]. Qed.

Lemma has_sb_infos m m' sb p si : infos_frame m m' -> has_sb m sb p si -> has_sb m' sb p si.
Proof. by intros [->|(? & ? & _ & ->)]. Qed.

Lemma has_sb_dentry m sb p si x y :
  has_sb m sb p si -> has_sb (set_d_fsdata x (set_dentry_infos y m)) sb p si.
Proof. done. Qed.

Section Bind.
Context (w : kworld) (env : kenv).
Context (dentry sb p : ptr) (si : trfs_sb_info) (Hd : good_ptr dentry).
Context (Hsb : forall h, env h (load F_d_sb dentry) = sb).
Local Abbreviation ok := (answers w env).
Local Abbreviation FOUND := (found sb (lower_sb si) dentry).

Lemma lower_bound m info lp0 lp :
  has_lower m dentry info lp0 ->
  has_lower (set_dentry_infos (<[info := lp]> (dentry_infos m)) m) dentry info lp.
Proof. intros (? & ? & ? & ?). split_and!; try done. apply lookup_insert_eq. Qed.

Lemma dentry_answer_no_err r : dentry_answer r -> IS_ERR r = false -> r = NULL \/ good_ptr r.
Proof. intros [?|[?|[? _]]] ?; auto. congruence. Qed.

Lemma keeps_nil_tame tr : tame tr -> keeps tr [].
Proof. intros Ht r Hr. by apply tame_net. Qed.

(** The name exists below. *)
Lemma wp_bind_file info plp name lp (Q : outcome ksig ptr -> Prop) m h :
  has_sb m sb p si -> has_lower m dentry info (Path NULL NULL) ->
  positive w (p_dentry lp) -> good_ptr (p_dentry lp) ->
  (forall r m' tr,
     bound (FOUND plp name) m m' dentry info r
       (KEv (vfs_path_lookup (p_dentry plp) (p_mnt plp) name 0) (0, lp) :: tr) ->
     Q (finished r m' (h ++ tr))) ->
  wp ok (trfs_set_lower_path dentry lp;;
         d_sb ← ld F_d_sb dentry;
         ret_dentry ← __trfs_interpose dentry d_sb lp;
         if IS_ERR ret_dentry then
           let err := int32 (PTR_ERR ret_dentry) in
           trfs_put_reset_lower_path dentry;; mret (ERR_PTR err)
         else mret ret_dentry) Q m h.
Proof.
  intros Hs Hlow Hp Hg HQ. eapply wp_set_lower_path; [done|].
  pose proof (lower_bound m info _ lp Hlow) as Hlow1.
  assert (Hb1 : rebound m (set_dentry_infos (<[info := lp]> (dentry_infos m)) m) info lp) by done.
  set (m1 := set_dentry_infos _ m) in *.
  apply wp_ld; [done|]. intros d_sb [_ E]. simpl in E. rewrite Hsb in E. subst d_sb.
  eapply wp_interpose_dentry with (w := w); [apply _|exact Hs|done|by left|].
  intros r tr m2 Htr Hfr Hr Hint. pose proof (has_lower_infos _ _ _ _ _ Hfr Hlow1) as Hlow2.
  destruct (IS_ERR r) eqn:He.
  - assert (Herr : err_ptr r).
    { destruct Hr as [->|[Hr|Hr]]; [done| |done]. by rewrite good_ptr_no_err in He. }
    apply err_ptr_neg in Herr. rewrite int32_id by (unfold MAX_ERRNO in Herr; lia).
    eapply wp_put_reset_lower_path; [done|]. rewrite <- !app_assoc. apply HQ. apply bound_nothing.
    + by eapply lower_bound.
    + by eapply rebound_set.
    + left. by apply err_ptr_ERR_PTR.
    + intros x Hx. rewrite net_cons, !net_app, (tame_net tr) by done. unfold takes. simpl. lia.
  - rewrite <- !app_assoc. apply HQ. eapply (bound_path _ _ _ _ _ _ _ lp); [done|by eapply rebound_infos|done|done| |].
    + eapply (found_file _ _ _ _ _ _ _ lp
        (_ :: set_lower_trace info ++ [KEv (load F_d_sb dentry) sb]) tr []); [by left| |done].
      rewrite app_nil_r. cbn [app]. by rewrite <- app_assoc.
    + intros x Hx. rewrite net_cons, !net_app, (tame_net tr) by done. unfold takes. simpl. lia.
Qed.

(** The name does not exist below: a negative dentry stands for it. *)
Lemma wp_bind_negative info plp name flags err lp (Q : outcome ksig ptr -> Prop) m h :
  err = - ENOENT -> has_lower m dentry info (Path NULL NULL) ->
  (forall r m' tr, bound (FOUND plp name) m m' dentry info r
     (KEv (vfs_path_lookup (p_dentry plp) (p_mnt plp) name 0) (err, lp) :: tr) ->
     Q (finished r m' (h ++ tr))) ->
  env_ok (kernel_ok w) env ->
  wp ok (lower_dentry ← negative_dentry (p_dentry plp) name;
         if decide (lower_dentry = NULL) then mret (ERR_PTR (- ENOMEM)) else
         mnt ← kdo (mntget (p_mnt plp));
         trfs_set_lower_path dentry (Path lower_dentry mnt);;
         if decide (err = - ENOENT \/ Z.land flags (Z.lor LOOKUP_CREATE LOOKUP_RENAME_TARGET) <> 0)
         then mret NULL else mret (ERR_PTR err)) Q m h.
Proof.
  intros -> Hlow HQ Henv.
  assert (Hend : forall d tr, good_ptr d ->
    In (KEv (d_lookup (p_dentry plp) name) d) tr \/
      In (KEv (d_alloc (p_dentry plp) name) d) tr /\ In (KEv (d_add d NULL) tt) tr ->
    keeps tr [RDentry d] ->
    wp ok (mnt ← kdo (mntget (p_mnt plp));
         trfs_set_lower_path dentry (Path d mnt);;
         if decide (- ENOENT = - ENOENT \/ Z.land flags (Z.lor LOOKUP_CREATE LOOKUP_RENAME_TARGET) <> 0)
         then mret NULL else mret (ERR_PTR (- ENOENT))) Q m (h ++ tr)).
  { intros d tr Hg Hin Hk. apply wp_kdo. intros mnt [-> _]. eapply wp_set_lower_path; [done|].
    rewrite decide_True by by left. rewrite <- !app_assoc. apply HQ.
    eapply bound_path; [by eapply lower_bound|done|by left|done| |].
    - apply (found_within _ _ _ _ _ _ [] (_ :: tr)). eapply found_none; [by left| |done].
      destruct Hin as [?|[? ?]]; [left|right; split]; by right.
    - intros x Hx. rewrite net_cons, !net_app, (Hk x Hx). unfold takes. simpl. lia. }
  unfold negative_dentry. kassoc. apply wp_kdo. intros d1 [Hd1 _]. simpl in Hd1.
  destruct (decide (d1 = NULL)) as [->|Hn1].
  2:{ destruct Hd1 as [?|Hd1]; [done|]. rewrite (decide_True (P := d1 <> NULL)) by done. kstep.
    rewrite ?(decide_False (P := d1 = NULL)) by done.
    apply Hend; [done|left; by left|]. intros x Hx. unfold takes. simpl.
    rewrite good_ptr_nonnullb by done. simpl. lia. }
  rewrite (decide_False (P := NULL <> NULL)) by (intros Hc; by apply Hc). kassoc.
  apply wp_kdo. intros d2 [Hd2 _]. simpl in Hd2. destruct (decide (d2 = NULL)) as [->|Hn2].
  { rewrite ?(decide_True (P := NULL = NULL)) by done. kstep.
    rewrite ?(decide_True (P := NULL = NULL)) by done. rewrite <- app_assoc. apply HQ. apply bound_nothing; [done|apply rebound_refl, Hlow| |].
    - left. by apply err_ptr_ERR_PTR.
    - intros x Hx. unfold takes. simpl. lia. }
  destruct Hd2 as [?|Hd2]; [done|]. rewrite ?(decide_False (P := d2 = NULL)) by done. kstep. kstep.
  rewrite ?(decide_False (P := d2 = NULL)) by done.
  rewrite <- !app_assoc. apply Hend; [done|right; simpl; auto|].
  intros x Hx. unfold takes. simpl. rewrite (good_ptr_nonnullb d2) by done. simpl. lia.
Qed.

Lemma bound_after (F F' : ptr -> khist -> path -> Prop) m0 m info r pre tr :
  Forall (fun e => delta e = []) pre -> (forall lp, F r tr lp -> F' r (pre ++ tr) lp) ->
  bound F m0 m dentry info r tr -> bound F' m0 m dentry info r (pre ++ tr).
Proof.
  intros Hpre HF. assert (Hn : forall x, net pre x = 0).
  { intros x. clear HF. induction Hpre as [|e pre He _ IH]; [done|]. by rewrite net_cons, He, IH. }
  intros [Hl Hb Hr Hk|lp Hl Hb Ha Hr Hf Hk].
  - apply bound_nothing; [done..| |].
    + destruct Hr as [?|[? ?]]; [by left|right; split; [done|apply in_or_app; by right]].
    + intros x Hx. by rewrite net_app, Hn, (Hk x Hx).
  - eapply bound_path; [done..|by apply HF|]. intros x Hx. by rewrite net_app, Hn, (Hk x Hx).
Qed.

Lemma wp_bind_dentry info plp flags (Q : outcome ksig ptr -> Prop) m h :
  env_ok (kernel_ok w) env -> has_sb m sb p si -> has_lower m dentry info (Path NULL NULL) ->
  (forall r m' tr, bound (found_own sb (lower_sb si) dentry plp) m m' dentry info r tr -> Q (finished r m' (h ++ tr))) ->
  wp ok (__trfs_lookup dentry flags plp) Q m h.
Proof.
  intros Henv Hs Hlow HQ. unfold __trfs_lookup. kstep. apply wp_kdo. intros root _.
  destruct root.
  { rewrite <- !app_assoc. apply HQ. apply bound_nothing; [done|apply rebound_refl, Hlow| |].
    - right. split; [done|]. right. by left.
    - intros x Hx. unfold takes. simpl. lia. }
  apply wp_kdo. intros name _. apply wp_kdo. intros [err lp] [Hlp _]. simpl in Hlp.
  assert (Hown : forall m' r tr, bound (FOUND plp name) m m' dentry info r tr ->
    bound (found_own sb (lower_sb si) dentry plp) m m' dentry info r
      ([KEv (d_set_d_op dentry trfs_dops) tt; KEv (is_root dentry) false; KEv (d_name dentry) name] ++ tr)).
  { intros m' r tr. apply bound_after; [by repeat constructor|]. intros lp' Hf. exists name.
    split; [by do 2 right; left|]. rewrite <- (app_nil_r tr). apply (found_within _ _ _ _ _ _ [_; _; _] tr []), Hf. }
  rewrite <- !app_assoc. destruct (decide (err = 0)) as [->|Herr].
  { destruct Hlp as [(_ & Hp & Hg & _)|[? ?]]; [|lia].
    eapply wp_bind_file; [done..|]. intros r m' tr Hb. rewrite <- !app_assoc. apply HQ.
    by apply Hown. }
  destruct Hlp as [[? _]|Hlp]; [done|]. case_decide as Hen.
  { apply HQ. apply bound_nothing; [done|apply rebound_refl, Hlow| |].
    - left. by apply err_ptr_ERR_PTR.
    - intros x Hx. unfold takes. simpl. rewrite decide_False by done. simpl. lia. }
  eapply wp_bind_negative with (info := info) (lp := lp); [lia|done| |done].
  intros r m' tr Hb. rewrite <- !app_assoc. apply HQ. by apply Hown.
Qed.
End Bind.

(** ** The theorems *)

Lemma rebound_given m m' dentry info lp lp0 :
  rebound (set_d_fsdata (<[dentry := info]> (d_fsdata m))
             (set_dentry_infos (<[info := lp0]> (dentry_infos m)) m)) m' info lp ->
  given m m' dentry info lp /\ same_mounts m m'.
Proof.
  intros [? E ? ? ?]. split; [|done]. constructor; try done. by rewrite E; simpl; rewrite insert_insert_eq.
Qed.

(** How a lookup ends: without memory for private data; or with private data,
    bound to nothing or to the lower dentry of the name. *)
Inductive lookup_end (sb lower_sb : ptr) (m : kmem) (dentry : ptr) (plp : path) (r : ptr) (m' : kmem) (tr : khist) : Prop :=
| lookup_no_memory : r = ERR_PTR (- ENOMEM) -> m' = m -> keeps tr [] ->
    lookup_end sb lower_sb m dentry plp r m' tr
| lookup_error info : has_lower m' dentry info (Path NULL NULL) ->
    given m m' dentry info (Path NULL NULL) -> same_mounts m m' -> allocates tr info ->
    err_ptr r \/ r = NULL /\ In (KEv (is_root dentry) true) tr -> keeps tr [RMem info] ->
    lookup_end sb lower_sb m dentry plp r m' tr
| lookup_bound info lp : has_lower m' dentry info lp -> given m m' dentry info lp -> same_mounts m m' ->
    allocates tr info -> IS_ERR r = false -> found_own sb lower_sb dentry plp r tr lp ->
    keeps tr [RDentry (p_dentry lp); RMnt (p_mnt lp); RMem info] ->
    lookup_end sb lower_sb m dentry plp r m' tr.

(** The private data is what binding a dentry adds. *)
Lemma bound_lookup_end sb lsb m m' dentry info plp r tr t c parent pinfo :
  tame t ->
  bound (found_own sb lsb dentry plp) (set_d_fsdata (<[dentry := info]> (d_fsdata m))
           (set_dentry_infos (<[info := Path NULL NULL]> (dentry_infos m)) m)) m' dentry info r tr ->
  good_ptr info ->
  lookup_end sb lsb m dentry plp r m'
    (([KEv (dget_parent dentry) parent] ++ get_lower_path_trace pinfo plp) ++
     ((([KEv (kmem_cache_zalloc c) info; KEv (spin_lock_init info) tt] ++ tr) ++ t)) ++
     [KEv (path_put plp) tt; KEv (dput parent) tt]).
Proof.
  intros Ht Hb Hi.
  assert (Hnet : forall x l, tracked x -> net tr x = takes l x ->
    net (([KEv (dget_parent dentry) parent] ++ get_lower_path_trace pinfo plp) ++
     ((([KEv (kmem_cache_zalloc c) info; KEv (spin_lock_init info) tt] ++ tr) ++ t)) ++
     [KEv (path_put plp) tt; KEv (dput parent) tt]) x = takes (l ++ [RMem info]) x).
  { intros x l Hx Hl. unfold takes in *. rewrite fmap_app, count_entries_app, <- Hl, !net_app.
    rewrite (tame_net t) by done. simpl. rewrite good_ptr_nonnullb by done. simpl. lia. }
  assert (Hal : allocates (([KEv (dget_parent dentry) parent] ++ get_lower_path_trace pinfo plp) ++
     ((([KEv (kmem_cache_zalloc c) info; KEv (spin_lock_init info) tt] ++ tr) ++ t)) ++
     [KEv (path_put plp) tt; KEv (dput parent) tt]) info).
  { exists ([KEv (dget_parent dentry) parent] ++ get_lower_path_trace pinfo plp),
      (KEv (kmem_cache_zalloc c) info). eexists. split; [by rewrite <- !app_assoc|done]. }
  destruct Hb as [Hl [? ?]%rebound_given Hr Hk|lp Hl [? ?]%rebound_given Ha Hr Hf Hk].
  - eapply lookup_error; [done..| |].
    + destruct Hr as [?|[? Hin]]; [by left|right]. split; [done|].
      apply in_or_app. right. apply in_or_app. left. apply in_or_app. left. apply in_or_app. by right.
    + intros x Hx. apply (Hnet x []); auto.
  - eapply lookup_bound; [done..| |].
    + rewrite <- !app_assoc. simpl.
      apply (found_own_within _ _ _ _ _ [_; _; _; _; _; _] tr (t ++ [_; _])), Hf.
    + intros x Hx. apply (Hnet x [RDentry _; RMnt _]); auto.
Qed.

(** What a lookup finds in place. *)
Record lookup_in_place (env : kenv) (m : kmem) (dentry parent pinfo : ptr) (plp : path)
    (sb p : ptr) (si : trfs_sb_info) : Prop := {
  li_dentry : good_ptr dentry;
  li_fresh : default NULL (d_fsdata m !! dentry) = NULL;
  li_parent : forall h, env h (dget_parent dentry) = parent;
  li_lower : has_lower m parent pinfo plp;
  li_sb : forall h, env h (load F_d_sb dentry) = sb;
  li_info : has_sb m sb p si;
}.

Section Lookup.
Context (w : kworld) (env : kenv) (Henv : env_ok (kernel_ok w) env).
Context (m : kmem) (h : khist) (dentry parent pinfo : ptr) (plp : path).
Context (sb p : ptr) (si : trfs_sb_info).
Context (Hip : lookup_in_place env m dentry parent pinfo plp sb p si).
Local Abbreviation ok := (answers w env).

Lemma wp_trfs_lookup dir flags (Q : outcome ksig ptr -> Prop) :
  (forall r m' tr, lookup_end sb (lower_sb si) m dentry plp r m' tr -> Q (finished r m' (h ++ tr))) ->
  wp ok (trfs_lookup dir dentry flags) Q m h.
Proof.
  intros HQ. destruct Hip as [Hd Hfresh Hpar Hlow Hsb Hs]. unfold trfs_lookup.
  apply wp_kdo. intros par [[Hpp Hgp] E]. simpl in E. rewrite Hpar in E. subst par. cbn in Hpp, Hgp.
  eapply wp_get_lower_path; [done|]. rewrite <- app_assoc.
  assert (Hend : forall r m' t, lookup_end sb (lower_sb si) m dentry plp r m'
      (([KEv (dget_parent dentry) parent] ++ get_lower_path_trace pinfo plp) ++ t ++
       [KEv (path_put plp) tt; KEv (dput parent) tt]) ->
    wp ok (trfs_put_lower_path parent plp;; kdo (dput parent);; mret r) Q m'
      ((h ++ [KEv (dget_parent dentry) parent] ++ get_lower_path_trace pinfo plp) ++ t)).
  { intros r m' t Hl. apply wp_put_lower_path. kstep. rewrite <- !app_assoc. apply HQ.
    by rewrite <- !app_assoc in Hl. }
  apply wp_new_dentry_private_data with (w := w); [apply _|done|..].
  { intros c. rewrite decide_True by done. kstep. apply Hend. apply lookup_no_memory; [done..|].
    intros x Hx. unfold takes. simpl. lia. }
  intros c info Hi. rewrite decide_False by lia. kassoc. rewrite wp_bind.
  eapply wp_bind_dentry with (info := info) (p := p) (si := si); [done..| |].
  { split_and!; [done|simpl; apply lookup_insert_eq|done|simpl; apply lookup_insert_eq]. }
  intros r m' tr Hb. rewrite <- (app_assoc (h ++ _)).
  assert (Hwhole : forall t, tame t -> lookup_end sb (lower_sb si) m dentry plp r m'
    (([KEv (dget_parent dentry) parent] ++ get_lower_path_trace pinfo plp) ++
     ((([KEv (kmem_cache_zalloc c) info; KEv (spin_lock_init info) tt] ++ tr) ++ t)) ++
     [KEv (path_put plp) tt; KEv (dput parent) tt])).
  { intros t Ht. by eapply bound_lookup_end. }
  assert (Hr : r = NULL \/ good_ptr r \/ err_ptr r).
  { destruct Hb as [_ _ [?|[? _]] _|lp _ _ Ha _ _ _]; auto. }
  destruct (IS_ERR r) eqn:He.
  { kstep. rewrite <- (app_nil_r (_ ++ tr)). apply Hend, Hwhole. tame. }
  set (d := if decide (r <> NULL) then r else dentry).
  assert (Hgd : good_ptr d).
  { unfold d. case_decide; [|done]. destruct Hr as [?|[?|[? _]]]; [done|done|congruence]. }
  kassoc. apply (wp_ld _ F_d_inode d); [done|]. intros i (_ & _ & Hgi)%(kernel_spec (w := w)).
  assert (Htail : forall t, tame t ->
    wp ok ((pinode ← d_inode parent; plower ← trfs_lower_inode pinode;
            kdo (fsstack_copy_attr_atime pinode plower);; mret r) ≫= fun ret =>
           trfs_put_lower_path parent plp;; kdo (dput parent);; mret ret) Q m'
      ((h ++ [KEv (dget_parent dentry) parent] ++ get_lower_path_trace pinfo plp) ++
       (([KEv (kmem_cache_zalloc c) info; KEv (spin_lock_init info) tt] ++ tr) ++ t))).
  { intros t Ht. kassoc. apply wp_d_inode with (w := w); [apply _|done|done|]. intros Hpi. kassoc.
    apply wp_field_get; [done|]. kstep. kstep. rewrite <- !(app_assoc (h ++ _)), <- !(app_assoc (_ ++ tr)).
    apply Hend, Hwhole. tame. }
  kassoc. apply wp_when. unfold nonzero. case_bool_decide as Hni.
  - destruct Hgi as [?|Hgi]; [done|]. kassoc. apply wp_field_get; [done|]. kstep.
    rewrite <- !(app_assoc (h ++ _)), <- !(app_assoc (_ ++ tr)). apply Htail. tame.
  - rewrite <- (app_assoc (h ++ _)). apply Htail. tame.
Qed.

(** C24: a lookup finishes, whatever the lower file system and the allocators
    answer, and ends in one of the ways of [lookup_end]: the dentry is bound to
    what the lower file system has under the dentry's own name, and the inode of
    that interposed; or to a negative lower dentry of that name when there is
    none; and holds exactly that path; or it is bound to nothing. *)
Theorem trfs_lookup_ends dir flags :
  exists r m' tr, run env (trfs_lookup dir dentry flags) m h = finished r m' (h ++ tr) /\
    lookup_end sb (lower_sb si) m dentry plp r m' tr.
Proof.
  pose proof (answers_env w env Henv). by_wp (answers w env). apply wp_trfs_lookup. eauto.
Qed.

End Lookup.

(** ** A concrete lookup *)

(** The parent of the new dentry has a lower path. *)
Definition demo_lookup_mem : kmem :=
  let m := demo_mem 0 in
  set_d_fsdata (<[demo_parent := 301]> (d_fsdata m))
    (set_dentry_infos (<[301 := Path 302 demo_mnt]> (dentry_infos m)) m).

Lemma demo_lookup_in_place :
  lookup_in_place (demo_env (demo_objects 950)) demo_lookup_mem demo_new demo_parent 301
    (Path 302 demo_mnt) demo_sb demo_info (demo_si 0).
Proof. by constructor. Qed.

Lemma trfs_lookup_ends_witness :
  exists r m' tr,
    run (demo_env (demo_objects 950)) (trfs_lookup demo_dir demo_new 0) demo_lookup_mem [] =
      finished r m' ([] ++ tr) /\
    lookup_end demo_sb (lower_sb (demo_si 0)) demo_lookup_mem demo_new (Path 302 demo_mnt) r m' tr.
Proof.
  exact (trfs_lookup_ends demo_world _ (demo_env_kernel_ok _) _ [] _ _ _ _ _ _ _ demo_lookup_in_place
    demo_dir 0).
Defined.

