(* ===== verification/FileThms.v ===== *)
(** * Files: writing, opening and closing, and links *)

From S2P Require Import Prelude Prog TrTypes Kernel TrfsH Lookup Ledger Trdump TrdumpSpec Inode.
From S2P Require Import FileOps HandlerSpec HandlerThms IoctlThms MountThms Demo.

(** The file carries private data, and refers to a lower file. *)
Definition has_private (m : kmem) (file p : ptr) (fi : trfs_file_info) : Prop :=
  good_ptr file /\ private_data m !! file = Some p /\ good_ptr p /\ file_infos m !! p = Some fi.
Definition has_file (m : kmem) (file p : ptr) (fi : trfs_file_info) : Prop :=
  has_private m file p fi /\ good_ptr (lower_file fi).

Section Steps.
Context (w : kworld) (ok : khist -> event ksig -> Prop) `{HK : !KernelSpec w ok}.
Local Abbreviation WP := (wp ok).

Lemma wp_file_dentry {A} file (k : ptr -> kprog A) Q m h :
  good_ptr file ->
  (good_ptr (dentry_of w file) ->
   WP (k (dentry_of w file)) Q m (h ++ [KEv (load F_f_dentry file) (dentry_of w file)])) ->
  WP (file_dentry file ≫= k) Q m h.
Proof.
  intros Hf Hk. unfold file_dentry. apply wp_ld; [done|].
  intros d [-> Hd]%(kernel_spec (w := w)). auto.
Qed.

Lemma wp_lower_file {A} file p fi (k : ptr -> kprog A) Q m h :
  has_private m file p fi -> WP (k (lower_file fi)) Q m h -> WP (trfs_lower_file file ≫= k) Q m h.
Proof.
  intros (Hf & Hp & Hg & Hfi) Hk. unfold trfs_lower_file, TRFS_F. kassoc.
  apply wp_field_get; [done|]. rewrite Hp. cbn [default from_option id].
  apply wp_fmap. by eapply wp_heap_get.
Qed.

Lemma wp_set_lower_file {A} file p fi v (k : unit -> kprog A) Q m h :
  has_private m file p fi ->
  WP (k tt) Q (set_file_infos (<[p := FileInfo v (lower_vm_ops fi)]> (file_infos m)) m) h ->
  WP (trfs_set_lower_file file v ≫= k) Q m h.
Proof.
  intros (Hf & Hp & Hg & Hfi) Hk. unfold trfs_set_lower_file, TRFS_F. kassoc.
  apply wp_field_get; [done|]. rewrite Hp. cbn [default from_option id].
  kassoc. eapply wp_heap_get; [done..|]. by eapply wp_heap_set.
Qed.

Lemma wp_copy_size_times {A} d lf (k : unit -> kprog A) Q m h :
  positive w d -> good_ptr d -> good_ptr lf ->
  (forall tr, tame tr -> WP (k tt) Q m (h ++ tr)) ->
  WP (copy_size_times d lf ≫= k) Q m h.
Proof.
  intros Hp Hd Hl Hk. unfold copy_size_times, file_inode. kassoc.
  apply wp_d_inode with (w := w); [done..|]. intros _. kstep. kstep. kstep.
  rewrite <- !app_assoc. apply Hk. tame.
Qed.
End Steps.

(** ** Writing *)

Section Write.
Context (w : kworld) (env : kenv) (Henv : env_ok (kernel_ok w) env).
Context (m : kmem) (h : khist) (lock : ptr) (si : trfs_sb_info) (pos : Z) (buf : bytes).
Context (file p : ptr) (fi : trfs_file_info) (path : bytes).
Local Abbreviation dentry := (dentry_of w file).
Context (Hm : mounted w m (sb_of w (inode_of w dentry)) lock si pos buf).
Context (Hfile : has_file m file p fi) (Hpos : positive w dentry).
Context (Hpath : path_of w dentry = Some path).
Local Abbreviation ok := (kernel_ok_if w (plentiful env)).

Lemma wp_trfs_write ubuf count ppos :
  op_fits FWRITE path ubuf (int32 count) ->
  wp ok (trfs_write file ubuf count ppos)
    (fun o => exists n flags m' h',
    o = finished (int32 n) m' h' /\
    performs h h' [] (KEv (vfs_write (lower_file fi) (b_ptr ubuf) count ppos) n) /\
    In (KEv (load F_f_flags file) flags) h' /\ balanced h h' /\
    logs env si pos FWRITE (int32 (trecord_id m + 1)) flags 0 (int32 n) path ubuf (int32 count) [] h h') m h.
Proof.
  intros Hfit.
  pose proof Hfile as ((Hf & _) & Hlf). unfold trfs_write.
  apply wp_file_dentry with (w := w); [apply _|done|]. intros Hd.
  eapply wp_lower_file; [apply Hfile|]. unfold as_int. kassoc. apply wp_kdo. intros n _. cbn in n. kstep.
  assert (Hend : forall tb, tame tb ->
    wp ok (f_flags ← ld F_f_flags file;
           log_op (dentry_sb dentry) TR_FWRITE dentry f_flags 0 (int32 n) ubuf (int32 count);;
           mret (int32 n))
      (fun o => exists n flags m' h', o = finished (int32 n) m' h' /\
         performs h h' [] (KEv (vfs_write (lower_file fi) (b_ptr ubuf) count ppos) n) /\
         In (KEv (load F_f_flags file) flags) h' /\ balanced h h' /\
         logs env si pos FWRITE (int32 (trecord_id m + 1)) flags 0 (int32 n) path ubuf (int32 count)
           [] h h')
      m (h ++ [KEv (load F_f_dentry file) dentry] ++
         KEv (vfs_write (lower_file fi) (b_ptr ubuf) count ppos) n :: tb)).
  { intros tb Htb. apply wp_ld; [done|]. intros flags _. rewrite <- app_assoc.
    set (c := KEv (vfs_write _ _ _ _) n). set (tr := _ ++ [KEv (load F_f_flags file) flags]).
    assert (Htr : unlogged tr).
    { unfold tr. apply unlogged_app; [|done]. apply (unlogged_app [_; c]); [done|by apply tame_unlogged]. }
    eapply (then_log w env m h) with (tu := []) (t := FWRITE) (apath := []) (arg_len := int32 count);
      [|unfold dentry_sb, d_inode; calls|exact Hm|auto with trfs|done..| | |].
    - refine (reads_d_inode_i_sb w _ _ _ _); done.
    - intros r Hr. unfold tr. rewrite app_nil_r, net_app. cbn [net app]. rewrite (tame_net tb) by done. done.
    - intros R m' h'. by rewrite app_nil_r.
    - intros m' tl Hl h' Hb Hlog. exists n, flags, m', h'. split_and!; [done| | |done|done].
      + exists [KEv (load F_f_dentry file) dentry], (tb ++ [KEv (load F_f_flags file) flags] ++ tl).
        unfold h', tr. rewrite app_nil_r, <- !app_assoc. split_and!; [done| |done|].
        * by apply silent_ledger; repeat constructor.
        * by rewrite !lower_ops_app, tame_lower, Hl.
      + unfold h', tr. rewrite app_nil_r. apply in_or_app. left. apply in_or_app. right.
        apply in_or_app. right. by left. }
  apply wp_when. case_bool_decide.
  - eapply wp_copy_size_times with (w := w); [apply _|done..|]. intros tb Htb.
    rewrite <- !app_assoc. by apply Hend.
  - rewrite <- app_assoc. apply Hend. tame.
Qed.

(** C16: writing: the caller's bytes go to the lower file, whose answer the
    caller gets, as an [int]; the log gets the bytes too, all that the caller
    asked to write. *)
Theorem trfs_write_ok ubuf count ppos :
  op_fits FWRITE path ubuf (int32 count) ->
  exists n flags m' h',
    run env (trfs_write file ubuf count ppos) m h = finished (int32 n) m' h' /\
    performs h h' [] (KEv (vfs_write (lower_file fi) (b_ptr ubuf) count ppos) n) /\
    In (KEv (load F_f_flags file) flags) h' /\ balanced h h' /\
    logs env si pos FWRITE (int32 (trecord_id m + 1)) flags 0 (int32 n) path ubuf (int32 count) [] h h'.
Proof.
  intros Hfit. pose proof (kernel_ok_if_env _ _ Henv). by_wp (kernel_ok_if w (plentiful env)).
  by apply wp_trfs_write.
Qed.
End Write.

(** ** Opening and closing *)

(** No file was given private data; an object may have been allocated for it,
    and freed: the stale pointer to it stays. *)
Record opened_none (m m' : kmem) (file : ptr) (tr : khist) : Prop := {
  on_private f : f <> file -> private_data m' !! f = private_data m !! f;
  on_files : file_infos m' = file_infos m \/
    exists p, good_ptr p /\ allocates tr p /\ file_infos m' = delete p (file_infos m);
  on_fsdata : d_fsdata m' = d_fsdata m;
  on_infos : dentry_infos m' = dentry_infos m;
  on_mounts : same_mounts m m';
}.

(** The file was given private data, with this lower file. *)
Record opened (m m' : kmem) (file p lf : ptr) : Prop := {
  op_private : private_data m' = <[file := p]> (private_data m);
  op_files : file_infos m' = <[p := FileInfo lf NULL]> (file_infos m);
  op_fsdata : d_fsdata m' = d_fsdata m;
  op_infos : dentry_infos m' = dentry_infos m;
  op_mounts : same_mounts m m';
}.

(** A file's private data was released; the file still points to it. *)
Record closed (m m' : kmem) (p : ptr) : Prop := {
  cl_private : private_data m' = private_data m;
  cl_files : file_infos m' = delete p (file_infos m);
  cl_fsdata : d_fsdata m' = d_fsdata m;
  cl_infos : dentry_infos m' = dentry_infos m;
  cl_mounts : same_mounts m m';
}.

(** How opening ends: with an error, nothing kept; or with private data and a
    reference to a lower file opened at the dentry's lower path. *)
Inductive open_end (m : kmem) (file : ptr) (lp : Kernel.path) (err : Z) (m' : kmem) (tr : khist) : Prop :=
| open_fails : err < 0 -> opened_none m m' file tr -> keeps tr [] -> open_end m file lp err m' tr
| open_done p lf flags : err = 0 -> has_file m' file p (FileInfo lf NULL) ->
    opened m m' file p lf -> allocates tr p ->
    In (KEv (dentry_open lp flags) lf) tr -> keeps tr [RMem p; RFile lf] ->
    open_end m file lp err m' tr.

Section Open.
Context (w : kworld) (ok : khist -> event ksig -> Prop) `{HK : !KernelSpec w ok}.
Local Abbreviation WP := (wp ok).

Lemma wp_trfs_open inode file info lp (Q : outcome ksig Z -> Prop) m h :
  good_ptr inode -> good_ptr file -> has_lower m (dentry_of w file) info lp ->
  (forall err m' tr, open_end m file lp err m' tr -> Q (finished err m' (h ++ tr))) ->
  WP (trfs_open inode file) Q m h.
Proof.
  intros Hi Hf Hl HQ. unfold trfs_open. apply wp_file_dentry with (w := w); [apply _|done|]. intros Hd.
  apply wp_kdo. intros un _. destruct un.
  { rewrite <- app_assoc. apply HQ, open_fails; [done|by constructor; auto|]. intros x Hx. unfold takes. simpl. lia. }
  apply wp_kdo. intros p Hp%(kernel_spec (w := w)). simpl in Hp.
  assert (Hother : forall f, f <> file -> <[file := p]> (private_data m) !! f = private_data m !! f)
    by (intros f Hne; by apply lookup_insert_ne).
  destruct (decide (p = NULL)) as [->|Hn].
  { rewrite (decide_False (P := NULL <> NULL)) by (intros Hc; by apply Hc). kstep.
    apply wp_field_set; [done|]. rewrite ?(decide_True (P := NULL = NULL)) by done.
    rewrite <- !app_assoc. apply HQ, open_fails; [done|constructor; auto; first [apply Hother|by split]|]. intros x Hx. unfold takes. simpl. lia. }
  destruct Hp as [?|Hp]; [done|]. rewrite (decide_True (P := p <> NULL)) by done.
  apply wp_heap_new, wp_field_set; [done|]. rewrite ?(decide_False (P := p = NULL)) by done.
  set (m1 := set_private_data _ _).
  assert (Hpr : has_private m1 file p (FileInfo NULL NULL)).
  { split_and!; [done|simpl; apply lookup_insert_eq|done|simpl; apply lookup_insert_eq]. }
  assert (Hal : forall tr, allocates ([KEv (load F_f_dentry file) (dentry_of w file)] ++
    [KEv (d_unhashed (dentry_of w file)) false] ++ [KEv (kzalloc sizeof_file_info) p] ++ tr) p).
  { intros tr. eexists [_; _], _, _. by split_and!. }
  eapply wp_get_lower_path; [exact Hl|]. apply wp_ld; [done|]. intros flags _.
  apply wp_kdo. intros lf Hlf%(kernel_spec (w := w)). simpl in Hlf. kstep.
  destruct Hlf as [Herr|Hlf].
  - rewrite (proj1 Herr). kassoc. eapply wp_lower_file; [done|]. cbn [lower_file]. 
    change (nonzero NULL) with false. kassoc. apply wp_when.
    kstep. pose proof (err_ptr_neg _ Herr) as Hneg.
    rewrite int32_id by (unfold MAX_ERRNO in Hneg; lia). rewrite decide_True by lia. kassoc.
    unfold TRFS_F. apply wp_field_get; [done|]. simpl private_data. rewrite lookup_insert_eq.
    cbn [default from_option id]. kstep. apply wp_heap_del. rewrite <- !app_assoc.
    apply HQ, open_fails; [lia| |].
    { constructor; [exact Hother| |done..]. right. exists p. split; [done|]. split; [apply Hal|].
      simpl. by rewrite delete_insert_eq. }
    intros x Hx. rewrite !net_app, get_lower_path_ledger. unfold takes. simpl.
    rewrite (proj1 Herr), (good_ptr_nonnullb p) by done. simpl. lia.
  - rewrite good_ptr_no_err by done. kassoc. eapply wp_set_lower_file; [done|]. kstep.
    rewrite decide_False by lia. kassoc. apply wp_field_get; [done|]. kstep. rewrite <- !app_assoc.
    apply HQ, (open_done _ _ _ _ _ _ p lf flags); [done| |constructor; try done; simpl; by rewrite insert_insert_eq|apply Hal| |].
    + split; [|done]. split_and!; [done|simpl; apply lookup_insert_eq|done|simpl; apply lookup_insert_eq].
    + simpl. auto 20.
    + intros x Hx. rewrite !net_app, get_lower_path_ledger. unfold takes. simpl.
      rewrite (good_ptr_no_err lf), (good_ptr_nonnullb p) by done. simpl. lia.
Qed.

Lemma wp_trfs_file_release {A} inode file p fi (k : Z -> kprog A) Q m h :
  has_file m file p fi ->
  (forall m', closed m m' p ->
     WP (k 0) Q m' (h ++ [KEv (fput (lower_file fi)) tt; KEv (kfree p) tt])) ->
  WP (trfs_file_release inode file ≫= k) Q m h.
Proof.
  intros [Hpr Hlf] Hk. pose proof Hpr as (Hf & Hp & Hg & Hfi). unfold trfs_file_release. kassoc.
  eapply wp_lower_file; [done|]. rewrite good_ptr_nonzero by done. cbn [when]. kassoc.
  eapply wp_set_lower_file; [done|]. kstep. kassoc. unfold TRFS_F. apply wp_field_get; [done|].
  simpl private_data. rewrite Hp. cbn [default from_option id]. kstep. kassoc. apply wp_heap_del.
  kstep. rewrite <- app_assoc. apply Hk. constructor; try done. simpl. by rewrite delete_insert_eq.
Qed.
End Open.

(** C32: opening a file finishes, whatever the lower file system and the
    allocator answer, and ends in one of the two ways of [open_end]. *)
Theorem trfs_open_ends w env inode file info lp m h :
  env_ok (kernel_ok w) env -> good_ptr inode -> good_ptr file ->
  has_lower m (dentry_of w file) info lp ->
  exists err m' tr, run env (trfs_open inode file) m h = finished err m' (h ++ tr) /\
    open_end m file lp err m' tr.
Proof.
  intros Henv Hi Hf Hl. by_wp (kernel_ok w). eapply wp_trfs_open with (w := w); [apply _|done..|].
  eauto.
Qed.

(** ** Reading the target of a symbolic link *)

(** How getting a link's target ends: with an error and nothing kept; with the
    target, terminated, in a fresh buffer; or, when the target fills the page,
    with a byte written after it. *)
Inductive link_end (ld : ptr) (m : kmem) (h : khist) : outcome ksig ptr -> Prop :=
| link_error e m' tr : err_ptr e -> keeps tr [] -> same_data m m' ->
    link_end ld m h (finished e m' (h ++ tr))
| link_target buf n data m' tr : 0 <= n < PAGE_SIZE ->
    In (KEv (i_op_readlink ld buf PAGE_SIZE) n) tr ->
    kbufs m' !! buf = Some data -> data !! Z.to_nat n = Some 0 -> good_ptr buf ->
    allocates tr buf -> keeps tr [RMem buf] -> same_data m m' ->
    link_end ld m h (finished buf m' (h ++ tr))
| link_overflow buf m' tr :
    In (KEv (i_op_readlink ld buf PAGE_SIZE) PAGE_SIZE) tr ->
    link_end ld m h (died OutOfBounds m' (h ++ tr)).

Section Link.
Context (w : kworld) (ok : khist -> event ksig -> Prop) `{HK : !KernelSpec w ok}.
Local Abbreviation WP := (wp ok).

(** The lower link is read into [buf]: the answer is an error, or the number
    of bytes stored there. *)
Lemma wp_trfs_readlink {A} dentry info lp buf size (k : Z -> kprog A) Q m h :
  has_lower m dentry info lp -> positive w dentry -> positive w (p_dentry lp) ->
  good_ptr (p_dentry lp) -> 0 <= size ->
  (forall n tr, tame tr -> - MAX_ERRNO <= n < 0 \/
     0 <= n <= size /\ In (KEv (i_op_readlink (p_dentry lp) buf size) n) tr ->
     WP (k n) Q m ((h ++ get_lower_path_trace info lp) ++ tr ++ [KEv (path_put lp) tt])) ->
  WP (trfs_readlink dentry buf size ≫= k) Q m h.
Proof.
  intros Hl Hpd Hpl Hgl Hsz Hk. pose proof Hl as (Hd & _). unfold trfs_readlink. kassoc.
  eapply wp_get_lower_path; [done|]. kassoc. apply wp_d_inode with (w := w); [done..|]. intros Hi.
  kassoc. apply wp_ld; [done|]. intros iop Hiop%(kernel_spec (w := w)). simpl in Hiop.
  assert (Hend : forall n tr, tame tr -> - MAX_ERRNO <= n < 0 \/
      0 <= n <= size /\ In (KEv (i_op_readlink (p_dentry lp) buf size) n) tr ->
    WP ((mret n ≫= fun err => trfs_put_lower_path dentry lp;; mret err) ≫= k) Q m
      ((h ++ get_lower_path_trace info lp) ++ tr)).
  { intros n tr Htr Hn. kstep. kassoc. apply wp_put_lower_path. kstep. rewrite <- (app_assoc (h ++ _)).
    by apply Hk. }
  assert (Herr : forall tr, tame tr -> WP ((mret (- EINVAL) ≫= fun err =>
      trfs_put_lower_path dentry lp;; mret err) ≫= k) Q m ((h ++ get_lower_path_trace info lp) ++ tr)).
  { intros tr Htr. apply Hend; [done|]. left. by unfold MAX_ERRNO, EINVAL. }
  destruct (decide (iop = NULL)) as [->|Hn].
  { rewrite ?(decide_True (P := NULL = NULL)) by done. kstep.
    rewrite ?(decide_True (P := NULL = NULL)) by done. rewrite <- !(app_assoc (h ++ _)).
    apply Herr. tame. }
  destruct Hiop as [?|Hiop]; [done|]. rewrite ?(decide_False (P := iop = NULL)) by done.
  kassoc. apply wp_ld; [done|]. intros rl _. destruct (decide (rl = NULL)) as [->|Hr].
  { rewrite ?(decide_True (P := NULL = NULL)) by done. rewrite <- !(app_assoc (h ++ _)).
    apply Herr. tame. }
  rewrite ?(decide_False (P := rl = NULL)) by done. kassoc.
  apply wp_kdo. intros n Hn'%(kernel_spec (w := w)). simpl in Hn'. specialize (Hn' Hsz). cbn in n.
  rewrite <- !(app_assoc (h ++ _)). case_decide as Hneg.
  { apply Hend; [tame|]. left. lia. }
  kassoc. apply wp_d_inode with (w := w); [done..|]. intros _. kassoc.
  apply wp_d_inode with (w := w); [done..|]. intros _. kstep.
  rewrite <- !(app_assoc (h ++ _)). apply Hend; [tame|]. right. split; [lia|]. simpl. auto 20.
Qed.

Lemma wp_trfs_get_link dentry inode done info lp m h :
  has_lower m dentry info lp -> positive w dentry -> positive w (p_dentry lp) ->
  good_ptr (p_dentry lp) -> WP (trfs_get_link dentry inode done) (link_end (p_dentry lp) m h) m h.
Proof.
  intros Hl Hpd Hpl Hgl. pose proof Hl as (Hd & _). unfold trfs_get_link.
  rewrite decide_False by by apply good_ptr_nonnull.
  apply wp_kdo. intros [buf contents] Hb%(kernel_spec (w := w)). simpl in Hb. specialize (Hb ltac:(done)).
  destruct (decide (buf = NULL)) as [->|Hn].
  { rewrite ?(decide_True (P := NULL = NULL)) by done. apply link_error; [by apply err_ptr_ERR_PTR| |done].
    intros x Hx. unfold takes. simpl. lia. }
  destruct Hb as [?|[Hb Hlen]]; [done|]. rewrite ?(decide_False (P := buf = NULL)) by done.
  apply wp_heap_new. apply wp_kdo. intros old _. cbn in old.
  eapply wp_trfs_readlink; [exact Hl|done..|]. intros n tr Htr Hn'. kstep.
  assert (Hnet : forall x tu, tracked x -> net ([KEv (kmalloc PAGE_SIZE) (buf, contents);
      KEv set_fs_kernel old] ++ get_lower_path_trace info lp ++ (tr ++ [KEv (path_put lp) tt]) ++ tu) x =
      hits x (RMem buf) + net tu x).
  { intros x tu Hx. rewrite !net_app, (tame_net tr), get_lower_path_ledger by done. simpl.
    rewrite (good_ptr_nonnullb buf) by done. simpl. lia. }
  case_decide as Hneg.
  - kassoc. apply wp_kdo. intros [] _. kassoc. apply wp_heap_del. kstep. kstep.
    rewrite <- !app_assoc. apply link_error; [apply err_ptr_ERR_PTR; lia| |done]. intros x Hx.
    rewrite (app_assoc tr), (app_assoc [_]), Hnet by done. unfold takes. simpl.
    rewrite (good_ptr_nonnullb buf) by done. simpl. lia.
  - destruct Hn' as [?|[Hn' Hin]]; [lia|]. destruct (decide (n = PAGE_SIZE)) as [->|Hne].
    + kassoc. unfold write_kbuf. kassoc. eapply wp_heap_get; [done|simpl; apply lookup_insert_eq|].
      rewrite decide_False by (rewrite Hlen; simpl; lia). rewrite <- !app_assoc.
      apply (link_overflow _ _ _ buf). do 3 (apply in_or_app; right). apply in_or_app. left. exact Hin.
    + kassoc. unfold write_kbuf. kassoc. eapply wp_heap_get; [done|simpl; apply lookup_insert_eq|].
      rewrite decide_True by (rewrite Hlen; simpl; lia).
      eapply wp_heap_set; [done|simpl; apply lookup_insert_eq|]. kstep. kstep. rewrite <- !app_assoc.
      eapply (link_target _ _ _ buf n); [lia| |simpl; apply lookup_insert_eq| |done| | |done].
      * do 3 (apply in_or_app; right). apply in_or_app. left. exact Hin.
      * apply splice_at. lia.
      * exists [], (KEv (kmalloc PAGE_SIZE) (buf, contents)). by eexists.
      * intros x Hx. rewrite (app_assoc tr), (app_assoc [_]), Hnet by done. unfold takes. simpl. lia.
Qed.
End Link.

(** C33: getting a link's target ends in one of the three ways of [link_end]:
    the terminator is in the buffer unless the target fills the page, and then
    it is written past the buffer. *)
Theorem trfs_get_link_ends w env dentry inode done info lp m h :
  env_ok (kernel_ok w) env -> has_lower m dentry info lp -> positive w dentry ->
  positive w (p_dentry lp) -> good_ptr (p_dentry lp) ->
  link_end (p_dentry lp) m h (run env (trfs_get_link dentry inode done) m h).
Proof.
  intros Henv Hl Hpd Hpl Hg. by_wp (kernel_ok w).
  by eapply wp_trfs_get_link with (w := w) (info := info) (lp := lp); [apply _|..].
Qed.

(** ** At a concrete kernel *)

(** An upper file, 40, on the dentry 20, with the lower file 42. *)
Lemma demo_has_file mask : has_file (demo_mem mask) 40 41 (FileInfo 42 0).
Proof. done. Qed.

Lemma trfs_write_ok_witness :
  plentiful (demo_env (fun _ => 2)) /\
  exists n flags m' h',
    run (demo_env (fun _ => 2)) (trfs_write 40 (Buffer 8192 (lit "hi")) 2 0) (demo_mem umask_all) [] =
      finished (int32 n) m' h' /\
    performs [] h' [] (KEv (vfs_write 42 8192 2 0) n) /\
    In (KEv (load F_f_flags 40) flags) h' /\ balanced [] h' /\
    logs (demo_env (fun _ => 2)) (demo_si umask_all) 0 FWRITE 0 flags 0 (int32 n) (lit "/a")
      (Buffer 8192 (lit "hi")) 2 [] [] h'.
Proof.
  split; [apply demo_plentiful|].
  apply (trfs_write_ok demo_world _ (demo_env_kernel_ok _) (demo_mem umask_all) [] demo_info
    (demo_si umask_all) 0 _ 40 41 (FileInfo 42 0) (lit "/a") (demo_mounted umask_all) (demo_has_file _)
    ltac:(by right) eq_refl (Buffer 8192 (lit "hi")) 2 0).
  intros _. vm_compute. split; [split|]; congruence.
Defined.

Definition demo_file (lf : ptr) (c : kfun) : Z :=
  match c with kzalloc _ => 800 | dentry_open _ _ => lf | _ => 0 end.

Lemma trfs_open_ends_witness :
  exists err m' tr,
    run (demo_env (demo_file 43)) (trfs_open demo_dir 44) (demo_mem 0) [] = finished err m' ([] ++ tr) /\
    open_end (demo_mem 0) 44 (Path 22 23) err m' tr.
Proof.
  by apply (trfs_open_ends demo_world _ demo_dir 44 21 (Path 22 23) (demo_mem 0) []
    (demo_env_kernel_ok _)).
Defined.

(** A link to the dentry 20, whose lower dentry is [demo_parent], with a target
    of [n] bytes. *)
Definition demo_link_mem : kmem :=
  set_dentry_infos (<[21 := Path demo_parent 23]> (dentry_infos (demo_mem 0))) (demo_mem 0).
Definition demo_target_of (n : Z) (c : kfun) : Z :=
  match c with
  | kmalloc _ => 1 | load F_i_op _ => 700 | load F_readlink _ => 701
  | i_op_readlink _ _ _ => n
  | _ => 0
  end.

Lemma trfs_get_link_ends_witness :
  (exists m' h', run (demo_env (demo_target_of PAGE_SIZE)) (trfs_get_link demo_dentry 24 25) demo_link_mem [] =
     died OutOfBounds m' h') /\
  link_end demo_parent demo_link_mem [] (run (demo_env (demo_target_of 5)) (trfs_get_link demo_dentry 24 25) demo_link_mem []).
Proof.
  split; [eexists _, _; vm_compute; reflexivity|].
  apply (trfs_get_link_ends demo_world _ demo_dentry 24 25 21 (Path demo_parent 23) demo_link_mem []
    (demo_env_kernel_ok _)); [done|by right|by left|done].
Defined.
