(* ===== verification/TableThms.v ===== *)
(** * What is logged, and what is not

    No method of any table of operations, but the eight handlers that log,
    writes anything to a log; and but for [trfs_put_super], which removes the log
    of the mount, none removes a file. *)

From S2P Require Import Prelude Prog TrTypes Kernel TrfsH Lookup Trdump Inode FileOps Super Mount TrIoctl.
From S2P Require Import Tables Ledger TrdumpSpec HandlerSpec.

(** ** Programs that write to no file *)

(** Calls that do not write to a file from the kernel; and that do not remove a
    file either. *)
Definition unwritten (c : kfun) : Prop := match c with kernel_write _ _ _ _ => False | _ => True end.
Definition quiet (c : kfun) : Prop := match c with kernel_write _ _ _ _ | vfs_unlink _ _ => False | _ => True end.

Lemma unwritten_unlogged (t : khist) : Forall (fun e : event ksig => unwritten (ev_call e)) t -> unlogged t.
Proof.
  intros Ht f img. revert img. induction Ht as [|[c r] t Hc _ IH]; intros img; simpl; [done|].
  rewrite IH. by destruct c.
Qed.

Lemma unwritten_load f o : unwritten (load f o).
Proof. done. Qed.
Lemma quiet_load f o : quiet (load f o).
Proof. done. Qed.
#[export] Hint Resolve unwritten_load quiet_load : calls.

(** Whatever a program is answered, it makes only such calls. *)
Lemma run_calls {A} P env (p : kprog A) m h :
  calls_only (S := ksig) P p ->
  exists t, outcome_hist (run env p m h) = h ++ t /\ Forall (fun e : event ksig => P (ev_call e)) t.
Proof.
  intros Hp. set (ok := fun (_ : khist) (_ : event ksig) => True).
  assert (H : wp ok p (fun o => True /\ exists t, outcome_hist o = h ++ t /\
      Forall (fun e : event ksig => P (ev_call e)) t) m h).
  { apply wp_calls; [done|]. clear Hp. revert m h. induction p; simpl; auto. }
  apply (wp_run ok p _ m h env) in H as (_ & H); done.
Qed.

(** Every log holds afterwards what it held before. *)
Definition writes_no_log {A} (p : kprog A) : Prop :=
  forall env m h f, log_image f (outcome_hist (run env p m h)) = log_image f h.

(** And no file was removed. *)
Definition unlogged_prog {A} (p : kprog A) : Prop :=
  writes_no_log p /\
  forall env m h, exists t, outcome_hist (run env p m h) = h ++ t /\
    Forall (fun e : event ksig => quiet (ev_call e)) t.

Lemma unwritten_prog {A} (p : kprog A) : calls_only (S := ksig) unwritten p -> writes_no_log p.
Proof.
  intros Hp env m h f. destruct (run_calls _ env p m h Hp) as (t & -> & Ht).
  by apply log_image_unlogged, unwritten_unlogged.
Qed.

Lemma quiet_prog {A} (p : kprog A) : calls_only (S := ksig) quiet p -> unlogged_prog p.
Proof.
  intros Hp. split; [|intros env m h; by apply run_calls].
  intros env m h f. destruct (run_calls _ env p m h Hp) as (t & -> & Ht).
  apply log_image_unlogged, unwritten_unlogged. eapply Forall_impl; [exact Ht|]. intros [[] r]; simpl; auto.
Qed.

(** The bodies of the handlers that do not log, and of what they use. *)
Ltac open_handler :=
  unfold trfs_lookup, __trfs_lookup, negative_dentry, new_dentry_private_data, trfs_mknod,
    trfs_get_link, trfs_readlink, trfs_permission, trfs_setattr, trfs_getattr, trfs_setxattr,
    trfs_getxattr, trfs_listxattr, trfs_removexattr,
    trfs_file_llseek, trfs_read, trfs_readdir, trfs_unlocked_ioctl, trfs_compat_ioctl, trfs_mmap,
    trfs_open, trfs_flush, trfs_file_release, trfs_fsync, trfs_fasync, trfs_read_iter, trfs_write_iter,
    trfs_statfs, trfs_remount_fs, trfs_umount_begin, trfs_d_revalidate, trfs_d_release,
    free_dentry_private_data, trfs_fault, trfs_page_mkwrite, trfs_direct_IO,
    tr_ioctl, tr_get_bmap, tr_set_bmap, store_mask, with_mount, lock_sb, unlock_sb, tr_open, tr_close,
    trfs_get_lower_path, trfs_put_lower_path, trfs_set_lower_path, trfs_put_reset_lower_path,
    lock_parent, unlock_dir, i_sb, trfs_interpose, trfs_lower_super, trfs_set_lower_super, set_sb_info,
    copy_dir_attrs, copy_nlink, trfs_lower_file, trfs_set_lower_file, lower_iop, copy_attr_all,
    copy_attr_atime, with_lower_iocb, as_int, file_op, copy_size_times, file_dentry, file_inode,
    d_inode, st, TRFS_D, TRFS_F, TRFS_PAGE, heap_new, heap_del.
(** The tables' fields, and what deals with inodes and super blocks. *)
Ltac open_tables :=
  unfold so_put_super, so_statfs, so_remount_fs, so_evict_inode, so_umount_begin, so_alloc_inode,
    so_destroy_inode, sops, do_revalidate, do_release, dops, vo_fault, vo_page_mkwrite, vm_ops,
    ao_direct_IO, aops; open_handler;
  unfold trfs_put_super, SAFE_REMOVE, SAFE_FILPCLOSE, trfs_evict_inode, trfs_alloc_inode,
    trfs_destroy_inode, __trfs_interpose, trfs_iget, init_inode, heap_del; open_handler.

(** ** The methods, table by table *)

(** The methods of inodes that make, remove, rename and link are logged; the
    others are not. *)
Record inode_quiet (t : inode_operations) : Prop := {
  iq_lookup f : io_lookup t = Some f -> forall dir d fl, unlogged_prog (f dir d fl);
  iq_mknod f : io_mknod t = Some f -> forall dir d mode dev, unlogged_prog (f dir d mode dev);
  iq_readlink f : io_readlink t = Some f -> forall d b n, unlogged_prog (f d b n);
  iq_get_link f : io_get_link t = Some f -> forall d i x, unlogged_prog (f d i x);
  iq_permission f : io_permission t = Some f -> forall i mask, unlogged_prog (f i mask);
  iq_setattr f : io_setattr t = Some f -> forall d ia, unlogged_prog (f d ia);
  iq_getattr f : io_getattr t = Some f -> forall mnt d st, unlogged_prog (f mnt d st);
  iq_setxattr f : io_setxattr t = Some f -> forall d n v s fl, unlogged_prog (f d n v s fl);
  iq_getxattr f : io_getxattr t = Some f -> forall d n b s, unlogged_prog (f d n b s);
  iq_listxattr f : io_listxattr t = Some f -> forall d b s, unlogged_prog (f d b s);
  iq_removexattr f : io_removexattr t = Some f -> forall d n, unlogged_prog (f d n);
}.

(** Of the methods of files, [write] alone is logged. *)
Record file_quiet (t : file_operations) : Prop := {
  fq_llseek f : fo_llseek t = Some f -> forall x off w, unlogged_prog (f x off w);
  fq_read f : fo_read t = Some f -> forall x b n pos, unlogged_prog (f x b n pos);
  fq_iterate f : fo_iterate t = Some f -> forall x c, unlogged_prog (f x c);
  fq_ioctl f : fo_unlocked_ioctl t = Some f -> forall x c a, unlogged_prog (f x c a);
  fq_compat f : fo_compat_ioctl t = Some f -> forall x c a, unlogged_prog (f x c a);
  fq_mmap f : fo_mmap t = Some f -> forall x vma, unlogged_prog (f x vma);
  fq_open f : fo_open t = Some f -> forall i x, unlogged_prog (f i x);
  fq_flush f : fo_flush t = Some f -> forall x id, unlogged_prog (f x id);
  fq_release f : fo_release t = Some f -> forall i x, unlogged_prog (f i x);
  fq_fsync f : fo_fsync t = Some f -> forall x a b d, unlogged_prog (f x a b d);
  fq_fasync f : fo_fasync t = Some f -> forall fd x fl, unlogged_prog (f fd x fl);
  fq_read_iter f : fo_read_iter t = Some f -> forall k i, unlogged_prog (f k i);
  fq_write_iter f : fo_write_iter t = Some f -> forall k i, unlogged_prog (f k i);
}.

Record super_quiet (t : super_operations) : Prop := {
  sq_put_super sb : writes_no_log (so_put_super t sb);
  sq_statfs d b : unlogged_prog (so_statfs t d b);
  sq_remount_fs sb fl : unlogged_prog (so_remount_fs t sb fl);
  sq_evict_inode i : unlogged_prog (so_evict_inode t i);
  sq_umount_begin sb : unlogged_prog (so_umount_begin t sb);
  sq_alloc_inode sb : unlogged_prog (so_alloc_inode t sb);
  sq_destroy_inode i : unlogged_prog (so_destroy_inode t i);
}.

Record other_quiet (d : dentry_operations) (v : vm_operations) (a : address_space_operations) : Prop := {
  oq_revalidate x fl : unlogged_prog (do_revalidate d x fl);
  oq_release x : unlogged_prog (do_release d x);
  oq_fault vma vmf : unlogged_prog (vo_fault v vma vmf);
  oq_page_mkwrite vma vmf : unlogged_prog (vo_page_mkwrite v vma vmf);
  oq_direct_IO k i pos : unlogged_prog (ao_direct_IO a k i pos);
}.

(** One entry of a table: the handler's calls are walked through. *)
Ltac entry :=
  intros;
  lazymatch goal with
  | |- writes_no_log _ => apply unwritten_prog
  | |- unlogged_prog _ => apply quiet_prog
  end; open_tables; calls.

Ltac table :=
  constructor; intros f Hf; try discriminate Hf; injection Hf as <-; entry.

Lemma symlink_quiet : inode_quiet symlink_iops.
Proof. table. Qed.
Lemma dir_quiet : inode_quiet dir_iops.
Proof. table. Qed.
Lemma main_quiet : inode_quiet main_iops.
Proof. table. Qed.
Lemma main_file_quiet : file_quiet main_fops.
Proof. table. Qed.
Lemma dir_file_quiet : file_quiet dir_fops.
Proof. table. Qed.
Lemma device_quiet : file_quiet tr_fops.
Proof. table. Qed.
Lemma sops_quiet magic : super_quiet (sops magic).
Proof. constructor; entry. Qed.
Lemma others_quiet : other_quiet dops vm_ops aops.
Proof. constructor; entry. Qed.

