(* ===== verification/InodeThms.v ===== *)
(** * Finding the upper inode of a lower one

    An upper inode is found in the cache, or made and set up; the tables of
    operations it gets are those of its file type, which the lower file system
    says. *)

From S2P Require Import Prelude Prog TrTypes Kernel TrfsH Lookup Trdump Inode FileOps Super Mount TrIoctl.
From S2P Require Import Tables Ledger TrdumpSpec HandlerSpec Demo.

(** The operations of an inode of this mode. *)
Definition ops_of_mode (mode : Z) (t : inode_operations) (ft : file_operations) : Prop :=
  t = (if is_type S_IFDIR mode then dir_iops else if is_type S_IFLNK mode then symlink_iops else main_iops) /\
  ft = (if is_type S_IFDIR mode then dir_fops else main_fops).

(** How finding an inode ends: the kernel has no inode to give, and the
    reference of the caller on the lower one is dropped; the inode is known; it is
    new, but the lower one is going away, and it stays locked and held; or it is
    new and set up. *)
Inductive iget_end (sb lower : ptr) (m : kmem) (h : khist) : outcome ksig ptr -> Prop :=
| iget_refused ino :
    iget_end sb lower m h (finished (ERR_PTR (- EACCES)) m
      (h ++ [KEv (load F_i_ino lower) ino; KEv (iget5_locked sb ino lower) NULL; KEv (iput lower) tt]))
| iget_cached ino inode state :
    good_ptr inode -> Z.land state I_NEW = 0 ->
    iget_end sb lower m h (finished inode m
      (h ++ [KEv (load F_i_ino lower) ino; KEv (iget5_locked sb ino lower) inode;
             KEv (load F_i_state inode) state]))
| iget_stale inode tr :
    good_ptr inode -> In (KEv (igrab lower) NULL) tr -> ~ In (KEv (unlock_new_inode inode) tt) tr ->
    (forall r, net tr r = hits r (RInode inode)) ->
    iget_end sb lower m h (finished (ERR_PTR (- ESTALE)) m (h ++ tr))
| iget_new inode g ino mode a b t ft tr :
    good_ptr inode -> g <> NULL ->
    In (KEv (load F_i_ino lower) ino) tr -> In (KEv (store F_i_ino inode ino) tt) tr ->
    In (KEv (load F_i_mode lower) mode) tr ->
    In (KEv (store F_i_op inode a) tt) tr -> inode_table a = Some t ->
    In (KEv (store F_i_fop inode b) tt) tr -> file_table b = Some ft -> ops_of_mode mode t ft ->
    (is_special mode = true -> exists rdev, In (KEv (init_special_inode inode mode rdev) tt) tr) ->
    last tr = Some (KEv (unlock_new_inode inode) tt) ->
    (forall r, net tr r = hits r (RInode inode) + hits r (RInode lower)) ->
    iget_end sb lower m h
      (finished inode (set_inode_infos (<[inode := lower]> (inode_infos m)) m) (h ++ tr)).

Lemma iops_table mode :
  exists t, inode_table (iops_for mode) = Some t /\
    t = (if is_type S_IFDIR mode then dir_iops else if is_type S_IFLNK mode then symlink_iops else main_iops).
Proof. unfold iops_for. destruct (is_type S_IFDIR mode), (is_type S_IFLNK mode); by eexists. Qed.

Lemma fops_table mode :
  exists t, file_table (fops_for mode) = Some t /\ t = (if is_type S_IFDIR mode then dir_fops else main_fops).
Proof. unfold fops_for. destruct (is_type S_IFDIR mode); by eexists. Qed.

Section Iget.
Context (w : kworld) (ok : khist -> event ksig -> Prop) `{HK : !KernelSpec w ok}.

Ltac found := simpl; repeat (first [left; reflexivity|right]).

Lemma wp_trfs_iget_end sb lower m h :
  good_ptr lower -> wp ok (trfs_iget sb lower) (iget_end sb lower m h) m h.
Proof.
  intros Hl. apply wp_tail. unfold trfs_iget. kstep. kstep.
  match goal with H : ok _ (Ev (iget5_locked _ _ _) _) |- _ =>
    pose proof (kernel_spec (w := w) _ _ H) as Hi end. simpl in Hi.
  case_decide as Hn; [subst|destruct Hi as [?|Hi]; [done|]].
  { kstep. kstep. rewrite <- !app_assoc. apply iget_refused. }
  kstep. case_decide as Hnew.
  { kstep. rewrite <- !app_assoc. by apply iget_cached. }
  unfold init_inode. kstep. kstep. kstep. case_decide as Hg.
  { subst. kstep. rewrite <- !app_assoc. eapply iget_stale; [exact Hi|found| |].
    - intros Hin. simpl in Hin. by repeat destruct Hin as [Hin|Hin].
    - intros x. simpl. rewrite (good_ptr_nonnullb _ Hi). simpl. lia. }
  do 7 kstep.
  match goal with H : ok _ (Ev (load F_i_mapping _) ?r) |- _ =>
    assert (good_ptr r) by (by apply (kernel_spec (w := w)) in H) end.
  do 5 kstep. destruct (is_special _) eqn:Hsp.
  1: kstep; kstep.
  all: do 4 kstep; rewrite <- !app_assoc.
  all: match goal with H : ok _ (Ev (load F_i_mode _) ?mode) |- _ =>
         destruct (iops_table mode) as (t & Ht & Et); destruct (fops_table mode) as (ft & Hft & Eft);
         match goal with |- context [store F_i_ino _ ?n] =>
           eapply (iget_new _ _ _ _ _ _ n mode) end; try exact Ht; try exact Hft; try done; try by found end.
  all: try (rewrite Hsp; intros _; eexists; by found).
  all: try (by rewrite Hsp).
  all: intros x; simpl; rewrite (good_ptr_nonnullb _ Hi); unfold nonnull;
    rewrite (bool_decide_eq_false_2 _ Hg); simpl; lia.
Qed.
End Iget.


(** ** At a concrete kernel *)

(** A directory's inode that the cache does not know. *)
Definition demo_iget (c : kfun) : Z :=
  match c with
  | load F_i_mode _ => 16877
  | load F_i_state _ => I_NEW
  | iget5_locked _ _ _ => 800
  | igrab _ => 1
  | _ => 0
  end.

