(* ===== verification/AttrThms.v ===== *)
(** * Attributes: what the handlers pass on

    Changing attributes, and reading and writing extended ones: each handler
    asks the lower file system once at most, with the lower path pinned, and
    gives back every lock and reference, whatever it is told. *)

From S2P Require Import Prelude Prog TrTypes Kernel TrfsH Lookup Ledger Trdump TrdumpSpec Inode.
From S2P Require Import HandlerSpec FileThms Demo.

(** ** Changing attributes *)

(** A change that drops the set-id bits says nothing of the mode. *)
Definition valid_below (valid : Z) : Z :=
  if decide (Z.land valid (Z.lor ATTR_KILL_SUID ATTR_KILL_SGID) <> 0)
  then Z.ldiff valid ATTR_MODE else valid.

Section Setattr.
Context (w : kworld).
Context (m : kmem) (h : khist) (dentry info : ptr) (lp : path) (ia : iattr).
Context (Hlow : has_lower m dentry info lp) (Hpos : positive w dentry).
Context (Hlp : positive w (p_dentry lp)) (Hgl : good_ptr (p_dentry lp)).
(** The lower file of the open file that the change came by, if by one. *)
Context (p : ptr) (fi : trfs_file_info).
Context (Hfile : Z.land (ia_valid ia) ATTR_FILE <> 0 -> has_private m (ia_file ia) p fi).
Local Abbreviation inode := (inode_of w dentry).
Local Abbreviation lower := (inode_of w (p_dentry lp)).
Local Abbreviation li := (default NULL (inode_infos m !! inode)).

Definition file_below : ptr :=
  if decide (Z.land (ia_valid ia) ATTR_FILE <> 0) then lower_file fi else ia_file ia.

(** What is asked of the lower file system. *)
Definition change_below (e : Z) : event ksig :=
  KEv (notify_change (p_dentry lp) (valid_below (ia_valid ia)) (ia_size ia) file_below) e.

(** How it ends: the kernel refuses the change, or the new size; or the lower
    file system is asked, with its inode locked, and the upper inode refreshed
    if it agreed. *)
Inductive setattr_end (err : Z) (t : khist) : Prop :=
| setattr_refused :
    err <> 0 -> lower_ops t = [] ->
    In (KEv (inode_change_ok inode (ia_valid ia)) err) t \/
      (Z.land (ia_valid ia) ATTR_SIZE <> 0 /\ In (KEv (inode_newsize_ok inode (ia_size ia)) err) t) ->
    setattr_end err t
| setattr_asked t1 t2 :
    t = t1 ++ change_below err :: t2 -> lower_ops t1 = [] -> lower_ops t2 = [] ->
    t1 ≡ₗ [KEv (path_get lp) tt; KEv (inode_lock lower) tt] ->
    In (KEv (inode_change_ok inode (ia_valid ia)) 0) t1 ->
    (Z.land (ia_valid ia) ATTR_SIZE <> 0 ->
       In (KEv (inode_newsize_ok inode (ia_size ia)) 0) t1 /\
       In (KEv (truncate_setsize inode (ia_size ia)) tt) t1) ->
    (err = 0 <-> In (KEv (fsstack_copy_attr_all inode li) tt) t2) ->
    setattr_end err t.

(** Asking the lower file system, from the point where the size is settled. *)
Definition setattr_ask : kprog Z :=
  (li ← d_inode (p_dentry lp);
   kdo (inode_lock li);;
   err ← kdo (notify_change (p_dentry lp) (valid_below (ia_valid ia)) (ia_size ia) file_below);
   li ← d_inode (p_dentry lp);
   kdo (inode_unlock li);;
   mret err) >>?
  (kdo (fsstack_copy_attr_all inode li);; mret 0).

(** What has been done before: the change was found good, and the size set. *)
Definition setattr_ready (t : khist) : Prop :=
  t ≡ₗ [KEv (path_get lp) tt] /\ lower_ops t = [] /\
  In (KEv (inode_change_ok inode (ia_valid ia)) 0) t /\
  (Z.land (ia_valid ia) ATTR_SIZE <> 0 ->
     In (KEv (inode_newsize_ok inode (ia_size ia)) 0) t /\
     In (KEv (truncate_setsize inode (ia_size ia)) tt) t).

Section Steps.
Context (ok : khist -> event ksig -> Prop) `{HK : !KernelSpec w ok}.

Lemma wp_setattr_ask (k : Z -> kprog Z) (Q : outcome ksig Z -> Prop) t :
  setattr_ready t ->
  (forall err u, t ++ u ≡ₗ [KEv (path_get lp) tt] ->
     setattr_end err (t ++ u ++ [KEv (path_put lp) tt]) -> wp ok (k err) Q m (h ++ t ++ u)) ->
  wp ok (setattr_ask ≫= k) Q m (h ++ t).
Proof.
  intros (Ht & Hlo & Hok & Hsize) Hk. unfold setattr_ask. kassoc.
  apply wp_d_inode with (w := w); [done..|]. intros Hli. kassoc.
  apply wp_kdo. intros [] _. kassoc. apply wp_kdo. intros e _. cbn in e. kassoc.
  apply wp_d_inode with (w := w); [done..|]. intros _. kassoc. apply wp_kdo. intros [] _. kstep.
  rewrite <- !app_assoc.
  set (b := [KEv (load F_d_inode (p_dentry lp)) lower] ++ [KEv (inode_lock lower) tt]).
  set (a := [KEv (load F_d_inode (p_dentry lp)) lower] ++ [KEv (inode_unlock lower) tt]).
  assert (Hend : forall c, c = [] /\ e <> 0 \/ c = [KEv (fsstack_copy_attr_all inode li) tt] /\ e = 0 ->
    setattr_end e (t ++ (b ++ [change_below e] ++ a ++ c) ++ [KEv (path_put lp) tt])).
  { intros c Hc. apply (setattr_asked _ _ (t ++ b) (a ++ c ++ [KEv (path_put lp) tt])).
    - rewrite <- !app_assoc. done.
    - rewrite lower_ops_app, Hlo. done.
    - by destruct Hc as [[-> _]|[-> _]].
    - intros x. rewrite net_app, Ht. unfold b. simpl. lia.
    - apply in_or_app. auto.
    - intros [H1 H2]%Hsize. split; apply in_or_app; auto.
    - destruct Hc as [[-> He]|[-> He]]; simpl; [|by split; auto 8].
      split; [done|]. intros [?|[?|[?|[]]]]; done. }
  case_decide as He.
  - kstep.
    apply (Hk e (b ++ [change_below e] ++ a ++ [])).
    + intros x. rewrite !net_app, Ht. unfold b, a. simpl. lia.
    + apply Hend. auto.
  - assert (e = 0) as -> by lia. kassoc. apply wp_kdo. intros [] _. kstep. rewrite <- !app_assoc.
    apply (Hk 0 (b ++ [change_below 0] ++ a ++ [_])).
    + intros x. rewrite !net_app, Ht. unfold b, a. simpl. lia.
    + apply Hend. auto.
Qed.

Lemma wp_setattr (Q : outcome ksig Z -> Prop) :
  (forall err t, t ≡ₗ [] -> setattr_end err t -> Q (finished err m (h ++ t))) ->
  wp ok (trfs_setattr dentry ia) Q m h.
Proof.
  intros HQ. pose proof Hlow as (Hd & _). unfold trfs_setattr.
  apply wp_d_inode with (w := w); [done..|]. intros Hi. apply wp_tail. kassoc.
  apply wp_kdo. intros e0 _. cbn in e0. case_decide as He0.
  { kstep. rewrite <- app_assoc. apply HQ; [by ledger|]. apply setattr_refused; [done|done|].
    left. simpl. auto. }
  assert (e0 = 0) as -> by lia. kassoc. eapply wp_get_lower_path; [done|]. kassoc.
  unfold trfs_lower_inode. apply wp_field_get; [done|]. kassoc. rewrite <- !app_assoc.
  set (t0 := [KEv (load F_d_inode dentry) inode] ++
             [KEv (inode_change_ok inode (ia_valid ia)) 0] ++ get_lower_path_trace info lp).
  assert (Ht0 : t0 ≡ₗ [KEv (path_get lp) tt]) by (unfold t0; ledger).
  assert (Hout : forall err t, t ≡ₗ [KEv (path_get lp) tt] -> setattr_end err (t ++ [KEv (path_put lp) tt]) ->
    wp ok ((trfs_put_lower_path dentry lp;; mret err) ≫= mret) Q m (h ++ t)).
  { intros err t Ht Hend. kassoc. apply wp_put_lower_path. kstep. rewrite <- app_assoc.
    apply HQ; [intros x; rewrite net_app, Ht; simpl; lia|done]. }
  assert (Hput : forall err t, t ≡ₗ [KEv (path_get lp) tt] -> setattr_end err (t ++ [KEv (path_put lp) tt]) ->
    wp ok ((mret err ≫= fun err => trfs_put_lower_path dentry lp;; mret err) ≫= mret) Q m (h ++ t)).
  { intros err t Ht Hend. kstep. by apply Hout. }
  assert (Hf : forall k : ptr -> kprog Z, wp ok (k file_below) Q m (h ++ t0) ->
    wp ok ((if decide (Z.land (ia_valid ia) ATTR_FILE <> 0)
            then trfs_lower_file (ia_file ia) else mret (ia_file ia)) ≫= k) Q m (h ++ t0)).
  { intros k Hk. unfold file_below in Hk. case_decide; [|by kstep].
    by eapply wp_lower_file; [apply Hfile|]. }
  apply Hf. kassoc. destruct (decide (Z.land (ia_valid ia) ATTR_SIZE <> 0)) as [Hsize|Hsize].
  - kassoc. apply wp_kdo. intros e1 _. cbn in e1. destruct (decide (e1 <> 0)) as [He1|He1].
    + kstep. rewrite decide_True by done. rewrite <- !app_assoc. apply Hput; [unfold t0; ledger|].
      apply setattr_refused; [done|done|]. right. split; [done|]. simpl. auto 9.
    + assert (e1 = 0) as -> by lia. kassoc. apply wp_kdo. intros [] _. kstep.
      rewrite decide_False by auto. rewrite <- !app_assoc. apply wp_setattr_ask.
      * split_and!; [unfold t0; ledger|done|simpl; auto 9|simpl; auto 20].
      * intros err u Hu Hend. apply Hout; [done|]. by rewrite <- (app_assoc _ u).
  - kstep. rewrite decide_False by auto. apply wp_setattr_ask.
    + split_and!; [done|done|simpl; auto 9|done].
    + intros err u Hu Hend. apply Hout; [done|]. by rewrite <- (app_assoc _ u).
Qed.
End Steps.
End Setattr.

(** C18: changing attributes asks the lower file system once at most, and only
    if the kernel found the change and the new size good: for the lower dentry,
    with the mode left out when set-id bits are to go, on the lower open file
    when the change came by one, and under the lower inode's lock. It answers
    what the refusal or the lower file system said, refreshes the upper inode
    exactly when the change was made, and gives back every lock and reference. *)
Theorem trfs_setattr_ends w env m h dentry info lp ia p fi :
  env_ok (kernel_ok w) env -> has_lower m dentry info lp -> positive w dentry ->
  positive w (p_dentry lp) -> good_ptr (p_dentry lp) ->
  (Z.land (ia_valid ia) ATTR_FILE <> 0 -> has_private m (ia_file ia) p fi) ->
  exists err t, run env (trfs_setattr dentry ia) m h = finished err m (h ++ t) /\
    t ≡ₗ [] /\ setattr_end w m dentry lp ia fi err t.
Proof.
  intros Henv Hl Hd Hp Hg Hf. by_wp (kernel_ok w).
  eapply wp_setattr with (w := w); [done..|apply _|]. eauto.
Qed.

(** A truncation through an open file, which clears the set-id bits. *)
Definition demo_iattr : iattr := Iattr (Z.lor ATTR_SIZE (Z.lor ATTR_FILE ATTR_KILL_SUID)) 17 40.

Lemma trfs_setattr_ends_witness :
  exists err t,
    run (demo_env (fun _ => 0)) (trfs_setattr demo_dentry demo_iattr) demo_link_mem [] =
      finished err demo_link_mem ([] ++ t) /\
    t ≡ₗ [] /\ setattr_end demo_world demo_link_mem demo_dentry (Path demo_parent 23) demo_iattr
      (FileInfo 42 0) err t.
Proof.
  apply (trfs_setattr_ends demo_world _ demo_link_mem [] demo_dentry 21 (Path demo_parent 23) demo_iattr 41
    (FileInfo 42 0) (demo_env_kernel_ok _)); try done.
  - by right.
  - by left.
Defined.
