(* ===== verification/SymlinkThms.v ===== *)
(** * Making symbolic links

    The handler logs through the inode of the dentry it was asked to make.
    When there is one, it keeps the promises of the other handlers; when the
    link could not be made there is none. *)

From S2P Require Import Prelude Prog TrTypes Kernel TrfsH Lookup Ledger Trdump TrdumpSpec Inode.
From S2P Require Import HandlerSpec HandlerThms IoctlThms Demo.

(** Only the operations on the lower file system make files. *)
Lemma passive_not_made d (t : khist) :
  Forall (fun e : event ksig => passive (ev_call e)) t -> ~ made d t.
Proof.
  intros Ht Hm. unfold made in Hm. rewrite Exists_exists in Hm. destruct Hm as ([c r] & Hin & Hmk).
  rewrite Forall_forall in Ht. specialize (Ht _ Hin) as [Hl _]. by destruct c; simpl in *.
Qed.

Section Symlink.
Context (w : kworld) (env : kenv) (Henv : env_ok (kernel_ok w) env).
Context (m : kmem) (h : khist) (lock : ptr) (si : trfs_sb_info) (pos : Z) (buf : bytes).
Context (dir dentry info : ptr) (lp : path) (path : bytes) (symname : buffer).
Context (Hip : in_place w m (sb_of w dir) lock si pos buf dir dentry info lp path).
Local Abbreviation MADE := (made_then w m si lp dir dentry no_more).
Local Abbreviation len := (int32 (strlen (b_data symname))).

(** The handler up to the log: the link is asked for, with the lower parent
    locked, and what follows is [tame]. *)
Lemma wp_symlink_to_log (ok : khist -> event ksig -> Prop) `{!KernelSpec w ok} (Q : outcome ksig Z -> Prop) :
  (forall parent (e err : Z) tb m1, positive w parent -> good_ptr parent -> tame tb -> infos_frame m m1 ->
     MADE parent e err tb ->
     wp ok (log_op (dentry_sb dentry) TR_SYMLINK dentry 0 0 err symname len;;
            unlock_dir parent;; trfs_put_lower_path dentry lp;; mret err) Q m1
       (h ++ before_op w info lp parent ++
        KEv (vfs_symlink (inode_of w parent) (p_dentry lp) (b_data symname)) e :: tb)) ->
  wp ok (trfs_symlink dir dentry symname) Q m h.
Proof.
  intros Hk. unfold trfs_symlink. eapply wp_enter with (w := w); [apply _|apply Hip|]. intros parent Hp Hg Hi.
  kassoc. apply wp_d_inode with (w := w); [apply _|done..|]. intros _. apply wp_kdo. intros e _. cbn in e.
  set (c := vfs_symlink _ _ _). case_decide as He.
  - kstep. as_tail (KEv c e) (@nil (event ksig)). apply Hk; auto with trfs. by apply made_failed.
  - assert (e = 0) as -> by lia.
    eapply make_interpose with (w := w); [apply _|apply Hip|done..|apply made_snoc; by split| |].
    + intros err ti m1 He' Htb Hfr Hint. as_tail (KEv c 0) (KEv (load F_i_sb dir) (sb_of w dir) :: ti).
      apply Hk; try done; [tame|by apply made_unbound].
    + intros ti l m1 Htb Hfr Hl Hgl Hint. kstep.
      as_tail (KEv c 0) (KEv (load F_i_sb dir) (sb_of w dir) :: ti ++ dir_attrs w dir l parent).
      apply Hk; try done; [unfold dir_attrs; tame|].
      rewrite <- (app_nil_r (dir_attrs _ _ _ _)). by eapply made_bound.
Qed.

Lemma wp_trfs_symlink :
  positive w dentry -> sb_of w (inode_of w dentry) = sb_of w dir -> op_fits SYMLINK path symname len ->
  wp (kernel_ok_if w (plentiful env)) (trfs_symlink dir dentry symname)
    (fun o => exists err e parent tb m' h',
    o = finished err m' h' /\
    performs_then h h' (parent_locked w lp parent)
      (KEv (vfs_symlink (inode_of w parent) (p_dentry lp) (b_data symname)) e) tb /\
    MADE parent e err tb /\ balanced h h' /\
    logs env si pos SYMLINK (int32 (trecord_id m + 1)) 0 0 err path symname len [] h h') m h.
Proof.
  intros Hpos Hsb Hfit.
  apply wp_symlink_to_log; [apply _|]. intros parent e err tb m1 Hp Hg Htb Hfr Herr.
  pose proof Hip as [Hm _ Hlow _ Hpath]. assert (good_ptr dentry) by apply Hlow. rewrite <- Hsb in Hm.
  eapply op_then_log with (t := SYMLINK) (apath := []) (arg_len := len) (held := parent_locked w lp parent)
    (tu := exit_trace w lp parent);
    [|unfold dentry_sb, d_inode; calls|exact Hm|exact Hfr|done..| | | | | | | | |].
  - refine (reads_d_inode_i_sb w _ _ _ _); done.
  - apply before_op_passive.
  - apply exit_passive.
  - done.
  - done.
  - done.
  - apply before_op_locked.
  - apply before_op_exit.
  - intros R m' h'. by apply wp_release with (w := w).
  - intros m' h' _ H1 H2 H3. by exists err, e, parent, tb, m', h'.
Qed.

(** C17: making a symbolic link, when the new dentry has an inode by the time
    it is logged and the target fits the record: one lower [vfs_symlink] under the lower parent's lock, whose
    error is the answer; after a success the new inode is bound to the dentry as in
    [trfs_create_ok] and the directory refreshed; locks and references
    ([balanced]) are given back in every branch, and there is one record of the
    path, the target and the answer. *)
Theorem trfs_symlink_ok :
  positive w dentry -> sb_of w (inode_of w dentry) = sb_of w dir -> op_fits SYMLINK path symname len ->
  exists err e parent tb m' h',
    run env (trfs_symlink dir dentry symname) m h = finished err m' h' /\
    performs_then h h' (parent_locked w lp parent)
      (KEv (vfs_symlink (inode_of w parent) (p_dentry lp) (b_data symname)) e) tb /\
    made_then w m si lp dir dentry no_more parent e err tb /\ balanced h h' /\
    logs env si pos SYMLINK (int32 (trecord_id m + 1)) 0 0 err path symname len [] h h'.
Proof.
  intros Hpos Hsb Hfit. pose proof (kernel_ok_if_env _ _ Henv). by_wp (kernel_ok_if w (plentiful env)).
  by apply wp_trfs_symlink.
Qed.

(** C38: when the new dentry has no inode, as when the lower file system
    refused the link, the handler dies of a NULL pointer, and the lower parent
    stays locked. *)
Theorem trfs_symlink_dies :
  (forall h', ~ made dentry h' -> env h' (load F_d_inode dentry) = NULL) ->
  ~ made dentry h -> p_dentry lp <> dentry ->
  exists e parent m' h',
    run env (trfs_symlink dir dentry symname) m h = died NullDeref m' h' /\
    In (KEv (vfs_symlink (inode_of w parent) (p_dentry lp) (b_data symname)) e) h' /\
    net h' (RILock (inode_of w parent)) = net h (RILock (inode_of w parent)) + 1.
Proof.
  intros Hneg Hh Hne. pose proof (answers_env w env Henv). by_wp (answers w env).
  apply wp_symlink_to_log; [apply _|]. intros parent e err tb m1 Hp Hg Htb Hfr _.
  assert (good_ptr dentry) by apply Hip.
  unfold log_op. change (dentry_sb dentry) with (i ← d_inode dentry; ld F_i_sb i). kassoc.
  apply (wp_ld _ F_d_inode dentry); [done|].
  intros i [_ E]. cbn [ev_reply ev_call] in E. rewrite Hneg in E; [subst i|].
  2:{ unfold made. rewrite 2!Exists_app, Exists_cons. intros [?|[Hb|[[? ?]|Ht]]]; [by apply Hh| |by apply Hne|].
    - by apply (passive_not_made _ _ (before_op_passive w info lp parent)) in Hb.
    - by apply (passive_not_made _ _ (tame_passive _ Htb)) in Ht. }
  exists e, parent, m1. eexists. split; [reflexivity|]. split.
  - apply in_or_app. left. apply in_or_app. right. apply in_or_app. right. by left.
  - rewrite !net_app, net_cons, before_op_locked, (tame_net tb) by done. simpl.
    rewrite hits_refl, !hits_ne by done. lia.
Qed.
End Symlink.

(** ** At a concrete kernel *)

Lemma trfs_symlink_ok_witness :
  plentiful (demo_env (fun _ => 0)) /\
  exists err e parent tb m' h',
    run (demo_env (fun _ => 0)) (trfs_symlink demo_dir demo_dentry (Buffer 8200 (lit "t")))
      (demo_mem umask_all) [] = finished err m' h' /\
    performs_then [] h' (parent_locked demo_world (Path 22 23) parent)
      (KEv (vfs_symlink (inode_of demo_world parent) 22 (lit "t")) e) tb /\
    made_then demo_world (demo_mem umask_all) (demo_si umask_all) (Path 22 23) demo_dir demo_dentry no_more
      parent e err tb /\ balanced [] h' /\
    logs (demo_env (fun _ => 0)) (demo_si umask_all) 0 SYMLINK 0 0 0 err (lit "/a")
      (Buffer 8200 (lit "t")) 1 [] [] h'.
Proof.
  split; [apply demo_plentiful|].
  apply (trfs_symlink_ok demo_world _ (demo_env_kernel_ok _) _ [] demo_info (demo_si umask_all) 0 _
    demo_dir demo_dentry 21 (Path 22 23) (lit "/a") (Buffer 8200 (lit "t")) (demo_in_place umask_all)).
  - by right.
  - reflexivity.
  - intros _. vm_compute. split; [split|]; congruence.
Defined.

(** A dentry that is never made. *)
Definition demo_fresh : ptr := 60.
Definition demo_fresh_mem : kmem :=
  let m := demo_mem umask_all in
  set_d_fsdata (<[demo_fresh := 61]> (d_fsdata m))
    (set_dentry_infos (<[61 := Path 62 63]> (dentry_infos m)) m).

Lemma demo_in_place_fresh :
  in_place demo_world demo_fresh_mem demo_sb demo_info (demo_si umask_all) 0
    (replicate (Z.to_nat (sizeof_tr_record + PAGE_SIZE)) 0) demo_dir demo_fresh 61 (Path 62 63) (lit "/a").
Proof.
  constructor; [by constructor|..|done]; try done.
  split; [done|]. by exists 11.
Qed.

(** The lower file system refuses every link. *)
Definition no_symlink (c : kfun) : Z :=
  match c with vfs_symlink _ _ _ => - EPERM | _ => 0 end.

Lemma trfs_symlink_dies_witness :
  exists e parent m' h',
    run (demo_env no_symlink) (trfs_symlink demo_dir demo_fresh (Buffer 8200 (lit "t")))
      demo_fresh_mem [] = died NullDeref m' h' /\
    In (KEv (vfs_symlink (inode_of demo_world parent) 62 (lit "t")) e) h' /\
    net h' (RILock (inode_of demo_world parent)) = net [] (RILock (inode_of demo_world parent)) + 1.
Proof.
  apply (trfs_symlink_dies demo_world _ (demo_env_kernel_ok _) _ [] demo_info (demo_si umask_all) 0 _
    demo_dir demo_fresh 61 (Path 62 63) (lit "/a") (Buffer 8200 (lit "t")) demo_in_place_fresh).
  - intros h' Hn. simpl. by rewrite decide_False.
  - intros Hm. inversion Hm.
  - done.
Defined.
