(* ===== verification/ModuleThms.v ===== *)
(** * Loading and unloading the two modules *)

From S2P Require Import Prelude Prog TrTypes Kernel TrfsH Lookup Ledger TrdumpSpec Super Mount.
From S2P Require Import TrIoctl HandlerSpec HandlerThms IoctlThms MountThms Demo.

(** ** The control device *)

(** How loading the module of the device ends: with the device; with an error
    and nothing kept; or, when adding the device failed, with an error and the
    region of numbers still taken. *)
Inductive device_end (r : Z) (c : ptr) (tr : khist) : Prop :=
| device_made : r = 0 -> keeps tr [RRegion; RCdev; RClass c; RDevice c] -> device_end r c tr
| device_refused : r < 0 -> (forall n, n < 0 -> ~ In (KEv cdev_add n) tr) -> keeps tr [] ->
    device_end r c tr
| device_region_kept : r < 0 -> In (KEv cdev_add r) tr -> keeps tr [RRegion] -> device_end r c tr.

(** Counting with the sign of an answer known. *)
Ltac keeps_by :=
  let x := fresh in let Hx := fresh in
  intros x Hx; unfold takes; simpl;
  repeat match goal with
  | H : 0 <= ?n |- context [bool_decide (0 <= ?n)] => rewrite (bool_decide_eq_true_2 (0 <= n)) by exact H
  | H : ?n < 0 |- context [bool_decide (0 <= ?n)] => rewrite (bool_decide_eq_false_2 (0 <= n)) by lia
  | H : err_ptr ?p |- context [IS_ERR ?p] => rewrite (proj1 H)
  | H : good_ptr ?p |- context [IS_ERR ?p] => rewrite (good_ptr_no_err p H)
  | H : good_ptr ?p |- context [nonnull ?p] => rewrite (good_ptr_nonnullb p H)
  end; simpl; lia.

(** No failed addition among other calls, or a successful one. *)
Ltac not_failed :=
  let n := fresh in let Hn := fresh in let Hin := fresh in
  intros n Hn Hin; simpl in Hin;
  repeat destruct Hin as [Hin|Hin]; try done;
  apply (f_equal (fun e : event ksig => match e with
    | Ev c r => match c return kreply c -> Z with cdev_add => fun r => r | _ => fun _ => 0 end r end)) in Hin;
  simpl in Hin; lia.

Section Device.
Context (w : kworld) (ok : khist -> event ksig -> Prop) `{HK : !KernelSpec w ok}.

Lemma wp_tr_ioctl_init (Q : outcome ksig (Z * ptr) -> Prop) m h :
  (forall r c tr, device_end r c tr -> Q (finished (r, c) m (h ++ tr))) ->
  wp ok tr_ioctl_init Q m h.
Proof.
  intros HQ. unfold tr_ioctl_init. apply wp_kdo. intros r _. cbn in r. case_decide as Hr.
  { apply HQ, device_refused; [done|not_failed|keeps_by]. }
  assert (Hr' : 0 <= r) by lia. kstep. apply wp_kdo. intros a _. cbn in a. case_decide as Ha.
  { rewrite <- !app_assoc. apply HQ, device_region_kept; [done|simpl; auto|keeps_by]. }
  assert (Ha' : 0 <= a) by lia. apply wp_kdo. intros c Hc%(kernel_spec (w := w)). simpl in Hc.
  destruct Hc as [Hc|Hc].
  { rewrite (proj1 Hc). kstep. kstep. pose proof (err_ptr_neg _ Hc) as Hn.
    rewrite int32_id by (unfold MAX_ERRNO in Hn; lia). rewrite <- !app_assoc.
    apply HQ, device_refused; [lia|not_failed|keeps_by]. }
  rewrite good_ptr_no_err by done. apply wp_kdo. intros d Hd%(kernel_spec (w := w)). simpl in Hd.
  destruct Hd as [Hd|Hd].
  - rewrite (proj1 Hd). kstep. kstep. kstep. pose proof (err_ptr_neg _ Hd) as Hn.
    rewrite int32_id by (unfold MAX_ERRNO in Hn; lia). rewrite <- !app_assoc.
    apply HQ, device_refused; [lia|not_failed|keeps_by].
  - rewrite good_ptr_no_err by done. rewrite <- !app_assoc. apply HQ, device_made; [done|keeps_by].
Qed.
End Device.

(** Loading the module of the control device ends in one of the three ways
    of [device_end], and when it was loaded, unloading gives everything back. *)
Theorem tr_ioctl_init_ends w env m h :
  env_ok (kernel_ok w) env ->
  exists r c tr, run env tr_ioctl_init m h = finished (r, c) m (h ++ tr) /\ device_end r c tr /\
    (r = 0 -> exists h', run env (tr_ioctl_exit c) m (h ++ tr) = finished tt m h' /\ balanced h h').
Proof.
  intros Henv.
  assert (H : exists r c tr, run env tr_ioctl_init m h = finished (r, c) m (h ++ tr) /\ device_end r c tr)
    by (by_wp (kernel_ok w); eapply wp_tr_ioctl_init with (w := w); [apply _|eauto]).
  destruct H as (r & c & tr & Hrun & Hend). exists r, c, tr. split_and!; [done..|]. intros ->.
  destruct Hend as [_ Hk|?|?]; [|lia..].
  by_wp (kernel_ok w). unfold tr_ioctl_exit. kstep. kstep. kstep. apply wp_tail, wp_kdo. intros [] _.
  eexists. split; [reflexivity|]. intros x Hx. rewrite !net_app, (Hk x Hx). unfold takes. simpl. lia.
Qed.

(** ** The file system *)

Lemma wp_update {A} (ok : khist -> event ksig -> Prop) g (k : unit -> kprog A) Q m h :
  wp ok (k tt) Q (g m) h -> wp ok (modify (S := ksig) g ≫= k) Q m h.
Proof. done. Qed.

(** The release of a cache, if there is one. *)
Definition gone (c : ptr) : khist := if nonnull c then [KEv (kmem_cache_destroy c) tt] else [].

Lemma nonzero_nonnull c : nonzero c = nonnull c.
Proof. unfold nonzero, nonnull, NULL. do 2 case_bool_decide; done. Qed.

Lemma wp_destroy_inode {A} (ok : khist -> event ksig -> Prop) (k : unit -> kprog A) Q m h :
  wp ok (k tt) Q m (h ++ gone (trfs_inode_cachep m)) -> wp ok (trfs_destroy_inode_cache ≫= k) Q m h.
Proof.
  intros Hk. unfold trfs_destroy_inode_cache. kassoc. unfold gets. simpl. unfold gone in Hk.
  rewrite nonzero_nonnull. destruct (nonnull _); [by intros [] _|by rewrite app_nil_r in Hk].
Qed.

Lemma wp_destroy_dentry {A} (ok : khist -> event ksig -> Prop) (k : unit -> kprog A) Q m h :
  wp ok (k tt) Q m (h ++ gone (trfs_dentry_cachep m)) -> wp ok (trfs_destroy_dentry_cache ≫= k) Q m h.
Proof.
  intros Hk. unfold trfs_destroy_dentry_cache. kassoc. unfold gets. simpl. unfold gone in Hk.
  rewrite nonzero_nonnull. destruct (nonnull _); [by intros [] _|by rewrite app_nil_r in Hk].
Qed.

(** Loading the module of the file system sets up its caches, or fails and
    gives back what it took; unloading releases the caches. *)
Theorem init_exit_balanced w env m h :
  env_ok (kernel_ok w) env -> trfs_inode_cachep m = NULL -> trfs_dentry_cachep m = NULL ->
  exists err m' h',
    run env (err ← init_trfs_fs; when (bool_decide (err = 0)) exit_trfs_fs;; mret err) m h =
      finished err m' h' /\ balanced h h'.
Proof.
  intros Henv Hi Hd. by_wp (kernel_ok w).
  set (Q := fun o : outcome ksig Z => exists err m' h', o = finished err m' h' /\ balanced h h').
  assert (Hend : forall err m1 tr,
    (forall x, net (tr ++ gone (trfs_inode_cachep m1) ++ gone (trfs_dentry_cachep m1)) x = 0) ->
    wp (kernel_ok w)
      ((when (bool_decide (err <> 0)) (trfs_destroy_inode_cache;; trfs_destroy_dentry_cache);; mret err)
       ≫= fun err => when (bool_decide (err = 0)) exit_trfs_fs;; mret err) Q m1 (h ++ tr)).
  { intros err m1 tr Hnet. assert (Hb : forall tu, (forall x, net tu x = 0) -> balanced h
        (((h ++ tr) ++ gone (trfs_inode_cachep m1)) ++ gone (trfs_dentry_cachep m1) ++ tu)).
    { intros tu Htu x _. specialize (Hnet x). rewrite !net_app in *. rewrite Htu. lia. }
    kassoc. apply wp_when. destruct (decide (err = 0)) as [->|Herr].
    - rewrite bool_decide_eq_false_2 by lia. kstep. apply wp_when. rewrite bool_decide_eq_true_2 by done.
      unfold exit_trfs_fs. kassoc. apply wp_destroy_inode. kassoc. apply wp_destroy_dentry. kstep.
      rewrite <- app_assoc. eexists 0, m1, _. split; [reflexivity|]. by apply Hb.
    - rewrite bool_decide_eq_true_2 by done. kassoc. apply wp_destroy_inode. apply wp_destroy_dentry.
      kstep. apply wp_when. rewrite bool_decide_eq_false_2 by done.
      eexists err, m1, _. split; [reflexivity|]. rewrite <- (app_nil_r (gone (trfs_dentry_cachep m1))).
      by apply Hb. }
  unfold init_trfs_fs, trfs_init_inode_cache, trfs_init_dentry_cache. kassoc.
  apply wp_kdo. intros c1 _. cbn in c1. kassoc. apply wp_update. kstep.
  destruct (decide (c1 = NULL)) as [->|H1].
  { rewrite ?(decide_True (P := NULL = NULL)) by done. rewrite decide_True by (unfold ENOMEM; lia). kstep.
    apply Hend. intros x. simpl. rewrite Hd. done. }
  rewrite ?(decide_False (P := c1 = NULL)) by done. rewrite decide_False by lia. kassoc.
  apply wp_kdo. intros c2 _. cbn in c2. kassoc. apply wp_update. kstep. rewrite <- app_assoc.
  assert (Hn1 : nonnull c1 = true) by (unfold nonnull; by rewrite bool_decide_eq_false_2).
  destruct (decide (c2 = NULL)) as [->|H2].
  { rewrite (decide_False (P := NULL <> NULL)) by (intros Hc; by apply Hc). rewrite decide_True by (unfold ENOMEM; lia).
    kstep. apply Hend. intros x. simpl. unfold gone. rewrite !Hn1. simpl. rewrite ?Hn1. simpl. lia. }
  rewrite (decide_True (P := c2 <> NULL)) by done. rewrite decide_False by lia.
  assert (Hn2 : nonnull c2 = true) by (unfold nonnull; by rewrite bool_decide_eq_false_2).
  apply wp_kdo. intros e _. cbn in e. rewrite <- !app_assoc. apply Hend. intros x. simpl.
  unfold gone. rewrite !Hn1, !Hn2. simpl. rewrite ?Hn1, ?Hn2. simpl. lia.
Qed.

(** Remounting is refused exactly when a flag other than the three that
    make no difference is set. *)
Theorem trfs_remount_fs_ok env sb flags m h :
  exists r, run env (trfs_remount_fs sb flags) m h = finished r m h /\
    (r = 0 <-> forall n, 0 <= n -> Z.testbit flags n = true -> n = 0 \/ n = 6 \/ n = 15).
Proof.
  unfold trfs_remount_fs. eexists. split; [reflexivity|].
  assert (Hmask : forall n, 0 <= n ->
    Z.testbit (Z.lor (Z.lor MS_RDONLY MS_MANDLOCK) MS_SILENT) n = true <-> n = 0 \/ n = 6 \/ n = 15).
  { intros n Hn. change (Z.lor (Z.lor MS_RDONLY MS_MANDLOCK) MS_SILENT) with
      (Z.lor (Z.lor (2 ^ 0) (2 ^ 6)) (2 ^ 15)).
    rewrite !Z.lor_spec, !orb_true_iff, !Z.pow2_bits_eqb, !Z.eqb_eq by lia. lia. }
  split.
  - case_decide as Hd; [done|]. intros _ n Hn Hbit.
    apply Hmask; [done|]. apply (f_equal (fun z => Z.testbit z n)) in Hd.
    rewrite Z.ldiff_spec, Z.bits_0, Hbit in Hd. by destruct (Z.testbit _ n).
  - intros Hall. rewrite decide_False; [done|]. intros Hne. apply Hne. apply Z.bits_inj'.
    intros n Hn. rewrite Z.ldiff_spec, Z.bits_0. destruct (Z.testbit flags n) eqn:Hb; [|done].
    by rewrite (proj2 (Hmask n Hn) (Hall n Hn Hb)).
Qed.

(** ** At a concrete kernel *)

(** Adding the device fails, and the rest succeeds. *)
Definition demo_cdev (c : kfun) : Z :=
  match c with cdev_add => - EBUSY | class_create => 500 | device_create _ => 501 | _ => 0 end.

Lemma tr_ioctl_init_ends_witness :
  exists r c tr, run (demo_env demo_cdev) tr_ioctl_init (demo_mem 0) [] = finished (r, c) (demo_mem 0) ([] ++ tr) /\
    device_end r c tr /\
    (r = 0 -> exists h', run (demo_env demo_cdev) (tr_ioctl_exit c) (demo_mem 0) ([] ++ tr) =
       finished tt (demo_mem 0) h' /\ balanced [] h').
Proof. apply (tr_ioctl_init_ends demo_world _ (demo_mem 0) [] (demo_env_kernel_ok _)). Defined.

Lemma init_exit_balanced_witness :
  exists err m' h',
    run (demo_env (fun _ => 0)) (err ← init_trfs_fs; when (bool_decide (err = 0)) exit_trfs_fs;; mret err)
      (demo_mem 0) [] = finished err m' h' /\ balanced [] h'.
Proof. by apply (init_exit_balanced demo_world _ (demo_mem 0) [] (demo_env_kernel_ok _)). Defined.
