(* ===== verification/Concur.v ===== *)
(** * Programs that run at the same time

    Handlers of one file system run concurrently.  Here several programs take
    steps in any order, a call or an access to memory at a time; a thread that
    asks for a mutex waits while it is taken.  Every execution is finite
    ([steps_finite]), and a [schedule] makes a concrete one. *)

From S2P Require Import Prelude Prog TrTypes Kernel TrfsH Ledger TrdumpSpec.

(** ** Steps *)

Record config (T : Type) := Config {
  c_threads : list (kprog T);
  c_mem : kmem;
  c_hist : khist;
}.
Arguments Config {T} c_threads c_mem c_hist.
Arguments c_threads {T} c.
Arguments c_mem {T} c.
Arguments c_hist {T} c.

(** A mutex is free when it was released as often as it was taken. *)
Definition blocked (c : kfun) (h : khist) : Prop :=
  match c with mutex_lock l => net h (RMutex l) <> 0 | _ => False end.

#[global] Instance blocked_dec c h : Decision (blocked c h).
Proof. destruct c; apply _. Defined.

Inductive cstep {T} (ok : khist -> event ksig -> Prop) : config T -> config T -> Prop :=
| cstep_call i c k r ts m h :
    ts !! i = Some (Call (S := ksig) c k) -> ~ blocked c h -> ok h (Ev c r) ->
    cstep ok (Config ts m h) (Config (<[i := k r]> ts) m (h ++ [Ev c r]))
| cstep_act i B (f : kmem -> B * kmem) k ts m h :
    ts !! i = Some (Act (S := ksig) f k) ->
    cstep ok (Config ts m h) (Config (<[i := k (fst (f m))]> ts) (snd (f m)) h).

(** No call but those on mutexes changes who holds one. *)
Lemma delta_mutex c r l :
  match c with mutex_lock _ | mutex_unlock _ => False | _ => True end ->
  count_entries (RMutex l) (delta (Ev (S := ksig) c r)) = 0.
Proof.
  intros Hc. destruct c; try done; simpl; unfold one_if;
    repeat match goal with
    | |- context [if ?b then _ else _] => destruct b
    end; simpl; rewrite ?hits_ne by done; done.
Qed.

(** ** One after the other *)

(** The effects of the threads of a list, one after the other. *)
Inductive serial {I A} (eff : I -> A -> A -> Prop) : list I -> A -> A -> Prop :=
| serial_nil a : serial eff [] a a
| serial_snoc order i a a1 a2 :
    serial eff order a a1 -> eff i a1 a2 -> serial eff (order ++ [i]) a a2.

(** ** Every execution is finite *)

(** A thread's step leaves it with a part of its program. *)
Definition part {T} (q p : kprog T) : Prop :=
  match p with
  | Call c k => exists r, q = k r
  | Act f k => exists b, q = k b
  | _ => False
  end.

Lemma part_acc {T} (p : kprog T) : Acc part p.
Proof.
  induction p as [a|x|c k IH|B f k IH]; constructor; intros q Hq; simpl in Hq.
  - by destruct Hq.
  - by destruct Hq.
  - destruct Hq as [r ->]. apply IH.
  - destruct Hq as [b ->]. apply IH.
Qed.

Inductive parts {T} : list (kprog T) -> list (kprog T) -> Prop :=
| parts_one i p q ts : ts !! i = Some p -> part q p -> parts (<[i := q]> ts) ts.

Lemma parts_acc {T} (ts : list (kprog T)) : Acc parts ts.
Proof.
  induction ts as [|p ts IH].
  { constructor. intros us Hus. inversion Hus. simplify_eq. }
  revert p. induction IH as [ts _ IHts]. intros p. induction (part_acc p) as [p _ IHp].
  constructor. intros us Hus. inversion Hus as [[|i] p' q ts' Hi Hq]; simplify_eq/=.
  - by apply IHp.
  - apply IHts. by econstructor.
Qed.

Lemma cstep_parts {T} ok (c c' : config T) : cstep ok c c' -> parts (c_threads c') (c_threads c).
Proof. intros []; simpl; econstructor; try done; simpl; eauto. Qed.

Lemma steps_finite {T} ok (c : config T) : Acc (flip (cstep ok)) c.
Proof.
  destruct c as [ts m h]. revert m h. induction (parts_acc ts) as [ts _ IH]. intros m h.
  constructor. intros [us m' h'] Hs. apply IH. by apply cstep_parts in Hs.
Qed.

(** ** Scheduling *)

(** The configuration after the threads of a list each took a step, where they
    could. *)
Definition step_thread {T} (w : kenv) (i : nat) (c : config T) : config T :=
  match c_threads c !! i with
  | Some (Call a k) =>
      if decide (blocked a (c_hist c)) then c
      else let r := w (c_hist c) a in
        Config (<[i := k r]> (c_threads c)) (c_mem c) (c_hist c ++ [Ev (S := ksig) a r])
  | Some (Act f k) =>
      let '(b, m) := f (c_mem c) in Config (<[i := k b]> (c_threads c)) m (c_hist c)
  | _ => c
  end.

Definition schedule {T} (w : kenv) (order : list nat) (c : config T) : config T :=
  foldl (fun c i => step_thread w i c) c order.

Lemma step_thread_steps {T} ok w i (c : config T) : env_ok ok w -> rtc (cstep ok) c (step_thread w i c).
Proof.
  intros Hw. destruct c as [ts m h]. unfold step_thread. simpl.
  destruct (ts !! i) as [[a|x|a k|B f k]|] eqn:Hi; try reflexivity.
  - case_decide as Hd; [reflexivity|]. apply rtc_once. eapply cstep_call; [done|done|apply Hw].
  - destruct (f m) as [b m'] eqn:Hf. apply rtc_once.
    replace b with (fst (f m)) by (by rewrite Hf). replace m' with (snd (f m)) by (by rewrite Hf).
    by apply cstep_act.
Qed.

Lemma schedule_steps {T} ok w order (c : config T) : env_ok ok w -> rtc (cstep ok) c (schedule w order c).
Proof.
  intros Hw. revert c. induction order as [|i order IH]; intros c; [reflexivity|].
  simpl. etransitivity; [by apply step_thread_steps|apply IH].
Qed.
