(* ===== verification/Actions.v ===== *)
(** * What is done under the mutex

    The blocks under the mutex of the super block: an operation is logged, or
    the control device sets the mask.  What they do to the mask, the number of
    the last record and the records in the log ([action_eff]), and what holds of
    memory and history between two of them ([log_inv]). *)

From S2P Require Import Prelude Prog TrTypes Kernel TrfsH Ledger Trdump TrdumpSpec Inode TrIoctl Demo.
From S2P Require Import Mount User UserSpec Treplay TreplaySpec LogThms ReplayThms EndToEnd.
From S2P Require Import HandlerSpec HandlerThms IoctlThms Concur.

(** ** What runs *)

(** Where a handler takes the super block from: the directory's inode, or a
    dentry's. *)
Inductive sb_source := Of_inode (i : ptr) | Of_dentry (d : ptr).

Definition sb_expr (g : sb_source) : kprog ptr :=
  match g with Of_inode i => i_sb i | Of_dentry d => dentry_sb d end.

Definition sb_found (w : kworld) (sb : ptr) (g : sb_source) : Prop :=
  match g with
  | Of_inode i => good_ptr i /\ sb_of w i = sb
  | Of_dentry d => good_ptr d /\ positive w d /\ sb_of w (inode_of w d) = sb
  end.

(** An operation is logged, or the mask set. *)

Inductive action :=
| Logs (g : sb_source) (o : op)
| Masks (v : Z).

(** ** What it does *)

(** The mask, the number of the last record, and the records in the log. *)
Record lstate := LState { l_mask : Z; l_id : Z; l_recs : list tr_record }.

Inductive action_eff : action -> lstate -> lstate -> Prop :=
| eff_logged g o mask id rs r :
    Z.testbit mask (rec_type_bit (op_type o)) = true -> op_filled (int32 (id + 1)) o r ->
    action_eff (Logs g o) (LState mask id rs) (LState mask (int32 (id + 1)) (rs ++ [r]))
| eff_masked g o a :
    Z.testbit (l_mask a) (rec_type_bit (op_type o)) = false -> action_eff (Logs g o) a a
| eff_mask v mask id rs : action_eff (Masks v) (LState mask id rs) (LState v id rs).

(** The actions one after the other. *)
Inductive in_order : list action -> lstate -> lstate -> Prop :=
| in_order_nil a : in_order [] a a
| in_order_snoc xs x a a1 a2 : in_order xs a a1 -> action_eff x a1 a2 -> in_order (xs ++ [x]) a a2.

Definition op_sound (w : kworld) (o : op) : Prop :=
  logged (op_type o) /\ path_of w (op_dentry o) = Some (op_path o) /\
  (aux_is_path (op_type o) = true -> path_of w (b_ptr (op_arg o)) = Some (op_apath o)) /\
  op_fits (op_type o) (op_path o) (op_arg o) (op_arg_len o).

(** ** What holds between two critical sections *)

(** The super block's private data, but for the mask. *)
Definition info_with (si : trfs_sb_info) (v : Z) : trfs_sb_info :=
  SbInfo (lower_sb si) (tr_lower_filep si) (tr_page si) v.

Lemma info_with_same si : info_with si (umask si) = si.
Proof. by destruct si. Qed.

Record log_inv (w : kworld) (sb lock : ptr) (si : trfs_sb_info) (img : bytes)
    (a : lstate) (m : kmem) (h : khist) : Prop := {
  li_free : net h (RMutex lock) = 0;
  li_id : trecord_id m = l_id a;
  li_log : log_image (tr_lower_filep si) h = img ++ encodings (l_recs a);
  li_mounted : exists buf, mounted w m sb lock (info_with si (l_mask a))
    (Z.of_nat (length (log_image (tr_lower_filep si) h))) buf;
}.

(** ** What one action does from any state *)

Lemma pages_kept_mutex t arg p l : net (pages_kept t arg p) (RMutex l) = 0.
Proof.
  destruct t; try done; simpl; unfold one_if; destruct (nonnull p); simpl; rewrite ?hits_ne by done; done.
Qed.

Lemma mutex_pair_net (t : khist) l :
  net t (RMutex l) = 0 ->
  net (KEv (mutex_lock l) tt :: t ++ [KEv (mutex_unlock l) tt]) (RMutex l) = 0.
Proof. intros Ht. rewrite net_cons, net_app, Ht. simpl. rewrite hits_refl. lia. Qed.

Section Acts.
Context (w : kworld) (sb lock : ptr) (si : trfs_sb_info) (img : bytes).
Local Abbreviation Inv := (log_inv w sb lock si img).

Lemma reads_sb_expr (ok : khist -> event ksig -> Prop) `{!KernelSpec w ok} g :
  sb_found w sb g -> reads ok (sb_expr g) sb.
Proof.
  destruct g as [i|d]; simpl; [intros [Hi <-]|intros (Hd & Hp & <-)].
  - by apply reads_i_sb with (w := w).
  - by apply reads_d_inode_i_sb.
Qed.

(** The block under the mutex, taken where the invariant holds. *)
Lemma wp_locked_log (ok : khist -> event ksig -> Prop) `{!KernelSpec w ok} get_sb g o
    (Q : outcome ksig unit -> Prop) a m h :
  (forall h e, ok h e -> resourceful e) -> reads ok get_sb sb -> op_sound w o -> Inv a m h ->
  (forall a' m' h', action_eff (Logs g o) a a' -> Inv a' m' h' -> Q (finished tt m' h')) ->
  wp ok (log_locked get_sb (rec_type_val (op_type o)) (op_dentry o) (op_flags o) (op_perm o)
    (op_err o) (op_arg o) (op_arg_len o)) Q m (h ++ [KEv (mutex_lock lock) tt]).
Proof.
  intros Hres Hrd (Hl & Hp & Ha & Hfit) HI HQ. apply wp_tail.
  pose proof HI as [Hf Hid Hlog [buf Hm]].
  assert (E : log_image (tr_lower_filep si) (h ++ [KEv (mutex_lock lock) tt]) =
    log_image (tr_lower_filep si) h) by (by apply log_image_unlogged).
  destruct (Z.testbit (l_mask a) (rec_type_bit (op_type o))) eqn:Hbit.
  - eapply wp_log_locked with (w := w) (si := info_with si (l_mask a)); try done; [by simpl; rewrite E|].
    intros tr r p2 buf' Hb _ Hfil Hwf h' Himg Htr. simpl in Himg. destruct a as [mask id rs].
    simpl in Hid. rewrite <- Hid, E in *.
    apply (HQ (LState mask (int32 (trecord_id m + 1)) (rs ++ [r]))); [by constructor|].
    unfold h' in *. rewrite <- app_assoc in *. constructor; simpl.
    + rewrite net_app, Hf. cbn [app]. rewrite mutex_pair_net; [done|]. rewrite Htr. apply pages_kept_mutex.
    + done.
    + cbn [app] in Himg. rewrite Himg, Hlog, <- app_assoc. f_equal. unfold encodings.
      rewrite fmap_app, concat_app. simpl. by rewrite app_nil_r.
    + exists buf'. cbn [app] in Himg. rewrite Himg, length_app, Nat2Z.inj_add, length_encode_record by done.
      eapply (mounted_advanced w _ sb lock (info_with si mask)); [by apply mounted_trecord_id|done].
  - eapply wp_log_locked_masked with (si := info_with si (l_mask a)); [done|apply Hm|done|].
    intros s Hs. apply (HQ a); [by constructor|]. rewrite <- app_assoc. cbn [app].
    assert (E' : log_image (tr_lower_filep si)
      (h ++ KEv (mutex_lock lock) tt :: s ++ [KEv (mutex_unlock lock) tt]) =
      log_image (tr_lower_filep si) h).
    { apply log_image_unlogged. apply (unlogged_app [_]); [done|].
      apply unlogged_app; [by apply silent_unlogged|done]. }
    constructor; rewrite ?E'; try done; [|by exists buf].
    rewrite net_app, Hf, mutex_pair_net; [done|by apply silent_ledger].
Qed.

(** Nothing but the mutex, taken and released. *)
Lemma log_inv_nothing a m h :
  Inv a m h -> Inv a m (h ++ [KEv (mutex_lock lock) tt; KEv (mutex_unlock lock) tt]).
Proof.
  intros [Hf Hid Hlog [buf Hm]].
  assert (E : log_image (tr_lower_filep si) (h ++ [KEv (mutex_lock lock) tt; KEv (mutex_unlock lock) tt]) =
    log_image (tr_lower_filep si) h) by (by apply log_image_unlogged).
  constructor; rewrite ?E; try done; [|by exists buf].
  rewrite net_app, Hf. by apply (mutex_pair_net []).
Qed.

(** The mask is set. *)
Lemma log_inv_set v a m h :
  Inv a m h ->
  Inv (LState v (l_id a) (l_recs a)) (masked m lock v (info_with si (l_mask a)))
    (h ++ [KEv (mutex_lock lock) tt; KEv (mutex_unlock lock) tt]).
Proof.
  intros HI. apply log_inv_nothing. destruct HI as [Hf Hid Hlog [buf Hm]]. constructor; try done.
  exists buf. destruct Hm as [Hs ? ? ? ? ? ?]. constructor; try done. by apply (masked_has_sb _ _ _ v) in Hs.
Qed.

End Acts.

(** Without the device, and with every operation selected, the records are
    those of the operations, numbered in their order. *)
Definition last_id (id : Z) (n : nat) : Z := Nat.iter n (fun i => int32 (i + 1)) id.

Lemma last_id_succ id n : last_id id (S n) = last_id (int32 (id + 1)) n.
Proof. unfold last_id. apply (Nat.iter_succ_r n (fun i => int32 (i + 1))). Qed.

Lemma logged_as_snoc id ops rs o r :
  logged_as id ops rs -> op_filled (int32 (last_id id (length ops) + 1)) o r ->
  logged_as id (ops ++ [o]) (rs ++ [r]).
Proof.
  induction 1 as [id|id o' ops r' rs Hf _ IH]; intros Ho; cbn [app length] in *.
  - constructor; [done|constructor].
  - constructor; [done|]. apply IH. by rewrite last_id_succ in Ho.
Qed.

Definition action_op (x : action) : option op := match x with Logs _ o => Some o | Masks _ => None end.

Lemma in_order_logged w mask id ys a :
  in_order ys (LState mask id []) a ->
  Forall (fun x => exists o, action_op x = Some o /\ op_ok w mask o) ys ->
  let ops := omap action_op ys in
  exists rs, a = LState mask (last_id id (length ops)) rs /\ logged_as id ops rs.
Proof.
  intros H. remember (LState mask id []) as a0 eqn:E.
  induction H as [a|ys x a a1 a2 _ IH Heff]; intros Hys ops; subst; unfold ops; clear ops.
  { exists []. split; [done|constructor]. }
  apply Forall_app in Hys as [Hys Hx]. apply Forall_cons in Hx as [(o & Hx & Ho) _].
  destruct (IH eq_refl Hys) as (rs & -> & Hl). rewrite omap_app.
  destruct x as [g o'|]; simplify_eq/=. inversion Heff as [? ? ? ? ? r Hbit Hf|? ? ? Hbit|]; simplify_eq.
  - exists (rs ++ [r]). split; [|by apply logged_as_snoc]. by rewrite length_app, Nat.add_comm.
  - simpl in Hbit. destruct Ho as [_ Ho _ _ _]. by rewrite Ho in Hbit.
Qed.
