(* ===== verification/Interleave.v ===== *)
(** * Whole handlers that run at the same time

    A handler works on the lower file system and on private data, and logs in
    between.  Outside its critical section a thread may do what it likes, in
    memory and by calls, as long as it leaves alone what the critical sections
    work on, the view ([outer]).  A critical section in turn reads nothing but
    the view ([section]), so that it does not notice what the others do
    meanwhile: it runs as it would have run alone, on a memory and a history of
    its own ([holding]).  Hence the critical sections take effect one after the
    other, in the order in which they got the mutex ([inter_steps],
    [inter_free]); whoever holds the mutex does not stop ([inter_busy]); and as
    long as not every thread has stopped, one can go on ([inter_progress]). *)

From S2P Require Import Prelude Prog TrTypes Kernel TrfsH Ledger TrdumpSpec Concur.

(** ** What a thread is about to do *)

(** What a program is followed by: binds, to any depth. *)
Definition bind_context {S : sig} {T U} (K : prog S U -> prog S T) : Prop :=
  (forall x, K (Fault x) = Fault x) /\
  (forall c k, K (Call c k) = Call c (fun r => K (k r))) /\
  (forall B (f : mem S -> B * mem S) k, K (Act f k) = Act f (fun b => K (k b))).

Section Shapes.
Context (ok : khist -> event ksig -> Prop) (lock : ptr).
(** What holds of the memory all along, and the parts of memory and history
    that critical sections work on. *)
Context (frame : kmem -> Prop) {V W : Type} (mview : kmem -> V) (hview : khist -> W).

(** A call that is not part of the view. *)
Definition neutral (c : kfun) : Prop :=
  (forall (r : reply ksig c) h, hview (h ++ [Ev (S := ksig) c r]) = hview h) /\
  match c with mutex_lock _ | mutex_unlock _ => False | _ => True end.

(** An answer that a thread may get after the events [t] of its own. *)
Definition possible (t : khist) (e : event ksig) : Prop := exists h, t `sublist_of` h /\ ok h e.

(** A program outside its critical section: [t] is what it has done so far,
    [enter] what is to hold of it when it gets the mutex, [ret] of what it
    returns. *)
Fixpoint outer {T} (enter : khist -> kprog T -> Prop) (ret : khist -> T -> Prop)
    (t : khist) (p : kprog T) {struct p} : Prop :=
  match p with
  | Ret v => ret t v
  | Fault _ => True
  | Call c k =>
      (neutral c /\
       forall r, possible t (Ev (S := ksig) c r) -> outer enter ret (t ++ [Ev (S := ksig) c r]) (k r)) \/
      (c = mutex_lock lock /\ forall r, enter t (k r))
  | Act f k => forall m, frame m ->
      frame (snd (f m)) /\ mview (snd (f m)) = mview m /\ outer enter ret t (k (fst (f m)))
  end.

(** A program that never asks for the mutex. *)
Definition aside {T} (ret : khist -> T -> Prop) : khist -> kprog T -> Prop :=
  outer (fun _ _ => False) ret.

(** A program inside its critical section, and what is to hold of it when it
    has released the mutex. *)
Fixpoint section {T} (after : khist -> kprog T -> Prop) (t : khist) (p : kprog T) {struct p} : Prop :=
  match p with
  | Ret _ => False
  | Fault _ => True
  | Call c k => forall r, possible t (Ev (S := ksig) c r) ->
      match c with
      | mutex_lock _ => False
      | mutex_unlock _ => after (t ++ [Ev (S := ksig) c r]) (k r)
      | _ => section after (t ++ [Ev (S := ksig) c r]) (k r)
      end
  | Act f k => forall m1 m2, frame m1 -> frame m2 -> mview m1 = mview m2 ->
      fst (f m1) = fst (f m2) /\ mview (snd (f m1)) = mview (snd (f m2)) /\
      frame (snd (f m1)) /\ section after t (k (fst (f m1)))
  end.

(** What it does up to the release. *)
Fixpoint until {T} (Q : kmem -> khist -> Prop) (p : kprog T) (m : kmem) (h : khist) : Prop :=
  match p with
  | Ret _ | Fault _ => False
  | Call c k => forall r, ok h (Ev (S := ksig) c r) ->
      match c with
      | mutex_unlock _ => Q m (h ++ [Ev (S := ksig) c r])
      | _ => until Q (k r) m (h ++ [Ev (S := ksig) c r])
      end
  | Act f k => until Q (k (fst (f m))) (snd (f m)) h
  end.

(** A program that reads and changes nothing but the view, and leaves mutexes
    alone. *)
Fixpoint local {T} (ret : khist -> T -> Prop) (t : khist) (p : kprog T) : Prop :=
  match p with
  | Ret v => ret t v
  | Fault _ => True
  | Call c k =>
      match c with mutex_lock _ | mutex_unlock _ => False | _ => True end /\
      forall r, possible t (Ev (S := ksig) c r) -> local ret (t ++ [Ev (S := ksig) c r]) (k r)
  | Act f k => forall m1 m2, frame m1 -> frame m2 -> mview m1 = mview m2 ->
      fst (f m1) = fst (f m2) /\ mview (snd (f m1)) = mview (snd (f m2)) /\
      frame (snd (f m1)) /\ local ret t (k (fst (f m1)))
  end.

Lemma outer_context {T U} (K : kprog U -> kprog T) (R : khist -> U -> Prop) enter ret t (p : kprog U) :
  bind_context K -> aside R t p ->
  (forall t' v, t `sublist_of` t' -> R t' v -> outer enter ret t' (K (Ret v))) ->
  outer enter ret t (K p).
Proof.
  unfold aside. intros (KF & KC & KA). revert t.
  induction p as [v|x|c k IH|C g k IH]; intros t Hp Hf; simpl in Hp.
  - by apply Hf.
  - by rewrite KF.
  - rewrite KC. destruct Hp as [[Hn Hp]|[-> Hp]]; [|by destruct (Hp tt)]. left. split; [done|].
    intros r Hr. apply IH; [by apply Hp|]. intros t' v Ht. apply Hf.
    etransitivity; [|exact Ht]. by apply sublist_inserts_r.
  - rewrite KA. intros m Hm. destruct (Hp m Hm) as (? & ? & ?). auto.
Qed.

Lemma outer_bind {T U} (R : khist -> U -> Prop) enter ret t (p : kprog U) (f : U -> kprog T) :
  aside R t p ->
  (forall t' v, t `sublist_of` t' -> R t' v -> outer enter ret t' (f v)) ->
  outer enter ret t (p ≫= f).
Proof. intros Hp Hf. by apply (outer_context (fun p => p ≫= f) R enter ret t p). Qed.

Lemma outer_bind2 {T U X} (R : khist -> U -> Prop) enter ret t (p : kprog U) (f : U -> kprog X)
    (g : X -> kprog T) :
  aside R t p ->
  (forall t' v, t `sublist_of` t' -> R t' v -> outer enter ret t' (f v ≫= g)) ->
  outer enter ret t ((p ≫= f) ≫= g).
Proof. intros Hp Hf. by apply (outer_context (fun p => (p ≫= f) ≫= g) R enter ret t p). Qed.

Lemma outer_bind3 {T U X Y} (R : khist -> U -> Prop) enter ret t (p : kprog U) (f : U -> kprog X)
    (g : X -> kprog Y) (l : Y -> kprog T) :
  aside R t p ->
  (forall t' v, t `sublist_of` t' -> R t' v -> outer enter ret t' ((f v ≫= g) ≫= l)) ->
  outer enter ret t (((p ≫= f) ≫= g) ≫= l).
Proof. intros Hp Hf. by apply (outer_context (fun p => ((p ≫= f) ≫= g) ≫= l) R enter ret t p). Qed.

Lemma section_bind {T U} (R : khist -> U -> Prop) after t (p : kprog U) (f : U -> kprog T) :
  local R t p ->
  (forall t' v, t `sublist_of` t' -> R t' v -> section after t' (f v)) ->
  section after t (p ≫= f).
Proof.
  unfold mbind, prog_mbind. revert t.
  induction p as [v|x|c k IH|C g k IH]; intros t Hp Hf; simpl in *; [by apply Hf|done| |].
  - destruct Hp as [Hc Hp]. intros r Hr.
    assert (section after (t ++ [Ev (S := ksig) c r]) (prog_bind f (k r))) as Hk; [|by destruct c].
    apply IH; [by apply Hp|]. intros t' v Ht. apply Hf.
    etransitivity; [|exact Ht]. by apply sublist_inserts_r.
  - intros m1 m2 H1 H2 E. destruct (Hp m1 m2 H1 H2 E) as (? & ? & ? & ?). auto.
Qed.

(** A program that returns when it has released the mutex, in front of what
    comes after. *)
Definition returned {T} (_ : khist) (p : kprog T) : Prop := exists v, p = Ret v.

Lemma section_seq {T U} after t (q : kprog U) (f : U -> kprog T) :
  section returned t q -> (forall t' v, t `sublist_of` t' -> after t' (f v)) ->
  section after t (q ≫= f).
Proof.
  unfold mbind, prog_mbind. revert t.
  induction q as [v|x|c k IH|C g k IH]; intros t Hq Hf; simpl in *; [done|done| |].
  - intros r Hr. specialize (Hq r Hr).
    assert (Hf' : forall t' v, (t ++ [Ev (S := ksig) c r]) `sublist_of` t' -> after t' (f v)).
    { intros t' v Ht. apply Hf. etransitivity; [|exact Ht]. by apply sublist_inserts_r. }
    destruct c; try done; try (by apply IH). destruct Hq as [v ->]. by apply Hf'.
  - intros m1 m2 H1 H2 E. destruct (Hq m1 m2 H1 H2 E) as (? & ? & ? & ?). auto.
Qed.

Lemma until_seq {T U} Q t (q : kprog U) (f : U -> kprog T) m h :
  t `sublist_of` h -> frame m -> section returned t q ->
  wp ok q (safely (fun _ m h => Q m h)) m h -> until Q (q ≫= f) m h.
Proof.
  unfold mbind, prog_mbind. revert t m h.
  induction q as [v|x|c k IH|C g k IH]; intros t m h Ht Hf Hq Hwp; simpl in *; [done|done| |].
  - intros r Hr. specialize (Hq r (ex_intro _ h (conj Ht Hr))). specialize (Hwp r Hr).
    assert (Ht' : (t ++ [Ev (S := ksig) c r]) `sublist_of` (h ++ [Ev (S := ksig) c r])) by (by apply sublist_app).
    destruct c; try done; try (by eapply IH). destruct Hq as [v Hv]. by rewrite Hv in Hwp.
  - destruct (Hq m m Hf Hf eq_refl) as (_ & _ & ? & ?). by eapply IH.
Qed.

Lemma local_bind {T U} (R : khist -> U -> Prop) ret t (p : kprog U) (f : U -> kprog T) :
  local R t p ->
  (forall t' v, t `sublist_of` t' -> R t' v -> local ret t' (f v)) ->
  local ret t (p ≫= f).
Proof.
  unfold mbind, prog_mbind. revert t.
  induction p as [v|x|c k IH|C g k IH]; intros t Hp Hf; simpl in *; [by apply Hf|done| |].
  - destruct Hp as [Hc Hp]. split; [done|]. intros r Hr.
    apply IH; [by apply Hp|]. intros t' v Ht. apply Hf.
    etransitivity; [|exact Ht]. by apply sublist_inserts_r.
  - intros m1 m2 H1 H2 E. destruct (Hp m1 m2 H1 H2 E) as (? & ? & ? & ?). auto.
Qed.

Lemma aside_outer {T} enter (R R' : khist -> T -> Prop) t p :
  (forall t v, R t v -> R' t v) -> aside R t p -> outer enter R' t p.
Proof.
  unfold aside. intros HR. revert t. induction p as [v|x|c k IH|C g k IH]; simpl; intros t Hp; eauto.
  - destruct Hp as [[Hn Hp]|[-> Hp]]; [left|by destruct (Hp tt)]. split; auto.
  - intros m Hm. destruct (Hp m Hm) as (? & ? & ?). auto.
Qed.

Lemma until_bind {T U} (R : U -> kmem -> khist -> Prop) R' (Q : kmem -> khist -> Prop) t (p : kprog U) (f : U -> kprog T) m h :
  local R' t p -> t `sublist_of` h -> frame m ->
  wp ok p (safely (S := ksig) R) m h -> (forall v m h, R v m h -> until Q (f v) m h) ->
  until Q (p ≫= f) m h.
Proof.
  unfold mbind, prog_mbind. revert t m h.
  induction p as [v|x|c k IH|C g k IH]; intros t m h Hp Ht Hf Hwp Hk; simpl in *; [auto|done| |].
  - destruct Hp as [Hc Hp]. intros r Hr.
    assert (until Q (prog_bind f (k r)) m (h ++ [Ev (S := ksig) c r])) as Hu; [|by destruct c].
    eapply IH; [apply Hp|by apply sublist_app|done|by apply Hwp|done]. by exists h.
  - destruct (Hp m m Hf Hf eq_refl) as (_ & _ & ? & ?). by eapply IH.
Qed.

Lemma outer_mono {T} enter (R R' : khist -> T -> Prop) t p :
  (forall t v, R t v -> R' t v) -> outer enter R t p -> outer enter R' t p.
Proof.
  intros HR. revert t. induction p as [v|x|c k IH|C g k IH]; simpl; intros t Hp; eauto.
  - destruct Hp as [[Hn Hp]|Hp]; [left|by right]. split; auto.
  - intros m Hm. destruct (Hp m Hm) as (? & ? & ?). auto.
Qed.
End Shapes.

(** More can be assumed of the answers when more is known of the past. *)
Lemma wp_ok_from {A} (ok ok' : khist -> event ksig -> Prop) (t : khist) (p : kprog A) Q m h :
  (forall h' e, t `sublist_of` h' -> ok h' e -> ok' h' e) -> t `sublist_of` h ->
  wp ok' p Q m h -> wp ok p Q m h.
Proof.
  intros Hok. revert m h. induction p as [a|x|c k IH|B f k IH]; simpl; intros m h Ht Hp; auto.
  intros r Hr. apply IH; [|by apply Hp, Hok]. etransitivity; [exact Ht|]. by apply sublist_inserts_r.
Qed.

(** ** One after the other *)

Section Interleave.
Context (ok : khist -> event ksig -> Prop) (lock : ptr).
Context (frame : kmem -> Prop) {V W : Type} (mview : kmem -> V) (hview : khist -> W).
(** Answers that are possible late are possible earlier. *)
Context (Hok : forall h1 h2 e, h1 `sublist_of` h2 -> ok h2 e -> ok h1 e).
Context (Hsnoc : forall h1 h2 e, hview h1 = hview h2 -> hview (h1 ++ [e]) = hview (h2 ++ [e])).
Context (Hnet : forall h1 h2, hview h1 = hview h2 -> net h1 (RMutex lock) = net h2 (RMutex lock)).
(** The abstract state, what it says of the view between critical sections,
    and what a critical section does to it. *)
Context {A L : Type} (Inv : A -> kmem -> khist -> Prop) (eff : L -> A -> A -> Prop).
Context (Hinv : forall a m1 m2 h1 h2,
  mview m1 = mview m2 -> hview h1 = hview h2 -> Inv a m1 h1 -> Inv a m2 h2).
Context (Hfree : forall a m h, Inv a m h -> net h (RMutex lock) = 0).
(** What the critical section of a thread may be, and what the thread may
    return afterwards, or without one. *)
Context {T : Type} (allowed : nat -> L -> Prop) (returns : nat -> option L -> T -> Prop).

Local Abbreviation OUTER := (outer ok lock frame mview hview).
Local Abbreviation ASIDE := (aside ok lock frame mview hview).
Local Abbreviation SECTION i x := (section ok frame mview (ASIDE (fun _ v => returns i (Some x) v))).

Definition takes_effect (x : L) (a : A) (m : kmem) (h : khist) : Prop :=
  exists a', eff x a a' /\ Inv a' m h.

Definition lock_event : event ksig := Ev (S := ksig) (mutex_lock lock) tt.

(** A thread that just got the mutex: a critical section is ahead. *)
Definition enters (i : nat) (t : khist) (p : kprog T) : Prop :=
  exists x, allowed i x /\ SECTION i x t p /\
    forall a m h, Inv a m h -> frame m -> t `sublist_of` h ->
      until ok (takes_effect x a) p m (h ++ [lock_event]).

(** One in its critical section: it runs as it would on the memory [mv] and
    the history [hv]. *)
Definition holding (i : nat) (a : A) (p : kprog T) (m : kmem) (h : khist) : Prop :=
  exists x t mv hv, allowed i x /\ SECTION i x t p /\
    t `sublist_of` h /\ hv `sublist_of` h /\
    mview m = mview mv /\ hview h = hview hv /\ frame mv /\ net h (RMutex lock) = 1 /\
    until ok (takes_effect x a) p mv hv.

(** One that took effect, and one that has not yet. *)
Definition past (i : nat) (x : L) (h : khist) (p : kprog T) : Prop :=
  exists t, t `sublist_of` h /\ ASIDE (fun _ v => returns i (Some x) v) t p.
Definition ahead (i : nat) (h : khist) (p : kprog T) : Prop :=
  exists t, t `sublist_of` h /\ OUTER (enters i) (fun _ v => returns i None v) t p.

Definition thread_ok (order : list (nat * L)) (i : nat) (h : khist) (p : kprog T) : Prop :=
  (exists x, (i, x) ∈ order /\ past i x h p) \/ ((i ∉ order.*1) /\ ahead i h p).

(** The threads of [order] took effect, in this order; of the others one may
    be in its critical section. *)
Record inter (a0 : A) (order : list (nat * L)) (a : A) (holder : option nat) (c : config T) : Prop := {
  in_serial : serial (fun x => eff (snd x)) order a0 a;
  in_nodup : NoDup order.*1;
  in_bound : forall i x, (i, x) ∈ order -> (i < length (c_threads c))%nat /\ allowed i x;
  in_frame : frame (c_mem c);
  in_state : match holder with
    | None => Inv a (c_mem c) (c_hist c)
    | Some j => exists p, c_threads c !! j = Some p /\ (j ∉ order.*1) /\ holding j a p (c_mem c) (c_hist c)
    end;
  in_threads : forall i p, c_threads c !! i = Some p -> holder <> Some i -> thread_ok order i (c_hist c) p;
}.

Lemma thread_ok_later order i h e p : thread_ok order i h p -> thread_ok order i (h ++ [e]) p.
Proof.
  assert (H : forall t : khist, t `sublist_of` h -> t `sublist_of` (h ++ [e])).
  { intros t Ht. etransitivity; [exact Ht|]. by apply sublist_inserts_r. }
  intros [(x & Hx & t & Ht & Hp)|[Hi (t & Ht & Hp)]]; [left|right].
  - exists x. split; [done|]. exists t. auto.
  - split; [done|]. exists t. auto.
Qed.

Lemma sublist_snoc (t h : khist) e : t `sublist_of` h -> (t ++ [e]) `sublist_of` (h ++ [e]).
Proof. intros Ht. by apply sublist_app. Qed.

Lemma sublist_late (t h : khist) e : t `sublist_of` h -> t `sublist_of` (h ++ [e]).
Proof. intros Ht. etransitivity; [exact Ht|]. by apply sublist_inserts_r. Qed.

(** What happens outside does not disturb a critical section. *)
Lemma holding_same j a p m1 h1 m2 h2 :
  mview m2 = mview m1 -> hview h2 = hview h1 -> h1 `sublist_of` h2 ->
  holding j a p m1 h1 -> holding j a p m2 h2.
Proof.
  intros Em Eh Hs (x & t & mv & hv & ? & ? & ? & ? & ? & ? & ? & ? & ?). exists x, t, mv, hv.
  split_and!; try done; try congruence; try (by etransitivity). by rewrite (Hnet _ _ Eh).
Qed.

(** A step outside: the rest of the thread is as good as the thread was. *)
Lemma inter_outside a0 order a holder i p' (ts : list (kprog T)) m h m' h' :
  inter a0 order a holder (Config ts m h) -> holder <> Some i -> is_Some (ts !! i) ->
  frame m' -> mview m' = mview m -> hview h' = hview h ->
  (h' = h \/ exists e, h' = h ++ [e]) ->
  thread_ok order i h' p' ->
  inter a0 order a holder (Config (<[i := p']> ts) m' h').
Proof.
  intros [Hs Hnd Hb Hf Hst Hth] Hne [p Hi] Hf' Em Eh Hh Hp'. simpl in *.
  assert (Hsub : h `sublist_of` h').
  { destruct Hh as [->|[e ->]]; [done|]. by apply sublist_inserts_r. }
  constructor; simpl; try done.
  - intros j x Hj. rewrite length_insert. eauto.
  - destruct holder as [j|]; [|by eapply Hinv; [..|exact Hst]].
    destruct Hst as (pj & Hpj & Hj & Hh'). exists pj. rewrite list_lookup_insert_ne by congruence.
    split_and!; [done..|]. by eapply holding_same.
  - intros j pj Hpj Hj. destruct (decide (i = j)) as [<-|Hij].
    + by rewrite list_lookup_insert_eq in Hpj by (by eapply lookup_lt_Some); simplify_eq.
    + rewrite list_lookup_insert_ne in Hpj by done. specialize (Hth j pj Hpj Hj).
      destruct Hh as [->|[e ->]]; [done|by apply thread_ok_later].
Qed.

(** A thread outside takes a step that is not asking for the mutex. *)
Lemma thread_call order i t h c k r :
  t `sublist_of` h -> ok h (Ev (S := ksig) c r) ->
  (exists x, (i, x) ∈ order /\ ASIDE (fun _ v => returns i (Some x) v) t (Call (S := ksig) c k)) ->
  neutral hview c /\ thread_ok order i (h ++ [Ev (S := ksig) c r]) (k r).
Proof.
  intros Ht Hr (x & Hx & [[Hn Hp]|[-> Hp]]); [|by destruct (Hp tt)]. split; [done|].
  left. exists x. split; [done|]. exists (t ++ [Ev (S := ksig) c r]).
  split; [by apply sublist_snoc|]. apply Hp. by exists h.
Qed.

(** Getting the mutex. *)
Lemma inter_enter a0 order a i t (k : unit -> kprog T) ts m h r :
  inter a0 order a None (Config ts m h) -> is_Some (ts !! i) -> i ∉ order.*1 ->
  t `sublist_of` h -> enters i t (k r) -> ok h (Ev (S := ksig) (mutex_lock lock) r) ->
  inter a0 order a (Some i) (Config (<[i := k r]> ts) m (h ++ [Ev (S := ksig) (mutex_lock lock) r])).
Proof.
  intros [Hs Hnd Hb Hf Hst Hth] [p Hi] Hio Ht (x & Hx & Hq & Hwp) Hr. simpl in *.
  destruct r. constructor; simpl; try done.
  - intros j y Hj. rewrite length_insert. eauto.
  - exists (k tt). rewrite list_lookup_insert_eq by (by eapply lookup_lt_Some). split_and!; try done.
    exists x, t, m, (h ++ [lock_event]). split_and!; try done; try (by apply sublist_late).
    + rewrite net_snoc, (Hfree a m h) by done. simpl. by rewrite hits_refl.
    + by apply Hwp.
  - intros j p' Hp Hj. rewrite list_lookup_insert_ne in Hp by congruence. by apply thread_ok_later, Hth.
Qed.

(** A call of the holder, the release of the mutex apart. *)
Lemma inter_call a0 order a i c k r ts m h :
  inter a0 order a (Some i) (Config ts m h) ->
  ts !! i = Some (Call (S := ksig) c k) -> ok h (Ev (S := ksig) c r) ->
  match c with mutex_unlock _ => False | _ => True end ->
  inter a0 order a (Some i) (Config (<[i := k r]> ts) m (h ++ [Ev (S := ksig) c r])).
Proof.
  intros [Hs Hnd Hb Hf (p & Hp & Hio & Hh) Hth] Hi Hr Hc. simpl in *.
  assert (p = Call (S := ksig) c k) as -> by congruence.
  destruct Hh as (x & t & mv & hv & Hx & Hq & Ht & Hhv & Em & Eh & Hfv & Hn & Hwp).
  assert (Hsec : match c with mutex_lock _ => False | _ => True end /\
    SECTION i x (t ++ [Ev (S := ksig) c r]) (k r) /\
    until ok (takes_effect x a) (k r) mv (hv ++ [Ev (S := ksig) c r])).
  { specialize (Hq r (ex_intro _ h (conj Ht Hr))). specialize (Hwp r (Hok _ _ _ Hhv Hr)). by destruct c. }
  destruct Hsec as (Hnl & Hsec & Hun). constructor; simpl; try done.
  - intros j y Hj. rewrite length_insert. eauto.
  - exists (k r). rewrite list_lookup_insert_eq by (by eapply lookup_lt_Some). split_and!; try done.
    exists x, (t ++ [Ev (S := ksig) c r]), mv, (hv ++ [Ev (S := ksig) c r]).
    split_and!; try done; try (by apply sublist_snoc); auto.
    rewrite net_snoc, delta_mutex; [lia|]. by destruct c.
  - intros j p' Hp' Hj. rewrite list_lookup_insert_ne in Hp' by congruence. by apply thread_ok_later, Hth.
Qed.

(** Releasing it: the holder has taken effect. *)
Lemma inter_exit a0 order a i l k r ts m h :
  inter a0 order a (Some i) (Config ts m h) ->
  ts !! i = Some (Call (S := ksig) (mutex_unlock l) k) -> ok h (Ev (S := ksig) (mutex_unlock l) r) ->
  exists x a', inter a0 (order ++ [(i, x)]) a' None
    (Config (<[i := k r]> ts) m (h ++ [Ev (S := ksig) (mutex_unlock l) r])).
Proof.
  intros [Hs Hnd Hb Hf (p & Hp & Hio & Hh) Hth] Hi Hr. simpl in *.
  assert (p = Call (S := ksig) (mutex_unlock l) k) as -> by congruence.
  destruct Hh as (x & t & mv & hv & Hx & Hq & Ht & Hhv & Em & Eh & Hfv & Hn & Hwp).
  specialize (Hq r (ex_intro _ h (conj Ht Hr))). simpl in Hq.
  specialize (Hwp r (Hok _ _ _ Hhv Hr)). destruct Hwp as (a' & Heff & Ha').
  exists x, a'. constructor; simpl.
  - by econstructor.
  - rewrite fmap_app. apply NoDup_app. split_and!; [done| |apply NoDup_singleton].
    intros j Hj ->%list_elem_of_singleton. done.
  - intros j y. rewrite length_insert, elem_of_app, list_elem_of_singleton.
    intros [?|[= -> ->]]; [eauto|]. split; [by eapply lookup_lt_Some|done].
  - done.
  - by eapply Hinv; [| |exact Ha']; [|apply Hsnoc].
  - intros j p' Hp' _. destruct (decide (i = j)) as [<-|Hij].
    + rewrite list_lookup_insert_eq in Hp' by (by eapply lookup_lt_Some). simplify_eq. left.
      exists x. split; [apply elem_of_app; right; by apply list_elem_of_singleton|].
      eexists. split; [|exact Hq]. by apply sublist_snoc.
    + rewrite list_lookup_insert_ne in Hp' by done.
      destruct (thread_ok_later _ _ _ (Ev (S := ksig) (mutex_unlock l) r) _
        (Hth j p' Hp' ltac:(congruence))) as [(y & Hy & ?)|[Hj ?]]; [left|right].
      * exists y. split; [apply elem_of_app; by left|done].
      * split; [|done]. rewrite fmap_app, elem_of_app. intros [?|E'%list_elem_of_singleton]; [by apply Hj|].
        by simpl in E'; subst.
Qed.

(** Memory accesses. *)
Lemma inter_act a0 order a holder i B (f : kmem -> B * kmem) k ts m h :
  inter a0 order a holder (Config ts m h) -> ts !! i = Some (Act (S := ksig) f k) ->
  inter a0 order a holder (Config (<[i := k (fst (f m))]> ts) (snd (f m)) h).
Proof.
  intros HI Hi. destruct (decide (holder = Some i)) as [->|Hne].
  - destruct HI as [Hs Hnd Hb Hf (p & Hp & Hio & Hh) Hth]. simpl in *.
    assert (p = Act (S := ksig) f k) as -> by congruence.
    destruct Hh as (x & t & mv & hv & Hx & Hq & Ht & Hhv & Em & Eh & Hfv & Hn & Hwp).
    destruct (Hq m mv Hf Hfv Em) as (E1 & E2 & Hf2 & Hsec).
    destruct (Hq mv mv Hfv Hfv eq_refl) as (_ & _ & Hfv2 & _).
    constructor; simpl; try done.
    + intros j y Hj. rewrite length_insert. eauto.
    + exists (k (fst (f m))). rewrite list_lookup_insert_eq by (by eapply lookup_lt_Some).
      split_and!; try done. exists x, t, (snd (f mv)), hv. split_and!; try done.
      exact (eq_ind_r (fun b => until ok (takes_effect x a) (k b) (snd (f mv)) hv) Hwp E1).
    + intros j p' Hp' Hj. rewrite list_lookup_insert_ne in Hp' by congruence. by apply Hth.
  - pose proof (in_threads _ _ _ _ _ HI i _ Hi Hne) as Hti. pose proof (in_frame _ _ _ _ _ HI) as Hf. simpl in Hf.
    assert (Hthis : frame (snd (f m)) /\ mview (snd (f m)) = mview m /\ thread_ok order i h (k (fst (f m)))).
    { destruct Hti as [(x & Hx & t & Ht & Hp)|[Hio (t & Ht & Hp)]]; destruct (Hp m Hf) as (? & ? & ?);
        split_and!; try done; [left|right].
      - exists x. split; [done|]. by exists t.
      - split; [done|]. by exists t. }
    destruct Hthis as (? & ? & ?). eapply inter_outside; eauto.
Qed.

Definition is_inter (a0 : A) (c : config T) : Prop := exists order a holder, inter a0 order a holder c.

Lemma inter_step a0 c c' : is_inter a0 c -> cstep ok c c' -> is_inter a0 c'.
Proof.
  intros (order & a & holder & HI) Hstep.
  destruct Hstep as [i c k r ts m h Hi Hnb Hr|i B f k ts m h Hi]; swap 1 2.
  { exists order, a, holder. by apply inter_act. }
  destruct (decide (holder = Some i)) as [->|Hne].
  - destruct c; try (by exists order, a, (Some i); apply inter_call).
    destruct (inter_exit _ _ _ _ _ _ _ _ _ _ HI Hi Hr) as (x & a' & Ha'). by eexists _, a', None.
  - pose proof (in_frame _ _ _ _ _ HI) as Hf. simpl in Hf.
    assert (Hout : neutral hview c -> thread_ok order i (h ++ [Ev (S := ksig) c r]) (k r) ->
      is_inter a0 (Config (<[i := k r]> ts) m (h ++ [Ev (S := ksig) c r]))).
    { intros [Hn _] Hp. exists order, a, holder. eapply inter_outside; eauto. }
    destruct (in_threads _ _ _ _ _ HI i _ Hi Hne) as [(x & Hx & t & Ht & Hp)|[Hio (t & Ht & Hp)]].
    + destruct (thread_call order i t h c k r Ht Hr) as [? ?]; [by exists x|]. by apply Hout.
    + destruct Hp as [[Hn Hp]|[-> Hp]].
      * apply Hout; [done|]. right. split; [done|]. exists (t ++ [Ev (S := ksig) c r]).
        split; [by apply sublist_snoc|]. apply Hp. by exists h.
      * destruct holder as [j|].
        { exfalso. apply Hnb. intros E. pose proof (in_state _ _ _ _ _ HI) as (p & _ & _ & Hh).
          destruct Hh as (? & ? & ? & ? & ? & ? & ? & ? & ? & ? & ? & E' & _).
          simpl in *. congruence. }
        exists order, a, (Some i). eapply inter_enter; eauto.
Qed.

Lemma inter_steps a0 c c' : is_inter a0 c -> rtc (cstep ok) c c' -> is_inter a0 c'.
Proof. intros Hl Hs. induction Hs; eauto using inter_step. Qed.

Lemma inter_start a0 ts m h :
  Inv a0 m h -> frame m ->
  (forall i p, ts !! i = Some p -> OUTER (enters i) (fun _ v => returns i None v) [] p) ->
  is_inter a0 (Config ts m h).
Proof.
  intros Ha Hf Hts. exists [], a0, None. constructor; simpl; try done.
  - constructor.
  - constructor.
  - intros i x Hi. by apply not_elem_of_nil in Hi.
  - intros i p Hp _. right. split; [apply not_elem_of_nil|]. exists [].
    split; [apply sublist_nil_l|eauto].
Qed.

(** When nobody holds the mutex, the critical sections so far took effect one
    after the other, and a thread that returned took effect as it may. *)
Lemma inter_free a0 c :
  is_inter a0 c -> net (c_hist c) (RMutex lock) = 0 ->
  exists order a, NoDup order.*1 /\ serial (fun x => eff (snd x)) order a0 a /\
    Inv a (c_mem c) (c_hist c) /\ (forall i x, (i, x) ∈ order -> allowed i x) /\
    forall i v, c_threads c !! i = Some (Ret v) ->
      (exists x, (i, x) ∈ order /\ returns i (Some x) v) \/ ((i ∉ order.*1) /\ returns i None v).
Proof.
  intros (order & a & holder & [Hs Hnd Hb Hf Hst Hth]) Hn. destruct holder as [j|].
  { destruct Hst as (p & _ & _ & Hh).
    destruct Hh as (? & ? & ? & ? & ? & ? & ? & ? & ? & ? & ? & E' & _). lia. }
  exists order, a. split_and!; [done..| |].
  - intros i x Hx. by apply Hb.
  - intros i v Hi. destruct (Hth i _ Hi ltac:(done)) as [(x & Hx & t & _ & Hp)|[Hio (t & _ & Hp)]]; [left|right].
    + by exists x.
    + by split.
Qed.

(** A thread that stops returned or died. *)
Definition stopped (p : kprog T) : Prop := (exists v, p = Ret v) \/ exists x, p = Fault x.

Lemma holding_not_stopped j a p m h : holding j a p m h -> ~ stopped p.
Proof.
  intros (x & t & mv & hv & _ & _ & _ & _ & _ & _ & _ & _ & Hwp) [[v ->]|[y ->]]; done.
Qed.

(** Whoever holds the mutex has not stopped. *)
Lemma inter_busy a0 c :
  is_inter a0 c -> net (c_hist c) (RMutex lock) <> 0 ->
  exists j p, c_threads c !! j = Some p /\ ~ stopped p.
Proof.
  intros (order & a & holder & [_ _ _ _ Hst _]) Hn. destruct holder as [j|].
  - destruct Hst as (p & Hp & _ & Hh). exists j, p. split; [done|]. by eapply holding_not_stopped.
  - destruct Hn. by eapply Hfree.
Qed.

(** They can go on; and when nobody holds it, all can. *)
Lemma inter_progress a0 c :
  (forall h c, exists r, ok h (Ev (S := ksig) c r)) -> is_inter a0 c ->
  Forall stopped (c_threads c) \/ exists c', cstep ok c c'.
Proof.
  intros Hans (order & a & holder & [Hs Hnd Hb Hf Hst Hth]). destruct c as [ts m h]. simpl in *.
  assert (Hgo : forall i p, ts !! i = Some p -> ~ stopped p ->
    (forall c k, p = Call (S := ksig) c k -> ~ blocked c h) -> exists c', cstep ok (Config ts m h) c').
  { intros i [v|x|c k|B f k] Hi Hns Hnb; [destruct Hns; left; by exists v|destruct Hns; right; by exists x| |].
    - destruct (Hans h c) as [r Hr]. eexists. eapply cstep_call; eauto.
    - eexists. by eapply cstep_act. }
  destruct holder as [j|].
  - right. destruct Hst as (p & Hp & _ & Hh). apply (Hgo j p Hp); [by eapply holding_not_stopped|].
    intros c k -> Hbl. destruct Hh as (x & t & mv & hv & _ & Hq & Ht & _).
    destruct (Hans h c) as [r Hr].
    specialize (Hq r (ex_intro _ h (conj Ht Hr))). by destruct c.
  - assert (Hdec : forall p, {stopped p} + {~ stopped p}).
    { intros [v|x|c k|B f k]; [left; left; by exists v|left; right; by exists x|right..];
        intros [[? ?]|[? ?]]; done. }
    destruct (List.Forall_Exists_dec stopped Hdec ts) as [Ha|He]; [by left|right].
    apply Exists_exists in He as (p & [i Hi]%list_elem_of_lookup & Hns). apply (Hgo i p Hi Hns).
    intros c k -> Hbl. destruct (Hth i _ Hi ltac:(done)) as [(x & Hx & t & _ & Hp)|[_ (t & Ht & Hp)]].
    + destruct Hp as [[[_ Hc] _]|[-> Hp]]; [by destruct c|by destruct (Hp tt)].
    + destruct Hp as [[[_ Hc] _]|[-> Hp]]; [by destruct c|]. apply Hbl. by apply (Hfree a m h).
Qed.
End Interleave.
