(* ===== verification/Requests.v ===== *)
(** * Requests

    What the VFS, and the user of the control device, ask of a mounted file
    system: a [request] per method of the tables of [Tables.v], mounting and
    unmounting apart.  [handle] is the handler that serves it, [request_op] what
    it logs. *)

From S2P Require Import Prelude Prog TrTypes Kernel TrfsH Lookup Trdump Inode FileOps Super TrIoctl.
From S2P Require Import Ledger TrdumpSpec EndToEnd LogThms HandlerSpec IoctlThms Concur Actions.

Inductive request :=
(* inodes *)
| Create (dir dentry mode : Z) (excl : bool)
| Link (old dir new : ptr)
| Unlink (dir dentry : ptr)
| Symlink (dir dentry : ptr) (name : buffer)
| Mkdir (dir dentry mode : Z)
| Rmdir (dir dentry : ptr)
| Mknod (dir dentry mode dev : Z)
| Rename (old_dir old new_dir new : ptr)
| Lookup (dir dentry flags : Z)
| Readlink (dentry buf size : Z)
| GetLink (dentry inode done : ptr)
| Permission (inode mask : Z)
| Setattr (dentry : ptr) (ia : iattr)
| Getattr (mnt dentry stat : ptr)
| Setxattr (dentry : ptr) (name : bytes) (value size flags : Z)
| Getxattr (dentry : ptr) (name : bytes) (buf size : Z)
| Listxattr (dentry buf size : Z)
| Removexattr (dentry : ptr) (name : bytes)
(* files *)
| Llseek (file off whence : Z)
| Read (file buf count ppos : Z)
| Write (file : ptr) (buf : buffer) (count ppos : Z)
| Readdir (file ctx : ptr)
| Ioctl (file cmd arg : Z)
| CompatIoctl (file cmd arg : Z)
| Mmap (file vma : ptr)
| Open (inode file : ptr)
| Flush (file id : ptr)
| Release (inode file : ptr)
| Fsync (file start finish datasync : Z)
| Fasync (fd file flag : Z)
| ReadIter (iocb iter : ptr)
| WriteIter (iocb iter : ptr)
| PageFault (vma vmf : ptr)
| PageMkwrite (vma vmf : ptr)
| DirectIO (iocb iter pos : Z)
(* super blocks, inodes and dentries *)
| Statfs (dentry buf : ptr)
| Remount (sb flags : Z)
| UmountBegin (sb : ptr)
| AllocInode (sb : ptr)
| EvictInode (inode : ptr)
| DestroyInode (inode : ptr)
| NfsGetInode (sb ino generation : Z)
| Revalidate (dentry flags : Z)
| ReleaseDentry (dentry : ptr)
(* the control device *)
| Device (file cmd arg : Z).

Section Handle.
(** The magic number of the kernel's headers. *)
Variable magic : Z.

(** A handler that answers nothing answers 0. *)
Definition handle (r : request) : kprog Z :=
  match r with
  | Create dir dentry mode excl => trfs_create dir dentry mode excl
  | Link old dir new => trfs_link old dir new
  | Unlink dir dentry => trfs_unlink dir dentry
  | Symlink dir dentry name => trfs_symlink dir dentry name
  | Mkdir dir dentry mode => trfs_mkdir dir dentry mode
  | Rmdir dir dentry => trfs_rmdir dir dentry
  | Mknod dir dentry mode dev => trfs_mknod dir dentry mode dev
  | Rename od o nd n => trfs_rename od o nd n
  | Lookup dir dentry flags => trfs_lookup dir dentry flags
  | Readlink dentry buf size => trfs_readlink dentry buf size
  | GetLink dentry inode done => trfs_get_link dentry inode done
  | Permission inode mask => trfs_permission inode mask
  | Setattr dentry ia => trfs_setattr dentry ia
  | Getattr mnt dentry stat => trfs_getattr mnt dentry stat
  | Setxattr dentry name value size flags => trfs_setxattr dentry name value size flags
  | Getxattr dentry name buf size => trfs_getxattr dentry name buf size
  | Listxattr dentry buf size => trfs_listxattr dentry buf size
  | Removexattr dentry name => trfs_removexattr dentry name
  | Llseek file off whence => trfs_file_llseek file off whence
  | Read file buf count ppos => trfs_read file buf count ppos
  | Write file buf count ppos => trfs_write file buf count ppos
  | Readdir file ctx => trfs_readdir file ctx
  | Ioctl file cmd arg => trfs_unlocked_ioctl file cmd arg
  | CompatIoctl file cmd arg => trfs_compat_ioctl file cmd arg
  | Mmap file vma => trfs_mmap file vma
  | Open inode file => trfs_open inode file
  | Flush file id => trfs_flush file id
  | Release inode file => trfs_file_release inode file
  | Fsync file start finish datasync => trfs_fsync file start finish datasync
  | Fasync fd file flag => trfs_fasync fd file flag
  | ReadIter iocb iter => trfs_read_iter iocb iter
  | WriteIter iocb iter => trfs_write_iter iocb iter
  | PageFault vma vmf => trfs_fault vma vmf
  | PageMkwrite vma vmf => trfs_page_mkwrite vma vmf
  | DirectIO iocb iter pos => trfs_direct_IO iocb iter pos
  | Statfs dentry buf => trfs_statfs magic dentry buf
  | Remount sb flags => trfs_remount_fs sb flags
  | UmountBegin sb => trfs_umount_begin sb;; mret 0
  | AllocInode sb => trfs_alloc_inode sb
  | EvictInode inode => trfs_evict_inode inode;; mret 0
  | DestroyInode inode => trfs_destroy_inode inode;; mret 0
  | NfsGetInode sb ino generation => trfs_nfs_get_inode sb ino generation
  | Revalidate dentry flags => trfs_d_revalidate dentry flags
  | ReleaseDentry dentry => trfs_d_release dentry;; mret 0
  | Device file cmd arg => tr_ioctl file cmd arg
  end.
End Handle.

(** ** What a request logs *)

Section Logged.
Variable w : kworld.
Definition path_at (d : ptr) : bytes := default [] (path_of w d).

(** The operation, with the file's flags and the answer, and where its super
    block is taken from. *)
Definition request_op (r : request) (flags err : Z) : option (sb_source * op) :=
  match r with
  | Create dir d mode _ => Some (Of_inode dir, Op FCREAT d 0 mode err nullbuf 0 (path_at d) [])
  | Link old _ new =>
      Some (Of_dentry old, Op LINK old 0 0 err (Buffer new []) 0 (path_at old) (path_at new))
  | Unlink dir d => Some (Of_inode dir, Op UNLINK d 0 0 err nullbuf 0 (path_at d) [])
  | Symlink _ d name =>
      Some (Of_dentry d, Op SYMLINK d 0 0 err name (int32 (strlen (b_data name))) (path_at d) [])
  | Mkdir dir d mode => Some (Of_inode dir, Op DCREAT d 0 mode err nullbuf 0 (path_at d) [])
  | Rmdir dir d => Some (Of_inode dir, Op UNLINK d 0 0 err nullbuf 0 (path_at d) [])
  | Rename _ o _ n =>
      Some (Of_dentry o, Op RENAME o 0 0 err (Buffer n []) 0 (path_at o) (path_at n))
  | Write f buf count _ =>
      let d := dentry_of w f in
      Some (Of_dentry d, Op FWRITE d flags 0 err buf (int32 count) (path_at d) [])
  | _ => None
  end.

(** What a critical section of a request may be: its operation is logged; the
    mask is set, or read. *)
Definition serves (r : request) (x : option action) : Prop :=
  match x with
  | Some (Logs g o) => exists flags err, request_op r flags err = Some (g, o)
  | Some (Masks _) => exists f arg, r = Device f TR_SET_BMAP arg
  | None => exists f arg, r = Device f TR_GET_BMAP arg
  end.

(** What it returns: what it logged, if it logs. *)
Definition answers_with (r : request) (x : option (option action)) (v : Z) : Prop :=
  match x with
  | Some (Some (Logs _ o)) => v = op_err o
  | Some _ => True
  | None => request_op r 0 0 = None
  end.

Definition effect (x : option action) (a a' : lstate) : Prop :=
  match x with Some x => action_eff x a a' | None => a' = a end.

(** ** What the requests rely on *)

(** The dentry of a symbolic link to be made has no inode yet: [fresh] tells
    which one it is to get, of this mount. *)
Definition will_have (sb : ptr) (fresh : ptr -> option ptr) (d i : ptr) : Prop :=
  good_ptr d /\ fresh d = Some i /\ good_ptr i /\ sb_of w i = sb.

(** Where the super block of a logged operation is found. *)
Definition source_ok (sb : ptr) (fresh : ptr -> option ptr) (r : request) (g : sb_source) : Prop :=
  match r with
  | Symlink _ d _ => exists i, will_have sb fresh d i
  | _ => sb_found w sb g
  end.

Definition request_ok (sb : ptr) (fresh : ptr -> option ptr) (r : request) : Prop :=
  forall flags err g o, request_op r flags err = Some (g, o) ->
    source_ok sb fresh r g /\ op_sound w o.

(** The kernel while requests are served: memory to spare and writes that
    complete; memory that is in use is not handed out again; and the dentry of
    a symbolic link to be made, whose directory is locked, gets its inode once
    and keeps it. *)
Definition steady (page : ptr) (fresh : ptr -> option ptr) (h : khist) (e : event ksig) : Prop :=
  match e with
  | Ev c r =>
    match c return kreply c -> Prop with
    | kmalloc _ => fun r => fst r <> page
    | load F_d_inode d => fun r => forall i, fresh d = Some i ->
        (r = NULL \/ r = i) /\ (Ev (S := ksig) (load F_d_inode d) i ∈ h -> r = i)
    | _ => fun _ => True
    end r
  end.

Definition serving_ok (page : ptr) (fresh : ptr -> option ptr) (h : khist) (e : event ksig) : Prop :=
  kernel_ok_resourceful w h e /\ steady page fresh h e.
End Logged.
