(* ===== verification/RequestSpec.v ===== *)
(** * Handlers as threads

    Every handler of [Requests.v] is a program of the kind that
    [Interleave.v] lets run with others ([outer_request]): outside its
    critical section it leaves alone what logging reads and changes
    ([log_view], [log_hist]), and its critical section, if it has one, logs one
    operation, or sets or reads the mask. *)

From S2P Require Import Prelude Prog TrTypes Kernel TrfsH Lookup Trdump Inode FileOps Super Mount TrIoctl.
From S2P Require Import Ledger TrdumpSpec User UserSpec Treplay TreplaySpec LogThms ReplayThms EndToEnd.
From S2P Require Import HandlerSpec IoctlThms Demo Concur Actions Interleave Requests.

(** ** The view: what logging reads and changes *)

Definition log_view (sb lock : ptr) (si : trfs_sb_info) (m : kmem) :
    Z * option ptr * option trfs_sb_info * option bytes * option Z :=
  (trecord_id m, s_fs_info m !! sb, sb_infos m !! lock, kbufs m !! tr_page si,
   f_pos m !! tr_lower_filep si).

Definition log_hist (lock : ptr) (si : trfs_sb_info) (h : khist) : Z * bytes :=
  (net h (RMutex lock), log_image (tr_lower_filep si) h).

(** The mounted super block, the only one, with its private data in place. *)
Definition one_mount (sb lock : ptr) (si : trfs_sb_info) (m : kmem) : Prop :=
  s_fs_info m !! sb = Some lock /\
  (exists mask, sb_infos m !! lock = Some (info_with si mask)) /\
  forall sb' p, s_fs_info m !! sb' = Some p -> p <> NULL -> sb' = sb.

Lemma log_hist_snoc lock si h1 h2 e :
  log_hist lock si h1 = log_hist lock si h2 -> log_hist lock si (h1 ++ [e]) = log_hist lock si (h2 ++ [e]).
Proof. unfold log_hist. intros [= E1 E2]. by rewrite !net_snoc, !log_image_app, E1, E2. Qed.

Lemma log_hist_net lock si h1 h2 :
  log_hist lock si h1 = log_hist lock si h2 -> net h1 (RMutex lock) = net h2 (RMutex lock).
Proof. by intros [= ? ?]. Qed.

Lemma log_inv_view w sb lock si img a m1 m2 h1 h2 :
  log_view sb lock si m1 = log_view sb lock si m2 -> log_hist lock si h1 = log_hist lock si h2 ->
  log_inv w sb lock si img a m1 h1 -> log_inv w sb lock si img a m2 h2.
Proof.
  intros Em [= En Ei] [Hf Hid Hlog [buf Hm]]. injection Em as Eid Esb Einfo Ebuf Epos.
  constructor; [congruence|congruence|congruence|]. exists buf. rewrite <- Ei.
  destruct Hm as [(? & ? & ? & ?) ? ? ? ? ? ?]. simpl in *. constructor; simpl; try done; try congruence.
  split_and!; congruence.
Qed.

(** Calls that do not write a file, and are not on a mutex. *)
Definition plain (c : kfun) : Prop :=
  match c with mutex_lock _ | mutex_unlock _ | kernel_write _ _ _ _ => False | _ => True end.

Lemma plain_neutral lock si c : plain c -> neutral (log_hist lock si) c.
Proof.
  intros Hc. split; [|by destruct c]. intros r h. unfold log_hist.
  rewrite net_snoc, log_image_app, delta_mutex by (by destruct c). f_equal; [lia|by destruct c].
Qed.

Lemma made_later d (h1 h2 : khist) : h1 `sublist_of` h2 -> made d h1 -> made d h2.
Proof.
  unfold made. rewrite !Exists_exists. intros Hs (e & He & Hm). exists e.
  split; [|done]. revert He. by apply sublist_subseteq.
Qed.

Lemma serving_ok_earlier w page fresh h1 h2 e :
  h1 `sublist_of` h2 -> serving_ok w page fresh h2 e -> serving_ok w page fresh h1 e.
Proof.
  intros Hs [[Hk Hr] Hst]. destruct e as [c r]. split; [split; [|done]|].
  - destruct c; try done.
    destruct f; try done. simpl in *. destruct Hk as (? & Hm & ?). split_and!; try done.
    intros Hd. apply Hm. by eapply made_later.
  - destruct c; try done. destruct f; try done. simpl in *. intros i Hd. destruct (Hst i Hd) as [? Hone].
    split; [done|]. intros Hin. apply Hone. revert Hin. by apply sublist_subseteq.
Qed.

(** ** Programs that stay out of the view *)

Section Aside.
Context (w : kworld) (sb lock : ptr) (si : trfs_sb_info) (fresh : ptr -> option ptr).
Local Abbreviation ok := (serving_ok w (tr_page si) fresh).
Local Abbreviation frame := (one_mount sb lock si).

Definition any {T} (_ : khist) (_ : T) : Prop := True.

(** Nothing is asked of what it returns. *)
Definition stays_out {T} (t : khist) (p : kprog T) : Prop :=
  aside ok lock frame (log_view sb lock si) (log_hist lock si) any t p.

Lemma out_bind {T U} t (p : kprog U) (f : U -> kprog T) :
  stays_out t p -> (forall t' v, stays_out t' (f v)) -> stays_out t (p ≫= f).
Proof. intros Hp Hf. eapply outer_bind; [exact Hp|]. intros t' v _ _. apply Hf. Qed.

Lemma out_ret {T} t (v : T) : stays_out t (mret v).
Proof. exact I. Qed.
Lemma out_fault {T} t x : stays_out t (Fault x : kprog T).
Proof. exact I. Qed.
Lemma out_kdo t c : plain c -> stays_out t (kdo c).
Proof. intros Hc. left. split; [by apply plain_neutral|]. by intros. Qed.
(** When the answer matters. *)
Lemma out_kdo_bind {T} t c (k : kreply c -> kprog T) :
  plain c ->
  (forall r : kreply c, possible ok t (Ev (S := ksig) c r) -> stays_out (t ++ [Ev (S := ksig) c r]) (k r)) ->
  stays_out t (kdo c ≫= k).
Proof. intros Hc Hk. left. split; [by apply plain_neutral|exact Hk]. Qed.
Lemma out_gets {B} t (f : kmem -> B) : stays_out t (gets (S := ksig) f).
Proof. by intros m Hm. Qed.
Lemma out_modify t (f : kmem -> kmem) :
  (forall m, frame m -> frame (f m) /\ log_view sb lock si (f m) = log_view sb lock si m) ->
  stays_out t (modify (S := ksig) f).
Proof. intros Hf m Hm. destruct (Hf m Hm). by split_and!. Qed.
End Aside.

Create HintDb aside.

Ltac out_step :=
  lazymatch goal with
  | |- stays_out _ _ _ _ _ _ (mbind _ _) => apply out_bind; [|intros ? ?]
  | |- stays_out _ _ _ _ _ _ (fmap _ _) => apply out_bind; [|intros ? ?; exact I]
  | |- stays_out _ _ _ _ _ _ (mret _) => exact I
  | |- stays_out _ _ _ _ _ _ (Ret _) => exact I
  | |- stays_out _ _ _ _ _ _ (Fault _) => exact I
  | |- stays_out _ _ _ _ _ _ (kdo _) => apply out_kdo; exact I
  | |- stays_out _ _ _ _ _ _ (gets _) => apply out_gets
  | |- stays_out _ _ _ _ _ _ (modify _) => apply out_modify; intros ? ?; by split
  | |- stays_out _ _ _ _ _ _ (match ?x with _ => _ end) => destruct x
  | |- stays_out _ _ _ _ _ _ (let _ := _ in _) => cbv zeta
  | |- stays_out _ _ _ _ _ _ (when ?b _) => destruct b; cbn [when]
  | |- stays_out _ _ _ _ _ _ (deref _ ?o) => destruct o; cbn [deref]
  | |- stays_out _ _ _ _ _ _ (bug_on ?b) => destruct b; cbn [bug_on]
  | |- stays_out _ _ _ _ _ _ (or_out _ _) => unfold or_out
  | |- stays_out _ _ _ _ _ _ (ld _ _) => unfold ld
  | |- stays_out _ _ _ _ _ _ (st _ _ _) => unfold st
  | |- stays_out _ _ _ _ _ _ (check_ptr _) => unfold check_ptr
  | |- stays_out _ _ _ _ _ _ (d_inode _) => unfold d_inode
  | |- stays_out _ _ _ _ _ _ (i_sb _) => unfold i_sb
  | |- stays_out _ _ _ _ _ _ (heap_get _ _) => unfold heap_get
  | |- stays_out _ _ _ _ _ _ (heap_set _ _ _ _) => unfold heap_set
  | |- stays_out _ _ _ _ _ _ (heap_new _ _ _ _) => unfold heap_new
  | |- stays_out _ _ _ _ _ _ (heap_del _ _ _) => unfold heap_del
  | |- stays_out _ _ _ _ _ _ (field_get _ _) => unfold field_get
  | |- stays_out _ _ _ _ _ _ (field_set _ _ _ _) => unfold field_set
  | |- stays_out _ _ _ _ _ _ _ => solve [auto with aside nocore]
  end.
Ltac out := repeat out_step.

Section Helpers.
Context (w : kworld) (sb lock : ptr) (si : trfs_sb_info) (fresh : ptr -> option ptr).
Local Abbreviation OUT := (stays_out w sb lock si fresh).

Lemma out_get_lower_path t d : OUT t (trfs_get_lower_path d).
Proof. unfold trfs_get_lower_path, TRFS_D. out. Qed.
Lemma out_put_lower_path t d p : OUT t (trfs_put_lower_path d p).
Proof. unfold trfs_put_lower_path. out. Qed.
Lemma out_set_lower_path t d p : OUT t (trfs_set_lower_path d p).
Proof. unfold trfs_set_lower_path, TRFS_D. out. Qed.
Lemma out_put_reset_lower_path t d : OUT t (trfs_put_reset_lower_path d).
Proof. unfold trfs_put_reset_lower_path, TRFS_D. out. Qed.
Lemma out_lock_parent t d : OUT t (lock_parent d).
Proof. unfold lock_parent. out. Qed.
Lemma out_unlock_dir t d : OUT t (unlock_dir d).
Proof. unfold unlock_dir. out. Qed.
Lemma out_lower_inode t i : OUT t (trfs_lower_inode i).
Proof. unfold trfs_lower_inode. out. Qed.
Lemma out_lower_super t s : OUT t (trfs_lower_super s).
Proof. unfold trfs_lower_super, sb_info, TRFS_SB. out. Qed.
Lemma out_lower_file t f : OUT t (trfs_lower_file f).
Proof. unfold trfs_lower_file, TRFS_F. out. Qed.
Lemma out_set_lower_file t f v : OUT t (trfs_set_lower_file f v).
Proof. unfold trfs_set_lower_file, TRFS_F. out. Qed.
Lemma out_copy_dir_attrs t d l : OUT t (copy_dir_attrs d l).
Proof. unfold copy_dir_attrs, trfs_lower_inode. out. Qed.
Lemma out_copy_nlink t i l : OUT t (copy_nlink i l).
Proof. unfold copy_nlink. out. Qed.
Hint Resolve out_lower_inode out_lower_super : aside.
Lemma out_iget t s i : OUT t (trfs_iget s i).
Proof. unfold trfs_iget, init_inode, trfs_set_lower_inode. out. Qed.
Hint Resolve out_iget : aside.
Lemma out_interpose t d s p : OUT t (__trfs_interpose d s p).
Proof. unfold __trfs_interpose. out. Qed.
End Helpers.

#[export] Hint Resolve out_get_lower_path out_put_lower_path out_set_lower_path out_put_reset_lower_path
  out_lock_parent out_unlock_dir out_lower_inode out_lower_super out_lower_file out_set_lower_file
  out_copy_dir_attrs out_copy_nlink out_iget out_interpose : aside.

(** ** Handlers that do not log *)

Definition aloof (r : request) : bool :=
  match r with
  | Create _ _ _ _ | Link _ _ _ | Unlink _ _ | Symlink _ _ _ | Mkdir _ _ _ | Rmdir _ _
  | Rename _ _ _ _ | Write _ _ _ _ | Device _ _ _ => false
  | _ => true
  end.

Section Aloof.
Context (w : kworld) (sb lock : ptr) (si : trfs_sb_info) (fresh : ptr -> option ptr).
Local Abbreviation OUT := (stays_out w sb lock si fresh).

Lemma out_interpose_int t d s p : OUT t (trfs_interpose d s p).
Proof. unfold trfs_interpose. out. Qed.

Lemma out_readlink t d b n : OUT t (trfs_readlink d b n).
Proof. unfold trfs_readlink. out. Qed.

Lemma out_copy_size_times t d f : OUT t (copy_size_times d f).
Proof. unfold copy_size_times, file_inode. out. Qed.

(** The buffer for the target of a link is not the page that logging uses. *)
Lemma out_get_link t d i x : OUT t (trfs_get_link d i x).
Proof.
  unfold trfs_get_link. case_decide; [exact I|]. apply out_kdo_bind; [exact I|].
  intros [buf contents] (h & _ & _ & Hbuf). cbn [fst] in Hbuf.
  assert (Hkb : forall v m, one_mount sb lock si m ->
    one_mount sb lock si (set_kbufs (partial_alter (fun _ => v) buf (kbufs m)) m) /\
    log_view sb lock si (set_kbufs (partial_alter (fun _ => v) buf (kbufs m)) m) = log_view sb lock si m).
  { intros v m Hm. split; [done|]. unfold log_view. simpl. by rewrite lookup_partial_alter_ne. }
  case_decide; [exact I|]. apply out_bind; [|intros t1 _].
  { unfold heap_new. apply out_modify. intros m. apply (Hkb (Some contents)). }
  apply out_bind; [out|intros t2 old]. apply out_bind; [apply out_readlink|intros t3 err].
  apply out_bind; [out|intros t4 _]. apply out_bind; [|intros t5 ?; out].
  case_decide.
  - apply out_bind; [out|intros t5 _]. apply out_bind; [|intros ? ?; out]. unfold heap_del.
    apply out_modify. intros m. apply (Hkb None).
  - unfold write_kbuf. apply out_bind; [|intros ? ?; out]. apply out_bind; [out|intros t5 b]. case_decide; [|exact I].
    unfold heap_set. apply out_bind; [out|intros t6 ?]. apply out_modify. intros m. apply (Hkb (Some _)).
Qed.
Hint Resolve out_interpose_int out_readlink out_copy_size_times out_get_link : aside.

Lemma out_aloof magic t r : aloof r = true -> OUT t (handle magic r).
Proof.
  intros Hr. destruct r; try discriminate Hr; cbn [handle];
  unfold trfs_mknod, trfs_lookup, __trfs_lookup, negative_dentry, new_dentry_private_data, i_sb,
    trfs_permission, trfs_setattr, trfs_getattr, trfs_setxattr, trfs_getxattr, trfs_listxattr,
    trfs_removexattr, lower_iop, copy_attr_all, copy_attr_atime,
    trfs_file_llseek, trfs_read, trfs_readdir, trfs_unlocked_ioctl, trfs_compat_ioctl, trfs_mmap,
    trfs_open, trfs_flush, trfs_file_release, trfs_fsync, trfs_fasync, trfs_read_iter, trfs_write_iter,
    trfs_fault, trfs_page_mkwrite, with_lower_iocb, as_int, file_op, file_dentry, file_inode, TRFS_F,
    trfs_direct_IO, trfs_statfs, trfs_remount_fs, trfs_umount_begin, trfs_alloc_inode,
    trfs_evict_inode, trfs_set_lower_inode, trfs_destroy_inode, trfs_nfs_get_inode, trfs_d_revalidate,
    trfs_d_release, free_dentry_private_data; out.
Qed.
End Aloof.

#[export] Hint Resolve out_interpose_int out_copy_size_times : aside.

(** ** The critical sections *)

Section Locked.
Context (w : kworld) (sb lock : ptr) (si : trfs_sb_info) (fresh : ptr -> option ptr).
Context (Hsb : good_ptr sb) (Hlock : good_ptr lock).
Context (Hpage : good_ptr (tr_page si)) (Hlogf : good_ptr (tr_lower_filep si)).
Local Abbreviation ok := (serving_ok w (tr_page si) fresh).
Local Abbreviation frame := (one_mount sb lock si).
Local Abbreviation view := (log_view sb lock si).
Local Abbreviation LOCAL := (local ok frame view).

Lemma local_then {T U} R t (p : kprog U) (f : U -> kprog T) :
  LOCAL R t p -> (forall t' v, t `sublist_of` t' -> R t' v -> LOCAL any t' (f v)) -> LOCAL any t (p ≫= f).
Proof. apply local_bind. Qed.

Lemma local_gets {B} R t (f : kmem -> B) :
  (forall m1 m2, frame m1 -> frame m2 -> view m1 = view m2 -> f m1 = f m2) ->
  (forall m, frame m -> R t (f m)) -> LOCAL R t (gets (S := ksig) f).
Proof. intros Hf HR m1 m2 H1 H2 E. simpl. split_and!; auto. Qed.

Lemma local_modify t (f : kmem -> kmem) :
  (forall m1 m2, frame m1 -> frame m2 -> view m1 = view m2 -> view (f m1) = view (f m2)) ->
  (forall m, frame m -> frame (f m)) -> LOCAL any t (modify (S := ksig) f).
Proof. intros Hf HF m1 m2 H1 H2 E. simpl. split_and!; [done|auto..|exact I]. Qed.

Lemma local_kdo t c :
  match c with mutex_lock _ | mutex_unlock _ => False | _ => True end -> LOCAL any t (kdo c).
Proof. intros Hc. by split. Qed.

Lemma local_check (R : khist -> unit -> Prop) t p : good_ptr p -> R t tt -> LOCAL R t (check_ptr p).
Proof. intros Hp HR. by rewrite check_good. Qed.

Lemma local_TRFS_SB t : LOCAL (fun _ p => p = lock) t (TRFS_SB sb).
Proof.
  unfold TRFS_SB, field_get. rewrite (check_good sb) by done. apply local_gets.
  - intros m1 m2 (E1 & _) (E2 & _) _. by rewrite E1, E2.
  - intros m (E & _). by rewrite E.
Qed.

Lemma local_info t : LOCAL (fun _ x => exists v, x = info_with si v) t (heap_get sb_infos lock).
Proof.
  unfold heap_get. rewrite (check_good lock) by done.
  eapply (local_bind _ _ _ (fun _ o => exists v, o = Some (info_with si v))).
  - apply local_gets; [by intros m1 m2 _ _ [= _ _ ? _ _]|by intros m (_ & ? & _)].
  - intros t' o _ [v ->]. by exists v.
Qed.

Lemma local_sb_info t : LOCAL (fun _ x => exists v, x = info_with si v) t (sb_info sb).
Proof.
  unfold sb_info. eapply local_bind; [apply local_TRFS_SB|]. intros t' p _ ->. apply local_info.
Qed.

Lemma local_get_page t : LOCAL any t (heap_get kbufs (tr_page si)).
Proof.
  unfold heap_get. rewrite check_good by done. apply (local_then any); [exact I|intros t0 _ _ _].
  apply (local_then any).
  - apply local_gets; [by intros m1 m2 _ _ [= _ _ _ ? _]|done].
  - intros t' [] _ _; exact I.
Qed.

Lemma local_get_pos t : LOCAL any t (heap_get f_pos (tr_lower_filep si)).
Proof.
  unfold heap_get. rewrite check_good by done. apply (local_then any); [exact I|intros t0 _ _ _].
  apply (local_then any).
  - apply local_gets; [by intros m1 m2 _ _ [= _ _ _ _ ?]|done].
  - intros t' [] _ _; exact I.
Qed.

Lemma local_write_page t off data : LOCAL any t (write_kbuf (tr_page si) off data).
Proof.
  unfold write_kbuf. eapply local_then; [apply local_get_page|]. intros t' b _ _.
  case_decide; [|exact I]. unfold heap_set. eapply local_then; [apply local_get_page|]. intros t2 ? _ _.
  apply local_modify.
  - intros m1 m2 _ _ [= ? ? ? ? ?]. unfold log_view. simpl. rewrite !lookup_insert_eq. congruence.
  - intros m Hm. exact Hm.
Qed.

Lemma local_log_write t b n : LOCAL any t (log_write (tr_lower_filep si) b n).
Proof.
  unfold log_write. eapply local_then; [apply local_get_pos|]. intros t1 pos _ _.
  eapply local_then; [by apply local_kdo|]. intros t2 r _ _. cbv zeta. case_decide; [exact I|].
  apply (local_then any); [|intros; exact I]. unfold heap_set.
  eapply local_then; [apply local_get_pos|]. intros t3 ? _ _. apply local_modify.
  - intros m1 m2 _ _ [= ? ? ? ? ?]. unfold log_view. simpl. rewrite !lookup_insert_eq. congruence.
  - intros m Hm. exact Hm.
Qed.

(** Steps whose result does not matter for what follows. *)
Ltac local_step :=
  lazymatch goal with
  | |- local _ _ _ _ _ (mbind _ _) => apply (local_then any); [|intros ? ? _ _]
  | |- local _ _ _ _ _ (mret _) => exact I
  | |- local _ _ _ _ _ (Ret _) => exact I
  | |- local _ _ _ _ _ (Fault _) => exact I
  | |- local _ _ _ _ _ (kdo _) => apply local_kdo; exact I
  | |- local _ _ _ _ _ (match ?x with _ => _ end) => destruct x
  | |- local _ _ _ _ _ (let _ := _ in _) => cbv zeta
  | |- local _ _ _ _ _ (when ?b _) => destruct b; cbn [when]
  | |- local _ _ _ _ _ (deref _ ?o) => destruct o; cbn [deref]
  | |- local _ _ _ _ _ (bug_on ?b) => destruct b; cbn [bug_on]
  | |- local _ _ _ _ _ (check_ptr _) => unfold check_ptr
  | |- local _ _ _ _ _ _ => first [apply local_write_page|apply local_log_write|apply local_get_page]
  end.

Lemma local_append_record t r : LOCAL any t (append_record sb r).
Proof.
  unfold append_record. apply (local_then any); [by apply local_kdo|]. intros t1 name _ _.
  apply (local_then any); [by destruct (negb _)|]. intros t2 [] _ _.
  apply (local_then (fun _ f => f = tr_lower_filep si)).
  { unfold fmap, prog_fmap. eapply local_bind; [apply local_sb_info|]. by intros t3 x _ [v ->]. }
  intros t3 f _ ->. cbv zeta. apply (local_then any); [by destruct (bool_decide _)|]. intros t4 [] _ _.
  apply (local_then (fun _ p => p = tr_page si)).
  { unfold TRFS_PAGE, fmap, prog_fmap. eapply local_bind; [apply local_sb_info|]. by intros t5 x _ [v ->]. }
  intros t5 p _ ->. unfold copy_record, append_aux. repeat local_step.
Qed.

Lemma local_fill_record t ty d fl pf err arg n r : LOCAL any t (fill_record ty d fl pf err arg n r).
Proof.
  unfold fill_record, fill_aux, fill_cleanup, SAFE_FREE_PAGE, c_strlen, atomic_inc_return_trecord_id.
  repeat local_step.
  all: intros m1 m2 H1 H2 E; unfold log_view in *; simpl in *; injection E as ? ? ? ? ?.
  all: split_and!; [congruence|congruence|by destruct H1|exact I].
Qed.

(** Where a logged operation finds its super block: what the thread has seen
    may be needed to tell. *)
Definition found (t : khist) (g : sb_source) : Prop :=
  sb_found w sb g \/
  exists d i, g = Of_dentry d /\ will_have w sb fresh d i /\ Ev (S := ksig) (load F_d_inode d) i ∈ t.

Lemma found_later t t' g : t `sublist_of` t' -> found t g -> found t' g.
Proof.
  intros Ht [Hg|(d & i & ? & ? & Hin)]; [by left|right]. exists d, i. split_and!; try done.
  revert Hin. by apply sublist_subseteq.
Qed.

Lemma local_sb_expr t g : found t g -> LOCAL (fun _ s => s = sb) t (sb_expr g).
Proof.
  intros Hg. destruct g as [i|d]; cbn [sb_expr].
  - destruct Hg as [[Hi <-]|(? & ? & ? & _)]; [|done]. unfold i_sb, ld. rewrite (check_good i) by done.
    split; [exact I|]. intros r (h & _ & [[Hr _] _] & _). apply Hr.
  - assert (Hd : good_ptr d) by (destruct Hg as [(? & _)|(? & ? & [= <-] & (? & _) & _)]; done).
    unfold dentry_sb, d_inode, ld. rewrite (check_good d) by done. split; [exact I|].
    intros r (h & Ht & [(Hpos & _) _] & Hst). simpl in Hpos, Hst.
    assert (Hr : good_ptr r /\ sb_of w r = sb).
    { destruct Hg as [(_ & Hp & E)|(d' & i & [= <-] & (_ & Hf & Hi & E) & Hin)].
      - destruct (Hpos Hp) as [-> ?]. by split.
      - destruct (Hst i Hf) as [_ Hone]. rewrite Hone; [by split|].
        revert Hin. by apply sublist_subseteq. }
    destruct Hr as [Hg' <-]. cbn -[local check_ptr]. rewrite (check_good r) by done. split; [exact I|].
    intros r' (h' & _ & [[Hr' _] _] & _). apply Hr'.
Qed.

Lemma section_log t g ty d fl pf err arg n :
  found t g ->
  section ok frame view returned t (log_locked (sb_expr g) ty d fl pf err arg n).
Proof.
  intros Hg. unfold log_locked. eapply section_bind; [by apply local_sb_expr|]. intros t1 s H1 ->.
  eapply section_bind; [apply local_sb_info|]. intros t2 x H2 _. cbv zeta.
  eapply section_bind; [apply local_fill_record|]. intros t3 [ret r] H3 _.
  assert (Hg3 : found t3 g) by (eapply found_later; [|exact Hg]; do 2 (etransitivity; [eassumption|]); done).
  eapply (section_bind _ _ _ any).
  { destruct (bool_decide _); cbn [when]; [|exact I]. eapply local_then; [by apply local_sb_expr|].
    intros t4 s H4 ->. apply (local_then any); [apply local_append_record|]. by intros. }
  intros t4 _ H4 _. eapply section_bind; [apply local_sb_expr; by eapply found_later|]. intros t5 s H5 ->.
  eapply section_bind; [apply local_TRFS_SB|]. intros t6 p H6 ->. rewrite check_good by done.
  intros r' _. exists (tt : unit). by destruct r'.
Qed.
End Locked.

(** ** Threads that serve requests *)

Section Serving.
Context (w : kworld) (sb lock : ptr) (si : trfs_sb_info) (fresh : ptr -> option ptr).
Context (Hsb : good_ptr sb) (Hlock : good_ptr lock).
Context (Hpage : good_ptr (tr_page si)) (Hlogf : good_ptr (tr_lower_filep si)).
Context (img : bytes) (reqs : list request).
Local Abbreviation ok := (serving_ok w (tr_page si) fresh).
Local Abbreviation frame := (one_mount sb lock si).
Local Abbreviation view := (log_view sb lock si).
Local Abbreviation seen := (log_hist lock si).
Local Abbreviation ASIDE := (aside ok lock frame view seen).
Local Abbreviation OUTER := (outer ok lock frame view seen).

Definition may (i : nat) (x : option action) : Prop :=
  exists r, reqs !! i = Some r /\ serves w r x.
Definition gives (i : nat) (x : option (option action)) (v : Z) : Prop :=
  exists r, reqs !! i = Some r /\ answers_with w r x v.

Local Abbreviation ENTERS :=
  (enters ok lock frame view seen (log_inv w sb lock si img) effect may gives).

(** Where the super block is found, if it is. *)
Definition findable (g : sb_source) : Prop :=
  sb_found w sb g \/ exists d i, g = Of_dentry d /\ will_have w sb fresh d i.

Lemma aside_sb_expr t g :
  findable g -> ASIDE (fun t' s => s = sb /\ found w sb fresh t' g) t (sb_expr g).
Proof.
  intros Hg. destruct g as [i|d]; cbn [sb_expr].
  - destruct Hg as [Hg|(? & ? & ? & _)]; [|done]. destruct Hg as [Hi E].
    unfold i_sb, ld. rewrite (check_good i) by done. left. split; [by apply plain_neutral|].
    intros r (h & _ & [[Hr _] _] & _). split; [|left; by split]. rewrite <- E. apply Hr.
  - assert (Hd : good_ptr d) by (destruct Hg as [(? & _)|(? & ? & [= <-] & ? & _)]; done).
    unfold dentry_sb, d_inode, ld. rewrite (check_good d) by done. left. split; [by apply plain_neutral|].
    intros r (h & Ht & [(Hpos & _ & Hnull) _] & Hst). simpl in Hpos, Hnull, Hst.
    cbn -[outer check_ptr]. destruct Hnull as [->|Hr]; [exact I|].
    assert (E : sb_of w r = sb).
    { destruct Hg as [(_ & Hp & E)|(d' & i & [= <-] & _ & Hf & _ & E)].
      - by destruct (Hpos Hp) as [-> _].
      - destruct (Hst i Hf) as [[->| ->] _]; [by destruct Hr|done]. }
    rewrite (check_good r) by done. left. split; [by apply plain_neutral|].
    intros r' (h' & _ & [[Hr' _] _] & _). split; [by rewrite <- E; apply Hr'|].
    destruct Hg as [Hg|(d' & i & [= <-] & Hw)]; [by left|right]. exists d, i. split_and!; try done.
    assert (r = i) as ->.
    { destruct Hw as (_ & Hf & _). destruct (Hst i Hf) as [[->| ->] _]; [by destruct Hr|done]. }
    apply elem_of_app. left. apply elem_of_app. right. by apply list_elem_of_singleton.
Qed.

#[local] Instance serving_spec : KernelSpec w ok.
Proof. constructor. by intros h e [[? _] _]. Qed.

(** The kernel once a dentry was seen to have an inode. *)
Definition pinned (d i : ptr) (h : khist) (e : event ksig) : Prop :=
  ok h e /\
  match e with
  | Ev c r => match c return kreply c -> Prop with
    | load F_d_inode d' => fun r => d' = d -> r = i
    | _ => fun _ => True
    end r
  end.

#[local] Instance pinned_spec d i : KernelSpec w (pinned d i).
Proof. constructor. by intros h e [[[? _] _] _]. Qed.

Lemma reads_pinned d i :
  good_ptr d -> good_ptr i -> sb_of w i = sb -> reads (pinned d i) (dentry_sb d) sb.
Proof.
  intros Hd Hi E B k Q m h Hk. unfold dentry_sb, d_inode. apply wp_assoc, wp_ld; [done|].
  intros r [_ Hr]. rewrite (Hr eq_refl). apply wp_i_sb with (w := w); [apply _|done|].
  rewrite E, <- app_assoc. apply Hk. by repeat constructor.
Qed.

Lemma wp_serving_log t g o (Q : outcome ksig unit -> Prop) a m h :
  found w sb fresh t g -> op_sound w o -> log_inv w sb lock si img a m h -> t `sublist_of` h ->
  (forall a' m' h', action_eff (Logs g o) a a' -> log_inv w sb lock si img a' m' h' -> Q (finished tt m' h')) ->
  wp ok (log_locked (sb_expr g) (rec_type_val (op_type o)) (op_dentry o) (op_flags o) (op_perm o)
    (op_err o) (op_arg o) (op_arg_len o)) Q m (h ++ [lock_event lock]).
Proof.
  intros Hg Ho HI Ht HQ. destruct Hg as [Hg|(d & i & -> & (Hd & Hf & Hi & E) & Hin)].
  - eapply wp_locked_log with (w := w); try done; [apply _|by intros ? ? [[_ ?] _]|].
    by apply reads_sb_expr with (w := w); [apply _|].
  - apply (wp_ok_from ok (pinned d i) t).
    + intros h' [c r] Ht' Hok. split; [done|]. destruct c; try done. destruct f; try done.
      intros ->. destruct Hok as [_ Hst]. destruct (Hst i Hf) as [_ Hone]. apply Hone.
      revert Hin. by apply sublist_subseteq.
    + etransitivity; [exact Ht|]. by apply sublist_inserts_r.
    + eapply wp_locked_log with (w := w); try done; [apply _|by intros ? ? [[[_ ?] _] _]|].
      by apply reads_pinned.
Qed.

Lemma aside_TRFS_SB t : ASIDE (fun _ p => p = lock) t (TRFS_SB sb).
Proof.
  unfold TRFS_SB, field_get. rewrite (check_good sb) by done. intros m Hm. split_and!; [done..|].
  by destruct Hm as [-> _].
Qed.

(** Logging, in front of what the handler does afterwards. *)
Lemma outer_log i r t g o (k : unit -> kprog Z) :
  reqs !! i = Some r -> serves w r (Some (Logs g o)) -> findable g -> op_sound w o ->
  (forall t' v, ASIDE (fun _ v => v = op_err o) t' (k v)) ->
  OUTER (ENTERS i) (fun _ v => gives i None v) t
    (log_op (sb_expr g) (rec_type_val (op_type o)) (op_dentry o) (op_flags o) (op_perm o)
      (op_err o) (op_arg o) (op_arg_len o) ≫= k).
Proof.
  intros Hi Hr Hg Ho Hk. unfold log_op. eapply outer_bind2; [by apply aside_sb_expr|].
  intros t1 s _ [-> Hf]. eapply outer_bind2; [apply aside_TRFS_SB|]. intros t2 p Ht2 ->. rewrite check_good by done. right. split; [done|]. intros [].
  exists (Some (Logs g o)). split; [by exists r|].
  assert (Hf2 : found w sb fresh t2 g) by (by eapply found_later). split.
  - apply (section_seq _ _ _ _ _ (log_locked _ _ _ _ _ _ _ _)); [by apply section_log|].
    intros t' v _. eapply outer_mono; [|apply Hk]. intros _ v' ->. by exists r.
  - intros a m h HI Hm Ht. eapply (until_seq _ _ _ _ _ (log_locked _ _ _ _ _ _ _ _)); [|exact Hm|by apply section_log|].
    { etransitivity; [exact Ht|]. by apply sublist_inserts_r. }
    eapply wp_serving_log; [done..|]. intros a' m' h' He Ha'. simpl. by exists a'.
Qed.

(** The handlers that log: what they do before, the log, and what they do after. *)
Lemma outer_then {T U} enter ret t (p : kprog U) (f : U -> kprog T) :
  stays_out w sb lock si fresh t p ->
  (forall t' v, outer ok lock frame view seen enter ret t' (f v)) ->
  outer ok lock frame view seen enter ret t (p ≫= f).
Proof. intros Hp Hf. eapply outer_bind; [exact Hp|]. auto. Qed.

Ltac lead := apply outer_then; [out|intros ? ?].
Ltac tail := cbv beta; repeat lead; reflexivity.

Lemma source_findable r g flags err o :
  request_op w r flags err = Some (g, o) -> source_ok w sb fresh r g -> findable g.
Proof.
  intros E Hs. destruct r; try discriminate E; try (by left).
  simpl in E, Hs. injection E as <- _. right. destruct Hs as [i Hi]. eauto.
Qed.

Lemma outer_logs i r t flags g o (k : unit -> kprog Z) :
  reqs !! i = Some r -> request_ok w sb fresh r -> request_op w r flags (op_err o) = Some (g, o) ->
  (forall t' v, ASIDE (fun _ v => v = op_err o) t' (k v)) ->
  OUTER (ENTERS i) (fun _ v => gives i None v) t
    (log_op (sb_expr g) (rec_type_val (op_type o)) (op_dentry o) (op_flags o) (op_perm o)
      (op_err o) (op_arg o) (op_arg_len o) ≫= k).
Proof.
  intros Hi Hr E Hk. destruct (Hr _ _ _ _ E) as [Hs Ho]. eapply outer_log; try done.
  - by exists flags, (op_err o).
  - by eapply source_findable.
Qed.

(** [f_path.dentry] of an open file. *)
Lemma aside_file_dentry t f : ASIDE (fun _ d => d = dentry_of w f) t (file_dentry f).
Proof.
  unfold file_dentry, ld, check_ptr. case_decide; [exact I|]. destruct (IS_ERR f); [exact I|].
  left. split; [by apply plain_neutral|]. intros r (h & _ & [[Hr _] _] & _). apply Hr.
Qed.

Ltac logs i flags :=
  cbv beta;
  lazymatch goal with
  | Hi : reqs !! i = Some ?r, Hr : request_ok _ _ _ ?r
    |- outer _ _ _ _ _ _ _ ?t (mbind ?k (log_op _ _ _ _ _ ?err _ _)) =>
      let ro := eval cbn [request_op] in (request_op w r flags err) in
      lazymatch ro with
      | Some (?g, ?o) => refine (outer_logs i r t flags g o k Hi Hr eq_refl _); intros ? ?
      end
  end.

Lemma outer_handler magic i r t :
  aloof r = false -> (forall f cmd arg, r <> Device f cmd arg) ->
  reqs !! i = Some r -> request_ok w sb fresh r ->
  OUTER (ENTERS i) (fun _ v => gives i None v) t (handle magic r).
Proof.
  intros Ha Hd Hi Hr. destruct r; try discriminate Ha; try (by edestruct Hd); cbn [handle];
    [unfold trfs_create|unfold trfs_link|unfold trfs_unlink|unfold trfs_symlink|unfold trfs_mkdir
    |unfold trfs_rmdir|unfold trfs_rename|unfold trfs_write].
  all: cbv zeta.
  - do 3 lead. logs i 0. tail.
  - do 6 lead. logs i 0. tail.
  - do 7 lead. logs i 0. tail.
  - do 3 lead. logs i 0. tail.
  - do 3 lead. logs i 0. tail.
  - do 3 lead. logs i 0. tail.
  - do 6 lead. logs i 0. tail.
  - eapply outer_bind; [apply aside_file_dentry|]. intros t1 d _ ->. unfold as_int. do 3 lead.
    apply outer_then; [out|]. intros t5 f_flags. logs i f_flags. tail.
Qed.

(** The control device: for another super block there is no private data. *)
Lemma aside_other_SB t sb' : sb' <> sb -> ASIDE (fun _ p => p = NULL) t (TRFS_SB sb').
Proof.
  intros Hne. unfold TRFS_SB, field_get, check_ptr.
  case_decide; [exact I|]. destruct (IS_ERR sb'); [exact I|]. intros m Hm. split_and!; [done..|].
  simpl. destruct (s_fs_info m !! sb') as [p|] eqn:E; [|done]. simpl.
  destruct (decide (p = NULL)) as [->|Hp]; [done|]. destruct Hne. by eapply Hm.
Qed.

Lemma local_set_mask t v :
  local ok frame view any t
    (set_sb_info sb (fun si => SbInfo (lower_sb si) (tr_lower_filep si) (tr_page si) v)).
Proof.
  unfold set_sb_info. eapply local_bind; [by apply local_TRFS_SB|]. intros t1 p _ ->.
  eapply local_bind; [by apply local_info|]. intros t2 x _ [v0 ->]. unfold heap_set.
  eapply local_bind; [by apply local_info|]. intros t3 x _ _. apply local_modify.
  - intros m1 m2 _ _ [= ? ? ? ? ?]. unfold log_view. simpl. rewrite !lookup_insert_eq. congruence.
  - intros m (? & _ & ?). split_and!; try done. exists v. simpl. apply lookup_insert_eq.
Qed.

Lemma section_unlock t : section ok frame view returned t (unlock_sb sb).
Proof.
  unfold unlock_sb. eapply section_bind; [by apply local_TRFS_SB|]. intros t1 p _ ->.
  rewrite check_good by done. intros r _. exists (tt : unit). by destruct r.
Qed.

Section Device.
Context (i : nat) (file cmd arg : Z).
Context (Hi : reqs !! i = Some (Device file cmd arg)).

Lemma device_gives x v : (forall g o, x <> Some (Some (Logs g o))) -> gives i x v.
Proof. intros Hx. exists (Device file cmd arg). split; [done|]. destruct x as [[[]|]|]; try done. by edestruct Hx. Qed.

Lemma aside_device x t (p : kprog Z) :
  (forall g o, x <> Some (Logs g o)) -> stays_out w sb lock si fresh t p ->
  ASIDE (fun _ v => gives i (Some x) v) t p.
Proof.
  intros Hx Hp. eapply aside_outer; [|exact Hp]. intros _ v _. apply device_gives.
  intros g o E. injection E as E. by apply (Hx g o).
Qed.

(** Setting the mask. *)
Lemma outer_store sb' v t (k : unit -> kprog Z) :
  cmd = TR_SET_BMAP -> (forall t', stays_out w sb lock si fresh t' (k tt)) ->
  OUTER (ENTERS i) (fun _ v => gives i None v) t (store_mask sb' v ≫= k).
Proof.
  intros Hc Hk. unfold store_mask, lock_sb. destruct (decide (sb' = sb)) as [->|Hne]; swap 1 2.
  { eapply outer_bind3; [by apply aside_other_SB|]. by intros t' p _ ->. }
  eapply outer_bind3; [by apply aside_TRFS_SB|]. intros t' p Ht ->. rewrite check_good by done.
  right. split; [done|]. intros [].
  set (q := set_sb_info sb (fun si => SbInfo (lower_sb si) (tr_lower_filep si) (tr_page si) v);; unlock_sb sb).
  assert (Hq : section ok frame view returned t' q).
  { unfold q. eapply section_bind; [apply local_set_mask|]. intros t1 _ _ _. apply section_unlock. }
  exists (Some (Masks v)). split; [exists (Device file cmd arg); split; [done|]; rewrite Hc; by exists file, arg|].
  split.
  - apply (section_seq _ _ _ _ _ q k Hq). intros t1 [] _. by apply aside_device.
  - intros a m h HI Hm Ht'. eapply (until_seq _ _ _ _ t' q k); [|exact Hm|exact Hq|].
    { etransitivity; [exact Ht'|]. by apply sublist_inserts_r. }
    pose proof HI as [_ _ _ [buf Hmt]]. unfold q. eapply wp_set_sb_info; [apply Hmt|]. apply wp_tail.
    eapply wp_unlock_sb; [by apply (masked_has_sb _ _ _ v), Hmt|]. rewrite <- app_assoc.
    eexists. split; [|by apply log_inv_set]. destruct a. constructor.
Qed.

(** Reading it. *)
Lemma outer_fetch sb' t (k : Z -> kprog Z) :
  cmd = TR_GET_BMAP -> (forall t' v, stays_out w sb lock si fresh t' (k v)) ->
  OUTER (ENTERS i) (fun _ v => gives i None v) t
    (lock_sb sb';; mask ← umask <$> sb_info sb'; unlock_sb sb';; k mask).
Proof.
  intros Hc Hk. unfold lock_sb. destruct (decide (sb' = sb)) as [->|Hne]; swap 1 2.
  { eapply outer_bind2; [by apply aside_other_SB|]. by intros t' p _ ->. }
  eapply outer_bind2; [by apply aside_TRFS_SB|]. intros t' p Ht ->. rewrite check_good by done.
  right. split; [done|]. intros [].
  assert (Hinfo : forall t, local ok frame view any t (umask <$> sb_info sb)).
  { intros t1. unfold fmap, prog_fmap. eapply local_bind; [by apply local_sb_info|]. by intros. }
  exists None. split; [exists (Device file cmd arg); split; [done|]; rewrite Hc; by exists file, arg|].
  split.
  - apply (section_bind _ _ _ any _ _ (umask <$> sb_info sb)); [apply Hinfo|]. intros t1 v _ _.
    apply (section_seq _ _ _ _ _ (unlock_sb sb)); [apply section_unlock|]. intros t2 u _. by apply aside_device.
  - intros a m h HI Hm Ht'. pose proof HI as [_ _ _ [buf Hmt]].
    apply (until_bind _ frame view (fun _ m' h' => m' = m /\ h' = h ++ [lock_event lock]) any _ t' (umask <$> sb_info sb));
      [apply Hinfo|etransitivity; [exact Ht'|by apply sublist_inserts_r]|exact Hm| |].
    { apply wp_tail, wp_fmap. eapply wp_sb_info; [apply Hmt|]. by split. }
    intros v m' h' [-> ->].
    apply (until_seq _ frame view _ [] (unlock_sb sb)); [apply sublist_nil_l|exact Hm|apply section_unlock|].
    apply wp_tail. eapply wp_unlock_sb; [apply Hmt|]. rewrite <- app_assoc. exists a. split; [done|].
    by apply log_inv_nothing.
Qed.

Lemma outer_with_mount t (k : tr_arg_t -> ptr -> ptr -> ptr -> kprog Z) :
  (forall t' x mp fl sb', OUTER (ENTERS i) (fun _ v => gives i None v) t' (k x mp fl sb')) ->
  OUTER (ENTERS i) (fun _ v => gives i None v) t (with_mount arg k).
Proof.
  intros Hk. unfold with_mount.
  assert (Hret : forall v, gives i None v) by (intros v; by apply device_gives).
  apply outer_then; [out|]. intros t1 [u [b mp]]. case_decide; [apply Hret|].
  apply outer_then; [out|]. intros t2 n. destruct (IS_ERR n); [apply Hret|].
  apply outer_then; [out|]. intros t3 _. apply outer_then; [out|]. intros t4 f.
  destruct (IS_ERR f). { apply outer_then; [out|]. intros t5 _. apply Hret. }
  apply outer_then; [out|]. intros t5 ino. apply outer_then; [out|]. intros t6 sb'.
  apply outer_then; [out|]. intros t7 _. apply outer_then; [out|]. intros t8 name.
  destruct (negb _); [apply Hret|apply Hk].
Qed.

Lemma outer_device t :
  OUTER (ENTERS i) (fun _ v => gives i None v) t (tr_ioctl file cmd arg).
Proof.
  unfold tr_ioctl. case_decide as Hg; [|case_decide as Hs].
  - unfold tr_get_bmap. apply outer_with_mount. intros t' x mp fl sb'. apply outer_fetch; [done|].
    intros t1 v. unfold sb_info, TRFS_SB. out.
  - unfold tr_set_bmap. apply outer_with_mount. intros t' x mp fl sb'. apply outer_store; [done|]. intros t1. out.
  - by apply device_gives.
Qed.
End Device.

(** Whatever is asked, the handler is a program of the kind that can run with others. *)
Lemma outer_request magic i r :
  reqs !! i = Some r -> request_ok w sb fresh r ->
  OUTER (ENTERS i) (fun _ v => gives i None v) [] (handle magic r).
Proof.
  intros Hi Hr. destruct (aloof r) eqn:Ha.
  - eapply aside_outer; [|by apply out_aloof]. intros _ v _. exists r. split; [done|]. by destruct r.
  - assert (Hd : (exists f c a, r = Device f c a) \/ forall f c a, r <> Device f c a)
      by (destruct r; try (by right); left; eauto).
    destruct Hd as [(f & c & a & ->)|Hd]; [by apply outer_device|by apply outer_handler].
Qed.
End Serving.
