(* ===== verification/RequestThms.v ===== *)
(** * Requests served at the same time

    Whatever requests a mounted file system serves at the same time, in
    whatever order their handlers take their steps: what reaches the log is one
    whole record per logged operation, in the order in which the handlers got
    the mutex, saying what the operation answered; and a replay performs these
    operations in that order. *)

From S2P Require Import Prelude Prog TrTypes Kernel TrfsH Lookup Trdump Inode FileOps Super Mount TrIoctl.
From S2P Require Import Ledger TrdumpSpec User UserSpec Treplay TreplaySpec LogThms ReplayThms EndToEnd.
From S2P Require Import HandlerSpec IoctlThms Demo Concur Actions Interleave Requests RequestSpec.

(** ** From threads to operations *)

Definition served (magic : Z) (reqs : list request) (m : kmem) (h : khist) : config Z :=
  Config (handle magic <$> reqs) m h.

(** The super block is the only one of the module. *)
Definition alone (sb : ptr) (m : kmem) : Prop :=
  forall sb' p, s_fs_info m !! sb' = Some p -> p <> NULL -> sb' = sb.

Lemma serial_effects (order : list (nat * option action)) a a' :
  serial (fun x => effect (snd x)) order a a' -> in_order (omap snd order) a a'.
Proof.
  induction 1 as [a|order [i [x|]] a a1 a2 _ IH Heff]; [constructor| |]; rewrite omap_app; simpl in *.
  - by econstructor.
  - subst. by rewrite app_nil_r.
Qed.

Section Served.
Context (w : kworld) (magic : Z) (sb lock : ptr) (si : trfs_sb_info) (fresh : ptr -> option ptr).
Context (pos : Z) (buf : bytes) (reqs : list request) (m : kmem) (h : khist).
Context (Hm : mounted w m sb lock si pos buf) (Halone : alone sb m).
Context (Hreqs : Forall (request_ok w sb fresh) reqs).
Context (Hpos : pos = Z.of_nat (length (log_image (tr_lower_filep si) h))).
Context (Hfree : net h (RMutex lock) = 0).
Local Abbreviation ok := (serving_ok w (tr_page si) fresh).
Local Abbreviation img := (log_image (tr_lower_filep si) h).

Lemma served_inter c :
  rtc (cstep ok) (served magic reqs m h) c ->
  is_inter ok lock (one_mount sb lock si) (log_view sb lock si) (log_hist lock si)
    (log_inv w sb lock si img) effect (may w reqs) (gives w reqs)
    (LState (umask si) (trecord_id m) []) c.
Proof.
  intros Hc. pose proof (mt_sb _ _ _ _ _ _ _ Hm) as (Hsb & Hfs & Hlock & Hinfo).
  assert (Hstart : is_inter ok lock (one_mount sb lock si) (log_view sb lock si) (log_hist lock si)
    (log_inv w sb lock si img) effect (may w reqs) (gives w reqs)
    (LState (umask si) (trecord_id m) []) (served magic reqs m h)).
  { apply inter_start.
    - constructor; try done; [by rewrite app_nil_r|]. exists buf. cbn [l_mask]. by rewrite <- Hpos, info_with_same.
    - split_and!; [done| |done]. exists (umask si). by rewrite info_with_same.
    - intros i p Hp. apply list_lookup_fmap_Some in Hp as (r & -> & Hr).
      rewrite Forall_lookup in Hreqs. eapply outer_request; try done; try apply Hm. by apply Hreqs with i. }
  eapply inter_steps; [..|exact Hstart|exact Hc].
  - by intros; eapply serving_ok_earlier.
  - by intros; eapply log_hist_snoc.
  - by intros; eapply log_hist_net.
  - by intros; eapply log_inv_view.
  - by intros a m' h' [].
Qed.

(** What the critical sections did so far, when none is under way. *)
Lemma served_effects c :
  rtc (cstep ok) (served magic reqs m h) c -> net (c_hist c) (RMutex lock) = 0 ->
  exists order a, NoDup order.*1 /\
    in_order (omap snd order) (LState (umask si) (trecord_id m) []) a /\
    log_inv w sb lock si img a (c_mem c) (c_hist c) /\
    (forall i x, (i, x) ∈ order -> exists r, reqs !! i = Some r /\ serves w r x) /\
    (forall i r v, reqs !! i = Some r -> c_threads c !! i = Some (Ret v) ->
       (exists x, (i, x) ∈ order /\ answers_with w r (Some x) v) \/
       ((i ∉ order.*1) /\ answers_with w r None v)).
Proof.
  intros Hc Hn. pose proof (served_inter c Hc) as Hinter.
  destruct (inter_free _ _ _ _ _ _ _ _ _ _ _ Hinter Hn) as (order & a & Hnd & Hs & Ha & Hal & Hret).
  exists order, a. split_and!; [done|by apply serial_effects|done|exact Hal|].
  intros i r v Hi Hv. destruct (Hret i v Hv) as [(x & Hx & r' & Hr' & Hans)|(Hni & r' & Hr' & Hans)];
    simplify_eq; eauto.
Qed.

(** When every handler has stopped, nobody holds the mutex. *)
Lemma served_idle c :
  rtc (cstep ok) (served magic reqs m h) c -> Forall stopped (c_threads c) ->
  net (c_hist c) (RMutex lock) = 0.
Proof.
  intros Hc Hst. destruct (decide (net (c_hist c) (RMutex lock) = 0)) as [|Hn]; [done|].
  edestruct (inter_busy ok) as (j & p & Hp & Hns); [|by apply served_inter|exact Hn|].
  { by intros a m' h' []. }
  rewrite Forall_lookup in Hst. destruct Hns. by eapply Hst.
Qed.
End Served.

Lemma served_length {ok} magic reqs m h c :
  rtc (cstep ok) (served magic reqs m h) c -> length (c_threads c) = length reqs.
Proof.
  intros Hc. transitivity (length (c_threads (served magic reqs m h))); [|by simpl; rewrite length_fmap].
  induction Hc as [|c1 c2 c3 Hs _ IH]; [done|]. rewrite IH. by destruct Hs; simpl; rewrite length_insert.
Qed.

(** ** The operations of requests that returned *)

(** The operation a logging request stands for, with its answer. *)
Definition op_for (w : kworld) (rv : request * Z) (o : op) : Prop :=
  exists flags g, request_op w (fst rv) flags (snd rv) = Some (g, o).

Definition logging (w : kworld) (rv : request * Z) : Prop := request_op w (fst rv) 0 0 <> None.

#[global] Instance logging_dec w rv : Decision (logging w rv).
Proof. unfold logging. apply _. Defined.

(** One operation per logging request, in the order of the requests. *)
Definition ops_of (w : kworld) (reqs : list request) (vs : list Z) (ops : list op) : Prop :=
  Forall2 (op_for w) (filter (logging w) (zip reqs vs)) ops.

Lemma ops_of_pick w (pick : nat -> option op) k reqs vs :
  length vs = length reqs ->
  (forall j r v, reqs !! j = Some r -> vs !! j = Some v ->
     match pick (k + j)%nat with
     | Some o => logging w (r, v) /\ op_for w (r, v) o
     | None => ~ logging w (r, v)
     end) ->
  ops_of w reqs vs (omap pick (seq k (length reqs))).
Proof.
  revert k vs. induction reqs as [|r reqs IH]; intros k [|v vs] Hl Hp; try discriminate Hl; [constructor|].
  cbn [length seq omap list_omap zip zip_with]. unfold ops_of. cbn [zip_with].
  specialize (IH (S k) vs ltac:(simpl in Hl; congruence)).
  assert (Htl : ops_of w reqs vs (omap pick (seq (S k) (length reqs)))).
  { apply IH. intros j r' v' Hr Hv. specialize (Hp (S j) r' v' Hr Hv). by rewrite Nat.add_succ_r in Hp. }
  specialize (Hp 0%nat r v eq_refl eq_refl). rewrite Nat.add_0_r in Hp. destruct (pick k) as [o|].
  - destruct Hp as [H1 H2]. rewrite filter_cons_True by done. by constructor.
  - by rewrite filter_cons_False.
Qed.

Lemma ops_of_length w reqs vs ops : ops_of w reqs vs ops -> (length ops <= length reqs)%nat.
Proof.
  intros H. rewrite <- (Forall2_length _ _ _ H). etransitivity; [apply length_filter|].
  rewrite length_zip. lia.
Qed.

(** Reading a list by its indices, in whatever order these come. *)
Lemma omap_permutation {A} (pick : nat -> option A) (js : list nat) n :
  NoDup js -> (forall i, i ∈ js -> (i < n)%nat) -> (forall i, i ∉ js -> pick i = None) ->
  omap pick js ≡ₚ omap pick (seq 0 n).
Proof.
  intros Hnd Hb Hno. destruct (submseteq_Permutation js (seq 0 n)) as [k Hk].
  { apply NoDup_submseteq; [done|]. intros i Hi. apply elem_of_seq. specialize (Hb i Hi). lia. }
  rewrite Hk, omap_app. assert (omap pick k = []) as ->; [|by rewrite app_nil_r].
  assert (Hk' : forall i, i ∈ k -> pick i = None).
  { intros i Hi. apply Hno. intros Hi'.
    assert (NoDup (js ++ k)) as (_ & Hd & _)%NoDup_app by (rewrite <- Hk; apply NoDup_seq).
    by apply (Hd i). }
  clear Hk. induction k as [|i k IH]; [done|]. simpl. rewrite Hk' by (by left). apply IH.
  intros j Hj. apply Hk'. by right.
Qed.

Lemma omap_order (order : list (nat * option action)) (pick : nat -> option op) :
  (forall i x, (i, x) ∈ order -> pick i = x ≫= action_op) ->
  omap pick order.*1 = omap action_op (omap snd order).
Proof.
  intros Hp. induction order as [|[i x] order IH]; [done|].
  assert (Hi : pick i = x ≫= action_op) by (apply Hp; by left).
  specialize (IH ltac:(intros j y Hj; apply Hp; by right)).
  csimpl. rewrite Hi. destruct x as [x|]; csimpl; rewrite IH; done.
Qed.

(** Each logging request took effect once, with what it returned. *)
Lemma returned_ops w reqs vs (order : list (nat * option action)) :
  length vs = length reqs -> NoDup order.*1 ->
  (forall i x, (i, x) ∈ order -> exists r, reqs !! i = Some r /\ serves w r x) ->
  (forall i r v, reqs !! i = Some r -> vs !! i = Some v ->
     (exists x, (i, x) ∈ order /\ answers_with w r (Some x) v) \/
     ((i ∉ order.*1) /\ answers_with w r None v)) ->
  exists ops, ops_of w reqs vs ops /\ omap action_op (omap snd order) ≡ₚ ops.
Proof.
  intros Hl Hnd Hserves Hans.
  set (pick := fun i => (list_to_map order : gmap nat (option action)) !! i ≫= (fun x => x ≫= action_op)).
  assert (Hin : forall i x, (i, x) ∈ order -> pick i = x ≫= action_op).
  { intros i x Hx. unfold pick. by rewrite (elem_of_list_to_map_1 order i x Hnd Hx). }
  assert (Hout : forall i, i ∉ order.*1 -> pick i = None).
  { intros i Hi. unfold pick. by rewrite (not_elem_of_list_to_map_1 order i Hi). }
  exists (omap pick (seq 0 (length reqs))). split.
  - apply ops_of_pick; [done|]. intros j r v Hr Hv. cbn [Nat.add].
    destruct (Hans j r v Hr Hv) as [(x & Hx & Hx')|[Hj Hn]].
    + rewrite (Hin j x Hx). destruct (Hserves j x Hx) as (r' & Hr' & Hs). simplify_eq.
      destruct x as [[g o|v']|]; simpl in *.
      * destruct Hs as (flags & err & E). assert (Hlog : forall f e, request_op w r f e <> None) by (by destruct r).
        split; [apply Hlog|]. assert (err = v) as ->.
        { subst v. destruct r; simpl in E; simplify_eq; done. }
        by exists flags, g.
      * destruct Hs as (f & a & ->). by intros [].
      * destruct Hs as (f & a & ->). by intros [].
    + rewrite (Hout j Hj). intros Hlog. by apply Hlog.
  - rewrite <- (omap_order _ pick Hin). apply omap_permutation; [done| |done].
    intros i Hi. apply list_elem_of_fmap in Hi as ([i' x] & -> & Hx). destruct (Hserves _ _ Hx) as (r & Hr & _).
    by eapply lookup_lt_Some.
Qed.

(** ** Theorems *)

(** C2: whatever requests are served at the same time -- any methods of the
    tables and commands of the control device -- and however their handlers
    interleave: whenever nobody is logging, the log holds, behind what it held
    before, one whole record per operation whose handler has logged, in some
    order of the handlers, filtered by the mask, which those that store one
    change in the same order, and numbered consecutively; and a logging handler
    that has returned is among them, with the answer it gave. *)
Theorem concurrent_requests w magic sb lock si fresh pos buf reqs m h c :
  mounted w m sb lock si pos buf -> alone sb m -> Forall (request_ok w sb fresh) reqs ->
  pos = Z.of_nat (length (log_image (tr_lower_filep si) h)) -> net h (RMutex lock) = 0 ->
  rtc (cstep (serving_ok w (tr_page si) fresh)) (served magic reqs m h) c ->
  net (c_hist c) (RMutex lock) = 0 ->
  exists order mask rs, NoDup order.*1 /\
    in_order (omap snd order) (LState (umask si) (trecord_id m) []) (LState mask (trecord_id (c_mem c)) rs) /\
    log_image (tr_lower_filep si) (c_hist c) = log_image (tr_lower_filep si) h ++ encodings rs /\
    (forall i x, (i, x) ∈ order -> exists r, reqs !! i = Some r /\ serves w r x) /\
    (forall i r v, reqs !! i = Some r -> c_threads c !! i = Some (Ret v) ->
       (exists x, (i, x) ∈ order /\ answers_with w r (Some x) v) \/
       ((i ∉ order.*1) /\ answers_with w r None v)).
Proof.
  intros Hm Ha Hreqs Hpos Hfree Hc Hn.
  destruct (served_effects w magic sb lock si fresh pos buf reqs m h Hm Ha Hreqs Hpos Hfree c Hc Hn)
    as (order & [mask id rs] & Hnd & Hio & [_ Hid Hlog _] & Hserves & Hans).
  simpl in *. exists order, mask, rs. rewrite Hid. by split_and!.
Qed.

(** C19: logging makes handlers wait, but never for good: as long as not every
    handler has stopped, one can go on, and no execution goes on for ever; and
    nobody stops, let alone dies, while holding the mutex: when it is held,
    some handler has not stopped. *)
Theorem requests_progress w (env : kenv) magic sb lock si fresh pos buf reqs m h :
  env_ok (serving_ok w (tr_page si) fresh) env ->
  mounted w m sb lock si pos buf -> alone sb m -> Forall (request_ok w sb fresh) reqs ->
  pos = Z.of_nat (length (log_image (tr_lower_filep si) h)) -> net h (RMutex lock) = 0 ->
  Acc (flip (cstep (serving_ok w (tr_page si) fresh))) (served magic reqs m h) /\
  forall c, rtc (cstep (serving_ok w (tr_page si) fresh)) (served magic reqs m h) c ->
    (Forall stopped (c_threads c) \/ exists c', cstep (serving_ok w (tr_page si) fresh) c c') /\
    (Forall stopped (c_threads c) -> net (c_hist c) (RMutex lock) = 0).
Proof.
  intros Henv Hm Ha Hreqs Hpos Hfree. split; [apply steps_finite|]. intros c Hc. split.
  - eapply inter_progress; [| |by eapply served_inter].
    + by intros a m' h' [].
    + intros h' a. exists (env h' a). apply Henv.
  - by eapply served_idle.
Qed.

(** C3: the log that handlers left which ran at the same time can be replayed.
    If the mask selects the operation of every request, none of the requests is a
    command that changes the mask ([TR_SET_BMAP]), and every request was
    answered, then the log, which was empty, holds one record for each operation, in
    some order, numbered consecutively; and [treplay] without options, given
    that log, if it is of at most 16 KiB, performs the operations, each once, in
    that order.  (Data fits its record, and paths fit the tool's buffers below its
    directory; kernel and tool have memory, and system calls that read succeed.) *)
Theorem requests_replay w magic sb lock si fresh buf reqs m h c vs cwd fuel name :
  mounted w m sb lock si 0 buf -> alone sb m -> Forall (request_ok w sb fresh) reqs ->
  (forall r, r ∈ reqs -> forall flags err g o, request_op w r flags err = Some (g, o) ->
     op_ok w (umask si) o /\ op_reaches cwd o) ->
  (forall f arg, Device f TR_SET_BMAP arg ∉ reqs) ->
  log_image (tr_lower_filep si) h = [] -> net h (RMutex lock) = 0 ->
  Forall is_char cwd -> (length reqs < fuel)%nat ->
  rtc (cstep (serving_ok w (tr_page si) fresh)) (served magic reqs m h) c ->
  c_threads c = Ret <$> vs ->
  let log := log_image (tr_lower_filep si) (c_hist c) in
  exists ops ops' rs, ops_of w reqs vs ops' /\ (ops ≡ₚ ops') /\
    logged_as (trecord_id m) ops rs /\ log = encodings rs /\
    (forall ue, Z.of_nat (length log) <= CHUNK_SIZE -> env_ok (user_ok (UWorld cwd log)) ue ->
     run_shows name (run ue (treplay_main false false fuel [] (Some name)) ∅ [])
       (fun t => exists ts, t = concat ts /\
          Forall2 (fun r t => exists ok, replays false cwd r t ok) rs ts)).
Proof.
  intros Hm Ha Hreqs Hops Hdev Hlog Hfree Hcwd Hfuel Hc Hd log.
  assert (Hpos : 0 = Z.of_nat (length (log_image (tr_lower_filep si) h))) by (by rewrite Hlog).
  assert (Hlen : length vs = length reqs).
  { pose proof (served_length _ _ _ _ _ Hc) as Hl. by rewrite Hd, length_fmap in Hl. }
  assert (Hn : net (c_hist c) (RMutex lock) = 0).
  { eapply served_idle; [done..|]. rewrite Hd. apply Forall_fmap, Forall_true. intros v. left. by exists v. }
  destruct (served_effects w magic sb lock si fresh 0 buf reqs m h Hm Ha Hreqs Hpos Hfree c Hc Hn)
    as (order & a & Hnd & Hio & [_ _ Himg _] & Hserves & Hans).
  destruct (returned_ops w reqs vs order Hlen Hnd Hserves) as (ops' & Hops' & Hperm).
  { intros i r v Hr Hv. apply Hans; [done|]. rewrite Hd, list_lookup_fmap, Hv. done. }
  assert (Hys : Forall (fun x => exists o, action_op x = Some o /\ op_ok w (umask si) o /\ op_reaches cwd o)
    (omap snd order)).
  { apply Forall_forall. intros x Hx. apply list_elem_of_omap in Hx as ([i y] & Hy & Hxy). simpl in Hxy. subst y.
    destruct (Hserves _ _ Hy) as (r & Hr & Hs). apply list_elem_of_lookup_2 in Hr. destruct x as [g o|v].
    - destruct Hs as (flags & err & E). exists o. split; [done|]. by eapply Hops.
    - destruct Hs as (f & arg & ->). by apply Hdev in Hr. }
  assert (Hboth : Forall (op_ok w (umask si)) (omap action_op (omap snd order)) /\
    Forall (op_reaches cwd) (omap action_op (omap snd order))).
  { split; apply Forall_forall; intros o Ho; apply list_elem_of_omap in Ho as (x & Hx & E);
      rewrite Forall_forall in Hys; destruct (Hys x Hx) as (o' & E' & ? & ?); by simplify_eq. }
  destruct Hboth as [Hok Hreach]. apply (in_order_logged w) in Hio as (rs & -> & Hrs); swap 1 2.
  { eapply Forall_impl; [exact Hys|]. intros x (o & ? & ? & _). by exists o. }
  rewrite Hlog in Himg. simpl in Himg. exists (omap action_op (omap snd order)), ops', rs.
  split_and!; try done. unfold log. rewrite Himg. intros ue Hchunk Henv.
  eapply (replay_logged w (umask si)); try done. apply Nat.le_lt_trans with (length reqs); [|done].
  rewrite Hperm. by eapply ops_of_length.
Qed.

(** ** At a concrete kernel *)

Definition busy_lower (c : kfun) : Z :=
  match c with
  | filp_open _ _ _ | getname_kernel _ => 60
  | iget5_locked _ _ _ => 61
  | vfs_write _ _ _ _ => 2
  | _ => 0
  end.

(** Two directories' worth of work, and the mask set meanwhile. *)
Definition busy_writers : list request :=
  [Mkdir demo_dir demo_dentry 493; Symlink demo_dir demo_dentry (Buffer 8200 (lit "t"));
   Getattr 0 demo_dentry 90; Write 40 (Buffer 8192 (lit "hi")) 2 0].
Definition busy_requests : list request := Device 0 TR_SET_BMAP 7 :: busy_writers.

Definition demo_fresh (d : ptr) : option ptr := if decide (d = demo_dentry) then Some 21 else None.

(** The handlers take turns. *)
Definition busy (reqs : list request) : config Z :=
  schedule (demo_env busy_lower) (concat (replicate 200 (seq 0 (length reqs))))
    (served 0 reqs (demo_mem umask_all) []).

Lemma busy_env_ok : env_ok (serving_ok demo_world demo_buf demo_fresh) (demo_env busy_lower).
Proof.
  intros h c. split; [apply demo_env_ok|]. destruct c; try done. destruct f; try done.
  simpl. intros i Hi. unfold demo_fresh in Hi. case_decide; [|done].
  simplify_eq. rewrite decide_True by (by right). split; [by right|done].
Qed.

Lemma busy_steps reqs :
  rtc (cstep (serving_ok demo_world demo_buf demo_fresh)) (served 0 reqs (demo_mem umask_all) []) (busy reqs).
Proof. apply schedule_steps, busy_env_ok. Qed.

Lemma busy_sound r flags err g o :
  r ∈ busy_writers -> request_op demo_world r flags err = Some (g, o) ->
  source_ok demo_world demo_sb demo_fresh r g /\ op_ok demo_world umask_all o /\ op_reaches (lit "/mnt") o.
Proof.
  intros Hr E. unfold busy_writers in Hr. repeat (apply elem_of_cons in Hr as [->|Hr]); [..|by apply not_elem_of_nil in Hr];
    simpl in E; simplify_eq; (split; [|split]).
  all: try (constructor; try done; by vm_compute).
  all: try (repeat constructor; unfold BUFFER_SIZE; simpl; lia).
  exists 21. by split_and!.
Qed.

Lemma busy_ok : Forall (request_ok demo_world demo_sb demo_fresh) busy_requests.
Proof.
  apply Forall_cons. split; [by intros ? ? ? ?|]. apply Forall_forall. intros r Hr flags err g o E.
  destruct (busy_sound r flags err g o Hr E) as (Hs & [] & _). split; [done|]. by split_and!.
Qed.

Lemma demo_alone mask : alone demo_sb (demo_mem mask).
Proof. intros sb' p Hp _. simpl in Hp. by apply lookup_singleton_Some in Hp as [<- _]. Qed.

Lemma concurrent_requests_witness :
  Forall stopped (c_threads (busy busy_requests)) /\ net (c_hist (busy busy_requests)) (RMutex demo_info) = 0 /\
  exists order mask rs, NoDup order.*1 /\
    in_order (omap snd order) (LState umask_all (-1) [])
      (LState mask (trecord_id (c_mem (busy busy_requests))) rs) /\
    log_image demo_log (c_hist (busy busy_requests)) = [] ++ encodings rs /\
    (forall i x, (i, x) ∈ order -> exists r, busy_requests !! i = Some r /\ serves demo_world r x) /\
    (forall i r v, busy_requests !! i = Some r -> c_threads (busy busy_requests) !! i = Some (Ret v) ->
       (exists x, (i, x) ∈ order /\ answers_with demo_world r (Some x) v) \/
       ((i ∉ order.*1) /\ answers_with demo_world r None v)).
Proof.
  split.
  { replace (c_threads (busy busy_requests)) with (Ret (S := ksig) <$> [0; 0; 0; 0; 2]) by (by vm_compute).
    apply Forall_fmap, Forall_true. intros v. left. by exists v. }
  split; [by vm_compute|].
  apply (concurrent_requests demo_world 0 demo_sb demo_info (demo_si umask_all) demo_fresh 0
    (replicate (Z.to_nat (sizeof_tr_record + PAGE_SIZE)) 0) busy_requests (demo_mem umask_all) []);
    [apply demo_mounted|apply demo_alone|apply busy_ok|done|done|apply busy_steps|by vm_compute].
Defined.

Lemma requests_progress_witness :
  Acc (flip (cstep (serving_ok demo_world demo_buf demo_fresh))) (served 0 busy_requests (demo_mem umask_all) []) /\
  forall c, rtc (cstep (serving_ok demo_world demo_buf demo_fresh))
      (served 0 busy_requests (demo_mem umask_all) []) c ->
    (Forall stopped (c_threads c) \/ exists c', cstep (serving_ok demo_world demo_buf demo_fresh) c c') /\
    (Forall stopped (c_threads c) -> net (c_hist c) (RMutex demo_info) = 0).
Proof.
  apply (requests_progress demo_world (demo_env busy_lower) 0 demo_sb demo_info (demo_si umask_all) demo_fresh 0
    (replicate (Z.to_nat (sizeof_tr_record + PAGE_SIZE)) 0));
    [apply busy_env_ok|apply demo_mounted|apply demo_alone|apply busy_ok|done|done].
Defined.

Lemma requests_replay_witness :
  let log := log_image demo_log (c_hist (busy busy_writers)) in
  exists ops ops' rs, ops_of demo_world busy_writers [0; 0; 0; 2] ops' /\ (ops ≡ₚ ops') /\
    logged_as (-1) ops rs /\ log = encodings rs /\
    (forall ue, Z.of_nat (length log) <= CHUNK_SIZE -> env_ok (user_ok (UWorld (lit "/mnt") log)) ue ->
     run_shows (lit "trace") (run ue (treplay_main false false 5 [] (Some (lit "trace"))) ∅ [])
       (fun t => exists ts, t = concat ts /\
          Forall2 (fun r t => exists ok, replays false (lit "/mnt") r t ok) rs ts)).
Proof.
  apply (requests_replay demo_world 0 demo_sb demo_info (demo_si umask_all) demo_fresh
    (replicate (Z.to_nat (sizeof_tr_record + PAGE_SIZE)) 0) busy_writers (demo_mem umask_all) []
    (busy busy_writers)).
  - apply demo_mounted.
  - apply demo_alone.
  - pose proof busy_ok as H. by apply Forall_cons in H as [_ H].
  - intros r Hr flags err g o E. by destruct (busy_sound r flags err g o Hr E) as (_ & ? & ?).
  - intros f arg H. unfold busy_writers in H. repeat (apply elem_of_cons in H as [?|H]; [done|]). by apply not_elem_of_nil in H.
  - done.
  - done.
  - repeat constructor; unfold is_char; lia.
  - simpl. lia.
  - apply busy_steps.
  - by vm_compute.
Defined.
