(* ===== verification/Live.v ===== *)
(** * What the VFS holds

    The private data of the module, seen from outside: which dentries have been
    looked up and not released, and to which lower path each is bound; which
    files are open, and on which lower file; which inodes and link targets the
    VFS was handed ([live]).  [represents] says that the
    module's memory is this state and no more: no private data is lost, none is
    shared; [books] that the references the module holds are the ones this
    state accounts for. *)

From S2P Require Import Prelude Prog TrTypes Kernel TrfsH Lookup Ledger Trdump TrdumpSpec Inode FileOps.
From S2P Require Import HandlerSpec HandlerThms IoctlThms MountThms LookupThms FileThms.

(** A dentry's private data, and its lower path; a file's, and its lower file. *)
Record live := Live {
  dentries : gmap Z (ptr * path);
  files : gmap Z (ptr * ptr);
  objects : gset Z;  (* inodes and link targets that the VFS was given *)
}.

Definition nothing_live : live := Live ∅ ∅ ∅.

(** The references each accounts for. *)
Definition dentry_refs (e : ptr * path) : list resource :=
  [RDentry (p_dentry e.2); RMnt (p_mnt e.2); RMem e.1].
Definition file_refs (e : ptr * ptr) : list resource := [RMem e.1; RFile e.2].

(** ** Counting over a map *)

Lemma takes_nonneg l x : 0 <= takes l x.
Proof.
  unfold takes. induction l as [|r l IH]; [done|]. cbn -[hits]. unfold hits in *.
  case_decide; simpl; lia.
Qed.

Lemma takes_in l x : x ∈ l -> 1 <= takes l x.
Proof.
  induction l as [|r l IH]; [by intros ?%elem_of_nil|]. pose proof (takes_nonneg l x) as H.
  unfold takes in *. cbn -[hits]. intros [->|Hx]%elem_of_cons.
  - rewrite hits_refl. lia.
  - unfold hits. case_decide; specialize (IH Hx); lia.
Qed.

Section Total.
Context {V : Type} (refs : V -> list resource) (x : resource).

Definition total (s : gmap Z V) : Z := map_fold (fun _ v n => takes (refs v) x + n) 0 s.

Lemma total_empty : total ∅ = 0.
Proof. apply map_fold_empty. Qed.

Lemma total_insert s k v : s !! k = None -> total (<[k := v]> s) = takes (refs v) x + total s.
Proof. intros Hk. unfold total. rewrite (map_fold_insert_L _ _ k v); [done| |done]. intros. lia. Qed.

Lemma total_delete s k v : s !! k = Some v -> total s = takes (refs v) x + total (delete k s).
Proof.
  intros Hk. rewrite <- (total_insert (delete k s) k) by apply lookup_delete_eq. by rewrite insert_delete_id.
Qed.

Lemma total_nonneg s : 0 <= total s.
Proof.
  induction s as [|k v s Hk IH] using map_ind; [by rewrite total_empty|].
  rewrite total_insert by done. pose proof (takes_nonneg (refs v) x). lia.
Qed.

Lemma total_in s k v : s !! k = Some v -> takes (refs v) x <= total s.
Proof. intros Hk. rewrite (total_delete _ _ _ Hk). pose proof (total_nonneg (delete k s)). lia. Qed.
End Total.

Definition counted (o : gset Z) (x : resource) : Z :=
  match x with RMem p => if decide (p ∈ o) then 1 else 0 | _ => 0 end.

Lemma counted_nonneg o x : 0 <= counted o x.
Proof. destruct x; simpl; try done. by case_decide. Qed.

Lemma counted_empty x : counted ∅ x = 0.
Proof. by destruct x. Qed.

Lemma counted_add o p x : p ∉ o -> counted (o ∪ {[p]}) x = counted o x + takes [RMem p] x.
Proof.
  intros Hp. unfold takes. destruct x as [| | | | | | | | | |q| | | | | | |]; simpl; rewrite ?(hits_ne _ (RMem p)) by done; try lia.
  destruct (decide (q = p)) as [->|Hne].
  - rewrite decide_True, decide_False, hits_refl by set_solver. lia.
  - rewrite hits_ne by congruence. destruct (decide (q ∈ o)); [rewrite decide_True by set_solver|rewrite decide_False by set_solver]; lia.
Qed.

Lemma counted_remove o p x : p ∈ o -> counted o x = counted (o ∖ {[p]}) x + takes [RMem p] x.
Proof.
  intros Hp. rewrite <- counted_add by set_solver. f_equal. apply leibniz_equiv.
  intros q. destruct (decide (q = p)); set_solver.
Qed.

Definition held (a : live) (x : resource) : Z :=
  total dentry_refs x (dentries a) + total file_refs x (files a) + counted (objects a) x.

(** ** The module's memory *)

(** Each dentry of [s] has private data of its own, with its lower path; no other
    dentry has any, and no private data belongs to no dentry. *)
Record dentries_match (s : gmap Z (ptr * path)) (m : kmem) : Prop := {
  dm_some d e : s !! d = Some e -> has_lower m d e.1 e.2;
  dm_none d : s !! d = None -> default NULL (d_fsdata m !! d) = NULL;
  dm_own d1 d2 e1 e2 : s !! d1 = Some e1 -> s !! d2 = Some e2 -> e1.1 = e2.1 -> d1 = d2;
  dm_all info lp : dentry_infos m !! info = Some lp -> exists d, s !! d = Some (info, lp);
}.

(** The same for open files; a file that is not open may keep a stale pointer. *)
Record files_match (s : gmap Z (ptr * ptr)) (m : kmem) : Prop := {
  fm_some f e : s !! f = Some e -> exists ops, has_file m f e.1 (FileInfo e.2 ops);
  fm_own f1 f2 e1 e2 : s !! f1 = Some e1 -> s !! f2 = Some e2 -> e1.1 = e2.1 -> f1 = f2;
  fm_all p fi : file_infos m !! p = Some fi -> exists f, s !! f = Some (p, lower_file fi);
}.

(** A dentry gets private data. *)
Lemma dentries_match_given s m m' d info lp :
  s !! d = None -> dentry_infos m !! info = None ->
  has_lower m' d info lp -> given m m' d info lp ->
  dentries_match s m -> dentries_match (<[d := (info, lp)]> s) m'.
Proof.
  intros Hd Hi Hlow [G1 G2 G3 G4] Hm.
  assert (Hown : forall d' e, s !! d' = Some e -> e.1 <> info).
  { intros d' e He <-. apply (dm_some _ _ Hm) in He as (_ & _ & _ & He). congruence. }
  constructor.
  - intros d' e [[<- <-]|[Hne He]]%lookup_insert_Some; [done|].
    pose proof (Hown _ _ He). apply (dm_some _ _ Hm) in He as (? & ? & ? & ?).
    split_and!; try done; [by rewrite G1, lookup_insert_ne|by rewrite G2, lookup_insert_ne].
  - intros d' [Hn Hne]%lookup_insert_None. rewrite G1, lookup_insert_ne by done.
    by apply (dm_none _ _ Hm).
  - intros d1 d2 e1 e2 [[<- <-]|[? H1]]%lookup_insert_Some [[<- <-]|[? H2]]%lookup_insert_Some E;
      [done|by apply Hown in H2|by apply Hown in H1|by eapply (dm_own _ _ Hm)].
  - intros i lp'. rewrite G2. intros [[<- <-]|[Hne He]]%lookup_insert_Some.
    + exists d. apply lookup_insert_eq.
    + apply (dm_all _ _ Hm) in He as [d' Hd']. exists d'.
      rewrite lookup_insert_ne; [done|]. intros ->. congruence.
Qed.

Record represents (a : live) (m : kmem) : Prop := {
  rp_dentries : dentries_match (dentries a) m;
  rp_files : files_match (files a) m;
}.

Lemma dentries_match_same s m m' :
  d_fsdata m' = d_fsdata m -> dentry_infos m' = dentry_infos m ->
  dentries_match s m -> dentries_match s m'.
Proof.
  intros E1 E2 Hm. constructor.
  - intros d e He. apply (dm_some _ _ Hm) in He. unfold has_lower in *. by rewrite E1, E2.
  - intros d Hd. rewrite E1. by apply (dm_none _ _ Hm).
  - apply (dm_own _ _ Hm).
  - rewrite E2. apply (dm_all _ _ Hm).
Qed.

(** Of the pointers in files, only those of open files matter. *)
Lemma files_match_same s m m' :
  (forall f, is_Some (s !! f) -> private_data m' !! f = private_data m !! f) ->
  lower_file <$> file_infos m' = lower_file <$> file_infos m ->
  files_match s m -> files_match s m'.
Proof.
  intros E1 E2 Hm. constructor.
  - intros f e He. pose proof He as (ops & (? & ? & ? & Hfi) & ?)%(fm_some _ _ Hm).
    assert (E : (lower_file <$> file_infos m') !! e.1 = Some e.2) by (by rewrite E2, lookup_fmap, Hfi).
    rewrite lookup_fmap in E. destruct (file_infos m' !! e.1) as [[lf ops']|] eqn:E'; [|done].
    injection E as ->. exists ops'. split; [|done]. split_and!; try done. by rewrite E1 by eauto.
  - apply (fm_own _ _ Hm).
  - intros p fi Hp. assert (E : (lower_file <$> file_infos m) !! p = Some (lower_file fi))
      by (by rewrite <- E2, lookup_fmap, Hp).
    rewrite lookup_fmap in E. destruct (file_infos m !! p) as [fi'|] eqn:E'; [|done].
    injection E as <-. by apply (fm_all _ _ Hm).
Qed.

Lemma represents_same a m m' : same_private m m' -> represents a m -> represents a m'.
Proof.
  intros [S1 S2 S3 S4] [Hm Hfm]. split; [by eapply dentries_match_same|].
  eapply files_match_same; [by rewrite S3|done..].
Qed.

(** What is held besides, by the mount and by others, does not change. *)
Record books (base : resource -> Z) (a : live) (m : kmem) (h : khist) : Prop := {
  bk_memory : represents a m;
  bk_base p : 0 <= base (RMem p);
  bk_net x : tracked x -> net h x = base x + held a x;
}.

(** ** What the VFS can do to it *)

Definition bind_dentry (d info : ptr) (lp : path) (a : live) : live :=
  Live (<[d := (info, lp)]> (dentries a)) (files a) (objects a).
Definition drop_dentry (d : ptr) (a : live) : live := Live (delete d (dentries a)) (files a) (objects a).
Definition open_file (f p lf : ptr) (a : live) : live :=
  Live (dentries a) (<[f := (p, lf)]> (files a)) (objects a).
Definition close_file (f : ptr) (a : live) : live := Live (dentries a) (delete f (files a)) (objects a).
Definition give_object (p : ptr) (a : live) : live := Live (dentries a) (files a) (objects a ∪ {[p]}).
Definition take_object (p : ptr) (a : live) : live := Live (dentries a) (files a) (objects a ∖ {[p]}).

(** ** Objects that are in use are not handed out again *)

Definition careful_alloc (env : kenv) : Prop :=
  forall h c p, allocated (KEv c (env h c)) = Some p -> p <> NULL -> net h (RMem p) <= 0.

Lemma allocates_careful env h tr p :
  careful_alloc env -> answered env h tr -> allocates tr p -> p <> NULL -> net h (RMem p) <= 0.
Proof.
  intros Hc Ha (t & [c r] & u & -> & Hal & Ht) Hp. specialize (Ha t _ u eq_refl). simpl in Ha. subst r.
  specialize (Hc _ _ _ Hal Hp). rewrite net_app in Hc. lia.
Qed.

Section Books.
Context (base : resource -> Z) (a : live) (m : kmem) (h : khist) (Hb : books base a m h).

Lemma held_dentry d info lp : dentries a !! d = Some (info, lp) -> 1 <= held a (RMem info).
Proof.
  intros Hd. unfold held. pose proof (total_in dentry_refs (RMem info) _ _ _ Hd).
  pose proof (total_nonneg file_refs (RMem info) (files a)). pose proof (counted_nonneg (objects a) (RMem info)).
  pose proof (takes_in (dentry_refs (info, lp)) (RMem info)) as Hi. simpl in *.
  enough (1 <= takes (dentry_refs (info, lp)) (RMem info)) by lia. apply Hi. set_solver.
Qed.

Lemma held_file f p lf : files a !! f = Some (p, lf) -> 1 <= held a (RMem p).
Proof.
  intros Hf. unfold held. pose proof (total_in file_refs (RMem p) _ _ _ Hf).
  pose proof (total_nonneg dentry_refs (RMem p) (dentries a)). pose proof (counted_nonneg (objects a) (RMem p)).
  enough (1 <= takes (file_refs (p, lf)) (RMem p)) by lia. apply takes_in. set_solver.
Qed.

Lemma held_object p : p ∈ objects a -> 1 <= held a (RMem p).
Proof.
  intros Hp. unfold held. pose proof (total_nonneg dentry_refs (RMem p) (dentries a)).
  pose proof (total_nonneg file_refs (RMem p) (files a)). simpl. rewrite decide_True by done. lia.
Qed.

Lemma books_fresh env tr p :
  careful_alloc env -> answered env h tr -> allocates tr p -> good_ptr p ->
  dentry_infos m !! p = None /\ file_infos m !! p = None /\ p ∉ objects a.
Proof.
  intros Hc Han Hal Hp. pose proof (allocates_careful _ _ _ _ Hc Han Hal (good_ptr_nonnull _ Hp)) as Hn.
  destruct Hb as [Hm Hbase Hnet]. rewrite Hnet in Hn by done. specialize (Hbase p).
  split_and!; [apply eq_None_not_Some; intros [v Hv]..|].
  - apply (dm_all _ _ (rp_dentries _ _ Hm)) in Hv as [d Hd]. apply held_dentry in Hd. lia.
  - apply (fm_all _ _ (rp_files _ _ Hm)) in Hv as [f Hf]. apply held_file in Hf. lia.
  - intros Hp'%held_object. lia.
Qed.

(** A dentry gets private data. *)
Lemma books_bind m' tr d info lp :
  dentries a !! d = None -> dentry_infos m !! info = None ->
  has_lower m' d info lp -> given m m' d info lp ->
  keeps tr [RDentry (p_dentry lp); RMnt (p_mnt lp); RMem info] ->
  books base (bind_dentry d info lp a) m' (h ++ tr).
Proof.
  intros Hd Hi Hlow Hg Hk. destruct Hb as [[Hm Hfm] Hbase Hnet]. split; [split|done|]; simpl.
  - by eapply dentries_match_given.
  - destruct Hg as [_ _ G3 G4]. eapply files_match_same; [by rewrite G3|by rewrite G4|done].
  - intros x Hx. rewrite net_app, Hnet, (Hk x Hx) by done. unfold held, bind_dentry. simpl.
    rewrite (total_insert _ _ _ d) by done. unfold dentry_refs. simpl. lia.
Qed.

(** A dentry is let go. *)
Lemma books_drop c d info lp :
  dentries a !! d = Some (info, lp) ->
  books base (drop_dentry d a) (released m d info) (h ++ d_release_trace c info lp).
Proof.
  intros Hd. destruct Hb as [[Hm Hfm] Hbase Hnet].
  pose proof (dm_some _ _ Hm _ _ Hd) as (Hgd & Hfs & Hgi & Hlp). simpl in *.
  split; [split|done|]; simpl.
  - constructor; simpl.
    + intros d' e [Hne He]%lookup_delete_Some.
      pose proof (dm_some _ _ Hm _ _ He) as (? & ? & ? & ?). unfold has_lower. simpl.
      rewrite lookup_insert_ne, lookup_delete_ne, lookup_insert_ne; try done;
        intros ->; apply Hne; by eapply (dm_own _ _ Hm).
    + intros d' Hn. destruct (decide (d = d')) as [<-|Hne]; [by rewrite lookup_insert_eq|].
      rewrite lookup_insert_ne by done. rewrite lookup_delete_ne in Hn by done.
      by apply (dm_none _ _ Hm).
    + intros d1 d2 e1 e2 [_ H1]%lookup_delete_Some [_ H2]%lookup_delete_Some.
      by eapply (dm_own _ _ Hm).
    + intros i lp' [Hne Hi]%lookup_delete_Some. rewrite lookup_insert_ne in Hi by done.
      apply (dm_all _ _ Hm) in Hi as [d' Hd']. exists d'.
      rewrite lookup_delete_ne; [done|]. intros <-. congruence.
  - eapply files_match_same; [..|exact Hfm]; done.
  - intros x Hx. rewrite net_app, Hnet by done. unfold held, drop_dentry. simpl.
    rewrite (total_delete _ _ _ _ _ Hd). unfold takes, dentry_refs. simpl.
    rewrite (good_ptr_nonnullb info) by done. simpl. lia.
Qed.

(** A file is opened.  Nobody knows it yet: what it points to before is stale. *)
Lemma books_open m' tr f p lf :
  files a !! f = None -> file_infos m !! p = None ->
  has_file m' f p (FileInfo lf NULL) -> opened m m' f p lf -> keeps tr [RMem p; RFile lf] ->
  books base (open_file f p lf a) m' (h ++ tr).
Proof.
  intros Hf Hp Hfile [O1 O2 O3 O4] Hk. destruct Hb as [[Hm Hfm] Hbase Hnet]. split; [split|done|]; simpl.
  - by eapply dentries_match_same.
  - assert (Hown : forall f' e, files a !! f' = Some e -> e.1 <> p).
    { intros f' e He <-. apply (fm_some _ _ Hfm) in He as (? & (_ & _ & _ & He) & _). congruence. }
    constructor.
    + intros f' e [[<- <-]|[Hne He]]%lookup_insert_Some; [by exists NULL|].
      pose proof (Hown _ _ He). apply (fm_some _ _ Hfm) in He as (ops & (? & ? & ? & ?) & ?). exists ops.
      split; [|done]. split_and!; try done; [by rewrite O1, lookup_insert_ne|by rewrite O2, lookup_insert_ne].
    + intros f1 f2 e1 e2 [[<- <-]|[? H1]]%lookup_insert_Some [[<- <-]|[? H2]]%lookup_insert_Some E;
        [done|by apply Hown in H2|by apply Hown in H1|by eapply (fm_own _ _ Hfm)].
    + intros p' fi. rewrite O2. intros [[<- <-]|[Hne He]]%lookup_insert_Some.
      * exists f. apply lookup_insert_eq.
      * apply (fm_all _ _ Hfm) in He as [f' Hf']. exists f'.
        rewrite lookup_insert_ne; [done|]. intros ->. congruence.
  - intros x Hx. rewrite net_app, Hnet, (Hk x Hx) by done. unfold held, open_file. simpl.
    rewrite (total_insert _ _ _ f) by done. unfold file_refs. simpl. lia.
Qed.

(** A file is closed. *)
Lemma books_close m' f p lf :
  files a !! f = Some (p, lf) -> closed m m' p ->
  books base (close_file f a) m' (h ++ [KEv (fput lf) tt; KEv (kfree p) tt]).
Proof.
  intros Hf [C1 C2 C3 C4]. destruct Hb as [[Hm Hfm] Hbase Hnet]. split; [split|done|]; simpl.
  - by eapply dentries_match_same.
  - constructor.
    + intros f' e [Hne He]%lookup_delete_Some.
      assert (e.1 <> p) by (intros E; apply Hne; by eapply (fm_own _ _ Hfm)).
      apply (fm_some _ _ Hfm) in He as (ops & (? & ? & ? & ?) & ?). exists ops.
      split; [|done]. split_and!; try done; [by rewrite C1|by rewrite C2, lookup_delete_ne].
    + intros f1 f2 e1 e2 [_ H1]%lookup_delete_Some [_ H2]%lookup_delete_Some.
      by eapply (fm_own _ _ Hfm).
    + intros p' fi. rewrite C2. intros [Hne He]%lookup_delete_Some.
      apply (fm_all _ _ Hfm) in He as [f' Hf']. exists f'.
      rewrite lookup_delete_ne; [done|]. intros <-. congruence.
  - intros x Hx. rewrite net_app, Hnet by done. unfold held, close_file. simpl.
    rewrite (total_delete _ _ _ _ _ Hf). unfold takes, file_refs. simpl.
    apply (fm_some _ _ Hfm) in Hf as (ops & (_ & _ & Hp & _) & _). simpl in Hp.
    rewrite (good_ptr_nonnullb p) by done. simpl. lia.
Qed.

(** A file could not be opened. *)
Lemma books_open_none m' tr f :
  files a !! f = None -> opened_none m m' f tr ->
  (forall p, good_ptr p -> allocates tr p -> file_infos m !! p = None) -> keeps tr [] ->
  books base a m' (h ++ tr).
Proof.
  intros Hf [O1 O2 O3 O4] Hfresh Hk. destruct Hb as [[Hm Hfm] Hbase Hnet].
  assert (E : file_infos m' = file_infos m).
  { destruct O2 as [->|(p & Hp & Hal & ->)]; [done|]. apply delete_id. auto. }
  split; [split|done|].
  - by eapply dentries_match_same.
  - eapply files_match_same; [|by rewrite E|done]. intros f' [e He]. apply O1. congruence.
  - intros x Hx. rewrite net_app, Hnet, (Hk x Hx) by done. unfold takes. simpl. lia.
Qed.

(** An object is given to the VFS, or comes back. *)
Lemma books_give m' tr p :
  p ∉ objects a -> same_private m m' -> keeps tr [RMem p] -> books base (give_object p a) m' (h ++ tr).
Proof.
  intros Hp Hs Hk. destruct Hb as [Hm Hbase Hnet]. split; [by destruct (represents_same _ _ _ Hs Hm)|done|].
  intros x Hx. rewrite net_app, Hnet, (Hk x Hx) by done. unfold held. simpl. rewrite counted_add by done. lia.
Qed.

Lemma books_take m' tr p :
  p ∈ objects a -> same_private m m' -> (forall x, tracked x -> net tr x = - takes [RMem p] x) ->
  books base (take_object p a) m' (h ++ tr).
Proof.
  intros Hp Hs Hk. destruct Hb as [Hm Hbase Hnet]. split; [by destruct (represents_same _ _ _ Hs Hm)|done|].
  intros x Hx. rewrite net_app, Hnet, (Hk x Hx) by done. unfold held. simpl.
  rewrite (counted_remove (objects a) p) by done. lia.
Qed.

(** Private data is left alone, and what is taken is given back. *)
Lemma books_same m' tr : same_private m m' -> keeps tr [] -> books base a m' (h ++ tr).
Proof.
  intros Hs Hk. destruct Hb as [Hm Hbase Hnet]. split; [by eapply represents_same|done|].
  intros x Hx. rewrite net_app, Hnet, (Hk x Hx) by done. unfold takes. simpl. lia.
Qed.
End Books.
