(* ===== verification/Through.v ===== *)
(** * What passes through

    A stackable file system promises that a mount behaves like the directory it
    covers.  For the requests that are neither logged nor change private data,
    this says what that comes to: what is asked of the lower file system, on
    which of its objects and in which order, what is answered, and how the upper
    inode is refreshed.  The programs here know the lower objects; the handlers
    find them through private data, with locks and references, which are left
    out of what is compared ([asked]). *)

From S2P Require Import Prelude Prog TrTypes Kernel TrfsH Lookup Ledger Inode FileOps Super.

(** ** What a run asks *)

(** Looking for the objects of a request and holding on to them. *)
Definition bookkeeping (c : kfun) : bool :=
  match c with
  | path_get _ | path_put _ | spin_lock _ | spin_unlock _ | get_file _ | fput _
  | load F_f_dentry _ | load F_d_inode _ | load F_ki_filp _ | load F_vm_file _ => true
  | _ => false
  end.

Fixpoint asked (t : khist) : khist :=
  match t with
  | [] => []
  | e :: t => if bookkeeping (ev_call e) then asked t else e :: asked t
  end.

Lemma asked_app t u : asked (t ++ u) = asked t ++ asked u.
Proof. induction t as [|e t IH]; simpl; [done|]. rewrite IH. by destruct bookkeeping. Qed.

(** A program asks the events of a history, with these answers, and goes on as
    another. *)
Inductive follows {A} : kprog A -> khist -> kprog A -> Prop :=
| follows_nil p : follows p [] p
| follows_call c k r t q : follows (k r) t q -> follows (Call (S := ksig) c k) (Ev (S := ksig) c r :: t) q.

Lemma follows_app {A} (p q r : kprog A) t u : follows p t q -> follows q u r -> follows p (t ++ u) r.
Proof. induction 1; simpl; [done|]. intros Hu. constructor. auto. Qed.

(** What a program asks first it asks whatever comes after it. *)
Lemma follows_bind {A B} (p q : kprog A) (f : A -> kprog B) t : follows p t q -> follows (p ≫= f) t (q ≫= f).
Proof. induction 1; [constructor|]. by constructor. Qed.

(** ** Each request, on the lower objects *)

Section Lower.
Context (w : kworld).

(** The upper inode is refreshed from the lower dentry's; from the lower
    file's. *)
Definition refresh (copy : ptr -> ptr -> kfun) (d ld : ptr) : kprog unit :=
  kdo (copy (inode_of w d) (inode_of w ld));; mret tt.
Definition refresh_from_file (copy : ptr -> ptr -> kfun) (d lf : ptr) : kprog unit :=
  li ← kdo (load F_f_inode lf);
  kdo (copy (inode_of w d) li);; mret tt.

(** The method of an open file, or of a lower dentry's inode. *)
Definition method_of_file (lf : ptr) (f : kfield) : kprog ptr :=
  ops ← kdo (load F_f_op lf); kdo (load f ops).
Definition method_of_inode (ld : ptr) (f : kfield) : kprog ptr :=
  ops ← kdo (load F_i_op (inode_of w ld)); if decide (ops = NULL) then mret NULL else kdo (load f ops).

(** On a lower inode. *)

Definition pass_permission (li mask : Z) : kprog Z := kdo (inode_permission li mask).

Definition pass_evict (i li : ptr) : kprog Z :=
  kdo (truncate_inode_pages i);; kdo (clear_inode i);; kdo (iput li);; mret 0.

(** On a lower dentry. *)

Definition pass_readlink (d ld buf size : Z) : kprog Z :=
  method ← method_of_inode ld F_readlink;
  if decide (method = NULL) then mret (- EINVAL) else
  n ← kdo (i_op_readlink ld buf size);
  if decide (n < 0) then mret n else refresh fsstack_copy_attr_atime d ld;; mret n.

Definition pass_getattr (d : ptr) (lp : path) (stat : ptr) : kprog Z :=
  '(err, blocks) ← kdo (vfs_getattr lp);
  if decide (err <> 0) then mret err else
  refresh fsstack_copy_attr_all d (p_dentry lp);;
  kdo (generic_fillattr (inode_of w d) stat);;
  kdo (store F_blocks stat blocks);; mret 0.

Definition pass_xattr (d ld : ptr) (f : kfield) (none : Z) (ask : kprog Z)
    (copy : ptr -> ptr -> kfun) : kprog Z :=
  method ← method_of_inode ld f;
  if decide (method = NULL) then mret none else
  err ← ask;
  if decide (err <> 0) then mret err else refresh copy d ld;; mret 0.

Definition pass_setxattr (d ld : ptr) (name : bytes) (value size flags : Z) : kprog Z :=
  pass_xattr d ld F_setxattr (- EOPNOTSUPP) (kdo (vfs_setxattr ld name value size flags)) fsstack_copy_attr_all.
Definition pass_getxattr (d ld : ptr) (name : bytes) (buf size : Z) : kprog Z :=
  pass_xattr d ld F_getxattr (- EOPNOTSUPP) (as_int (kdo (vfs_getxattr ld name buf size))) fsstack_copy_attr_atime.
Definition pass_listxattr (d ld buf size : Z) : kprog Z :=
  pass_xattr d ld F_listxattr (- EOPNOTSUPP) (as_int (kdo (vfs_listxattr ld buf size))) fsstack_copy_attr_atime.
Definition pass_removexattr (d ld : ptr) (name : bytes) : kprog Z :=
  pass_xattr d ld F_removexattr (- EINVAL) (kdo (vfs_removexattr ld name)) fsstack_copy_attr_all.

Definition pass_statfs (magic : Z) (lp : path) (buf : ptr) : kprog Z :=
  err ← kdo (vfs_statfs lp buf);
  kdo (store F_f_type buf magic);; mret err.

Definition pass_revalidate (ld flags : Z) : kprog Z :=
  if decide (Z.land flags LOOKUP_RCU <> 0) then mret (- ECHILD) else
  d_flags ← kdo (load F_d_flags ld);
  if decide (Z.land d_flags DCACHE_OP_REVALIDATE = 0) then mret 1 else
  ops ← kdo (load F_d_op ld);
  kdo (load F_d_revalidate ops);;
  kdo (file_method F_d_revalidate ld [flags]).

(** On an open lower file [lf]; [f] is the file above it, on the dentry [d]. *)

Definition pass_read (d lf buf count ppos : Z) : kprog Z :=
  n ← as_int (kdo (vfs_read lf buf count ppos));
  when (bool_decide (0 <= n)) (refresh_from_file fsstack_copy_attr_atime d lf);; mret n.

Definition pass_readdir (d f lf ctx : ptr) : kprog Z :=
  err ← kdo (iterate_dir lf ctx);
  pos ← kdo (load F_f_pos lf);
  kdo (store F_f_pos f pos);;
  when (bool_decide (0 <= err)) (refresh_from_file fsstack_copy_attr_atime d lf);; mret err.

Definition pass_ioctl (f lf cmd arg : Z) : kprog Z :=
  method ← method_of_file lf F_unlocked_ioctl;
  if decide (method = NULL) then mret (- ENOTTY) else
  err ← kdo (file_method F_unlocked_ioctl lf [cmd; arg]);
  when (bool_decide (err = 0))
    (i ← kdo (load F_f_inode f); li ← kdo (load F_f_inode lf); kdo (fsstack_copy_attr_all i li));;
  mret err.

Definition pass_compat_ioctl (lf cmd arg : Z) : kprog Z :=
  method ← method_of_file lf F_compat_ioctl;
  if decide (method = NULL) then mret (- ENOTTY) else kdo (file_method F_compat_ioctl lf [cmd; arg]).

Definition pass_flush (f lf id : ptr) : kprog Z :=
  method ← method_of_file lf F_flush;
  if decide (method = NULL) then mret 0 else
  mapping ← kdo (load F_f_mapping f);
  kdo (filemap_write_and_wait mapping);;
  kdo (file_method F_flush lf [id]).

Definition pass_fsync (f lf start finish datasync : Z) : kprog Z :=
  err ← kdo (generic_file_fsync f start finish datasync);
  if decide (err <> 0) then mret err else kdo (vfs_fsync_range lf start finish datasync).

Definition pass_fasync (fd lf flag : Z) : kprog Z :=
  method ← method_of_file lf F_fasync;
  if decide (method = NULL) then mret 0 else kdo (file_method F_fasync lf [fd; flag]).

Definition pass_llseek (f lf offset whence : Z) : kprog Z :=
  pos ← as_int (kdo (generic_file_llseek f offset whence));
  if decide (pos < 0) then mret pos else as_int (kdo (generic_file_llseek lf offset whence)).

(** A transfer on a control block, which names the lower file meanwhile; [after]
    a transfer that was done or is on its way the inode is refreshed. *)
Definition pass_iter (lf iocb iter f : ptr) (m : kfield) (after : kprog unit) : kprog Z :=
  method ← method_of_file lf m;
  if decide (method = NULL) then mret (- EINVAL) else
  kdo (store F_ki_filp iocb lf);;
  n ← as_int (kdo (file_method m lf [iocb; iter]));
  kdo (store F_ki_filp iocb f);;
  when (bool_decide (0 <= n \/ n = - EIOCBQUEUED)) after;; mret n.

Definition pass_read_iter (d f lf iocb iter : ptr) : kprog Z :=
  pass_iter lf iocb iter f F_read_iter (refresh_from_file fsstack_copy_attr_atime d lf).
Definition pass_write_iter (d f lf iocb iter : ptr) : kprog Z :=
  pass_iter lf iocb iter f F_write_iter
    (li ← kdo (load F_f_inode lf);
     kdo (fsstack_copy_inode_size (inode_of w d) li);; kdo (fsstack_copy_attr_times (inode_of w d) li)).

(** The area gets methods of this module. *)
Definition pass_mapped (f vma : ptr) : kprog Z :=
  kdo (file_accessed f);;
  kdo (store F_vm_ops vma trfs_vm_ops);;
  mapping ← kdo (load F_f_mapping f);
  kdo (store F_a_ops mapping trfs_aops);; mret 0.

(** Mapping: [known] says that the lower file system gave the file its methods
    for page faults before. *)
Definition pass_mmap (f lf vma : ptr) (known : bool) : kprog Z :=
  vm_flags ← kdo (load F_vm_flags vma);
  writepage ← (if decide (Z.lor (Z.lor vm_flags VM_SHARED) VM_WRITE = vm_flags) then
                 mapping ← kdo (load F_f_mapping lf);
                 a_ops ← kdo (load F_a_ops mapping);
                 kdo (load F_writepage a_ops)
               else mret 1);
  if decide (writepage = NULL) then mret (- EINVAL) else
  if known then pass_mapped f vma else
  method_of_file lf F_mmap;;
  err ← kdo (file_method F_mmap lf [vma]);
  if decide (err <> 0) then mret err else
  kdo (load F_vm_ops vma);; pass_mapped f vma.

(** Page faults go to the methods [ops] that the lower file system gave. *)
Definition pass_fault (lf ops vma vmf : ptr) : kprog Z :=
  kdo (load F_fault ops);;
  kdo (file_method F_fault ops [vma; lf; vmf]).
Definition pass_page_mkwrite (lf ops vma vmf : ptr) : kprog Z :=
  method ← kdo (load F_page_mkwrite ops);
  if decide (method = NULL) then mret 0 else kdo (file_method F_page_mkwrite ops [vma; lf; vmf]).

(** On the lower super block. *)

Definition pass_umount_begin (lsb : ptr) : kprog Z :=
  ops ← (if decide (lsb = NULL) then mret NULL else kdo (load F_s_op lsb));
  method ← (if decide (ops = NULL) then mret NULL else kdo (load F_umount_begin ops));
  when (nonzero method) (kdo (file_method F_umount_begin lsb []);; mret tt);; mret 0.
End Lower.
