(* ===== verification/Conserve.v ===== *)
(** * Handlers that give back what they take

    The handlers other than those that look up, release, open and close leave
    the private data of dentries and files alone, and the locks and references
    they take they give back; those that do not log pass their request on, as
    [Through] says. *)

From S2P Require Import Prelude Prog TrTypes Kernel TrfsH Lookup Ledger Trdump TrdumpSpec Inode FileOps Super.
From S2P Require Import HandlerSpec HandlerThms IoctlThms MountThms LookupThms FileThms SymlinkThms AttrThms Live Through Demo.

(** A run that ends, gives back what it took, and leaves private data alone. *)
Definition settles {A} (m : kmem) (h : khist) (o : outcome ksig A) : Prop :=
  exists v m' tr, o = finished v m' (h ++ tr) /\ keeps tr [] /\ same_data m m'.

(** It also asks what a program asks, and answers what that answers. *)
Definition passes (spec : kprog Z) (m : kmem) (h : khist) (o : outcome ksig Z) : Prop :=
  exists v m' tr, o = finished v m' (h ++ tr) /\ keeps tr [] /\ same_data m m' /\
    follows spec (asked tr) (mret v).

Lemma passes_settles spec m h o : passes spec m h o -> settles m h o.
Proof. intros (v & m' & tr & E & Hk & Hs & _). by exists v, m', tr. Qed.

(** ** What more is documented about the objects of the kernel

    An open file has a table of methods and a mapping, a mapping and an inode
    have tables of methods; a dentry that is flagged as having a method to
    revalidate it has it; an object of a cache, which is smaller than a page, lies
    inside the address space.  That the lower file system has the methods for memory
    mapping is not documented: the code calls them without looking. *)
Definition object_ok (e : event ksig) : Prop :=
  match e with
  | Ev (load f _) r =>
      match f with
      | F_f_op | F_f_mapping | F_a_ops | F_i_op | F_d_op | F_d_revalidate | F_mmap | F_fault => good_ptr r
      | F_s_op => r = NULL \/ good_ptr r
      | _ => True
      end
  | Ev (kmem_cache_alloc _) r => r = NULL \/ r + PAGE_SIZE < 2 ^ 64 - MAX_ERRNO
  | _ => True
  end.

(** The environment answers as documented; what it answers is known. *)
Definition sane (w : kworld) (env : kenv) (h : khist) (e : event ksig) : Prop :=
  kernel_ok w h e /\ object_ok e /\ ev_reply e = env h (ev_call e).

#[export] Instance sane_spec w env : KernelSpec w (sane w env).
Proof. constructor. by intros h e (? & _). Qed.

Definition objects_ok (env : kenv) : Prop := forall h c, object_ok (KEv c (env h c)).

Lemma sane_env w env : env_ok (kernel_ok w) env -> objects_ok env -> env_ok (sane w env) env.
Proof. intros Hk Ho h c. split_and!; [apply Hk|apply Ho|done]. Qed.

(** ** Handlers that do not log *)

Lemma hits_inode x i : tracked x -> hits x (RInode i) = 0.
Proof. intros Hx. apply hits_ne. by intros <-. Qed.

(** Follow a program along a history. *)
Ltac decided :=
  first [rewrite decide_True by first [done | lia | tauto]
        |rewrite decide_False by first [done | lia | tauto | by apply good_ptr_nonnull | by intros ?]
        |rewrite bool_decide_eq_true_2 by first [done | lia | tauto]
        |rewrite bool_decide_eq_false_2 by first [done | lia | tauto]
        |progress change (nonzero NULL) with false
        |match goal with H : nonzero _ = _ |- _ => rewrite H end].
Ltac follow_step :=
  cbn [mbind prog_mbind prog_bind mret prog_mret when fst snd];
  lazymatch goal with
  | |- follows (Call _ _) (_ :: _) _ => apply follows_call
  | |- follows _ _ _ => first [apply follows_nil | decided]
  end.
Ltac follow :=
  autounfold with ledger; rewrite ?asked_app; cbn [asked bookkeeping ev_call app];
  autounfold with through; unfold as_int, kdo, kcall; repeat follow_step.

Create HintDb through.
#[export] Hint Unfold pass_permission pass_evict refresh refresh_from_file method_of_file method_of_inode pass_readlink pass_getattr
  pass_xattr pass_setxattr pass_getxattr pass_listxattr pass_removexattr pass_statfs pass_revalidate
  pass_read pass_readdir pass_ioctl pass_compat_ioctl pass_flush pass_fsync pass_fasync pass_llseek
  pass_iter pass_read_iter pass_write_iter pass_mapped pass_mmap pass_umount_begin pass_fault pass_page_mkwrite : through.

(** What the handler did, from its history. *)
Ltac settle :=
  eexists _, _, _; split; [rewrite <- ?app_assoc; reflexivity|]; split;
  [let Hx := fresh in intros ? Hx; unfold takes; autounfold with ledger; rewrite ?net_app;
   cbn [net count_entries delta one_if app fst snd]; rewrite ?net_app;
   cbn [net count_entries delta one_if app fst snd fmap list_fmap];
   rewrite ?(hits_inode _ _ Hx); lia
  |split; [try done|follow]].

Section Conserve.
Context (w : kworld) (env : kenv).
Local Abbreviation WP := (wp (sane w env)).

(** A dentry that is bound to the lower path of an existing file. *)
Definition in_use (m : kmem) (d info : ptr) (lp : path) : Prop :=
  has_lower m d info lp /\ positive w d /\ positive w (p_dentry lp) /\ good_ptr (p_dentry lp).

(** A file that is open. *)
Definition in_hand (m : kmem) (f p : ptr) (fi : trfs_file_info) : Prop :=
  has_file m f p fi /\ positive w (dentry_of w f).

Lemma wp_load {A} f o (k : Z -> kprog A) Q m h :
  good_ptr o ->
  (forall r, kernel_ok w h (KEv (load f o) r) -> object_ok (KEv (load f o) r) -> r = env h (load f o) ->
     WP (k r) Q m (h ++ [KEv (load f o) r])) ->
  WP (ld f o ≫= k) Q m h.
Proof. intros Ho Hk. apply wp_ld; [done|]. intros r (? & ? & ?). by apply Hk. Qed.
End Conserve.

(** Loading a field whose value is an object. *)
Ltac load_good := kassoc; apply wp_load; [done|let Ho := fresh "Ho" in intros ? _ Ho _; simpl in Ho].

(** A history over which nothing was taken and kept. *)
Definition level (t : khist) : Prop := forall x, tracked x -> net t x = 0.

Lemma level_app t u : level t -> level u -> level (t ++ u).
Proof. intros Ht Hu x Hx. rewrite net_app, Ht, Hu; done. Qed.

Ltac level :=
  repeat first [assumption | apply level_app];
  try (let Hx := fresh in intros ? Hx; unfold takes; simpl; rewrite ?(hits_inode _ _ Hx); lia).

(** Reading the inode of a dentry in use; taking a lower path. *)
Ltac inode_of_bound := kassoc; eapply wp_d_inode; [apply _|done..|intros ?].
Ltac enter Hd :=
  let Hl := fresh "Hl" in let Hp := fresh "Hp" in let Hpl := fresh "Hpl" in let Hg := fresh "Hg" in
  pose proof Hd as (Hl & Hp & Hpl & Hg); assert (good_ptr (p_dentry _)) by exact Hg;
  let Hgd := fresh "Hgd" in pose proof Hl as (Hgd & _); kassoc; eapply wp_get_lower_path; [exact Hl|].
Ltac leave := cbn beta; kassoc; apply wp_put_lower_path; try settle.

Section Inodes.
Context (w : kworld) (env : kenv) (m : kmem) (h : khist).
Local Abbreviation WP p spec := (wp (sane w env) p (passes spec m h) m h).

Lemma passes_permission i mask : good_ptr i ->
  WP (trfs_permission i mask) (pass_permission (default NULL (inode_infos m !! i)) mask).
Proof.
  intros Hi. unfold trfs_permission. apply wp_field_get; [done|]. apply wp_tail. kstep. settle.
Qed.

Lemma passes_evict i : good_ptr i ->
  WP (trfs_evict_inode i;; mret 0) (pass_evict i (default NULL (inode_infos m !! i))).
Proof.
  intros Hi. unfold trfs_evict_inode. kstep. kstep. kassoc. apply wp_field_get; [done|]. kstep. kstep. settle.
Qed.

Context (d info : ptr) (lp : path) (Hd : in_use w m d info lp).

Lemma passes_getattr mnt stat : good_ptr stat -> WP (trfs_getattr mnt d stat) (pass_getattr w d lp stat).
Proof.
  intros Hs. unfold trfs_getattr. enter Hd. apply wp_kdo. intros [e b] _. kstep. case_decide.
  - kstep. leave.
  - inode_of_bound. inode_of_bound. kstep. inode_of_bound. kstep. kstep. kstep. leave.
Qed.

Lemma passes_statfs magic buf : good_ptr buf -> WP (trfs_statfs magic d buf) (pass_statfs magic lp buf).
Proof. intros Hb. unfold trfs_statfs. enter Hd. kstep. leave. kstep. settle. Qed.

(** The method of the lower inode; what the upper inode is refreshed from. *)
Ltac lower_method := unfold lower_iop; inode_of_bound; load_good; kassoc; apply wp_load; [done|intros ? _ _ _].
Ltac copies := unfold copy_attr_all, copy_attr_atime; do 2 inode_of_bound; kstep; kstep; leave.
Ltac xattr :=
  enter Hd; lower_method; case_decide; [kstep; leave|]; kstep; try kstep; case_decide; [kstep; leave|copies].

Lemma passes_setxattr name value size flags :
  WP (trfs_setxattr d name value size flags) (pass_setxattr w d (p_dentry lp) name value size flags).
Proof. unfold trfs_setxattr. xattr. Qed.
Lemma passes_getxattr name buf size :
  WP (trfs_getxattr d name buf size) (pass_getxattr w d (p_dentry lp) name buf size).
Proof. unfold trfs_getxattr. xattr. Qed.
Lemma passes_listxattr buf size :
  WP (trfs_listxattr d buf size) (pass_listxattr w d (p_dentry lp) buf size).
Proof. unfold trfs_listxattr. xattr. Qed.

Lemma passes_removexattr name :
  WP (trfs_removexattr d name) (pass_removexattr w d (p_dentry lp) name).
Proof.
  unfold trfs_removexattr. enter Hd. inode_of_bound. load_good.
  rewrite decide_False by by apply good_ptr_nonnull. kassoc. apply wp_load; [done|intros ? _ _ _].
  case_decide; [kstep; leave|]. kstep. case_decide; [kstep; leave|copies].
Qed.

Lemma passes_readlink buf size : WP (trfs_readlink d buf size) (pass_readlink w d (p_dentry lp) buf size).
Proof.
  unfold trfs_readlink. enter Hd. inode_of_bound. load_good.
  rewrite decide_False by by apply good_ptr_nonnull. kassoc. apply wp_load; [done|intros ? _ _ _].
  case_decide; [kstep; leave|]. kstep. case_decide; [kstep; leave|].
  do 2 inode_of_bound. kstep. kstep. leave.
Qed.

Lemma passes_revalidate flags : WP (trfs_d_revalidate d flags) (pass_revalidate (p_dentry lp) flags).
Proof.
  unfold trfs_d_revalidate. case_decide.
  { eexists _, _, []. rewrite app_nil_r. split_and!; try done. follow. }
  enter Hd. load_good. case_decide.
  - kstep. leave.
  - load_good. load_good. kstep. kstep. leave.
Qed.
End Inodes.
Section Files.
Context (w : kworld) (env : kenv) (m : kmem) (h : khist).
Context (f p : ptr) (fi : trfs_file_info) (Hf : in_hand w m f p fi).
Local Abbreviation WP p spec := (wp (sane w env) p (passes spec m h) m h).
Local Abbreviation dentry := (dentry_of w f).
Local Abbreviation lower := (lower_file fi).

Lemma hand_good : good_ptr f /\ good_ptr lower.
Proof. by destruct Hf as [[(? & _) ?] _]. Qed.

(** What handlers of open files begin with. *)
Ltac dentry_of_file :=
  kassoc; eapply wp_file_dentry; [apply _|apply hand_good|let Hd := fresh "Hd" in intros Hd].
Ltac lower_of_file := kassoc; eapply wp_lower_file; [apply Hf|].

(** The upper inode is refreshed from the lower file's. *)
Ltac refresh := inode_of_bound; unfold file_inode; load_good; kstep; settle.

Lemma passes_read buf count ppos :
  WP (trfs_read f buf count ppos) (pass_read w dentry lower buf count ppos).
Proof.
  destruct Hf as [_ Hpos]. pose proof hand_good as [Hgf Hgl]. unfold trfs_read, as_int. dentry_of_file.
  lower_of_file. kstep. kstep. kstep. case_bool_decide; [refresh|settle].
Qed.

Lemma passes_readdir ctx : WP (trfs_readdir f ctx) (pass_readdir w dentry f lower ctx).
Proof.
  destruct Hf as [_ Hpos]. pose proof hand_good as [Hgf Hgl]. unfold trfs_readdir. dentry_of_file.
  lower_of_file. kstep. load_good. kstep. kstep. case_bool_decide; [refresh|settle].
Qed.

Lemma passes_ioctl cmd arg : WP (trfs_unlocked_ioctl f cmd arg) (pass_ioctl f lower cmd arg).
Proof.
  pose proof hand_good as [Hgf Hgl]. unfold trfs_unlocked_ioctl. lower_of_file.
  rewrite decide_False by by apply good_ptr_nonnull. load_good.
  rewrite decide_False by by apply good_ptr_nonnull. load_good. case_decide.
  - kstep. kstep. case_bool_decide; [|settle].
    unfold file_inode. load_good. load_good. kstep. settle.
  - kstep. kstep. rewrite bool_decide_eq_false_2 by done. settle.
Qed.

(** The method of the lower file. *)
Ltac lower_method :=
  unfold file_op; rewrite decide_False by (by apply good_ptr_nonnull, hand_good); load_good;
  rewrite decide_False by (by apply good_ptr_nonnull); kassoc; apply wp_load; [done|intros ? _ _ _].

Lemma passes_compat_ioctl cmd arg : WP (trfs_compat_ioctl f cmd arg) (pass_compat_ioctl lower cmd arg).
Proof.
  pose proof hand_good as [Hgf Hgl]. unfold trfs_compat_ioctl. lower_of_file. lower_method.
  case_decide; [apply wp_tail; kstep|]; settle.
Qed.

Lemma passes_flush id : WP (trfs_flush f id) (pass_flush f lower id).
Proof.
  pose proof hand_good as [Hgf Hgl]. unfold trfs_flush. lower_of_file. lower_method.
  case_decide; [load_good; kstep; apply wp_tail; kstep|]; settle.
Qed.

Lemma passes_fsync info lp start finish datasync :
  has_lower m dentry info lp -> WP (trfs_fsync f start finish datasync) (pass_fsync f lower start finish datasync).
Proof.
  pose proof hand_good as [Hgf Hgl]. intros Hl. unfold trfs_fsync. dentry_of_file. apply wp_tail. kstep.
  case_decide; [kstep; settle|]. lower_of_file. kassoc. eapply wp_get_lower_path; [exact Hl|].
  kstep. leave.
Qed.

Lemma passes_fasync fd flag : WP (trfs_fasync fd f flag) (pass_fasync fd lower flag).
Proof.
  pose proof hand_good as [Hgf Hgl]. unfold trfs_fasync. lower_of_file. load_good.
  rewrite decide_False by by apply good_ptr_nonnull. load_good.
  case_decide; [apply wp_tail; kstep|]; settle.
Qed.

Lemma passes_llseek offset whence :
  WP (trfs_file_llseek f offset whence) (pass_llseek f lower offset whence).
Proof.
  unfold trfs_file_llseek, as_int. kstep. kstep. case_decide; [settle|].
  lower_of_file. kstep. settle.
Qed.

(** The private data, with the lower table of the area as it was or as it is. *)
Lemma same_data_ops ops :
  same_data m (set_file_infos (<[p := FileInfo lower ops]> (file_infos m)) m).
Proof.
  destruct Hf as [[(_ & _ & _ & Hfi) _] _]. split; [|done]. constructor; try done. simpl.
  by rewrite fmap_insert, insert_id; [|rewrite lookup_fmap, Hfi].
Qed.

Section Map.
Context (vma : ptr) (Hv : good_ptr vma).
Local Abbreviation known := (bool_decide (lower_vm_ops fi <> NULL)).
Local Abbreviation SPEC := (pass_mmap f lower vma known).

(** From where the lower file system has mapped the file. *)
Lemma passes_mapped ops u : level u -> follows SPEC (asked u) (pass_mapped f vma) ->
  wp (sane w env)
    (kdo (file_accessed f);; st F_vm_ops vma trfs_vm_ops;; mapping ← ld F_f_mapping f;
     st F_a_ops mapping trfs_aops;; fi ← heap_get file_infos p;
     (if decide (lower_vm_ops fi = NULL)
      then heap_set file_infos set_file_infos p (FileInfo (TrfsH.lower_file fi) ops) else mret tt);;
     mret 0) (passes SPEC m h) m (h ++ u).
Proof.
  pose proof hand_good as [Hgf Hgl]. pose proof Hf as [[(_ & Hpd & Hgp & Hfi) _] _].
  intros Hu Hfol. kstep. kstep. load_good. kstep. kassoc. eapply wp_heap_get; [done..|].
  destruct (decide (lower_vm_ops fi = NULL)); [eapply wp_heap_set; [done..|]|kstep]; eexists _, _, _;
    (split; [rewrite <- !app_assoc; reflexivity|]); (split; [level|]);
    (split; [first [apply same_data_ops|done]|]); rewrite asked_app; (eapply follows_app; [exact Hfol|follow]).
Qed.

(** From where the mapping was found possible. *)
Lemma passes_map u : level u ->
  follows SPEC (asked u)
    (if known then pass_mapped f vma else
     method_of_file lower F_mmap;;
     err ← kdo (file_method F_mmap lower [vma]);
     if decide (err <> 0) then mret err else kdo (load F_vm_ops vma);; pass_mapped f vma) ->
  wp (sane w env)
    (p ← TRFS_F f;
     fi ← heap_get file_infos p;
     '(err, saved_vm_ops) ←
       (if decide (lower_vm_ops fi = NULL) then
          f_op ← ld F_f_op lower;
          method ← ld F_mmap f_op; check_ptr method;;
          err ← kdo (file_method F_mmap lower [vma]);
          if decide (err <> 0) then mret (err, NULL) else
          ops ← ld F_vm_ops vma;
          mret (err, ops)
        else mret (0, NULL));
     if decide (err <> 0) then mret err else
     kdo (file_accessed f);; st F_vm_ops vma trfs_vm_ops;; mapping ← ld F_f_mapping f;
     st F_a_ops mapping trfs_aops;; fi ← heap_get file_infos p;
     (if decide (lower_vm_ops fi = NULL)
      then heap_set file_infos set_file_infos p (FileInfo (TrfsH.lower_file fi) saved_vm_ops) else mret tt);;
     mret err) (passes SPEC m h) m (h ++ u).
Proof.
  pose proof hand_good as [Hgf Hgl]. pose proof Hf as [[(_ & Hpd & Hgp & Hfi) _] _]. intros Hu Hfol.
  unfold TRFS_F. apply wp_field_get; [done|]. rewrite Hpd. cbn [default from_option id].
  eapply wp_heap_get; [done..|]. destruct (decide (lower_vm_ops fi = NULL)) as [Hops|Hops].
  - rewrite bool_decide_eq_false_2 in Hfol |- * by auto.
    load_good. load_good. kassoc. kstep. kassoc. apply wp_kdo. intros e _. cbn in e.
    destruct (decide (e <> 0)) as [He|He].
    + kstep. rewrite decide_True by done. eexists _, _, _.
      split; [rewrite <- !app_assoc; reflexivity|]. split; [level|]. split; [done|].
      rewrite asked_app. eapply follows_app; [exact Hfol|follow].
    + assert (e = 0) as -> by lia. load_good. kstep. rewrite decide_False by auto.
      rewrite <- !app_assoc. pose proof (passes_mapped r1) as Hm.
      rewrite bool_decide_eq_false_2 in Hm by auto. apply Hm; [level|].
      rewrite !asked_app. eapply follows_app; [exact Hfol|follow].
  - kstep. rewrite decide_False by auto. apply passes_mapped; [done|].
    by rewrite bool_decide_eq_true_2 in Hfol |- * by done.
Qed.

Lemma passes_mmap : WP (trfs_mmap f vma) SPEC.
Proof.
  pose proof hand_good as [Hgf Hgl]. unfold trfs_mmap. load_good. lower_of_file. case_bool_decide as Hw.
  - load_good. load_good. load_good. case_decide; [settle|]. rewrite <- !app_assoc.
    apply passes_map; [level|]. follow.
  - kstep. rewrite decide_False by done. apply passes_map; [level|]. follow.
Qed.
End Map.

(** The page-fault handlers: the file was mapped before. *)
Section Faults.
Context (vma vmf : ptr) (Hv : good_ptr vma) (Hops : good_ptr (lower_vm_ops fi)).
Context (Hvma : forall h, env h (load F_vm_file vma) = f).

Lemma passes_fault : WP (trfs_fault vma vmf) (pass_fault lower (lower_vm_ops fi) vma vmf).
Proof.
  pose proof Hf as [[(Hgf & Hpd & Hgp & Hfi) Hgl] _].
  unfold trfs_fault. apply wp_load; [done|]. intros r _ _ ->. rewrite Hvma.
  unfold TRFS_F. apply wp_field_get; [done|]. rewrite Hpd. cbn [default from_option id].
  eapply wp_heap_get; [done..|]. rewrite bool_decide_eq_false_2 by by apply good_ptr_nonnull.
  apply wp_bug_on; [done|]. lower_of_file. load_good. kstep. apply wp_tail. kstep. settle.
Qed.

Lemma passes_page_mkwrite :
  WP (trfs_page_mkwrite vma vmf) (pass_page_mkwrite lower (lower_vm_ops fi) vma vmf).
Proof.
  pose proof Hf as [[(Hgf & Hpd & Hgp & Hfi) Hgl] _].
  unfold trfs_page_mkwrite. apply wp_load; [done|]. intros r _ _ ->. rewrite Hvma.
  unfold TRFS_F. apply wp_field_get; [done|]. rewrite Hpd. cbn [default from_option id].
  eapply wp_heap_get; [done..|]. rewrite bool_decide_eq_false_2 by by apply good_ptr_nonnull.
  apply wp_bug_on; [done|]. load_good. case_decide; [settle|].
  lower_of_file. apply wp_tail. kstep. settle.
Qed.
End Faults.

(** Vectored transfers: the control block names the file. *)
Section Vectored.
Context (iocb iter : ptr) (Hi : good_ptr iocb) (Hkf : forall h, env h (load F_ki_filp iocb) = f).

Lemma passes_read_iter : WP (trfs_read_iter iocb iter) (pass_read_iter w dentry f lower iocb iter).
Proof.
  pose proof hand_good as [Hgf Hgl]. destruct Hf as [_ Hpos].
  unfold trfs_read_iter. apply wp_load; [done|]. intros r _ _ ->. rewrite Hkf.
  lower_of_file. load_good. load_good. case_decide; [settle|].
  unfold with_lower_iocb, as_int. kstep. kstep. kstep. kstep. kstep. kstep. kstep. kstep.
  case_bool_decide.
  - dentry_of_file. refresh.
  - settle.
Qed.

Lemma passes_write_iter : WP (trfs_write_iter iocb iter) (pass_write_iter w dentry f lower iocb iter).
Proof.
  pose proof hand_good as [Hgf Hgl]. destruct Hf as [_ Hpos].
  unfold trfs_write_iter. apply wp_load; [done|]. intros r _ _ ->. rewrite Hkf.
  lower_of_file. load_good. load_good. case_decide; [settle|].
  unfold with_lower_iocb, as_int. kstep. kstep. kstep. kstep. kstep. kstep. kstep. kstep.
  case_bool_decide; [|settle]. dentry_of_file. unfold copy_size_times, file_inode.
  inode_of_bound. load_good. kstep. kstep. settle.
Qed.
End Vectored.
End Files.

(** ** Handlers of the super block *)

Section Supers.
Context (w : kworld) (env : kenv) (m : kmem) (h : khist).
Local Abbreviation WP p spec := (wp (sane w env) p (passes spec m h) m h).

(** What asks nothing. *)
Lemma passes_nothing v : passes (mret v) m h (finished v m h).
Proof. exists v, m, []. rewrite app_nil_r. split_and!; try done. constructor. Qed.

Lemma passes_umount_begin sb p si :
  has_sb m sb p si -> lower_sb si = NULL \/ good_ptr (lower_sb si) ->
  WP (trfs_umount_begin sb;; mret 0) (pass_umount_begin (lower_sb si)).
Proof.
  intros Hs Hl. unfold trfs_umount_begin, trfs_lower_super. kassoc. kstep. eapply wp_sb_info; [done|].
  destruct (decide (lower_sb si = NULL)) as [Hn|Hn].
  { kassoc. kstep. kassoc. case_decide; [|done]. kstep. kstep.
    eexists _, _, []. rewrite app_nil_r. split_and!; try done. follow. }
  destruct Hl as [?|Hl]; [done|]. kassoc. apply wp_load; [done|]. intros ops _ Ho _. simpl in Ho. kassoc.
  case_decide as Hops.
  - kstep. kstep. settle.
  - destruct Ho as [?|Ho]; [done|]. load_good. kstep. destruct (nonzero r) eqn:Hr.
    + kstep. kstep. settle.
    + settle.
Qed.
End Supers.

(** ** Handlers that log: what they do to memory *)

Create HintDb acts.
Ltac acts_step :=
  lazymatch goal with
  | |- acts_only _ (mbind _ _) => apply acts_bind; [|intros ?]
  | |- acts_only _ (fmap _ _) => apply acts_bind; [|by intros]
  | |- acts_only _ (mret _) => exact I
  | |- acts_only _ (Ret _) => exact I
  | |- acts_only _ (Fault _) => exact I
  | |- acts_only _ (kdo _) => by intros ?
  | |- acts_only _ (gets _) => split; [reflexivity|done]
  | |- acts_only _ (modify _) => by split; [intros ?; repeat constructor|]
  | |- acts_only _ (match ?x with _ => _ end) => destruct x
  | |- acts_only _ (let _ := _ in _) => cbv zeta
  | |- acts_only _ (when ?b _) => destruct b; cbn [when]
  | |- acts_only _ (deref _ ?o) => destruct o; cbn [deref]
  | |- acts_only _ (bug_on ?b) => destruct b; cbn [bug_on]
  | |- acts_only _ (or_out _ _) => unfold or_out
  | |- acts_only _ (ld _ _) => unfold ld
  | |- acts_only _ (st _ _ _) => unfold st
  | |- acts_only _ (check_ptr _) => unfold check_ptr
  | |- acts_only _ (d_inode _) => unfold d_inode
  | |- acts_only _ (i_sb _) => unfold i_sb
  | |- acts_only _ (heap_get _ _) => unfold heap_get
  | |- acts_only _ (heap_set _ _ _ _) => unfold heap_set
  | |- acts_only _ (field_get _ _) => unfold field_get
  | |- acts_only _ (field_set _ _ _ _) => unfold field_set
  | |- acts_only _ _ => solve [auto with acts nocore]
  end.
Ltac acts := repeat acts_step.

Section Acts.
Local Abbreviation ACTS p := (acts_only (S := ksig) same_data p).

Lemma acts_get_lower_path d : ACTS (trfs_get_lower_path d).
Proof. unfold trfs_get_lower_path, TRFS_D. acts. Qed.
Lemma acts_put_lower_path d p : ACTS (trfs_put_lower_path d p).
Proof. unfold trfs_put_lower_path. acts. Qed.
Lemma acts_lock_parent d : ACTS (lock_parent d).
Proof. unfold lock_parent. acts. Qed.
Lemma acts_unlock_dir d : ACTS (unlock_dir d).
Proof. unfold unlock_dir. acts. Qed.
Lemma acts_lower_inode i : ACTS (trfs_lower_inode i).
Proof. unfold trfs_lower_inode. acts. Qed.
Lemma acts_lower_file f : ACTS (trfs_lower_file f).
Proof. unfold trfs_lower_file, TRFS_F. acts. Qed.
Lemma acts_sb_info s : ACTS (sb_info s).
Proof. unfold sb_info, TRFS_SB. acts. Qed.
Hint Resolve acts_lower_inode acts_sb_info : acts.
Lemma acts_copy_dir_attrs d l : ACTS (copy_dir_attrs d l).
Proof. unfold copy_dir_attrs. acts. Qed.
Lemma acts_copy_nlink i l : ACTS (copy_nlink i l).
Proof. unfold copy_nlink. acts. Qed.
Lemma acts_copy_size_times d l : ACTS (copy_size_times d l).
Proof. unfold copy_size_times, file_inode. acts. Qed.
Lemma acts_interpose d s p : ACTS (trfs_interpose d s p).
Proof.
  unfold trfs_interpose, __trfs_interpose, trfs_lower_super, trfs_iget, init_inode, trfs_set_lower_inode. acts.
Qed.
Lemma acts_dentry_sb d : ACTS (dentry_sb d).
Proof. unfold dentry_sb. acts. Qed.

Lemma acts_fill_cleanup p q r t : ACTS (fill_cleanup p q r t).
Proof. unfold fill_cleanup, SAFE_FREE_PAGE. acts. Qed.
Lemma acts_next_id : ACTS atomic_inc_return_trecord_id.
Proof. by split; [intros ?; repeat constructor|]. Qed.
Lemma acts_strlen s : ACTS (c_strlen s).
Proof. unfold c_strlen. acts. Qed.
Hint Resolve acts_strlen : acts.
Lemma acts_fill_aux ty x n p t : ACTS (fill_aux ty x n p t).
Proof. unfold fill_aux. acts. Qed.
Lemma acts_write_kbuf p o x : ACTS (write_kbuf p o x).
Proof. unfold write_kbuf. acts. Qed.
Hint Resolve acts_write_kbuf : acts.
Lemma acts_copy_record p n t : ACTS (copy_record p n t).
Proof. unfold copy_record. acts. Qed.
Lemma acts_log_write f x n : ACTS (log_write f x n).
Proof. unfold log_write. acts. Qed.
Hint Resolve acts_log_write : acts.
Lemma acts_append_aux f t r : ACTS (append_aux f t r).
Proof. unfold append_aux. acts. Qed.
Hint Resolve acts_fill_cleanup acts_next_id acts_fill_aux acts_copy_record acts_append_aux : acts.

Lemma acts_log_op get_sb op d fl perm err x n : ACTS get_sb -> ACTS (log_op get_sb op d fl perm err x n).
Proof.
  intros Hg. unfold log_op, log_locked, TRFS_SB, fill_record, append_record, TRFS_PAGE. acts.
Qed.
End Acts.

#[export] Hint Resolve acts_get_lower_path acts_put_lower_path acts_lock_parent acts_unlock_dir
  acts_lower_inode acts_lower_file acts_sb_info acts_copy_dir_attrs acts_copy_nlink acts_copy_size_times
  acts_interpose acts_dentry_sb : acts.
#[export] Hint Extern 1 (acts_only _ (log_op _ _ _ _ _ _ _ _)) => apply acts_log_op; acts : acts.

Section Logged.
Local Abbreviation ACTS p := (acts_only (S := ksig) same_data p).

Lemma acts_create dir d mode excl : ACTS (trfs_create dir d mode excl).
Proof. unfold trfs_create. acts. Qed.
Lemma acts_link o dir n : ACTS (trfs_link o dir n).
Proof. unfold trfs_link. acts. Qed.
Lemma acts_unlink dir d : ACTS (trfs_unlink dir d).
Proof. unfold trfs_unlink. acts. Qed.
Lemma acts_symlink dir d name : ACTS (trfs_symlink dir d name).
Proof. unfold trfs_symlink. acts. Qed.
Lemma acts_mkdir dir d mode : ACTS (trfs_mkdir dir d mode).
Proof. unfold trfs_mkdir. acts. Qed.
Lemma acts_rmdir dir d : ACTS (trfs_rmdir dir d).
Proof. unfold trfs_rmdir. acts. Qed.
Lemma acts_mknod dir d mode dev : ACTS (trfs_mknod dir d mode dev).
Proof. unfold trfs_mknod. acts. Qed.
Lemma acts_rename od o nd n : ACTS (trfs_rename od o nd n).
Proof. unfold trfs_rename. acts. Qed.
Lemma acts_write f buf count pos : ACTS (trfs_write f buf count pos).
Proof. unfold trfs_write, file_dentry, as_int. acts. Qed.
End Logged.
