(* ===== verification/Ready.v ===== *)
(** * When a request may be made, and what it comes to

    [expected] is what the VFS sees to before it calls, [spared] that the request
    is not one of those on which the sources fault or lose a reference, and
    [ready] both; [next] is what the VFS then holds;
    [serve] runs a list of requests, one after the other.  [lower_request] is
    what a request asks of the lower file system, for those that only pass it
    on. *)

From S2P Require Import Prelude Prog TrTypes Kernel TrfsH Lookup Ledger Trdump TrdumpSpec Inode FileOps Super.
From S2P Require Import Mount HandlerSpec HandlerThms IoctlThms MountThms LookupThms FileThms SymlinkThms Requests Live Through.

(** The methods for page faults that the lower file system gave a file. *)
Definition lower_ops_of (m : kmem) (f : ptr) : ptr :=
  default NULL (lower_vm_ops <$> (private_data m !! f ≫= fun p => file_infos m !! p)).

Definition lower_path_of (a : live) (d : ptr) : path := default (Path NULL NULL) (snd <$> dentries a !! d).
Definition lower_dentry_of (a : live) (d : ptr) : ptr := p_dentry (lower_path_of a d).

Definition lower_inode_of (m : kmem) (i : ptr) : ptr := default NULL (inode_infos m !! i).

Section Ready.
Context (w : kworld) (env : kenv) (magic : Z).

(** A dentry that was looked up and found; an open file. *)
Definition known (a : live) (d : ptr) : Prop :=
  exists info lp, dentries a !! d = Some (info, lp) /\
    positive w d /\ positive w (p_dentry lp) /\ good_ptr (p_dentry lp).
Definition opened_on (a : live) (f : ptr) : Prop :=
  is_Some (files a !! f) /\ positive w (dentry_of w f).

(** The file system [sb] is mounted. *)
Definition mount_in_place (m : kmem) (sb : ptr) : Prop :=
  exists lock si pos buf, mounted w m sb lock si pos buf.

(** A name in a directory, found or to be made. *)
Definition entry_in_place (a : live) (m : kmem) (dir d : ptr) : Prop :=
  mount_in_place m (sb_of w dir) /\ has_lower_inode m dir /\
  exists info lp, dentries a !! d = Some (info, lp) /\ good_ptr (p_dentry lp).

(** A file that exists, on the same mount as the directory. *)
Definition existing (a : live) (dir d : ptr) : Prop :=
  positive w d /\ sb_of w (inode_of w d) = sb_of w dir /\ is_Some (dentries a !! d).

Definition lookup_ready (a : live) (m : kmem) (d : ptr) : Prop :=
  good_ptr d /\ dentries a !! d = None /\
  exists (parent sb p : ptr) si,
    (forall h, env h (dget_parent d) = parent) /\ is_Some (dentries a !! parent) /\
    (forall h, env h (load F_d_sb d) = sb) /\ has_sb m sb p si.

(** What the VFS ensures: the objects of a request exist, and those that were
    looked up or opened have been bound by this module. *)
Definition expected (a : live) (m : kmem) (r : request) : Prop :=
  match r with
  | Create dir d _ _ | Mkdir dir d _ | Rmdir dir d | Mknod dir d _ _ => entry_in_place a m dir d
  | Unlink dir d =>
      entry_in_place a m dir d /\ positive w d /\ has_lower_inode m (inode_of w d)
  | Symlink dir d _ => entry_in_place a m dir d /\ (positive w d -> sb_of w (inode_of w d) = sb_of w dir)
  | Link old dir new =>
      entry_in_place a m dir new /\ existing a dir old /\ has_lower_inode m (inode_of w old)
  | Rename _ old dir new => entry_in_place a m dir new /\ existing a dir old
  | Permission i _ => good_ptr i
  | Setattr d ia => known a d /\ (Z.land (ia_valid ia) ATTR_FILE <> 0 -> is_Some (files a !! ia_file ia))
  | Getattr _ d stat => known a d /\ good_ptr stat
  | Readlink d _ _ | Setxattr d _ _ _ _ | Getxattr d _ _ _ | Listxattr d _ _ | Removexattr d _ | Revalidate d _ => known a d
  | Llseek f _ _ | Read f _ _ _ | Readdir f _ | Ioctl f _ _ | CompatIoctl f _ _ | Flush f _
  | Fasync _ f _ => opened_on a f
  | Fsync f _ _ _ => opened_on a f /\ is_Some (dentries a !! dentry_of w f)
  | Write f _ _ _ => opened_on a f /\ mount_in_place m (sb_of w (inode_of w (dentry_of w f)))
  | Mmap f vma => opened_on a f /\ good_ptr vma
  | ReadIter iocb _ | WriteIter iocb _ =>
      good_ptr iocb /\ exists f, opened_on a f /\ forall h, env h (load F_ki_filp iocb) = f
  | PageFault vma _ | PageMkwrite vma _ =>
      good_ptr vma /\ exists f, opened_on a f /\ good_ptr (lower_ops_of m f) /\
        forall h, env h (load F_vm_file vma) = f
  | DirectIO _ _ _ | Remount _ _ => True
  | Statfs d buf => known a d /\ good_ptr buf
  | UmountBegin sb => exists p si, has_sb m sb p si /\ (lower_sb si = NULL \/ good_ptr (lower_sb si))
  | EvictInode i => good_ptr i
  | Lookup _ d _ => lookup_ready a m d
  | ReleaseDentry d => is_Some (dentries a !! d)
  | Open i f => good_ptr i /\ good_ptr f /\ files a !! f = None /\ is_Some (dentries a !! dentry_of w f)
  | Release _ f => is_Some (files a !! f)
  | GetLink d _ _ => known a d
  | AllocInode _ => True
  | DestroyInode i => good_ptr (TRFS_I i) /\ TRFS_I i ∈ objects a /\ lower_inode_of m i = NULL
  | NfsGetInode sb _ _ => exists p si, has_sb m sb p si
  | Device _ _ _ => all_mounted w m
  end.

(** The path in the argument of a command, if it can be opened, is on a file
    system of this module. *)
Definition names_mount (arg : ptr) : Prop := forall h0 h1 h2,
  let mpath := snd (snd (env h0 (copy_from_user arg))) in
  let f := env h1 (filp_open mpath O_RDONLY 0) in
  IS_ERR f = false -> strcmp_eq (type_name w (sb_of w (env h2 (load F_f_inode f)))) TRFS_NAME = true.

(** What the sources cannot take, and the VFS does not keep from them.  The path
    of a name that is logged may not fit a page (finding at [trdump.c:54]); the
    data of a write or a link's target may be nothing, or more than a record
    can say ([log_write_64k_bug], [log_write_oversize]); the lower file system
    may refuse a symbolic link ([trfs_symlink_dies]) or give back a target
    without room for a terminator ([trfs_get_link_ends]); the inode of a file
    handle may not be in memory; a command may name a path on another file
    system, and then leaves it open ([refused]). *)
Definition spared (a : live) (m : kmem) (r : request) : Prop :=
  match r with
  | Create _ d _ _ | Mkdir _ d _ | Rmdir _ d | Mknod _ d _ _ | Unlink _ d => is_Some (path_of w d)
  | Symlink _ d name =>
      positive w d /\ exists path, path_of w d = Some path /\
        op_fits SYMLINK path name (int32 (strlen (b_data name)))
  | Link old _ new | Rename _ old _ new => is_Some (path_of w old) /\ is_Some (path_of w new)
  | Write f buf count _ =>
      exists path, path_of w (dentry_of w f) = Some path /\ op_fits FWRITE path buf (int32 count)
  | GetLink d _ _ => forall h buf, env h (i_op_readlink (lower_dentry_of a d) buf PAGE_SIZE) <> PAGE_SIZE
  | NfsGetInode sb ino _ =>
      forall p si, has_sb m sb p si -> forall h, good_ptr (env h (ilookup (lower_sb si) ino))
  | Device _ _ arg => names_mount arg
  | _ => True
  end.

Definition ready (a : live) (m : kmem) (r : request) : Prop := expected a m r /\ spared a m r.

(** What the VFS holds after a request that answered [v] and left the memory
    [m]. *)
Definition next (r : request) (v : Z) (m : kmem) (a : live) : live :=
  match r with
  | Lookup _ d _ =>
      let info := default NULL (d_fsdata m !! d) in
      if decide (info = NULL) then a
      else bind_dentry d info (default (Path NULL NULL) (dentry_infos m !! info)) a
  | ReleaseDentry d => drop_dentry d a
  | Open _ f =>
      if decide (v <> 0) then a
      else let p := default NULL (private_data m !! f) in
           open_file f p (default NULL (lower_file <$> file_infos m !! p)) a
  | Release _ f => close_file f a
  | GetLink _ _ _ => if IS_ERR v then a else give_object v a
  | AllocInode _ => if decide (v = NULL) then a else give_object (TRFS_I v) a
  | DestroyInode i => take_object (TRFS_I i) a
  | _ => a
  end.

(** Requests served one after the other. *)
Fixpoint serve (rs : list request) (a : live) (m : kmem) (h : khist) : option (live * kmem * khist) :=
  match rs with
  | [] => Some (a, m, h)
  | r :: rs =>
      match run env (handle magic r) m h with
      | Done v m' h' => serve rs (next r v m' a) m' h'
      | Faulted _ _ _ => None
      end
  end.

(** Each of them is ready when its turn comes. *)
Fixpoint all_ready (rs : list request) (a : live) (m : kmem) (h : khist) : Prop :=
  match rs with
  | [] => True
  | r :: rs =>
      ready a m r /\
      forall v m' h', run env (handle magic r) m h = finished v m' h' -> all_ready rs (next r v m' a) m' h'
  end.
End Ready.

(** ** On the lower objects *)

Definition lower_file_of (a : live) (f : ptr) : ptr := default NULL (snd <$> files a !! f).

(** The file that an area or a control block names. *)
Definition named (env : kenv) (field : kfield) (o : ptr) : ptr := env [] (load field o).

Definition lower_request (w : kworld) (env : kenv) (magic : Z) (a : live) (m : kmem)
    (r : request) : option (kprog Z) :=
  match r with
  | Readlink d buf size => Some (pass_readlink w d (lower_dentry_of a d) buf size)
  | Permission i mask => Some (pass_permission (lower_inode_of m i) mask)
  | Getattr _ d stat => Some (pass_getattr w d (lower_path_of a d) stat)
  | Setxattr d name value size flags => Some (pass_setxattr w d (lower_dentry_of a d) name value size flags)
  | Getxattr d name buf size => Some (pass_getxattr w d (lower_dentry_of a d) name buf size)
  | Listxattr d buf size => Some (pass_listxattr w d (lower_dentry_of a d) buf size)
  | Removexattr d name => Some (pass_removexattr w d (lower_dentry_of a d) name)
  | Llseek f off whence => Some (pass_llseek f (lower_file_of a f) off whence)
  | Read f buf count ppos => Some (pass_read w (dentry_of w f) (lower_file_of a f) buf count ppos)
  | Readdir f ctx => Some (pass_readdir w (dentry_of w f) f (lower_file_of a f) ctx)
  | Ioctl f cmd arg => Some (pass_ioctl f (lower_file_of a f) cmd arg)
  | CompatIoctl f cmd arg => Some (pass_compat_ioctl (lower_file_of a f) cmd arg)
  | Mmap f vma => Some (pass_mmap f (lower_file_of a f) vma (bool_decide (lower_ops_of m f <> NULL)))
  | Flush f id => Some (pass_flush f (lower_file_of a f) id)
  | Fsync f start finish datasync => Some (pass_fsync f (lower_file_of a f) start finish datasync)
  | Fasync fd f flag => Some (pass_fasync fd (lower_file_of a f) flag)
  | ReadIter iocb iter =>
      let f := named env F_ki_filp iocb in
      Some (pass_read_iter w (dentry_of w f) f (lower_file_of a f) iocb iter)
  | WriteIter iocb iter =>
      let f := named env F_ki_filp iocb in
      Some (pass_write_iter w (dentry_of w f) f (lower_file_of a f) iocb iter)
  | PageFault vma vmf =>
      let f := named env F_vm_file vma in
      Some (pass_fault (lower_file_of a f) (lower_ops_of m f) vma vmf)
  | PageMkwrite vma vmf =>
      let f := named env F_vm_file vma in
      Some (pass_page_mkwrite (lower_file_of a f) (lower_ops_of m f) vma vmf)
  | DirectIO _ _ _ => Some (mret (- EINVAL))
  | Statfs d buf => Some (pass_statfs magic (lower_path_of a d) buf)
  | Remount _ flags =>
      Some (mret (if decide (Z.ldiff flags (Z.lor (Z.lor MS_RDONLY MS_MANDLOCK) MS_SILENT) <> 0)
                  then - EINVAL else 0))
  | UmountBegin sb =>
      Some (pass_umount_begin (default NULL (lower_sb <$> (s_fs_info m !! sb ≫= fun p => sb_infos m !! p))))
  | EvictInode i => Some (pass_evict i (lower_inode_of m i))
  | Revalidate d flags => Some (pass_revalidate (lower_dentry_of a d) flags)
  (* these are logged, or change private data or attributes *)
  | Create _ _ _ _ | Link _ _ _ | Unlink _ _ | Symlink _ _ _ | Mkdir _ _ _ | Rmdir _ _ | Mknod _ _ _ _
  | Rename _ _ _ _ | Write _ _ _ _ | Setattr _ _ | Lookup _ _ _ | GetLink _ _ _ | Open _ _ | Release _ _
  | AllocInode _ | DestroyInode _ | NfsGetInode _ _ _ | ReleaseDentry _ | Device _ _ _ => None
  end.
