(* ===== verification/Served.v ===== *)
(** * Requests that leave private data alone

    From a state of the VFS that memory matches, a request that is neither a
    lookup nor an opening, nor a release of what these made, ends, gives back what
    it took and leaves private data as it was; if it is not logged either, it
    passes on what it was asked ([passes_on]). *)

From S2P Require Import Prelude Prog TrTypes Kernel TrfsH Lookup Ledger Trdump TrdumpSpec Inode FileOps Super.
From S2P Require Import Mount TrIoctl HandlerSpec HandlerThms IoctlThms MountThms LookupThms FileThms SymlinkThms AttrThms.
From S2P Require Import Requests Live Through Conserve Ready.

Section Settles.
Context (w : kworld) (env : kenv) (magic : Z).
Context (Henv : env_ok (kernel_ok w) env) (Hobj : objects_ok env).
Context (a : live) (m : kmem) (h : khist) (Hm : represents a m).
Local Abbreviation SETTLES p := (settles m h (run env p m h)).

Lemma run_settles {A} (p : kprog A) : wp (sane w env) p (settles m h) m h -> SETTLES p.
Proof. intros Hp. apply (wp_run _ _ _ _ _ _ Hp), sane_env; done. Qed.

Lemma balanced_settles (p : kprog Z) v m' h' :
  acts_only (S := ksig) same_data p -> run env p m h = finished v m' h' -> balanced h h' -> SETTLES p.
Proof.
  intros Ha E Hbal. pose proof (run_acts _ env p m h Ha) as Hs. destruct (run_hist env p m h) as [tr Htr].
  rewrite E in *. simpl in *. subst h'. exists v, m', tr. split_and!; [done| |exact Hs].
  intros x Hx. specialize (Hbal x Hx). rewrite net_app in Hbal. unfold takes. simpl. lia.
Qed.

(** The log of the handler is of no concern here. *)
Ltac by_log lem :=
  lazymatch goal with
  | |- settles _ _ (run _ ?p _ _) =>
      let H := fresh "H" in
      assert (H := wp_run _ p _ m h env lem (kernel_ok_if_env _ _ Henv));
      unfold rename_end, unlink_end in H; destruct H as (? & H); decompose record H; clear H; eapply balanced_settles; [|eassumption|eassumption]
  end.

Lemma entry_ok dir d : entry_in_place w a m dir d -> is_Some (path_of w d) ->
  exists lock si pos buf info lp path, in_place w m (sb_of w dir) lock si pos buf dir d info lp path.
Proof.
  intros ((lock & si & pos & buf & Hmt) & Hdir & info & lp & Hd & Hg) [path Hp].
  exists lock, si, pos, buf, info, lp, path. constructor; try done.
  apply (dm_some _ _ (rp_dentries _ _ Hm) _ _ Hd).
Qed.

Lemma known_in_use d : known w a d -> exists info, in_use w m d info (lower_path_of a d).
Proof.
  intros (info & lp & Hd & Hp & Hpl & Hg). exists info. unfold lower_path_of. rewrite Hd. split_and!; try done.
  apply (dm_some _ _ (rp_dentries _ _ Hm) _ _ Hd).
Qed.

Lemma bound_lower d : is_Some (dentries a !! d) -> exists info lp, has_lower m d info lp.
Proof.
  intros [[info lp] Hd]. exists info, lp. apply (dm_some _ _ (rp_dentries _ _ Hm) _ _ Hd).
Qed.

Lemma opened_has_file f : is_Some (files a !! f) -> exists p fi, has_file m f p fi.
Proof.
  intros [[p lf] Hf]. apply (fm_some _ _ (rp_files _ _ Hm)) in Hf as [ops Hf]. eauto.
Qed.

Lemma opened_in_hand f : opened_on w a f -> exists p fi, in_hand w m f p fi /\
  lower_file_of a f = lower_file fi /\ lower_ops_of m f = lower_vm_ops fi.
Proof.
  intros [[[p lf] Hf] Hpos]. pose proof Hf as (ops & Hh)%(fm_some _ _ (rp_files _ _ Hm)). simpl in Hh.
  exists p, (FileInfo lf ops). pose proof Hh as ((_ & Hpd & _ & Hfi) & _).
  unfold lower_file_of, lower_ops_of. rewrite Hf, Hpd. simpl. by rewrite Hfi.
Qed.

Lemma entry_settles dir d r :
  entry_in_place w a m dir d -> is_Some (path_of w d) ->
  (exists mode excl, r = Create dir d mode excl) \/ (exists mode, r = Mkdir dir d mode) \/
  r = Rmdir dir d \/ (exists mode dev, r = Mknod dir d mode dev) -> SETTLES (handle magic r).
Proof.
  intros He Hpath. destruct (entry_ok _ _ He Hpath) as (lock & si & pos & buf & info & lp & path & Hip).
  intros [(mode & excl & ->)|[[mode ->]|[->|(mode & dev & ->)]]]; simpl.
  - by_log (wp_trfs_create w env m h _ _ _ _ _ _ _ _ _ Hip mode excl). apply acts_create.
  - by_log (wp_trfs_mkdir w env m h _ _ _ _ _ _ _ _ _ Hip mode). apply acts_mkdir.
  - by_log (wp_trfs_rmdir w env m h _ _ _ _ _ _ _ _ _ Hip). apply acts_rmdir.
  - by_log (wp_trfs_mknod w env m h _ _ _ _ _ _ _ _ _ Hip mode dev). apply acts_mknod.
Qed.

Lemma unlink_settles dir d :
  entry_in_place w a m dir d -> is_Some (path_of w d) -> positive w d -> has_lower_inode m (inode_of w d) ->
  SETTLES (trfs_unlink dir d).
Proof.
  intros He Hpath Hp Hi. destruct (entry_ok _ _ He Hpath) as (lock & si & pos & buf & info & lp & path & Hip).
  by_log (wp_trfs_unlink w env m h _ _ _ _ _ _ _ _ _ Hip Hp Hi). apply acts_unlink.
Qed.

Lemma symlink_settles dir d name :
  entry_in_place w a m dir d -> positive w d -> sb_of w (inode_of w d) = sb_of w dir ->
  (exists path, path_of w d = Some path /\ op_fits SYMLINK path name (int32 (strlen (b_data name)))) ->
  SETTLES (trfs_symlink dir d name).
Proof.
  intros He Hp Hsb (path0 & Hpath & Hfit).
  destruct (entry_ok _ _ He (mk_is_Some _ _ Hpath)) as (lock & si & pos & buf & info & lp & path & Hip).
  rewrite (ip_path _ _ _ _ _ _ _ _ _ _ _ _ Hip) in Hpath. injection Hpath as <-.
  by_log (wp_trfs_symlink w env m h _ _ _ _ _ _ _ _ _ name Hip Hp Hsb Hfit).
  apply acts_symlink.
Qed.

Lemma link_settles old dir new :
  entry_in_place w a m dir new -> existing w a dir old -> has_lower_inode m (inode_of w old) ->
  is_Some (path_of w old) -> is_Some (path_of w new) -> SETTLES (trfs_link old dir new).
Proof.
  intros He (Hp & Hsb & Hd) Hi [opath Ho] Hn.
  destruct (entry_ok _ _ He Hn) as (lock & si & pos & buf & info & lp & path & Hip).
  apply bound_lower in Hd as (oinfo & olp & Hl).
  by_log (wp_trfs_link w env m h _ _ _ _ _ _ _ _ _ _ _ _ _ Hip Hl Hp Hsb Ho Hi). apply acts_link.
Qed.

Lemma rename_settles od old dir new :
  entry_in_place w a m dir new -> existing w a dir old ->
  is_Some (path_of w old) -> is_Some (path_of w new) -> SETTLES (trfs_rename od old dir new).
Proof.
  intros He (Hp & Hsb & Hd) [opath Ho] Hn.
  destruct (entry_ok _ _ He Hn) as (lock & si & pos & buf & info & lp & path & Hip).
  apply bound_lower in Hd as (oinfo & olp & Hl).
  by_log (wp_trfs_rename w env m h _ _ _ _ _ _ _ _ _ _ _ _ _ Hip Hl Hp Hsb Ho od dir). apply acts_rename.
Qed.

Lemma write_settles f buf count ppos path :
  opened_on w a f -> mount_in_place w m (sb_of w (inode_of w (dentry_of w f))) ->
  path_of w (dentry_of w f) = Some path -> op_fits FWRITE path buf (int32 count) ->
  SETTLES (trfs_write f buf count ppos).
Proof.
  intros (p & fi & [Hf Hpos] & _)%opened_in_hand (lock & si & pos & page & Hmt) Hpath Hfit.
  by_log (wp_trfs_write w env m h _ _ _ _ _ _ _ _ Hmt Hf Hpos Hpath buf count ppos Hfit). apply acts_write.
Qed.

Lemma setattr_settles d ia :
  known w a d -> (Z.land (ia_valid ia) ATTR_FILE <> 0 -> is_Some (files a !! ia_file ia)) ->
  SETTLES (trfs_setattr d ia).
Proof.
  intros (info & Hl & Hp & Hpl & Hg)%known_in_use Hf. apply run_settles.
  assert (exists p fi, Z.land (ia_valid ia) ATTR_FILE <> 0 -> has_private m (ia_file ia) p fi) as (p & fi & Hpr).
  { destruct (decide (Z.land (ia_valid ia) ATTR_FILE <> 0)) as [Hv|Hv]; [|by exists 0, (FileInfo 0 0)].
    destruct (opened_has_file _ (Hf Hv)) as (p & fi & Hh & _). eauto. }
  eapply wp_setattr with (w := w); [done..|apply _|]. intros err t Ht _. exists err, m, t.
  split_and!; [done| |done]. intros x _. by rewrite Ht.
Qed.

(** What only passes on what it is asked. *)
Definition PASSES spec r : Prop := passes spec m h (run env (handle magic r) m h).

Lemma run_passes spec r :
  wp (sane w env) (handle magic r) (passes spec m h) m h -> PASSES spec r.
Proof. intros Hp. apply (wp_run _ _ _ _ _ _ Hp), sane_env; done. Qed.

Ltac of_hand H :=
  let Hlf := fresh "Hlf" in let Hops := fresh "Hops" in
  apply opened_in_hand in H as (? & ? & ? & Hlf & Hops); rewrite ?Hlf, ?Hops.
Ltac of_known H := apply known_in_use in H as (? & ?).

Lemma pass_on_dentry r spec : expected w env a m r -> lower_request w env magic a m r = Some spec ->
  match r with
  | Readlink _ _ _ | Getattr _ _ _ | Setxattr _ _ _ _ _ | Getxattr _ _ _ _ | Listxattr _ _ _
  | Removexattr _ _ | Statfs _ _ | Revalidate _ _ => True
  | _ => False
  end -> PASSES spec r.
Proof.
  intros Hr Hs Hc. destruct r; try done; simpl in Hr, Hs; injection Hs as <-; apply run_passes; simpl.
  - of_known Hr. by eapply passes_readlink.
  - destruct Hr as [Hk ?]. of_known Hk. by eapply passes_getattr.
  - of_known Hr. by eapply passes_setxattr.
  - of_known Hr. by eapply passes_getxattr.
  - of_known Hr. by eapply passes_listxattr.
  - of_known Hr. by eapply passes_removexattr.
  - destruct Hr as [Hk ?]. of_known Hk. by eapply passes_statfs.
  - of_known Hr. by eapply passes_revalidate.
Qed.

Lemma pass_on_file r spec : expected w env a m r -> lower_request w env magic a m r = Some spec ->
  match r with
  | Llseek _ _ _ | Read _ _ _ _ | Readdir _ _ | Ioctl _ _ _ | CompatIoctl _ _ _ | Mmap _ _ | Flush _ _
  | Fsync _ _ _ _ | Fasync _ _ _ => True
  | _ => False
  end -> PASSES spec r.
Proof.
  intros Hr Hs Hc. destruct r; try done; simpl in Hr, Hs; injection Hs as <-; apply run_passes; simpl.
  - of_hand Hr. by eapply passes_llseek.
  - of_hand Hr. by eapply passes_read.
  - of_hand Hr. by eapply passes_readdir.
  - of_hand Hr. by eapply passes_ioctl.
  - of_hand Hr. by eapply passes_compat_ioctl.
  - destruct Hr as [Hf Hv]. of_hand Hf. by eapply passes_mmap.
  - of_hand Hr. by eapply passes_flush.
  - destruct Hr as [Hf Hd]. of_hand Hf. apply bound_lower in Hd as (? & ? & ?). by eapply passes_fsync.
  - of_hand Hr. by eapply passes_fasync.
Qed.

(** The file that a control block or an area names. *)
Lemma pass_on_named r spec : expected w env a m r -> lower_request w env magic a m r = Some spec ->
  match r with ReadIter _ _ | WriteIter _ _ | PageFault _ _ | PageMkwrite _ _ => True | _ => False end ->
  PASSES spec r.
Proof.
  intros Hr Hs Hc. destruct r; try done; simpl in Hr, Hs; injection Hs as <-; apply run_passes; simpl.
  - destruct Hr as (Hi & f & Hf & Hk). unfold named. rewrite Hk. of_hand Hf. by eapply passes_read_iter.
  - destruct Hr as (Hi & f & Hf & Hk). unfold named. rewrite Hk. of_hand Hf. by eapply passes_write_iter.
  - destruct Hr as (Hv & f & Hf & Ho & Hvm). unfold named. rewrite Hvm. of_hand Hf. rewrite Hops in Ho.
    by eapply passes_fault.
  - destruct Hr as (Hv & f & Hf & Ho & Hvm). unfold named. rewrite Hvm. of_hand Hf. rewrite Hops in Ho.
    by eapply passes_page_mkwrite.
Qed.

Lemma passes_on r spec : expected w env a m r -> lower_request w env magic a m r = Some spec -> PASSES spec r.
Proof.
  intros Hr Hs. destruct r; try discriminate Hs;
    try first [by apply pass_on_dentry|by apply pass_on_file|by apply pass_on_named];
    simpl in Hr, Hs; injection Hs as <-; apply run_passes; simpl.
  - by apply passes_permission.
  - apply passes_nothing.
  - apply passes_nothing.
  - destruct Hr as (p & si & Hsb & Hl). pose proof Hsb as (_ & H1 & _ & H2). rewrite H1. simpl. rewrite H2.
    by eapply passes_umount_begin.
  - by apply passes_evict.
Qed.

(** ** Finding an inode for NFS, and the device *)

Lemma nfs_settles sb p si ino generation :
  has_sb m sb p si -> (forall h, good_ptr (env h (ilookup (lower_sb si) ino))) ->
  SETTLES (trfs_nfs_get_inode sb ino generation).
Proof.
  intros Hs Hl. apply run_settles. unfold trfs_nfs_get_inode, trfs_lower_super. apply wp_fmap.
  eapply wp_sb_info; [done|]. apply wp_kdo. intros li (_ & _ & E). simpl in E. subst li. apply wp_tail.
  eapply wp_trfs_iget with (w := w); [apply _|apply Hl|]. intros r tr m' Ht Hfr _.
  eexists r, m', _. split; [rewrite <- app_assoc; reflexivity|]. split.
  - intros x Hx. rewrite net_app, (tame_net tr) by done. simpl. unfold one_if. unfold takes. simpl.
    destruct (nonnull _); simpl; rewrite ?hits_inode by done; lia.
  - by destruct Hfr as [->|(? & ? & _ & ->)].
Qed.

Lemma masked_same_data sb p v si : has_sb m sb p si -> same_data m (masked m p v si).
Proof.
  intros (_ & _ & _ & Hp). split; [done|]. split; [done|]. simpl. rewrite fmap_insert, insert_id; [done|].
  by rewrite lookup_fmap, Hp.
Qed.

Lemma in_answered tr c r : answered env h tr -> In (KEv c r) tr -> exists h', r = env h' c.
Proof. intros Ha (t1 & t2 & ->)%in_split. exists (h ++ t1). by apply (Ha t1 (KEv c r) t2). Qed.

(** A command that was refused took nothing, unless the path is on another file
    system. *)
Lemma refused_level arg v tr :
  names_mount w env arg -> answered env h tr -> refused w arg v tr -> level tr.
Proof.
  intros Hn Ha Hr x Hx. destruct Hr as [u b Hu|v mpath n Hn'|v mpath n f Hn' Hf|v mpath n f i Hn' Hf Hs]; simpl.
  - done.
  - rewrite (proj1 Hn'). simpl. lia.
  - rewrite Hn', (proj1 Hf). simpl. lia.
  - exfalso.
    destruct (in_answered _ (copy_from_user arg) (0, (v, mpath)) Ha) as [h0 E0]; [by left|].
    destruct (in_answered _ (filp_open mpath O_RDONLY 0) f Ha) as [h1 E1]; [simpl; auto|].
    destruct (in_answered _ (load F_f_inode f) i Ha) as [h2 E2]; [simpl; auto 10|].
    specialize (Hn h0 h1 h2). simpl in E0, E1, E2. rewrite <- E0 in Hn. simpl in Hn.
    rewrite <- E1, <- E2 in Hn. specialize (Hn Hf). congruence.
Qed.

Lemma device_settles f cmd arg : all_mounted w m -> names_mount w env arg -> SETTLES (tr_ioctl f cmd arg).
Proof.
  intros Hall Hn.
  assert (exists v m' tr, run env (tr_ioctl f cmd arg) m h = finished v m' (h ++ tr) /\
    (refused w arg v tr /\ m' = m \/ level tr /\ same_data m m')) as (v & m' & tr & E & Hend).
  { by_wp (kernel_ok w). unfold tr_ioctl. case_decide; [|case_decide].
    - eapply wp_tr_get_bmap with (w := w); [apply _|done|..].
      + intros r tr Hr. exists r, m, tr. auto.
      + intros v mpath n f' i p si u Hn' Hf' Hs. eexists _, _, _. split; [done|]. right. split; [|done].
        autounfold with ledger. intros x _. simpl. rewrite Hn', Hf'. simpl. lia.
    - eapply wp_tr_set_bmap with (w := w); [apply _|done|..].
      + intros r tr Hr. exists r, m, tr. auto.
      + intros v mpath n f' i p si Hn' Hf' Hs. eexists _, _, _. split; [done|]. right.
        split; [|by eapply masked_same_data].
        autounfold with ledger. intros x _. simpl. rewrite Hn', Hf'. simpl. lia.
    - exists (- EINVAL), m, []. rewrite app_nil_r. split; [done|]. right. split; [|done]. by intros x _. }
  exists v, m', tr. split; [done|].
  assert (Ha : answered env h tr) by (eapply run_answered; by rewrite E).
  destruct Hend as [[Hr ->]|[Hl Hs]]; (split; [|done]); intros x Hx; unfold takes; simpl.
  - by eapply refused_level.
  - by apply Hl.
Qed.

(** Requests that change what the VFS holds. *)
Definition changes_live (r : request) : bool :=
  match r with
  | Lookup _ _ _ | ReleaseDentry _ | Open _ _ | Release _ _ | GetLink _ _ _ | AllocInode _ | DestroyInode _ => true
  | _ => false
  end.

Lemma plain_settles r : ready w env a m r -> changes_live r = false -> SETTLES (handle magic r).
Proof.
  intros [Hr Hspared] Hc. destruct (lower_request w env magic a m r) as [spec|] eqn:E.
  { by eapply passes_settles, passes_on. }
  destruct r; simpl in Hr, Hspared, Hc, E; try done.
  - eapply entry_settles; [done..|]. left. eauto.
  - destruct Hr as (? & ? & ?), Hspared. by apply link_settles.
  - destruct Hr as (? & ? & ?). by apply unlink_settles.
  - destruct Hr as [? Hsb], Hspared as [? ?]. by apply symlink_settles; auto.
  - eapply entry_settles; [done..|]. right. left. eauto.
  - eapply entry_settles; [done..|]. auto.
  - eapply entry_settles; [done..|]. right. right. right. eauto.
  - destruct Hr, Hspared. by apply rename_settles.
  - destruct Hr. by apply setattr_settles.
  - destruct Hr as (? & ?), Hspared as (path & ? & ?). by eapply write_settles.
  - destruct Hr as (p & si & ?). eapply nfs_settles; [done|]. by eapply Hspared.
  - by apply device_settles.
Qed.
End Settles.
