(* ===== verification/Life.v ===== *)
(** * The life of private data

    Requests served one after the other, from any state of the VFS: each ends,
    and afterwards the module's memory holds private data for exactly the
    dentries and open files there are, and the module holds the references these
    account for ([serve_books]).  The requests that change what the VFS holds are
    dealt with here, the others in [Served]. *)

From S2P Require Import Prelude Prog TrTypes Kernel TrfsH Lookup Ledger Trdump TrdumpSpec Inode FileOps Super.
From S2P Require Import HandlerSpec HandlerThms IoctlThms MountThms LookupThms FileThms SymlinkThms AttrThms.
From S2P Require Import Requests Live Through Conserve Ready Served Demo.

(** ** Requests that change what the VFS holds *)

Section Changes.
Context (w : kworld) (env : kenv) (magic : Z).
Context (Henv : env_ok (kernel_ok w) env) (Hcareful : careful_alloc env).
Context (base : resource -> Z) (a : live) (m : kmem) (h : khist) (Hb : books base a m h).

(** The request ends, and the books balance. *)
Definition kept (r : request) : Prop :=
  exists v m' h', run env (handle magic r) m h = finished v m' h' /\ books base (next r v m' a) m' h' /\
    same_mounts m m'.

Lemma next_bound dir d fl v m' info lp :
  has_lower m' d info lp -> next (Lookup dir d fl) v m' a = bind_dentry d info lp a.
Proof.
  intros (_ & Hf & Hi & Hl). simpl. rewrite Hf. simpl. rewrite decide_False by by apply good_ptr_nonnull.
  by rewrite Hl.
Qed.

Lemma lookup_kept dir d fl : lookup_ready env a m d -> kept (Lookup dir d fl).
Proof.
  intros (Hd & Hfree & parent & sb & p & si & Hpar & [[pinfo plp] Hpd] & Hsb & Hs).
  pose proof (bk_memory _ _ _ _ Hb) as [Hdm _].
  assert (Hip : lookup_in_place env m d parent pinfo plp sb p si).
  { constructor; try done; [by apply (dm_none _ _ Hdm)|by apply (dm_some _ _ Hdm) in Hpd]. }
  assert (exists (r : Z) m' tr, run env (trfs_lookup dir d fl) m h = finished r m' (h ++ tr) /\
    lookup_end sb (lower_sb si) m d plp r m' tr) as (r & m' & tr & E & Hend).
  { pose proof (answers_env w env Henv). by_wp (answers w env). eapply wp_trfs_lookup; [done..|eauto]. }
  assert (Hans : answered env h tr) by (eapply run_answered; by rewrite E).
  exists r, m', (h ++ tr). split; [exact E|].
  assert (Hbind : forall info lp, has_lower m' d info lp -> given m m' d info lp -> allocates tr info ->
    keeps tr [RDentry (p_dentry lp); RMnt (p_mnt lp); RMem info] ->
    books base (next (Lookup dir d fl) r m' a) m' (h ++ tr)).
  { intros info lp Hl Hg Hal Hk. rewrite (next_bound _ _ _ _ _ _ _ Hl).
    destruct (books_fresh _ _ _ _ Hb env tr info) as (Hi & _ & _); [done..|apply Hl|]. by eapply books_bind. }
  destruct Hend as [_ -> Hk|info Hl Hg Hms Hal _ Hk|info lp Hl Hg Hms Hal _ _ Hk];
    [split; [|done]|split; [|done]|split; [by eapply Hbind|done]].
  - simpl. rewrite (dm_none _ _ Hdm) by done. rewrite decide_True by done. by eapply books_same.
  - eapply Hbind; [done..|]. intros x Hx. rewrite (Hk x Hx). unfold takes. simpl.
    rewrite !(hits_ne _ (RDentry NULL)), !(hits_ne _ (RMnt NULL)) by (intros <-; by apply Hx). lia.
Qed.

Lemma release_dentry_kept d : is_Some (dentries a !! d) -> kept (ReleaseDentry d).
Proof.
  intros [[info lp] Hd]. pose proof (dm_some _ _ (rp_dentries _ _ (bk_memory _ _ _ _ Hb)) _ _ Hd) as Hl.
  refine (wp_run (kernel_ok w) _ (fun o => exists v m' h', o = finished v m' h' /\
    books base (drop_dentry d a) m' h' /\ same_mounts m m') m h env _ Henv).
  simpl. eapply wp_trfs_d_release; [exact Hl|]. intros c. eexists 0, _, _. split; [done|].
  split; [by eapply books_drop|done].
Qed.

Lemma open_kept i f :
  good_ptr i -> good_ptr f -> files a !! f = None -> is_Some (dentries a !! dentry_of w f) ->
  kept (Open i f).
Proof.
  intros Hi Hf Hfree [[info lp] Hd].
  pose proof (dm_some _ _ (rp_dentries _ _ (bk_memory _ _ _ _ Hb)) _ _ Hd) as Hl.
  assert (exists (err : Z) m' tr, run env (trfs_open i f) m h = finished err m' (h ++ tr) /\
    open_end m f lp err m' tr) as (err & m' & tr & E & Hend).
  { by_wp (kernel_ok w). eapply wp_trfs_open with (w := w); [apply _|done..|]. eauto. }
  assert (Hans : answered env h tr) by (eapply run_answered; by rewrite E).
  exists err, m', (h ++ tr). split; [exact E|].
  assert (Hfresh : forall p, good_ptr p -> allocates tr p -> file_infos m !! p = None).
  { intros p Hp Hal. by destruct (books_fresh _ _ _ _ Hb env tr p) as (_ & ? & _). }
  destruct Hend as [Herr Ho Hk|p lf flags -> Hfile Ho Hal _ Hk].
  - simpl. rewrite decide_True by lia. split; [by eapply books_open_none|apply Ho].
  - pose proof Hfile as ((_ & Hp & Hgp & Hfi) & _). simpl. rewrite Hp. simpl. rewrite Hfi. simpl.
    split; [eapply books_open; eauto|apply Ho].
Qed.

Lemma release_kept i f : is_Some (files a !! f) -> kept (Release i f).
Proof.
  intros [[p lf] Hf]. pose proof Hf as (ops & Hfile)%(fm_some _ _ (rp_files _ _ (bk_memory _ _ _ _ Hb))).
  refine (wp_run (kernel_ok w) _ (fun o => exists v m' h', o = finished v m' h' /\
    books base (close_file f a) m' h' /\ same_mounts m m') m h env _ Henv).
  simpl. apply wp_tail. eapply wp_trfs_file_release; [exact Hfile|]. intros m' Hc. eexists 0, _, _. split; [done|].
  split; [by eapply books_close|apply Hc].
Qed.

Lemma get_link_kept d inode done : ready w env a m (GetLink d inode done) -> kept (GetLink d inode done).
Proof.
  intros [Hk Hshort]. destruct (known_in_use w a m (bk_memory _ _ _ _ Hb) d Hk) as (info & Hl & Hp & Hpl & Hg).
  pose proof (wp_run (kernel_ok w) _ _ m h env (wp_trfs_get_link w _ d inode done info _ m h Hl Hp Hpl Hg) Henv) as Hend.
  unfold kept. simpl. remember (run env (trfs_get_link d inode done) m h) as o eqn:Eo.
  assert (Ha : forall tr, outcome_hist o = h ++ tr -> answered env h tr)
    by (intros tr E; eapply run_answered; by rewrite <- Eo).
  destruct Hend as [e m' tr [He _] Hkp [Hs Hms]|buf n data m' tr Hn Hin _ _ Hbg Hal Hkp [Hs Hms]|buf m' tr Hin].
  - exists e, m', (h ++ tr). split; [done|]. simpl. rewrite He. split; [by eapply books_same|done].
  - exists buf, m', (h ++ tr). split; [done|]. simpl. rewrite good_ptr_no_err by done. split; [|done].
    destruct (books_fresh _ _ _ _ Hb env tr buf) as (_ & _ & Hf); [done|by apply Ha|done..|]. by eapply books_give.
  - destruct (in_answered env h tr _ _ (Ha _ eq_refl) Hin) as [h' E]. by destruct (Hshort h' buf).
Qed.

Lemma alloc_inode_kept (Hobj : objects_ok env) sb : kept (AllocInode sb).
Proof.
  unfold kept. simpl.
  assert (exists v m' tr, run env (trfs_alloc_inode sb) m h = finished v m' (h ++ tr) /\ same_data m m' /\
    (v = NULL /\ keeps tr [] \/ exists p, v = vfs_inode p /\ good_ptr p /\ allocates tr p /\ keeps tr [RMem p]))
    as (v & m' & tr & E & [Hs Hms] & Hend).
  { pose proof (sane_env w env Henv Hobj). by_wp (sane w env). unfold trfs_alloc_inode. unfold gets.
    cbn [wp mbind prog_mbind prog_bind fst snd]. apply wp_kdo. intros p (Hp & Ho & _). simpl in Hp, Ho. case_decide.
    - subst p. eexists NULL, m, _. split; [done|]. split; [done|]. left. split; [done|]. intros x _. simpl. done.
    - destruct Hp as [?|Hp]; [done|]. destruct Ho as [?|Ho]; [done|].
      assert (good_ptr (vfs_inode p)) by (unfold good_ptr, vfs_inode, sizeof_ptr, PAGE_SIZE, MAX_ERRNO in *; lia).
      apply wp_field_set; [done|]. kstep. eexists (vfs_inode p), _, _.
      split; [rewrite <- app_assoc; reflexivity|]. split; [done|]. right. exists p.
      split_and!; [done|done|by exists [], (KEv (kmem_cache_alloc (trfs_inode_cachep m)) p); eexists|].
      intros x _. simpl. rewrite (good_ptr_nonnullb p) by done. unfold takes. simpl. lia. }
  assert (Ha : answered env h tr) by (eapply run_answered; by rewrite E).
  exists v, m', (h ++ tr). split; [done|]. split; [|done]. simpl.
  destruct Hend as [[-> Hk]|(p & -> & Hg & Hal & Hk)].
  - rewrite decide_True by done. by eapply books_same.
  - rewrite decide_False by (unfold vfs_inode, sizeof_ptr, NULL, good_ptr in *; lia).
    replace (TRFS_I (vfs_inode p)) with p by (unfold TRFS_I, vfs_inode; lia).
    destruct (books_fresh _ _ _ _ Hb env tr p) as (_ & _ & Hf); [done..|]. by eapply books_give.
Qed.

Lemma destroy_inode_kept i : good_ptr (TRFS_I i) -> TRFS_I i ∈ objects a -> kept (DestroyInode i).
Proof.
  intros Hg Hi.
  refine (wp_run (kernel_ok w) _ (fun o => exists v m' h', o = finished v m' h' /\
    books base (take_object (TRFS_I i) a) m' h' /\ same_mounts m m') m h env _ Henv).
  simpl. unfold trfs_destroy_inode. kassoc. unfold gets. cbn [wp mbind prog_mbind prog_bind fst snd].
  intros [] _. eexists 0, _, _. split; [done|]. split; [|done].
  eapply books_take; try done. intros x _. simpl. rewrite good_ptr_nonnullb by done. unfold takes. simpl. lia.
Qed.
End Changes.

(** ** The theorem *)

Section Serve.
Context (w : kworld) (env : kenv) (magic : Z).
Context (Henv : env_ok (kernel_ok w) env) (Hobj : objects_ok env) (Hcareful : careful_alloc env).
Context (base : resource -> Z).

Lemma request_kept a m h r : books base a m h -> ready w env a m r -> kept env magic base a m h r.
Proof.
  intros Hb Hr. destruct (changes_live r) eqn:Hc.
  - destruct Hr as [Hr Hspared]. destruct r; try done; simpl in Hr.
    + by eapply lookup_kept.
    + by eapply get_link_kept.
    + destruct Hr as (? & ? & ? & ?). by eapply open_kept.
    + by eapply release_kept.
    + by eapply alloc_inode_kept.
    + destruct Hr as (? & ? & _). by eapply destroy_inode_kept.
    + by eapply release_dentry_kept.
  - destruct (plain_settles w env magic Henv Hobj a m h (bk_memory _ _ _ _ Hb) r Hr Hc) as (v & m' & tr & E & Hk & Hs & Hms).
    exists v, m', (h ++ tr). split_and!; [done| |done].
    replace (next r v m' a) with a by (by destruct r). by eapply books_same.
Qed.

Lemma serve_books rs a m h :
  books base a m h -> all_ready w env magic rs a m h ->
  exists a' m' h', serve env magic rs a m h = Some (a', m', h') /\ books base a' m' h' /\ same_mounts m m'.
Proof.
  revert a m h. induction rs as [|r rs IH]; intros a m h Hb Hr; [by exists a, m, h|].
  destruct Hr as [Hr Hrs]. destruct (request_kept a m h r Hb Hr) as (v & m1 & h1 & E & Hb1 & [S1 S2]).
  destruct (IH _ _ _ Hb1 (Hrs _ _ _ E)) as (a' & m' & h' & Es & Hb' & [S3 S4]). exists a', m', h'.
  split_and!; [|done|split; congruence]. simpl. by rewrite E.
Qed.
End Serve.

(** C4: from any state of the VFS that the module's memory matches, any requests,
    one after the other, that are each [ready] when its turn comes, that is, which
    the VFS may make ([expected]) and which are not among the inputs that the
    sources cannot take ([spared]: writes and links whose data or path does not
    fit the record, symbolic links the lower file system refuses, link targets that
    fill a page, file handles of inodes not in memory, commands that name
    another file system), all end.  Afterwards memory matches again: the dentries
    and files that are in use, and no others, have private data, each its own.
    The references held to dentries, mounts, super blocks and files, the locks,
    and the objects allocated, have changed by what these and the inodes and
    link targets that were handed out account for; when all of it has been
    released again, they are what they were.  Pages of the log and references to
    inodes are not counted here: [log_op_pages] and [requests_keep_inodes] say
    what becomes of them. *)
Theorem requests_keep_books w env magic rs a m h :
  env_ok (kernel_ok w) env -> objects_ok env -> careful_alloc env ->
  represents a m -> (forall p, held a (RMem p) <= net h (RMem p)) ->
  all_ready w env magic rs a m h ->
  exists a' m' h', serve env magic rs a m h = Some (a', m', h') /\ represents a' m' /\
    (forall x, tracked x -> net h' x - net h x = held a' x - held a x) /\
    (a' = a -> balanced h h').
Proof.
  intros Henv Hobj Hc Hm Hmem Hr. set (base := fun x => net h x - held a x).
  assert (Hb : books base a m h) by (split; [done|intros p; specialize (Hmem p); unfold base; lia|unfold base; lia]).
  destruct (serve_books w env magic Henv Hobj Hc base rs a m h Hb Hr) as (a' & m' & h' & E & [Hm' _ Hnet] & _).
  assert (Hdiff : forall x, tracked x -> net h' x - net h x = held a' x - held a x).
  { intros x Hx. rewrite (Hnet x Hx). unfold base. lia. }
  exists a', m', h'. split_and!; [done|done|exact Hdiff|].
  intros -> x Hx. specialize (Hdiff x Hx). lia.
Qed.

(** ** At a concrete kernel *)

(** An allocator that never hands out an object twice. *)
Definition careful (env : kenv) : kenv := fun h c =>
  match c return kreply c -> kreply c with
  | kzalloc _ | kmem_cache_alloc _ | kmem_cache_zalloc _ =>
      fun p => if decide (0 < net h (RMem p)) then NULL else p
  | kmalloc _ => fun r => if decide (0 < net h (RMem (fst r))) then (NULL, []) else r
  | _ => fun r => r
  end (env h c).

Lemma careful_is_careful env : careful_alloc (careful env).
Proof.
  intros h c p. unfold careful.
  destruct c; simpl; try done; intros [= <-]; case_decide; simpl; try done; lia.
Qed.

Lemma careful_ok w env : env_ok (kernel_ok w) env -> env_ok (kernel_ok w) (careful env).
Proof.
  intros Hw h c. specialize (Hw h c). unfold careful. destruct c; try done; simpl in *; case_decide; auto.
Qed.

Lemma careful_objects env : objects_ok env -> objects_ok (careful env).
Proof. intros Ho h c. specialize (Ho h c). destruct c; try done. simpl in *. case_decide; auto. Qed.

(** Objects for everything that is asked for. *)
Definition demo_objects_in (c : kfun) : Z :=
  match c with
  | load _ _ => 700 | kzalloc _ => 800 | dentry_open _ _ => 43 | kmem_cache_zalloc _ => 960
  | iget5_locked _ _ _ => 900 | igrab _ => 1 | _ => 0
  end.

Definition demo_life_env : kenv := careful (demo_env demo_objects_in).

Lemma demo_life_objects : objects_ok demo_life_env.
Proof.
  apply careful_objects. intros h c. destruct c; try done; [|by left]. destruct f; try done; simpl; unfold good_ptr, MAX_ERRNO; try lia.
Qed.

(** The mount's root, and a dentry of a file, are in use. *)
Definition demo_live : live :=
  Live (<[demo_dentry := (21, Path demo_parent 23)]> {[ demo_parent := (301, Path 302 demo_mnt) ]}) ∅ ∅.
Definition demo_life_mem : kmem :=
  KMem 0 {[ demo_sb := demo_info ]} {[ demo_info := demo_si 0 ]} ∅ ∅
    (<[demo_dentry := 21]> {[ demo_parent := 301 ]})
    (<[21 := Path demo_parent 23]> {[ 301 := Path 302 demo_mnt ]}) ∅ ∅ ∅ 0 0.
Definition demo_life_hist : khist :=
  [KEv (kmem_cache_zalloc 0) 301; KEv (path_get (Path 302 demo_mnt)) tt;
   KEv (kmem_cache_zalloc 0) 21; KEv (path_get (Path demo_parent 23)) tt].

Lemma demo_life_represents : represents demo_live demo_life_mem.
Proof.
  split; [constructor|constructor]; simpl.
  - intros d e [[<- <-]|[_ [<- <-]%lookup_singleton_Some]]%lookup_insert_Some; done.
  - intros d [Hn ?]%lookup_insert_None. apply lookup_singleton_None in Hn.
    by rewrite lookup_insert_ne, lookup_singleton_ne.
  - intros d1 d2 e1 e2 [[<- <-]|[_ [<- <-]%lookup_singleton_Some]]%lookup_insert_Some
      [[<- <-]|[_ [<- <-]%lookup_singleton_Some]]%lookup_insert_Some; done.
  - intros i lp [[<- <-]|[_ [<- <-]%lookup_singleton_Some]]%lookup_insert_Some;
      [exists demo_dentry|exists demo_parent]; done.
  - done.
  - done.
  - done.
Qed.

(** A name is looked up, a file opened, read and closed, the name let go. *)
Definition demo_life : list request :=
  [Lookup demo_dir demo_new 0; Open demo_dir 44; Read 44 8192 5 0; Release demo_dir 44; ReleaseDentry demo_new].

Ltac turn := let E := fresh in intros ? ? ? E; vm_compute in E; injection E as <- <- <-.

Lemma demo_life_ready : all_ready demo_world demo_life_env 0 demo_life demo_live demo_life_mem demo_life_hist.
Proof.
  unfold demo_life. cbn [all_ready]. unfold ready. cbn [spared].
  split; [split; [split; [done|]; split; [done|]; exists demo_parent, demo_sb, demo_info, (demo_si 0); by split_and!|done]|].
  turn. split; [split; [split_and!; try done; vm_compute; eauto|done]|].
  turn. split; [split; [split; [vm_compute; eauto|by right]|done]|].
  turn. split; [split; [vm_compute; eauto|done]|].
  turn. split; [split; [vm_compute; eauto|done]|done].
Qed.

Lemma demo_life_counted p : held demo_live (RMem p) <= net demo_life_hist (RMem p).
Proof.
  unfold held, demo_live. cbn [dentries files objects]. rewrite counted_empty, total_empty, (total_insert _ _ _ demo_dentry) by done.
  rewrite <- insert_empty, (total_insert _ _ _ demo_parent), total_empty by done.
  assert (Hd : forall d, hits (RMem p) (RDentry d) = 0) by (intros; by apply hits_ne).
  assert (Hn : forall n, hits (RMem p) (RMnt n) = 0) by (intros; by apply hits_ne).
  unfold takes. simpl. rewrite !Hd, !Hn. lia.
Qed.

Lemma requests_keep_books_witness :
  exists m' h',
    serve demo_life_env 0 demo_life demo_live demo_life_mem demo_life_hist = Some (demo_live, m', h') /\
    represents demo_live m' /\ balanced demo_life_hist h'.
Proof.
  destruct (requests_keep_books demo_world demo_life_env 0 demo_life demo_live demo_life_mem demo_life_hist
    (careful_ok _ _ (demo_env_kernel_ok _)) demo_life_objects (careful_is_careful _) demo_life_represents
    demo_life_counted demo_life_ready) as (a' & m' & h' & E & Hm & _ & Hb).
  assert (a' = demo_live) as ->.
  { pose proof E as E'. vm_compute in E'. by injection E' as <- _ _. }
  exists m', h'. auto.
Defined.

(** ** What passes through *)

(** C5: in any state of the VFS that the module's memory matches, a request
    that is neither logged nor changes private data ends; what it asks of the
    kernel and the lower file system, but for finding and holding its objects, is
    what [lower_request] asks on the lower objects, one call after the other, with
    the same answers leading to the same calls; it answers what that answers,
    gives back what it took, and leaves private data as it was. *)
Theorem requests_pass_through w env magic a m h r spec :
  env_ok (kernel_ok w) env -> objects_ok env -> represents a m -> expected w env a m r ->
  lower_request w env magic a m r = Some spec ->
  exists v m' tr, run env (handle magic r) m h = finished v m' (h ++ tr) /\
    follows spec (asked tr) (mret v) /\ balanced h (h ++ tr) /\ same_data m m'.
Proof.
  intros Henv Hobj Hm Hr Hs.
  destruct (passes_on w env magic Henv Hobj a m h Hm r spec Hr Hs) as (v & m' & tr & E & Hk & Hsd & Hf).
  exists v, m', tr. split_and!; try done. intros x Hx. rewrite net_app, (Hk x Hx). unfold takes. simpl. lia.
Qed.

(** Attributes are set on the lower dentry, and the upper inode refreshed. *)
Lemma requests_pass_through_witness :
  exists v m' tr,
    run demo_life_env (handle 0 (Setxattr demo_dentry (lit "user.a") 500 3 0)) demo_life_mem demo_life_hist =
      finished v m' (demo_life_hist ++ tr) /\
    follows (pass_setxattr demo_world demo_dentry demo_parent (lit "user.a") 500 3 0) (asked tr) (mret v) /\
    balanced demo_life_hist (demo_life_hist ++ tr) /\ same_data demo_life_mem m'.
Proof.
  apply (requests_pass_through demo_world demo_life_env 0 demo_live demo_life_mem demo_life_hist
    (Setxattr demo_dentry (lit "user.a") 500 3 0)
    (pass_setxattr demo_world demo_dentry demo_parent (lit "user.a") 500 3 0)
    (careful_ok _ _ (demo_env_kernel_ok _)) demo_life_objects demo_life_represents).
  - exists 21, (Path demo_parent 23). split_and!; [done|by right|by left|done].
  - reflexivity.
Defined.
