(* ===== verification/Inodes.v ===== *)
(** * References to lower inodes

    An upper inode keeps its lower one from the moment it is set up until it is
    evicted, and the module keeps no other reference to an inode from one request
    to the next: what the kernel's counts have gained is what the module's
    memory names ([inode_books]), up to the two slips of [trfs_iget], when the
    inode cache has no memory or the lower inode is going away ([slips]). *)

From S2P Require Import Prelude Prog TrTypes Kernel TrfsH Lookup Ledger Trdump TrdumpSpec Inode FileOps Super TrIoctl.
From S2P Require Import Mount HandlerSpec HandlerThms IoctlThms MountThms LookupThms FileThms TableThms Requests Live Through Conserve Ready Served Demo Life.

(** ** What the kernel does with an inode *)

(** The inode [i] was given out as a new one, and not cleared since. *)
Definition set_up_step (i : ptr) (b : bool) (e : event ksig) : bool :=
  match e with
  | Ev c r =>
      match c return kreply c -> bool with
      | load F_i_state j => fun s => if decide (j = i /\ Z.land s I_NEW <> 0) then true else b
      | clear_inode j => fun _ => if decide (j = i) then false else b
      | _ => fun _ => b
      end r
  end.
Definition set_up (h : khist) (i : ptr) : bool := fold_left (set_up_step i) h false.

(** An inode is new to one caller only, until it is cleared, and the memory of
    one that is in use is not handed out.  [iget5_locked] may find no memory, and
    [igrab] may refuse. *)
Definition inodes_ok (h : khist) (e : event ksig) : Prop :=
  match e with
  | Ev c r =>
      match c return kreply c -> Prop with
      | load F_i_state i => fun s => Z.land s I_NEW <> 0 -> set_up h i = false
      | kmem_cache_alloc _ => fun p => p <> NULL -> set_up h (vfs_inode p) = false
      | iget5_locked _ _ _ => fun i => i = NULL \/ good_ptr i
      | _ => fun _ => True
      end r
  end.

(** ** The references that memory accounts for *)

Definition lower_ref (l : ptr) : list resource := [RInode l].
Definition inode_refs (m : kmem) (l : ptr) : Z := total lower_ref (RInode l) (inode_infos m).

Lemma hits_NULL l : l <> NULL -> hits (RInode l) (RInode NULL) = 0.
Proof. intros Hl. apply hits_ne. congruence. Qed.

Lemma total_update s i v l : l <> NULL ->
  total lower_ref (RInode l) (<[i := v]> s) =
    total lower_ref (RInode l) s - hits (RInode l) (RInode (default NULL (s !! i))) + hits (RInode l) (RInode v).
Proof.
  intros Hl. rewrite <- insert_delete_eq, total_insert by apply lookup_delete_eq.
  destruct (s !! i) as [u|] eqn:Hu; simpl.
  - rewrite (total_delete _ _ s i u) by done. unfold takes, lower_ref. simpl. lia.
  - rewrite delete_id, hits_NULL by done. unfold takes, lower_ref. simpl. lia.
Qed.

Lemma total_remove s i l : l <> NULL -> default NULL (s !! i) = NULL ->
  total lower_ref (RInode l) (delete i s) = total lower_ref (RInode l) s.
Proof.
  intros Hl Hi. destruct (s !! i) as [u|] eqn:Hu; [|by rewrite delete_id]. simpl in Hi. subst u.
  rewrite (total_delete _ _ s i NULL) by done. unfold takes, lower_ref. simpl. rewrite hits_NULL by done. lia.
Qed.

(** No inode of the module is set up: memory names none. *)
Definition no_inodes (m : kmem) : Prop := forall i l, inode_infos m !! i = Some l -> l = NULL.

Lemma no_refs m l : no_inodes m -> l <> NULL -> inode_refs m l = 0.
Proof.
  unfold no_inodes, inode_refs. intros Hm Hl. revert Hm. generalize (inode_infos m). intros s.
  induction s as [|i x s Hi IH] using map_ind; intros Hs; [by rewrite total_empty|].
  rewrite total_insert by done. rewrite IH.
  - rewrite (Hs i x) by apply lookup_insert_eq. unfold takes. simpl. by rewrite hits_NULL.
  - intros j y Hj. apply (Hs j). rewrite lookup_insert_ne; [done|]. congruence.
Qed.

(** ** Where [trfs_iget] miscounts *)

(** The inode that [iget5_locked] gave last. *)
Definition given_step (i : ptr) (e : event ksig) : ptr :=
  match e with
  | Ev c r => match c return kreply c -> ptr with iget5_locked _ _ _ => fun j => j | _ => fun _ => i end r
  end.
Definition last_given (h : khist) : ptr := fold_left given_step h NULL.

(** When there is no memory for an inode, a reference to the lower one is dropped
    that was not taken; when the lower inode cannot be grabbed, the reference
    to the inode that was given is not dropped. *)
Definition slip (given l : ptr) (e : event ksig) : Z :=
  match e with
  | Ev c r =>
      match c return kreply c -> Z with
      | iget5_locked _ _ lower => fun i => if decide (i = NULL) then - hits (RInode l) (RInode lower) else 0
      | igrab _ => fun g => if decide (g = NULL) then hits (RInode l) (RInode given) else 0
      | _ => fun _ => 0
      end r
  end.
Fixpoint slips_from (given : ptr) (h : khist) (l : ptr) : Z :=
  match h with
  | [] => 0
  | e :: h => slip given l e + slips_from (given_step given e) h l
  end.
Definition slips (h : khist) (l : ptr) : Z := slips_from NULL h l.

Lemma last_given_snoc h e : last_given (h ++ [e]) = given_step (last_given h) e.
Proof. unfold last_given. by rewrite fold_left_app. Qed.

Lemma slips_from_snoc given h e l :
  slips_from given (h ++ [e]) l = slips_from given h l + slip (fold_left given_step h given) l e.
Proof. revert given. induction h as [|e' h IH]; intros given; simpl; [lia|]. rewrite IH. lia. Qed.

Lemma slips_snoc h e l : slips (h ++ [e]) l = slips h l + slip (last_given h) l e.
Proof. apply slips_from_snoc. Qed.

(** A history in which neither happens has no slips. *)
Definition steady (e : event ksig) : Prop := forall given l, slip given l e = 0.

Lemma steady_slips h l : Forall steady h -> slips h l = 0.
Proof.
  unfold slips. generalize NULL. induction h as [|e h IH]; intros given Hh; [done|].
  apply Forall_cons in Hh as [He Hh]. simpl. by rewrite He, IH.
Qed.

(** ** The books *)

Record inode_books (base : ptr -> Z) (m : kmem) (h : khist) : Prop := {
  ib_net l : l <> NULL -> net h (RInode l) = base l + inode_refs m l + slips h l;
  ib_set_up i l : inode_infos m !! i = Some l -> l <> NULL -> set_up h i = true;
}.

(** From no inode to none, only the slips are left. *)
Lemma books_start (m : kmem) (h : khist) : no_inodes m -> inode_books (fun l => net h (RInode l) - slips h l) m h.
Proof.
  intros Hm. split; [|by intros i l Hl Hn; destruct (Hn (Hm i l Hl))].
  intros l Hl. rewrite (no_refs m l) by done. lia.
Qed.

Lemma books_end (h h' : khist) (m' : kmem) (l : ptr) :
  inode_books (fun l => net h (RInode l) - slips h l) m' h' -> no_inodes m' -> l <> NULL ->
  net h' (RInode l) - net h (RInode l) = slips h' l - slips h l.
Proof. intros [Hn _] Hm Hl. rewrite Hn, (no_refs m' l) by done. lia. Qed.

Lemma books_ext base base' m h :
  (forall l, l <> NULL -> base l = base' l) -> inode_books base m h -> inode_books base' m h.
Proof. intros E [Hn Hs]. split; [|done]. intros l Hl. by rewrite Hn, E. Qed.

(** An inode that is not set up has no lower one. *)
Lemma books_clear base m h i :
  inode_books base m h -> set_up h i = false -> default NULL (inode_infos m !! i) = NULL.
Proof.
  intros [_ Hs] Hi. destruct (inode_infos m !! i) as [l|] eqn:Hl; [|done]. simpl.
  destruct (decide (l = NULL)) as [|Hn]; [done|]. by rewrite (Hs _ _ Hl Hn) in Hi.
Qed.

(** ** Calls that have nothing to do with it *)

Definition inode_call (c : kfun) : bool :=
  match c with
  | igrab _ | iput _ | iget5_locked _ _ _ | ilookup _ _ | d_splice_alias _ _ | d_make_root _ | clear_inode _ => true
  | _ => false
  end.

Lemma set_up_snoc h e i : set_up (h ++ [e]) i = set_up_step i (set_up h i) e.
Proof. unfold set_up. by rewrite fold_left_app. Qed.

Lemma call_net c r l : inode_call c = false -> count_entries (RInode l) (delta (KEv c r)) = 0.
Proof.
  assert (Hh : forall x, (forall i, x <> RInode i) -> hits (RInode l) x = 0) by (intros x Hx; by apply hits_ne).
  assert (Hone : forall b x, (forall i, x <> RInode i) -> count_entries (RInode l) (one_if b x) = 0)
    by (intros [] x Hx; simpl; rewrite ?Hh; done).
  destruct c; intros Hc; try discriminate Hc; try done; simpl in *; rewrite ?Hone, ?Hh by done; try done.
  all: repeat case_match; simpl; rewrite ?Hh by done; done.
Qed.

Lemma call_slip c r given l : inode_call c = false -> slip given l (KEv c r) = 0.
Proof. by destruct c. Qed.

Lemma call_set_up c r i : inode_call c = false -> set_up_step i true (KEv c r) = true.
Proof. intros Hc. destruct c; try discriminate Hc; try done. destruct f; try done. simpl. by case_decide. Qed.

(** ** Programs that keep the books *)

Definition keeps_books {A} (p : kprog A) : Prop :=
  forall base m h, inode_books base m h ->
    wp inodes_ok p (fun o => match o with
      | Done _ m' h' => inode_books base m' h'
      | Faulted _ _ _ => True
      end) m h.

Lemma kb_bind {A B} (p : kprog A) (f : A -> kprog B) :
  keeps_books p -> (forall v, keeps_books (f v)) -> keeps_books (p ≫= f).
Proof.
  intros Hp Hf base m h Hb. apply wp_bind. eapply wp_mono; [|exact (Hp base m h Hb)].
  intros [v m' h'|]; [|done]. intros Hb'. by apply Hf.
Qed.

Lemma kb_fmap {A B} (f : A -> B) (p : kprog A) : keeps_books p -> keeps_books (f <$> p).
Proof. intros Hp. apply (kb_bind p (fun v => Ret (f v))); [done|by intros ????]. Qed.

(** A call changes the books by what it takes. *)
Lemma books_taken d base m h e :
  inode_books base m h ->
  (forall l, l <> NULL -> count_entries (RInode l) (delta e) = d l + slip (last_given h) l e) ->
  (forall i, set_up_step i true e = true) ->
  inode_books (fun l => base l + d l) m (h ++ [e]).
Proof.
  intros [Hn Hs] Hd He. split.
  - intros l Hl. rewrite net_snoc, slips_snoc, Hd, Hn by done. lia.
  - intros i l Hi Hl. by rewrite set_up_snoc, (Hs i l).
Qed.

Lemma books_call base m h c r : inode_call c = false -> inode_books base m h -> inode_books base m (h ++ [KEv c r]).
Proof.
  intros Hc Hb. apply (books_ext (fun l => base l + 0)); [lia|]. apply books_taken; [done| |].
  - intros l _. by rewrite call_net, call_slip.
  - intros i. by apply call_set_up.
Qed.

Lemma kb_kdo c : inode_call c = false -> keeps_books (kdo c).
Proof. intros Hc base m h Hb r _. by apply books_call. Qed.

Lemma books_memory base m m' h : inode_infos m' = inode_infos m -> inode_books base m h -> inode_books base m' h.
Proof. intros E [Hn Hs]. split; unfold inode_refs; by rewrite E. Qed.

Lemma kb_modify f : (forall m, inode_infos (f m) = inode_infos m) -> keeps_books (modify (S := ksig) f).
Proof. intros Hf base m h Hb. simpl. eapply books_memory; [apply Hf|done]. Qed.

Lemma kb_next_id : keeps_books atomic_inc_return_trecord_id.
Proof. intros base m h Hb. by apply (books_memory _ m). Qed.

Create HintDb books.
#[export] Hint Resolve kb_next_id : books.
Ltac kb_step :=
  lazymatch goal with
  | |- keeps_books (mbind _ _) => apply kb_bind; [|intros ?]
  | |- keeps_books (fmap _ _) => apply kb_fmap
  | |- keeps_books (mret _) => by intros ???
  | |- keeps_books (Ret _) => by intros ???
  | |- keeps_books (Fault _) => by intros ???
  | |- keeps_books (kdo _) => apply kb_kdo; reflexivity
  | |- keeps_books (gets _) => by intros ???
  | |- keeps_books (modify _) => apply kb_modify; reflexivity
  | |- keeps_books (match ?x with _ => _ end) => destruct x
  | |- keeps_books (let _ := _ in _) => cbv zeta
  | |- keeps_books (when ?b _) => destruct b; cbn [when]
  | |- keeps_books (deref _ ?o) => destruct o; cbn [deref]
  | |- keeps_books (bug_on ?b) => destruct b; cbn [bug_on]
  | |- keeps_books (or_out _ _) => unfold or_out
  | |- keeps_books (ld _ _) => unfold ld
  | |- keeps_books (st _ _ _) => unfold st
  | |- keeps_books (check_ptr _) => unfold check_ptr
  | |- keeps_books (d_inode _) => unfold d_inode
  | |- keeps_books (i_sb _) => unfold i_sb
  | |- keeps_books (heap_get _ _) => unfold heap_get
  | |- keeps_books (heap_set _ _ _ _) => unfold heap_set
  | |- keeps_books (heap_new _ _ _ _) => unfold heap_new
  | |- keeps_books (heap_del _ _ _) => unfold heap_del
  | |- keeps_books (field_get _ _) => unfold field_get
  | |- keeps_books (field_set _ _ _ _) => unfold field_set
  | |- keeps_books (trfs_lower_inode _) => unfold trfs_lower_inode
  | |- keeps_books _ => solve [auto with books nocore]
  end.
Ltac keep_books := repeat kb_step.

(** ** Where references to inodes change hands *)

(** A new lower inode is named by memory. *)
Lemma books_named base m h i l :
  inode_books base m h -> set_up h i = true -> default NULL (inode_infos m !! i) = NULL ->
  inode_books (fun x => base x - hits (RInode x) (RInode l)) (set_inode_infos (<[i := l]> (inode_infos m)) m) h.
Proof.
  intros [Hn Hs] Hi He. split.
  - intros x Hx. rewrite Hn by done. unfold inode_refs. simpl. rewrite total_update, He, hits_NULL by done. lia.
  - intros j x. simpl. intros [[<- <-]|[_ Hj]]%lookup_insert_Some Hx; [done|by eapply Hs].
Qed.

Definition after {A} (post : A -> kmem -> khist -> Prop) (o : outcome ksig A) : Prop :=
  match o with Done v m h => post v m h | Faulted _ _ _ => True end.

Lemma wp_keeps {A B} (p : kprog A) (f : A -> kprog B) base post m h :
  keeps_books p -> inode_books base m h ->
  (forall v m' h', inode_books base m' h' -> wp inodes_ok (f v) (after post) m' h') ->
  wp inodes_ok (p ≫= f) (after post) m h.
Proof.
  intros Hp Hb Hf. apply wp_bind. eapply wp_mono; [|exact (Hp base m h Hb)].
  intros [v m' h'|]; [|done]. apply Hf.
Qed.

Lemma wp_checked {A} p (k : unit -> kprog A) post m h :
  wp inodes_ok (k tt) (after post) m h -> wp inodes_ok (check_ptr p ≫= k) (after post) m h.
Proof. intros Hk. unfold check_ptr. case_decide; [exact I|]. by destruct (IS_ERR p). Qed.

(** What is known of a call to an inode that is given, or to none. *)
Definition got (base : ptr -> Z) (i : ptr) (m : kmem) (h : khist) : Prop :=
  (good_ptr i /\ inode_books (fun x => base x + hits (RInode x) (RInode i)) m h) \/
  (exists e, i = ERR_PTR e /\ - MAX_ERRNO <= e < 0 /\ inode_books base m h).

(** A new inode takes a reference of the lower one, and memory names it; or it
    is left behind. *)
Lemma init_inode_books i l base m h :
  good_ptr i -> last_given h = i -> inode_books (fun x => base x + hits (RInode x) (RInode i)) m h ->
  set_up h i = true -> default NULL (inode_infos m !! i) = NULL ->
  wp inodes_ok (init_inode i l) (after (got base)) m h.
Proof.
  intros Hg Hlast Hb Hi He. set (base' := fun x => base x + hits (RInode x) (RInode i)) in *.
  unfold init_inode, ld at 1, st at 1.
  apply wp_assoc, wp_checked, wp_kdo. intros ino _. apply wp_assoc, wp_checked, wp_kdo. intros [] _.
  apply wp_kdo. intros g _. set (h0 := (h ++ _) ++ _).
  assert (Hb0 : inode_books base' m h0) by (unfold h0; by do 2 (apply books_call; [done|])).
  assert (Hlast0 : last_given h0 = i) by (unfold h0; by rewrite !last_given_snoc).
  assert (Hi0 : set_up h0 i = true) by (unfold h0; by rewrite !set_up_snoc, Hi).
  clearbody h0. case_decide as Hnull.
  { right. exists (- ESTALE). split_and!; [done..|].
    eapply books_ext; [|apply (books_taken (fun x => - hits (RInode x) (RInode i)) base'); [exact Hb0| |done]].
    - intros x _. unfold base'. lia.
    - intros x _. subst g. rewrite Hlast0. simpl. lia. }
  unfold trfs_set_lower_inode, field_set at 1. apply wp_assoc, wp_checked. cbn [wp mbind prog_mbind prog_bind fst snd modify].
  set (m1 := set_inode_infos _ m). set (h1 := h0 ++ [KEv (igrab l) g]).
  assert (Hb1 : inode_books base' m1 h1).
  { eapply books_ext; [|apply (books_named (fun x => base' x + hits (RInode x) (RInode l)))].
    - intros x _. simpl. lia.
    - apply books_taken; [done| |done]. intros x _. simpl. unfold nonnull.
      rewrite bool_decide_eq_false_2, decide_False by done. simpl. lia.
    - unfold h1. by rewrite set_up_snoc, Hi0.
    - done. }
  clearbody m1 h1. repeat (eapply wp_keeps; [solve [keep_books]|eassumption|intros]). by left.
Qed.

(** An upper inode is found, and the caller gets one reference to it; or none. *)
Lemma iget_books sb l base m h :
  inode_books base m h -> wp inodes_ok (trfs_iget sb l) (after (got base)) m h.
Proof.
  intros Hb. unfold trfs_iget. eapply wp_keeps; [keep_books|done|]. intros ino m1 h1 Hb1.
  apply wp_kdo. intros i Hi. simpl in Hi. case_decide as Hnull.
  { intros [] _. right. exists (- EACCES). split_and!; [done..|]. subst i. destruct Hb1 as [Hn Hs]. split.
    - intros x Hx. rewrite !net_snoc, !slips_snoc, Hn by done. simpl. lia.
    - intros j x Hj Hx. rewrite !set_up_snoc. simpl. by eapply Hs. }
  destruct Hi as [?|Hi]; [done|].
  set (h2 := h1 ++ _). set (base' := fun x => base x + hits (RInode x) (RInode i)).
  assert (Hb2 : inode_books base' m1 h2).
  { unfold h2. apply books_taken; [done| |done]. intros x _. simpl.
    rewrite good_ptr_nonnullb, decide_False by done. simpl. lia. }
  assert (Hlast : last_given h2 = i) by (unfold h2; by rewrite last_given_snoc).
  clearbody h2. unfold ld. apply wp_assoc, wp_checked, wp_kdo. intros s Hs. simpl in Hs.
  assert (Hb3 : inode_books base' m1 (h2 ++ [KEv (load F_i_state i) s])) by by apply books_call.
  case_decide as Hnew; [by left|]. specialize (Hs Hnew).
  apply init_inode_books; [done|by rewrite last_given_snoc|done| |exact (books_clear _ _ _ _ Hb2 Hs)].
  rewrite set_up_snoc. simpl. by rewrite decide_True.
Qed.

Lemma kb_interpose d sb p : keeps_books (__trfs_interpose d sb p).
Proof.
  unfold __trfs_interpose, trfs_lower_super, sb_info, TRFS_SB.
  do 3 (apply kb_bind; [keep_books|intros ?]). case_decide; [keep_books|]. intros base m h Hb. apply wp_bind.
  eapply wp_mono; [|exact (iget_books _ _ _ _ _ Hb)]. intros [i m' h'|]; [|done]. intros [[Hi Hb']|(e & -> & He & Hb')].
  - rewrite good_ptr_no_err by done. intros r _.
    eapply books_ext; [|apply (books_taken (fun x => - hits (RInode x) (RInode i)) _ _ _ _ Hb')]; [| |done].
    + intros x _. simpl. lia.
    + intros x Hx. simpl. rewrite good_ptr_nonnullb by done. simpl. lia.
  - by rewrite ERR_PTR_IS_ERR.
Qed.

(** An inode goes: the reference is given back. *)
Lemma kb_evict i : keeps_books (trfs_evict_inode i).
Proof.
  intros base m h Hb. unfold trfs_evict_inode. eapply wp_keeps; [keep_books|done|]. intros [] m1 h1 Hb1.
  apply wp_kdo. intros [] _. unfold trfs_lower_inode, field_get. apply wp_assoc, wp_checked.
  cbn [wp mbind prog_mbind prog_bind gets fst snd].
  unfold trfs_set_lower_inode, field_set. apply wp_assoc, wp_checked.
  cbn [wp mbind prog_mbind prog_bind modify fst snd]. intros [] _. simpl. destruct Hb1 as [Hn Hs]. split.
  - intros l Hl. rewrite !net_snoc, !slips_snoc, Hn by done. unfold inode_refs. simpl.
    rewrite total_update, hits_NULL by done. lia.
  - intros j l. simpl. intros [[<- <-]|[Hj Hl]]%lookup_insert_Some Hn'; [done|].
    rewrite !set_up_snoc. simpl. rewrite decide_False by done. by eapply Hs.
Qed.

(** Memory for an inode, and its end once it was evicted. *)
Lemma kb_alloc_inode sb : keeps_books (trfs_alloc_inode sb).
Proof.
  intros base m h Hb. unfold trfs_alloc_inode. cbn [wp mbind prog_mbind prog_bind gets fst snd].
  apply wp_kdo. intros p Hp. simpl in Hp. set (h1 := h ++ _).
  assert (Hb1 : inode_books base m h1) by by apply books_call.
  case_decide as Hn; [exact Hb1|]. specialize (Hp Hn).
  assert (He : default NULL (inode_infos m !! vfs_inode p) = NULL) by exact (books_clear _ _ _ _ Hb Hp).
  unfold trfs_set_lower_inode, field_set. apply wp_assoc, wp_checked.
  cbn [wp mbind prog_mbind prog_bind modify fst snd].
  assert (Hb2 : inode_books base (set_inode_infos (<[vfs_inode p := NULL]> (inode_infos m)) m) h1).
  { destruct Hb1 as [Hn1 Hs1]. split.
    - intros l Hl. rewrite Hn1 by done. unfold inode_refs. simpl. rewrite total_update, He by done. lia.
    - intros j l. simpl. intros [[<- <-]|[_ Hj]]%lookup_insert_Some Hl; [done|by eapply Hs1]. }
  eapply wp_keeps; [keep_books|exact Hb2|]. done.
Qed.

Lemma destroy_inode_books i base m h :
  inode_books base m h -> default NULL (inode_infos m !! i) = NULL ->
  wp inodes_ok (trfs_destroy_inode i) (after (fun _ => inode_books base)) m h.
Proof.
  intros Hb He. unfold trfs_destroy_inode. cbn [wp mbind prog_mbind prog_bind gets fst snd].
  apply wp_kdo. intros [] _. simpl. assert (Hb1 := Hb). apply (books_call _ _ _ (kmem_cache_free (trfs_inode_cachep m) (TRFS_I i)) tt) in Hb1 as [Hn Hs]; [|done].
  split.
  - intros l Hl. rewrite Hn by done. unfold inode_refs. simpl. by rewrite total_remove.
  - intros j l. simpl. intros [_ Hj]%lookup_delete_Some Hl. by eapply Hs.
Qed.

#[export] Hint Resolve kb_interpose kb_evict kb_alloc_inode : books.

(** ** Every handler *)

Lemma kb_log_op get_sb op d fl perm err x n : keeps_books get_sb -> keeps_books (log_op get_sb op d fl perm err x n).
Proof.
  intros Hg. unfold log_op, log_locked, fill_record, append_record, TRFS_PAGE, sb_info, TRFS_SB, fill_cleanup,
    SAFE_FREE_PAGE, fill_aux, c_strlen, copy_record, append_aux, log_write, write_kbuf. keep_books.
Qed.
#[export] Hint Extern 1 (keeps_books (log_op _ _ _ _ _ _ _ _)) => apply kb_log_op; unfold dentry_sb; keep_books : books.

Lemma kb_write_kbuf p off data : keeps_books (write_kbuf p off data).
Proof. unfold write_kbuf. keep_books. Qed.
Lemma kb_sb_info sb : keeps_books (sb_info sb).
Proof. unfold sb_info, TRFS_SB. keep_books. Qed.
Lemma kb_TRFS_SB sb : keeps_books (TRFS_SB sb).
Proof. unfold TRFS_SB. keep_books. Qed.
#[export] Hint Resolve kb_write_kbuf kb_sb_info kb_TRFS_SB : books.

(** The two requests that are not of the rest: an inode that is destroyed must
    have been evicted, and [trfs_nfs_get_inode] keeps the reference that
    [ilookup] took. *)
Definition keeps_inodes (m : kmem) (r : request) : Prop :=
  match r with
  | DestroyInode i => default NULL (inode_infos m !! i) = NULL
  | NfsGetInode _ _ _ => False
  | _ => True
  end.

Lemma kb_handle magic r :
  match r with DestroyInode _ | NfsGetInode _ _ _ => True | _ => keeps_books (handle magic r) end.
Proof.
  destruct r; try exact I; cbn [handle];
    unfold trfs_create, trfs_link, trfs_unlink, trfs_symlink, trfs_mkdir, trfs_rmdir, trfs_rename, trfs_write;
    open_handler; keep_books.
Qed.

Lemma handle_books magic r base m h :
  keeps_inodes m r -> inode_books base m h ->
  wp inodes_ok (handle magic r) (after (fun _ => inode_books base)) m h.
Proof.
  intros Hr Hb. pose proof (kb_handle magic r) as Hk. destruct r; try exact (Hk base m h Hb); [|done].
  cbn [handle]. apply wp_bind. eapply wp_mono; [|exact (destroy_inode_books _ _ _ _ Hb Hr)]. by intros [[] ? ?|].
Qed.

(** ** Requests, one after the other *)

Section Served.
Context (w : kworld) (env : kenv) (magic : Z).
Context (Henv : env_ok (kernel_ok w) env) (Hobj : objects_ok env) (Hcareful : careful_alloc env).
Context (Hinodes : env_ok inodes_ok env).

Lemma ready_keeps a m r : ready w env a m r -> (forall sb ino gen, r <> NfsGetInode sb ino gen) -> keeps_inodes m r.
Proof. intros [Hr _] Hn. destruct r; try done; [by destruct Hr as (_ & _ & ?)|by destruct (Hn _ _ _ eq_refl)]. Qed.

Lemma serve_inodes base rs a m h a' m' h' :
  inode_books base m h -> all_ready w env magic rs a m h ->
  Forall (fun r => forall sb ino gen, r <> NfsGetInode sb ino gen) rs ->
  serve env magic rs a m h = Some (a', m', h') -> inode_books base m' h'.
Proof.
  revert a m h. induction rs as [|r rs IH]; intros a m h Hb Hr Hn Hs; [by injection Hs as <- <- <-|].
  apply Forall_cons in Hn as [Hn Hns]. destruct Hr as [Hr Hrs]. simpl in Hs.
  pose proof (wp_run _ _ _ _ _ _ (handle_books magic r base m h (ready_keeps _ _ _ Hr Hn) Hb) Hinodes) as Ha.
  destruct (run env (handle magic r) m h) as [v m1 h1|]; [|done]. by eapply IH; [..|exact Hs]; eauto.
Qed.
End Served.

(** ** Mounting *)

Section Mounting.
Context (base : ptr -> Z).

(** A mount that succeeded keeps the books. *)
Definition if_mounted (v : Z) (m : kmem) (h : khist) : Prop := v = 0 -> inode_books base m h.

(** The labels that release the inode once more than it was taken answer the
    error they were entered with. *)
Definition answers_error (p : Z -> kprog Z) : Prop :=
  forall err m h, wp inodes_ok (p err) (after (fun v _ _ => v = err)) m h.

Lemma error_unmounted p err m h : answers_error p -> err <> 0 -> wp inodes_ok (p err) (after if_mounted) m h.
Proof. intros Hp He. eapply wp_mono; [|exact (Hp err m h)]. intros [v ? ?|]; [|done]. by intros -> ?. Qed.

Lemma wp_whatever {A B} (p : kprog A) (f : A -> kprog B) post m h :
  (forall v m' h', wp inodes_ok (f v) (after post) m' h') -> wp inodes_ok (p ≫= f) (after post) m h.
Proof.
  intros Hf. unfold mbind, prog_mbind. revert m h. induction p as [v|x|c k IH|X g k IH]; intros m h; simpl; auto.
Qed.

Ltac to_error := intros err m h; repeat (apply wp_whatever; intros); reflexivity.

Lemma out_sput_error sb l p : answers_error (out_sput sb l p).
Proof. unfold out_sput, out_fsp_free, out_fsi_free, out_free. to_error. Qed.
Lemma out_iput_error sb l i p : answers_error (out_iput sb l i p).
Proof. unfold out_iput, out_sput, out_fsp_free, out_fsi_free, out_free. to_error. Qed.
Lemma out_freeroot_error sb l i d p : answers_error (out_freeroot sb l i d p).
Proof. unfold out_freeroot, out_iput, out_sput, out_fsp_free, out_fsi_free, out_free. to_error. Qed.

(** The others keep the books, whatever they answer. *)
Lemma kept_if_mounted p m h : keeps_books p -> inode_books base m h -> wp inodes_ok p (after if_mounted) m h.
Proof. intros Hp Hb. eapply wp_mono; [|exact (Hp base m h Hb)]. intros [v ? ?|]; [|done]. by intros ? _. Qed.

(** The reference to the root's inode passes to the root dentry. *)
Lemma fill_root_books sb l i p f m h :
  good_ptr i -> inode_books (fun x => base x + hits (RInode x) (RInode i)) m h ->
  wp inodes_ok (fill_root sb l i p f) (after if_mounted) m h.
Proof.
  intros Hi Hb. unfold fill_root. apply wp_kdo. intros root _. set (h1 := h ++ _).
  assert (Hb1 : inode_books base m h1).
  { eapply books_ext; [|apply (books_taken (fun x => - hits (RInode x) (RInode i))); [exact Hb| |done]].
    - intros x _. simpl. lia.
    - intros x Hx. simpl. rewrite good_ptr_nonnullb by done. simpl.
      assert (E : hits (RInode x) (RDentry root) = 0) by by apply hits_ne.
      unfold nonnull. case_bool_decide; simpl; lia. }
  clearbody h1. eapply wp_keeps; [keep_books|exact Hb1|]. intros [] m2 h2 Hb2.
  case_decide; [by apply error_unmounted; [apply out_iput_error|]|].
  do 2 (eapply wp_keeps; [keep_books|eassumption|intros]).
  eapply wp_keeps; [unfold new_dentry_private_data; keep_books|eassumption|]. intros err m3 h3 Hb3.
  case_decide; [by apply error_unmounted; [apply out_freeroot_error|]|].
  unfold trfs_set_lower_path, TRFS_D, set_sb_info, TRFS_SB.
  repeat (eapply wp_keeps; [solve [keep_books]|eassumption|intros]). by intros _.
Qed.

Lemma read_super_books sb trdata silent m h :
  inode_books base m h -> wp inodes_ok (trfs_read_super sb trdata silent) (after if_mounted) m h.
Proof.
  intros Hb. unfold trfs_read_super. case_decide; [done|].
  eapply wp_keeps; [keep_books|eassumption|]. intros [err p] m1 h1 Hb1. case_decide; [by intros ?|].
  do 3 (eapply wp_keeps; [keep_books|eassumption|intros]).
  case_decide; [apply kept_if_mounted; [unfold out_free; keep_books|done]|].
  eapply wp_keeps; [keep_books|eassumption|]. intros [page contents] m2 h2 Hb2.
  unfold trfs_set_lower_super, set_sb_info, TRFS_SB.
  do 2 (eapply wp_keeps; [keep_books|eassumption|intros]).
  case_decide; [apply kept_if_mounted; [unfold out_fsi_free, out_free; keep_books|done]|].
  eapply wp_keeps; [unfold create_trfile, SAFE_PUTNAME; keep_books|eassumption|]. intros f m3 h3 Hb3.
  destruct (IS_ERR f); [apply kept_if_mounted; [unfold out_fsp_free, out_fsi_free, out_free, TRFS_PAGE; keep_books|done]|].
  do 10 (eapply wp_keeps; [keep_books|eassumption|intros]).
  apply wp_bind. eapply wp_mono; [|eapply iget_books; eassumption].
  intros [i m4 h4|]; [|done]. intros [[Hi Hb4]|(e & -> & He & Hb4)].
  - rewrite good_ptr_no_err by done. by apply fill_root_books.
  - destruct (PTR_ERR_ERR_PTR e He) as (-> & -> & _). apply error_unmounted; [apply out_sput_error|].
    unfold MAX_ERRNO in He. rewrite int32_id; lia.
Qed.
End Mounting.

(** ** The theorem *)

(** C6: what the kernel's counts of references to inodes have gained is what
    the module's memory names: one reference to its lower inode per upper inode,
    from when it is set up until it is evicted, and no other.  The exceptions are
    counted exactly by [slips]: a reference to the lower inode too few each time
    [iget5_locked] found no memory, and one to the new upper inode too many each
    time its lower inode could not be grabbed.  A mount that succeeds keeps it so,
    and so do any requests but those for a file handle, one after the other,
    each [ready] when its turn comes, from any state of the VFS that the module's
    memory matches; they all end.  The requests that fail halfway, those of
    the two exceptions too, are among them. *)
Theorem requests_keep_inodes w env magic base :
  env_ok (kernel_ok w) env -> objects_ok env -> careful_alloc env -> env_ok inodes_ok env ->
  (forall sb trdata silent m h m' h', inode_books base m h ->
     run env (trfs_read_super sb trdata silent) m h = finished 0 m' h' -> inode_books base m' h') /\
  (forall rs a m h, represents a m -> (forall p, held a (RMem p) <= net h (RMem p)) ->
     all_ready w env magic rs a m h -> Forall (fun r => forall sb ino gen, r <> NfsGetInode sb ino gen) rs ->
     inode_books base m h ->
     exists a' m' h', serve env magic rs a m h = Some (a', m', h') /\ inode_books base m' h').
Proof.
  intros Henv Hobj Hc Hino. split.
  - intros sb trdata silent m h m' h' Hb E.
    pose proof (wp_run _ _ _ _ _ _ (read_super_books base sb trdata silent m h Hb) Hino) as Hm.
    rewrite E in Hm. by apply Hm.
  - intros rs a m h Hm Hmem Hr Hn Hb.
    assert (Hbk : books (fun x => net h x - held a x) a m h) by (split; [done|intros p; specialize (Hmem p); lia|lia]).
    destruct (serve_books w env magic Henv Hobj Hc _ rs a m h Hbk Hr) as (a' & m' & h' & E & _).
    exists a', m', h'. split; [done|]. by eapply serve_inodes.
Qed.

(** ** At a concrete kernel *)

(** An inode is new until it was given out as new. *)
Definition orderly (env : kenv) : kenv := fun h c =>
  match c return kreply c -> kreply c with
  | load F_i_state i => fun s => if set_up h i then 0 else s
  | kmem_cache_alloc _ => fun p => if set_up h (vfs_inode p) then NULL else p
  | _ => fun r => r
  end (env h c).

Lemma orderly_ok w env : env_ok (kernel_ok w) env -> env_ok (kernel_ok w) (orderly env).
Proof.
  intros Hw h c. specialize (Hw h c). unfold orderly. destruct c; try done.
  - by destruct f.
  - simpl in *. destruct (set_up h (vfs_inode _)); [by left|done].
Qed.

Lemma orderly_objects env : objects_ok env -> objects_ok (orderly env).
Proof.
  intros Ho h c. specialize (Ho h c). unfold orderly. destruct c; try done.
  - by destruct f.
  - simpl in *. destruct (set_up h (vfs_inode _)); [by left|done].
Qed.

Lemma orderly_careful env : careful_alloc env -> careful_alloc (orderly env).
Proof.
  intros Hc h c p. specialize (Hc h c p). unfold orderly. destruct c; try done.
  simpl in *. destruct (set_up h (vfs_inode _)); [by intros [= <-]|done].
Qed.

Lemma orderly_inodes w (env : kenv) : env_ok (kernel_ok w) env -> env_ok inodes_ok (orderly env).
Proof.
  intros Hw h c. specialize (Hw h c). unfold orderly. destruct c; try done; simpl; auto.
  - destruct f; try done. destruct (set_up h obj) eqn:E; [by intros []|done].
  - destruct (set_up h (vfs_inode (env h (kmem_cache_alloc c)))) eqn:E; [by intros []|done].
Qed.

Definition demo_cached : list request :=
  [Lookup demo_dir demo_new 0; ReleaseDentry demo_new; EvictInode 900; Lookup demo_dir demo_new 0].

(** The first time, the lower inode cannot be grabbed. *)
Definition grabbed (e : event ksig) : bool := match ev_call e with igrab _ => true | _ => false end.
Definition hesitant (env : kenv) : kenv := fun h c =>
  match c return kreply c -> kreply c with
  | igrab _ => fun g => if existsb grabbed h then g else NULL
  | _ => fun r => r
  end (env h c).
Definition demo_cached_env : kenv := orderly (hesitant demo_life_env).

Lemma hesitant_ok w env : env_ok (kernel_ok w) env -> env_ok (kernel_ok w) (hesitant env).
Proof. intros Hw h c. specialize (Hw h c). by destruct c. Qed.
Lemma hesitant_objects env : objects_ok env -> objects_ok (hesitant env).
Proof. intros Ho h c. specialize (Ho h c). by destruct c. Qed.
Lemma hesitant_careful env : careful_alloc env -> careful_alloc (hesitant env).
Proof. intros Hc h c. specialize (Hc h c). by destruct c. Qed.

Lemma demo_cached_ready :
  all_ready demo_world demo_cached_env 0 demo_cached demo_live demo_life_mem demo_life_hist.
Proof.
  unfold demo_cached. cbn [all_ready]. unfold ready. cbn [spared].
  split; [split; [split; [done|]; split; [done|]; exists demo_parent, demo_sb, demo_info, (demo_si 0); by split_and!|done]|].
  turn. split; [split; [vm_compute; eauto|done]|].
  turn. split; [done|].
  turn. split; [|done]. split; [|done].
  split; [done|]; split; [done|]; exists demo_parent, demo_sb, demo_info, (demo_si 0); by split_and!.
Qed.

Lemma demo_cached_books : inode_books (fun _ => 0) demo_life_mem demo_life_hist.
Proof.
  split; [|done]. intros l _. unfold inode_refs. simpl. rewrite total_empty.
  assert (H : forall x, (forall i, x <> RInode i) -> hits (RInode l) x = 0) by (intros x Hx; by apply hits_ne).
  rewrite !H by done. done.
Qed.

(** The lower inode 301 cannot be grabbed, and the reference to 900 is left
    behind; the next time it is taken, and named by memory. *)
Lemma requests_keep_inodes_witness :
  exists a' m' h', serve demo_cached_env 0 demo_cached demo_live demo_life_mem demo_life_hist = Some (a', m', h') /\
    inode_infos m' !! 900 = Some 301 /\ net h' (RInode 301) = 1 /\ net h' (RInode 900) = 1.
Proof.
  assert (Hok : env_ok (kernel_ok demo_world) (hesitant demo_life_env)) by apply hesitant_ok, careful_ok, demo_env_kernel_ok.
  destruct (requests_keep_inodes demo_world demo_cached_env 0 (fun _ => 0)) as [_ Hk].
  - by apply orderly_ok.
  - apply orderly_objects, hesitant_objects, demo_life_objects.
  - apply orderly_careful, hesitant_careful, careful_is_careful.
  - by eapply orderly_inodes.
  - destruct (Hk demo_cached demo_live demo_life_mem demo_life_hist demo_life_represents demo_life_counted
      demo_cached_ready ltac:(repeat constructor; by intros) demo_cached_books) as (a' & m' & h' & E & [Hn _]).
    exists a', m', h'. split; [exact E|].
    assert (inode_infos m' !! 900 = Some 301 /\ inode_refs m' 301 = 1 /\ slips h' 301 = 0 /\
      inode_refs m' 900 = 0 /\ slips h' 900 = 1) as (R1 & R2 & R3 & R4 & R5).
    { clear Hn. vm_compute in E. injection E as _ <- <-. vm_compute. by split_and!. }
    split; [exact R1|]. rewrite !Hn, R2, R3, R4, R5 by done. by split.
Defined.
