(* ===== verification/MountLife.v ===== *)
(** * From mounting to unmounting

    A file system is mounted, serves any requests, and is unmounted when
    everything that was looked up and opened has been let go: what it took on
    the way it has given back, references to inodes included, and no private data
    is left. *)

From S2P Require Import Prelude Prog TrTypes Kernel TrfsH Lookup Ledger Trdump TrdumpSpec Inode FileOps Super Mount.
From S2P Require Import HandlerSpec HandlerThms IoctlThms MountThms LookupThms FileThms.
From S2P Require Import Requests Live Conserve Ready Life Inodes Demo.

(** ** Unmounting

    Not code of the module but of the VFS: the calls that it makes when a file
    system is unmounted ([generic_shutdown_super]).  The root dentry is the only
    one left; it is released, which drops its inode.  The inodes [cached] that are still in
    the cache, the root's among them, are evicted, in any order; [put_super] is
    called last.  (The memory of an inode that the cache got inside
    [iget5_locked] is not followed.) *)
Fixpoint evict_inodes (cached : list ptr) : kprog unit :=
  match cached with
  | [] => mret tt
  | i :: cached => trfs_evict_inode i;; evict_inodes cached
  end.
Definition umount (sb root : ptr) (cached : list ptr) : kprog unit :=
  trfs_d_release root;; kdo (dput root);; evict_inodes cached;; trfs_put_super sb.

(** All inodes that are set up are in the list. *)
Definition covers (cached : list ptr) (m : kmem) : Prop := forall i l, inode_infos m !! i = Some l -> l <> NULL -> i ∈ cached.

Lemma wp_evict_inodes {A} w cached (k : unit -> kprog A) Q m h :
  Forall good_ptr cached ->
  (forall m' t, level t -> same_private m m' -> same_mounts m m' -> (covers cached m -> no_inodes m') ->
     wp (kernel_ok w) (k tt) Q m' (h ++ t)) ->
  wp (kernel_ok w) (evict_inodes cached ≫= k) Q m h.
Proof.
  revert m h. induction cached as [|i cached IH]; intros m h His HQ.
  - simpl. replace h with (h ++ []) by apply app_nil_r. apply HQ; try done.
    intros Hc j l Hj. destruct (decide (l = NULL)) as [|Hl]; [done|]. by destruct (not_elem_of_nil _ (Hc j l Hj Hl)).
  - apply Forall_cons in His as [Hi His]. cbn [evict_inodes]. unfold trfs_evict_inode, trfs_lower_inode.
    kstep. kstep. kassoc. apply wp_field_get; [done|]. kassoc. kstep. kstep.
    set (m1 := set_inode_infos _ m). set (t1 := [KEv (truncate_inode_pages i) tt; KEv (clear_inode i) tt;
      KEv (iput (default NULL (inode_infos m !! i))) tt]).
    replace (_ ++ [KEv (iput _) tt]) with (h ++ t1) by (unfold t1; by rewrite <- !app_assoc).
    apply IH; [done|]. intros m' t Ht Hp Hms Hn. rewrite <- app_assoc. apply HQ.
    + apply level_app; [|done]. unfold t1. level.
    + etrans; [|exact Hp]. done.
    + destruct Hms. by split.
    + intros Hc. apply Hn. intros j l. simpl. intros [[<- <-]|[Hne Hj]]%lookup_insert_Some Hl; [done|].
      specialize (Hc j l Hj Hl). by apply elem_of_cons in Hc as [->|].
Qed.

Lemma kb_umount sb root cached : keeps_books (umount sb root cached).
Proof.
  assert (H : keeps_books (evict_inodes cached)) by (induction cached; cbn [evict_inodes]; keep_books).
  unfold umount, trfs_d_release, trfs_put_reset_lower_path, free_dentry_private_data, trfs_put_super, SAFE_REMOVE,
    SAFE_FILPCLOSE, trfs_lower_super, trfs_set_lower_super, set_sb_info, TRFS_PAGE, TRFS_D. keep_books.
Qed.

(** Requests that look no file handles up, which keep a reference. *)
Definition no_handles (rs : list request) : Prop := Forall (fun r => forall sb ino gen, r <> NfsGetInode sb ino gen) rs.

Lemma nothing_dentry_infos m i : represents nothing_live m -> dentry_infos m !! i = None.
Proof.
  intros [Hm _]. apply eq_None_not_Some. intros [lp [d Hd]%(dm_all _ _ Hm)]. done.
Qed.

Section Mount.
Context (w : kworld) (env : kenv) (Henv : env_ok (kernel_ok w) env).
Context (sb : ptr) (Hsb : good_ptr sb) (Htype : type_name w sb = TRFS_NAME).

(** After a mount, the root dentry is in use, and the rest of what the mount
    took is there to stay. *)
Lemma mounted_books trdata silent m h m1 h1 :
  represents nothing_live m -> (forall q, 0 <= net h (RMem q)) ->
  run env (trfs_read_super sb trdata silent) m h = finished 0 m1 h1 ->
  exists root info lp p si,
    let a := bind_dentry root info lp nothing_live in
    let base x := net h x + takes [RMem p; RMem (tr_page si); ROpen (tr_lower_filep si);
                                   RActive (lower_sb si); RDentry root] x in
    books base a m1 h1 /\ has_sb m1 sb p si /\ good_ptr (tr_lower_filep si) /\ good_ptr (tr_page si) /\
    good_ptr (lower_sb si) /\ exists i, In (KEv (d_make_root i) root) h1.
Proof.
  intros Hm Hmem E.
  assert (Hend : mount_end w sb (b_data (trfs_option trdata)) m h
    (run env (trfs_read_super sb trdata silent) m h)).
  { by_wp (kernel_ok w). by apply wp_trfs_read_super. }
  rewrite E in Hend. inversion Hend as [? ? ? ? ?| m' tr p lower f page buf lp rt info
    _ _ _ Hmt Hl Hin Hlow Hg Hk|]; subst; [lia|].
  exists (snd rt), info, lp, p, (SbInfo lower f page (2 ^ 64 - 1)). destruct Hmt as [Hs Hf _ Hpg _ _ _].
  split_and!; [|done..|by exists (fst rt); apply in_or_app; right].
  pose proof (nothing_dentry_infos m info Hm) as Hi. destruct Hm as [Hd Hfm]. split.
  - split; simpl; [by eapply dentries_match_given|].
    destruct Hg as [_ _ G3 G4]. eapply files_match_same; [by rewrite G3|by rewrite G4|done].
  - intros q. pose proof (takes_nonneg [RMem p; RMem page; ROpen f; RActive lower; RDentry (snd rt)] (RMem q)).
    specialize (Hmem q). simpl. lia.
  - intros x Hx. rewrite net_app, (Hk x Hx). unfold held, bind_dentry. simpl.
    rewrite (total_insert _ _ _ (snd rt)), !total_empty, counted_empty by done. unfold takes, dentry_refs. simpl. lia.
Qed.

(** Unmounting when only the root dentry is in use. *)
Lemma umount_books base root info lp p si cached m h :
  books base (bind_dentry root info lp nothing_live) m h -> has_sb m sb p si ->
  good_ptr (tr_lower_filep si) -> good_ptr (tr_page si) -> good_ptr (lower_sb si) -> Forall good_ptr cached ->
  exists m' h', run env (umount sb root cached) m h = finished tt m' h' /\ represents nothing_live m' /\
    (covers cached m -> no_inodes m') /\ forall x, tracked x -> net h' x = base x - takes [RMem p; RMem (tr_page si); ROpen (tr_lower_filep si);
                                                      RActive (lower_sb si); RDentry root] x.
Proof.
  intros Hb Hs Hf Hpg Hl Hcached. by_wp (kernel_ok w). unfold umount.
  assert (Hr : dentries (bind_dentry root info lp nothing_live) !! root = Some (info, lp))
    by apply lookup_insert_eq.
  pose proof (dm_some _ _ (rp_dentries _ _ (bk_memory _ _ _ _ Hb)) _ _ Hr) as Hlow.
  eapply wp_trfs_d_release; [exact Hlow|]. intros c. kstep.
  pose proof (books_drop _ _ _ _ Hb c _ _ _ Hr) as Hb2.
  assert (E : drop_dentry root (bind_dentry root info lp nothing_live) = nothing_live)
    by (unfold drop_dentry; simpl; by rewrite delete_insert_eq, delete_empty).
  rewrite E in Hb2. apply wp_evict_inodes; [done|]. intros m1 t Ht Hp1 Hms Hno.
  assert (exists si', has_sb m1 sb p si' /\ tr_lower_filep si' = tr_lower_filep si /\
    lower_sb si' = lower_sb si /\ tr_page si' = tr_page si) as (si' & Hs' & Ef & El & Epg).
  { destruct (same_mounts_has_sb (released m root info) m1 sb p si Hms Hs) as [v Hv]. by exists (with_umask v si). }
  eapply wp_trfs_put_super with (w := w) (p := p) (si := si'); [apply _|apply Hsb|done|by rewrite Ef|by rewrite El|].
  intros m' d parent dir e _ Hsp Hinodes. eexists m', _. split; [reflexivity|]. split_and!.
  - apply (represents_same _ _ _ Hsp), (represents_same _ _ _ Hp1), Hb2.
  - intros Hc i l. rewrite Hinodes. by apply Hno.
  - intros x Hx. rewrite !net_app, (Ht x Hx). pose proof (bk_net _ _ _ _ Hb2 x Hx) as Hn. rewrite net_app in Hn.
    unfold held, nothing_live in Hn. cbn [dentries files objects] in Hn. rewrite !total_empty, counted_empty in Hn.
    unfold put_super_trace, takes. rewrite Ef, El, Epg. simpl in *. pose proof Hs as (_ & _ & Hp & _).
    rewrite (good_ptr_nonnullb p), (good_ptr_nonnullb (tr_page si)) by done. simpl. lia.
Qed.
End Mount.

(** The books of inodes, from the mount to the unmounting. *)
Lemma life_inodes w env magic base sb trdata silent rs cached root a1 a2 m h m1 h1 m2 h2 m3 h3 :
  env_ok inodes_ok env -> inode_books base m h ->
  run env (trfs_read_super sb trdata silent) m h = finished 0 m1 h1 ->
  all_ready w env magic rs a1 m1 h1 -> no_handles rs -> serve env magic rs a1 m1 h1 = Some (a2, m2, h2) ->
  run env (umount sb root cached) m2 h2 = finished tt m3 h3 -> inode_books base m3 h3.
Proof.
  intros Hino Hb E Hr Hn Es Eu.
  pose proof (wp_run _ _ _ _ _ _ (read_super_books base sb trdata silent m h Hb) Hino) as H1. rewrite E in H1.
  assert (H2 : inode_books base m2 h2) by (eapply serve_inodes; [done|by apply H1|done..]).
  pose proof (wp_run _ _ _ _ _ _ (kb_umount sb root cached base m2 h2 H2) Hino) as H3. by rewrite Eu in H3.
Qed.

(** C21: a file system that was mounted when nothing was in use serves any
    requests, one after the other, that are each [ready] when its turn comes (as
    for C4: which the VFS may make, and which are not among the inputs that the
    sources cannot take), and each ends; afterwards memory still matches what is
    in use.  When all that was looked up and opened has been let go of, down to
    the root, unmounting, which evicts the inodes that are still cached, ends as
    well.  No private data of dentries and files is left, and every lock, object,
    and reference to a dentry, mount, file or super block that was taken from
    the mount on has been given back; the pages that the log lost
    ([log_op_pages]) are not counted.  If no file handle was looked up, no inode
    is set up any more, and the references to inodes that were taken have been
    given back too, but for the slips of [trfs_iget] (C6). *)
Theorem mount_to_umount w env sb trdata silent magic m h m1 h1 :
  env_ok (kernel_ok w) env -> objects_ok env -> careful_alloc env ->
  good_ptr sb -> type_name w sb = TRFS_NAME ->
  represents nothing_live m -> (forall q, 0 <= net h (RMem q)) ->
  run env (trfs_read_super sb trdata silent) m h = finished 0 m1 h1 ->
  exists root info lp, let a1 := bind_dentry root info lp nothing_live in
    represents a1 m1 /\ (exists i, In (KEv (d_make_root i) root) h1) /\
    forall rs, all_ready w env magic rs a1 m1 h1 ->
      exists a2 m2 h2, serve env magic rs a1 m1 h1 = Some (a2, m2, h2) /\ represents a2 m2 /\
        (a2 = a1 -> forall cached, Forall good_ptr cached ->
           exists m3 h3, run env (umount sb root cached) m2 h2 = finished tt m3 h3 /\
             represents nothing_live m3 /\ balanced h h3 /\
             (env_ok inodes_ok env -> no_inodes m -> no_handles rs -> covers cached m2 ->
              no_inodes m3 /\
              forall l, l <> NULL -> net h3 (RInode l) - net h (RInode l) = slips h3 l - slips h l)).
Proof.
  intros Henv Hobj Hc Hsb Ht Hm Hmem E.
  destruct (mounted_books w env Henv sb Hsb Ht trdata silent m h m1 h1 Hm Hmem E)
    as (root & info & lp & p & si & Hb & Hs & Hf & Hpg & Hl & Hin).
  exists root, info, lp. split; [apply Hb|]. split; [done|]. intros rs Hr.
  destruct (serve_books w env magic Henv Hobj Hc _ rs _ m1 h1 Hb Hr) as (a2 & m2 & h2 & Es & Hb2 & Hms).
  exists a2, m2, h2. split; [done|]. split; [apply Hb2|]. intros -> cached Hcached.
  destruct (same_mounts_has_sb _ _ _ _ _ Hms Hs) as [v Hs2].
  destruct (umount_books w env Henv sb Hsb _ root info lp p (with_umask v si) cached m2 h2 Hb2 Hs2 Hf Hpg Hl Hcached)
    as (m3 & h3 & Eu & Hm3 & Hno & Hnet).
  exists m3, h3. split_and!; [done..| |].
  - intros x Hx. rewrite (Hnet x Hx). simpl. lia.
  - intros Hino Hm0 Hnh Hcov. split; [by apply Hno|]. intros l. apply books_end with (m' := m3); [|by apply Hno].
    by eapply life_inodes; [|apply books_start|..].
Qed.

(** ** At a concrete kernel *)

(** An allocator that has enough. *)
Definition stocked (env : kenv) : kenv := fun h c =>
  match c return kreply c -> kreply c with
  | kmem_cache_zalloc _ => fun _ => 10000 + Z.of_nat (length h) mod 1024
  | _ => fun r => r
  end (env h c).

Lemma stocked_ok w env : env_ok (kernel_ok w) env -> env_ok (kernel_ok w) (stocked env).
Proof.
  intros Hw h c. specialize (Hw h c). destruct c; try done. simpl. right. unfold good_ptr, MAX_ERRNO.
  pose proof (Z.mod_pos_bound (Z.of_nat (length h)) 1024 ltac:(done)). simpl. lia.
Qed.

Lemma stocked_objects env : objects_ok env -> objects_ok (stocked env).
Proof. intros Ho h c. specialize (Ho h c). by destruct c. Qed.

Definition demo_mount_objects (c : kfun) : Z :=
  match c with
  | load _ _ => 700 | kzalloc _ => 800 | kmalloc _ => 1 | getname_kernel _ => 70 | filp_open _ _ _ => 71
  | iget5_locked _ _ _ => 900 | d_make_root _ => demo_parent | igrab _ => 1 | _ => 0
  end.
Definition demo_mount_env : kenv := orderly (careful (stocked (demo_env demo_mount_objects))).

Definition demo_visit : list request :=
  [Lookup demo_dir demo_new 0; Statfs demo_parent 46; ReleaseDentry demo_new].

Lemma no_mem_represents : represents nothing_live no_mem.
Proof. by split; constructor. Qed.

Lemma demo_mount_env_ok : env_ok (kernel_ok demo_world) demo_mount_env.
Proof. apply orderly_ok, careful_ok, stocked_ok, demo_env_kernel_ok. Qed.

Lemma demo_mount_objects_ok : objects_ok demo_mount_env.
Proof.
  apply orderly_objects, careful_objects, stocked_objects. intros h c. destruct c; try done; [|by left].
  destruct f; try done; simpl; unfold good_ptr, MAX_ERRNO; lia.
Qed.

Definition demo_mount : outcome ksig Z := run demo_mount_env (trfs_read_super demo_sb demo_trdata 0) no_mem [].

(** The one root that was made, in the history of the mount. *)
Definition root_made (e : event ksig) : option ptr :=
  match e with
  | Ev c r => match c return kreply c -> option ptr with
              | d_make_root _ => Some
              | _ => fun _ => None
              end r
  end.

Lemma in_roots i r h : In (KEv (d_make_root i) r) h -> r ∈ omap root_made h.
Proof. intros Hi%list_elem_of_In. apply list_elem_of_omap. by exists (KEv (d_make_root i) r). Qed.

Lemma demo_mount_ok : demo_mount = finished 0 (outcome_mem demo_mount) (outcome_hist demo_mount).
Proof.
  assert (H : (match demo_mount with Done v _ _ => v | _ => 1 end) = 0) by (vm_compute; reflexivity).
  destruct demo_mount; simpl in *; by subst.
Qed.

Definition demo_rooted : live := bind_dentry demo_parent 10036 (Path demo_parent demo_mnt) nothing_live.

Definition demo_found : live := bind_dentry demo_new 10046 (Path demo_parent demo_mnt) demo_rooted.

Lemma demo_visit_ready :
  all_ready demo_world demo_mount_env 0 demo_visit demo_rooted (outcome_mem demo_mount) (outcome_hist demo_mount).
Proof.
  unfold demo_visit. cbn [all_ready]. unfold ready. cbn [spared].
  split; [split; [|done]; split; [done|]; split; [done|]; exists demo_parent, demo_sb, 800, (SbInfo demo_lower_sb 71 600 umask_all)|].
  - split_and!; [done|vm_compute; eauto|done|done|..]; vm_compute; done.
  - intros v m' h' E.
    assert (next (Lookup demo_dir demo_new 0) v m' demo_rooted = demo_found) as ->.
    { trans (next (Lookup demo_dir demo_new 0) v (outcome_mem (run demo_mount_env
        (handle 0 (Lookup demo_dir demo_new 0)) (outcome_mem demo_mount) (outcome_hist demo_mount))) demo_rooted).
      - by rewrite E.
      - vm_compute. reflexivity. }
    clear E. split; [|intros ? ? ? _; split; [split; [|done]|done]].
    + split; [|done]. split; [|done]. exists 10036, (Path demo_parent demo_mnt). split_and!; [done|by left|by left|done].
    + vm_compute. eauto.
Qed.

Lemma mount_to_umount_witness :
  exists m2 h2 m3 h3,
    run demo_mount_env (trfs_read_super demo_sb demo_trdata 0) no_mem [] =
      finished 0 (outcome_mem demo_mount) (outcome_hist demo_mount) /\
    serve demo_mount_env 0 demo_visit demo_rooted (outcome_mem demo_mount) (outcome_hist demo_mount) =
      Some (demo_rooted, m2, h2) /\
    run demo_mount_env (umount demo_sb demo_parent [900]) m2 h2 = finished tt m3 h3 /\
    represents nothing_live m3 /\ balanced [] h3 /\ net h3 (RInode 301) = 0 /\ net h3 (RInode 900) = 0.
Proof.
  destruct (mount_to_umount demo_world demo_mount_env demo_sb demo_trdata 0 0 no_mem [] _ _
    demo_mount_env_ok demo_mount_objects_ok (orderly_careful _ (careful_is_careful _)) ltac:(done) ltac:(done)
    no_mem_represents ltac:(done) demo_mount_ok) as (root & info & lp & Hr & [i Hin] & Hserve).
  apply in_roots in Hin.
  assert (Hroots : omap root_made (outcome_hist demo_mount) = [demo_parent]) by (vm_compute; reflexivity).
  rewrite Hroots in Hin. apply list_elem_of_singleton in Hin as ->.
  pose proof (dm_some _ _ (rp_dentries _ _ Hr) _ _ (lookup_insert_eq _ _ _)) as (_ & Hfs & _ & Hlp).
  assert (Hfs' : d_fsdata (outcome_mem demo_mount) !! demo_parent = Some 10036) by (vm_compute; reflexivity).
  rewrite Hfs' in Hfs. injection Hfs as <-.
  assert (Hlp' : dentry_infos (outcome_mem demo_mount) !! 10036 = Some (Path demo_parent demo_mnt))
    by (vm_compute; reflexivity).
  simpl in Hlp. rewrite Hlp' in Hlp. injection Hlp as <-.
  destruct (Hserve demo_visit demo_visit_ready) as (a2 & m2 & h2 & Es & Hm2 & Hu).
  assert (a2 = demo_rooted) as ->.
  { assert (H : fst ∘ fst <$> serve demo_mount_env 0 demo_visit demo_rooted (outcome_mem demo_mount)
        (outcome_hist demo_mount) = Some demo_rooted) by (vm_compute; reflexivity).
    change (bind_dentry demo_parent 10036 (Path demo_parent demo_mnt) nothing_live) with demo_rooted in Es.
    rewrite Es in H. by injection H. }
  destruct (Hu eq_refl [900] ltac:(by repeat constructor)) as (m3 & h3 & Eu & Hm3 & Hb & Hi).
  assert (Hinodes : inode_infos m2 = {[ 900 := 301 ]}).
  { pose proof Es as Es'. vm_compute in Es'. injection Es' as <- _. vm_compute. reflexivity. }
  destruct Hi as [_ Hi]; [|by intros ??|repeat constructor; by intros| |].
  { eapply orderly_inodes, careful_ok, stocked_ok, demo_env_kernel_ok. }
  { intros i0 l. rewrite Hinodes. intros [<- _]%lookup_singleton_Some _. by left. }
  assert (slips h3 301 = 0 /\ slips h3 900 = 0) as [S1 S2].
  { clear Hi. pose proof Es as Es'. vm_compute in Es'. injection Es' as <- <-. vm_compute in Eu. injection Eu as _ <-. vm_compute. by split. }
  exists m2, h2, m3, h3. split_and!; [exact demo_mount_ok|exact Es|exact Eu|done|exact Hb| |].
  - pose proof (Hi 301 ltac:(done)) as H1. rewrite S1 in H1. change (slips [] 301) with 0 in H1. simpl in H1. lia.
  - pose proof (Hi 900 ltac:(done)) as H1. rewrite S2 in H1. change (slips [] 900) with 0 in H1. simpl in H1. lia.
Defined.
